(* ===== verification/_CoqProject ===== *)
-Q . S2P
Prelude.v
Text.v
Structs.v
Account.v
FromHttp.v
ToJson.v
StringBuffer.v
StringUtil.v
Escape.v
Socket.v
Hstcpcli.v
HstcpcliSpec.v
HandlerSocket.v
ManualTest.v
MariaDatabase.v
Ledger.v
LedgerCode.v
Handler.v
Processor.v
EventIo.v
IoThreadPool.v
Router.v
RouterThreads.v
RouterThreadsInv.v
RouterThreadsSpec.v
RouterThreadsSim.v
RouterThreadsLive.v
ThreadPool.v
Servers.v
Programs.v
SharedLock.v
PtrContainer.v
MyGlobal.v
Resources.v
Thread.v
Longrun.v
LongrunMain.v
LongrunSpec.v
LongrunAll.v
LongrunRun.v
Database.v
Service.v
RubyApi.v
Ruby.v
RubySpec.v
RubySafe.v
