(* ===== verification/Prelude.v ===== *)
(** * A verification development for rinha

    The repository holds a small bank service in C++ ([src/rinha]) and the HandlerSocket
    client it talks to its database with ([src/libhsclient]).  This library models both
    as executable definitions and proves what makes them correct.

    ** The program

    A client sends HTTP to a reverse proxy ([thread_pool_router.cc]), which pairs each TCP
    connection with a connection to one of two servers.  A server ([main.cc]) runs threads
    that wait for epoll events ([io_thread_pool.cc]) or take requests from a queue
    ([thread_pool.cc]), and process each request ([request_processor.cc]): parse it
    ([from_http.cc]), handle it ([request_handler.cc], [time.cc]) and write a response
    ([to_json.cc] or a prebuilt text).  A transaction reads a customer, updates it and writes
    it back under a mutex of the process and a version number in the row
    ([maria_database.cc]), through the HandlerSocket protocol ([handler_socket.cc] on top of
    [hstcpcli.cpp], [escape.cpp], [string_util.cpp], [string_buffer.hpp], [socket.cpp]).
    [hslongrun.cpp] is a load generator that verifies the answers of the database.
    [epoll.cc] with [thread_pool_200.cc] is a server that answers everything with 200.
    [handlersocket.cpp] makes the client a Ruby class and [test_hslongrun.cc] is a test program
    of it.  [thread.hpp], [auto_ptrcontainer.hpp], [mutex.hpp], [auto_addrinfo.hpp] and
    [shared_lock.cc] are small facilities around them.

    ** Conventions

    - A byte or a [char] of a text is a [Z]; a C++ [int] is a [Z] whose operations go
      through [int_op], which is the fault [SignedOverflow] outside the range; unsigned
      values wrap ([wrap_u32], [wrap_u64]).
    - Code that may have no meaning returns an [outcome]: a result or a [fault]
      (undefined behaviour, use of a variable never set, abort, failed [CHECK], uncaught
      exception, blocking for ever, fuel used up).  The model is of a release build:
      [DCHECK] and [DLOG] vanish, [CHECK] stays.  Logging is left out.
    - State is passed explicitly.  What lies outside the repository is a class with the
      documented facts the code relies on: [Abseil], [Allocator], [Net], [Clock], [Conn],
      [EventIo], [UnixSocket], [MySql], [SqlClient], [Random], [PThreads], [Workers],
      [SharedMemory], [HsServer], [Ruby], [Releases], [Resolver], [Acquires], [Pthreads].  [CustomerStore] is the interface between the
      transactions and their store; [StoreLaws], [TypedStore], [MySqlLaws], [ConnLaws],
      [PThreadLaws], [WorkerLaws], [SharedMemoryLaws] and [RubyLaws] state what a client may rely
      on.  Each has a concrete instance, on which the witnesses of the theorems are
      evaluated.

    ** Files

    - [Prelude]: faults, the outcome monad, machine integers, arrays; [Text]: decimal text and
      Abseil's string functions.
    - [Structs] ([structs.h]): the data and its bytes in memory.  [Account]
      ([maria_database.cc], the step on a customer): an account is a limit and a history, and
      the ring of ten transactions represents the end of the history.
    - [FromHttp] ([from_http.cc]); [ToJson] ([to_json.cc]).
    - [StringBuffer] ([string_buffer.hpp]): refines a byte queue, so the client uses lists
      for its buffers.  [StringUtil] ([string_util.cpp], [string_ref.hpp]); [Escape]
      ([escape.cpp], [escape.hpp]); [Socket] ([socket.cpp], [config.cpp], [auto_file.hpp]).
    - [Hstcpcli] ([hstcpcli.cpp]): the client's state and operations.  [HstcpcliSpec]: its
      invariant for every sequence of calls, sticky errors, framing of requests, delivery
      of replies however the stream is cut.
    - [HandlerSocket] ([handler_socket.cc]): customers over the client.  [ManualTest]
      ([test_hslongrun.cc]): the test program, exchange by exchange.
    - [MariaDatabase] ([maria_database.cc]): the transaction loop refines the account on any
      lawful store; initialization; the store over HandlerSocket.  [Ledger]: the same loop run by
      any number of threads and processes, as a step relation that has the ways in which reads
      and writes fail and are answered by [handler_socket.cc].  [LedgerCode]: the function of
      [MariaDatabase] on a store that is the ledger, with the other threads between its
      accesses and with these failures, is one of the threads of [Ledger].
    - [Handler] ([time.cc], [request_handler.cc]); [Processor] ([request_processor.cc]): from
      received bytes to written bytes.
    - [EventIo], [IoThreadPool] ([io_thread_pool.cc]); [Router] ([thread_pool_router.cc]):
      the proxy as functions, one event at a time.
    - [RouterThreads]: the proxy as steps, one access of a table or counter each, of any number
      of threads, with clients that ask and leave and servers that answer; a step of it is
      named after the statement it models.  [RouterThreadsInv]: the invariant of the steps;
      [RouterThreadsSpec]: what follows for clients and threads; [RouterThreadsSim]: the steps of
      one thread compute the functions of [Router], from the initialization on;
      [RouterThreadsLive]: a measure that every step decreases, and who can take one.
    - [ThreadPool] ([thread_pool.cc], [thread_pool_200.cc]): the monitor of the queue, and
      processing as a sequence of accesses to what the workers share, between which everybody
      else takes steps.  [Servers], [Programs] ([main.cc], [router.cc], [epoll.cc]): sockets, the
      threads that [main] creates and does not wait for, each taking its numbers from the
      counter of [InitializeHs] while the others do, and the event loop of [epoll.cc] call by
      call, with its pool, on a world that logs reads and writes.
    - [SharedLock] ([shared_lock.cc]), [PtrContainer] ([auto_ptrcontainer.hpp]), [Resources]
      ([auto_addrinfo.hpp], [auto_file.hpp], [mutex.hpp], [fatal.cpp], the owners of MySQL objects
      in [hslongrun.cpp]), [Thread] ([thread.hpp]).  [MyGlobal] ([my_global.h]): the macros for a
      machine independent byte order, and [rint].
    - [Longrun], [LongrunMain] ([hslongrun.cpp]); [LongrunSpec]: what its verification sees;
      [LongrunAll]: the workers of both kinds on one table, from the configuration on;
      [LongrunRun]: [hs_longrun_main] with its threads and its summary.
    - [Database]: a HandlerSocket server as a table of rows, and the proof that the store over
      HandlerSocket is lawful on it; [Service]: the whole server on such a database.
    - [RubyApi]: Ruby values, the C API the binding calls, and a monad of methods with
      exceptions; [Ruby] ([handlersocket.cpp]); [RubySpec]: what the methods return;
      [RubySafe]: what they can never do.

    ** What is shown

    - Money: transactions are serializable, no update is lost, the balance is the sum of
      the committed transactions and never falls below the negated limit; what a thread answers
      is what it committed, but for one transaction at most, the one whose write was answered
      with an error, which costs the thread its client for writes; a thread whose clients work
      is not blocked by others, one that lost its client for reads keeps the mutex for ever
      ([Ledger]); one call refines the account and releases its mutex, unless the sum
      overflows ([MariaDatabase]), and run among other threads and failures it is a transaction of
      the ledger that ends in the state it reaches, and returns once they rest ([LedgerCode]);
      the statement shows the last ten transactions newest first ([ToJson]).
    - Requests: well-formed requests are accepted with their fields, accepted ones are sound,
      the parser stays in its buffer under a stated bound ([FromHttp]); a request is processed
      from its bytes to its answer ([Processor]) exactly once per event ([IoThreadPool]) or
      per entry of the queue, taken in order, by one worker with its own state, and without lost
      wakeups ([ThreadPool]).
    - Protocol: the client is memory safe against every server, frames its requests and
      delivers every reply ([HstcpcliSpec]); customers are read back and written under their
      version ([HandlerSocket]).
    - Proxy: the pairing is a bijection kept by connections and disconnections ([Router]).  While
      clients wait for their answers, its threads never race on the unlocked tables, no
      [CHECK] fails, every answer reaches the client that asked every access is
      inside its array and every thread can go on ([RouterThreadsSpec]); the initialization
      establishes what this needs ([RouterThreadsSim]); every request is answered after a bounded number of steps of threads
      and servers, in whatever order they take them ([RouterThreadsLive]).
    - Programs: however the threads of [main] start, each number of the counter is drawn by one
      thread, and a thread serves only with two clients that the server did not refuse; the
      server of [epoll.cc] answers each read that gave data once ([Programs]).
    - Service: a sequence of HTTP requests with transactions, answered by the server through
      HandlerSocket requests to a database, refines a sequence of steps of an abstract bank;
      one transaction is followed over the wire ([Service]).
    - Ruby binding: a method sends the request of its arguments and returns the reply as an
      array, [execute_multi] sends its requests together and matches the replies in order
      ([RubySpec]); no method leaves its memory whatever the arguments ([RubySafe]).
    - Facilities: every thread started is joined once ([Thread]), every element of a
      container is deleted once ([PtrContainer]), every address list and object of the MySQL
      client is released once ([Resources]), the shared locks are mutexes that the start of
      another process resets ([SharedLock]).
    - Load generator: its main function leaves no thread and prints the sums of all
      counters ([LongrunRun]); no false alarms against a truthful server, exact verification of
      reads, memory safety of its workers ([LongrunSpec]) and of a whole run with workers of both
      kinds, whatever the servers do ([LongrunAll]).
    - Portable numbers: what is stored is read back in every format and byte order, the macros for
      the i386 agree with the portable ones, [rint] rounds to the nearest integer, ties to the even
      one ([MyGlobal]).
    - Defects: where the code does not do what it means to, the theorem states what it does:
      overflow of amounts and a read past the buffer ([FromHttp]), NULs after a response
      ([Processor]), an error reported as success ([HandlerSocket]), a retry loop that spins for
      ever ([MariaDatabase]), full buffers taken for the end of a connection ([IoThreadPool],
      [Router]), an idle queue that wraps ([Router]), a client that leaves before its answer, which
      then reaches another client, stops the proxy or races ([RouterThreadsSpec]), a wrong value not counted ([LongrunSpec]), a
      table without records that is read ([LongrunAll]), an
      empty batch that closes the connection and an argument that is not checked ([RubySpec]), a
      lock freed by the next process that starts ([SharedLock]), elements forgotten
      ([PtrContainer]).

    ** Bounds and fuel

    Loops whose end depends on the arguments only have enough fuel by construction: a drain
    reads at least one byte a turn ([EventIo]), a response loop writes at least one byte a
    turn and the rows of a reply consume at least one byte each ([rows_fuel]), a buffer
    doubles at most 64 times ([StringBuffer.grow_fuel]), an [int] has at most 10 digits
    ([Processor.digits_fuel]).  Where the environment decides (reads until a newline, retries of
    a transaction, connection attempts, accepted connections) the fuel is an argument, and
    the theorems say for which fuel there is a result, or that running out of fuel is the
    only way to have none.  The threads of [RouterThreads] need no fuel; that the rings are not
    overrun (a taken position is stored, and not yet stored again, and the counters stay below
    [INT_MAX]) is the condition [calm], asked of every state of a run.

    ** Not modelled

    The garbage collector of Ruby, and methods [to_s] with effects; what is no
    computation in [my_global.h] (names, includes and types for platforms; no file includes the
    header); the parsing of the command line (flags are arguments) and logging.  In
    [RouterThreads] a request or an answer is one message that one read takes, memory
    accesses are sequentially consistent, and [accept] returns descriptors below 1000, the size
    of the tables, which the code does not test.  What [ProcessRequest] does for a task of
    [thread_pool.cc] is one call in [ThreadPool.process_params]; the theorems of the pool hold for
    every division of it into accesses, the one of its transaction is [Ledger].  The HandlerSocket server is outside the
    repository: theorems about replies take the documented text of the reply as their
    hypothesis, or the class [HsServer]. *)
From Stdlib Require Import ZArith Lia Ascii String.
From Stdlib Require Export ZifyNat.
From stdpp Require Export base tactics option list list_numbers numbers strings sets gmap.

(** ** Faults and the outcome of C++ code

    [Fault] collects the ways in which an execution stops having a meaning:
    undefined behaviour of the language, a read of a variable never set, a process that aborts, an exception
    nobody catches, a thread that blocks for ever, a loop that has used up the
    fuel of the model. *)
Inductive fault :=
| SignedOverflow
| OutOfBounds
| NullDeref
| Uninitialized
| FatalAbort
| CheckFailed
| UncaughtException
| Blocked
| OutOfFuel.

#[export] Instance fault_eq_dec : EqDecision fault.
Proof. solve_decision. Defined.

Inductive outcome (A : Type) :=
| Ok (a : A)
| Fault (f : fault).
Arguments Ok {_} _.
Arguments Fault {_} _.

#[export] Instance outcome_ret : MRet outcome := fun A a => Ok a.
#[export] Instance outcome_bind : MBind outcome :=
  fun A B k m => match m with Ok a => k a | Fault f => Fault f end.

#[export] Instance outcome_eq_dec `{EqDecision A} : EqDecision (outcome A).
Proof. solve_decision. Defined.

#[export] Instance Ok_inj {A} : Inj (=) (=) (@Ok A).
Proof. by intros x y [= ->]. Qed.

Definition of_option {A} (f : fault) (o : option A) : outcome A :=
  match o with Some a => Ok a | None => Fault f end.

(** [checked f b] goes on when the guard [b] holds and faults otherwise. *)
Definition checked (f : fault) (b : bool) : outcome unit :=
  if b then Ok tt else Fault f.

Lemma bind_Ok_inv {A B} (m : outcome A) (k : A -> outcome B) b :
  m ≫= k = Ok b -> exists a, m = Ok a /\ k a = Ok b.
Proof. destruct m; [eauto | done]. Qed.

Lemma of_option_Ok {A} f (o : option A) a : of_option f o = Ok a <-> o = Some a.
Proof. destruct o; simpl; naive_solver. Qed.

Lemma checked_Ok f b u : checked f b = Ok u <-> b = true.
Proof. destruct b, u; simpl; naive_solver. Qed.

(** Take a successful monadic computation in the context apart. *)
Ltac inv_ok :=
  repeat match goal with
  | H : (_ ≫= _) = Ok _ |- _ =>
      let a := fresh "r" in let H1 := fresh "Hr" in
      apply bind_Ok_inv in H as (a & H1 & H)
  | H : Ok _ = Ok _ |- _ => injection H as H
  | H : mret _ = Ok _ |- _ => injection H as H
  | H : Fault _ = Ok _ |- _ => discriminate H
  | H : of_option _ _ = Ok _ |- _ => apply of_option_Ok in H
  | H : checked _ _ = Ok _ |- _ => apply checked_Ok in H
  | H : (_, _) = (_, _) |- _ => injection H as H
  end; subst.

(** Decide a closed goal by computation. *)
Ltac by_decide :=
  match goal with |- ?P => apply (bool_decide_eq_true_1 P); vm_compute; reflexivity end.

(** Discharge a hypothesis at a concrete input. *)
Ltac by_witness := first [by_decide | reflexivity].

(** [faults_only P m]: whatever goes wrong in [m] is one of the faults in [P]. *)
Definition faults_only {A} (P : fault -> Prop) (m : outcome A) : Prop :=
  forall f, m = Fault f -> P f.

Lemma faults_only_Ok {A} P (a : A) : faults_only P (Ok a).
Proof. by intros f. Qed.

Lemma faults_only_bind {A B} P (m : outcome A) (k : A -> outcome B) :
  faults_only P m -> (forall a, m = Ok a -> faults_only P (k a)) -> faults_only P (m ≫= k).
Proof.
  intros Hm Hk f. destruct m as [a|g]; simpl; [by apply Hk|].
  intros [= ->]. by apply Hm.
Qed.

Lemma faults_only_checked (P : fault -> Prop) f b : P f -> faults_only P (checked f b).
Proof. intros HP g. destruct b; simpl; congruence. Qed.

Lemma faults_only_if {A} P (b : bool) (m n : outcome A) :
  faults_only P m -> faults_only P n -> faults_only P (if b then m else n).
Proof. by destruct b. Qed.

(** [returns F P m]: [m] returns a result in [P] or ends in a fault in [F]. *)
Definition returns {A} (F : fault -> Prop) (P : A -> Prop) (m : outcome A) : Prop :=
  match m with Ok a => P a | Fault f => F f end.

Lemma returns_bind {A B} F (Q : A -> Prop) (P : B -> Prop) (m : outcome A) (k : A -> outcome B) :
  returns F Q m -> (forall a, Q a -> returns F P (k a)) -> returns F P (m ≫= k).
Proof. destruct m; simpl; auto. Qed.

Lemma returns_impl {A} F (Q P : A -> Prop) (m : outcome A) :
  returns F Q m -> (forall a, Q a -> P a) -> returns F P m.
Proof. destruct m; simpl; auto. Qed.

Create HintDb outcome.
#[export] Hint Resolve faults_only_Ok faults_only_bind faults_only_if : outcome.

(** ** Machine integers *)
Section MachineIntegers.
#[local] Open Scope Z_scope.

Definition INT_MAX : Z := 2147483647.
Definition INT_MIN : Z := -2147483648.

(** Values of a 32-bit [int]. *)
Definition is_int (z : Z) : Prop := INT_MIN <= z <= INT_MAX.

#[export] Instance is_int_dec z : Decision (is_int z).
Proof. unfold is_int. apply _. Defined.

(** The result of a signed 32-bit operation: overflow is undefined. *)
Definition int_op (z : Z) : outcome Z :=
  if decide (is_int z) then Ok z else Fault SignedOverflow.

Definition wrap_u32 (z : Z) : Z := z mod 2 ^ 32.
Definition wrap_u64 (z : Z) : Z := z mod 2 ^ 64.
(** Conversion to a narrower signed type. *)
Definition wrap_int (z : Z) : Z := (z + 2 ^ 31) mod 2 ^ 32 - 2 ^ 31.
(** A byte read as a (signed) [char]. *)
Definition schar (b : Z) : Z := if b <? 128 then b else b - 256.

Definition is_byte (b : Z) : Prop := 0 <= b < 256.

#[export] Instance is_byte_dec b : Decision (is_byte b).
Proof. unfold is_byte. apply _. Defined.

Lemma int_op_Ok z r : int_op z = Ok r <-> r = z /\ is_int z.
Proof. unfold int_op. case_decide; naive_solver. Qed.

Lemma int_op_in_range z : is_int z -> int_op z = Ok z.
Proof. intros H. by apply int_op_Ok. Qed.

Lemma int_op_overflow z : ~ is_int z -> int_op z = Fault SignedOverflow.
Proof. intros H. unfold int_op. by rewrite decide_False. Qed.

Lemma wrap_int_id z : is_int z -> wrap_int z = z.
Proof.
  unfold is_int, INT_MIN, INT_MAX, wrap_int. intros H.
  rewrite Z.mod_small; lia.
Qed.

Lemma wrap_int_range z : is_int (wrap_int z).
Proof.
  unfold is_int, INT_MIN, INT_MAX, wrap_int.
  pose proof (Z.mod_pos_bound (z + 2 ^ 31) (2 ^ 32) eq_refl). lia.
Qed.

Lemma wrap_u32_id z : 0 <= z < 2 ^ 32 -> wrap_u32 z = z.
Proof. apply Z.mod_small. Qed.
End MachineIntegers.

(** ** Bytes and C strings *)
#[local] Open Scope Z_scope.

Definition NUL : Z := 0.
Definition TAB : Z := 9.
Definition LF : Z := 10.
Definition DQUOTE : Z := 34.
Definition COMMA : Z := 44.
Definition DOT : Z := 46.
Definition MINUS : Z := 45.
Definition SPACE : Z := 32.
Definition chr0 : Z := 48.
Definition chr9 : Z := 57.
Definition RBRACE : Z := 125.

(** Bytes of a string literal. [bytesq] writes ['] for a double quote and
    [bytesn] also writes [|] for CR LF, which keeps JSON and HTTP literals
    readable. *)
Definition bytes (s : string) : list Z :=
  (fun a => Z.of_N (N_of_ascii a)) <$> list_ascii_of_string s.

Definition bytesq (s : string) : list Z :=
  (fun b => if b =? 39 then DQUOTE else b) <$> bytes s.

Definition bytesn (s : string) : list Z :=
  mjoin ((fun b => if b =? 124 then [13; 10] else [b]) <$> bytes s).

(** [memchr]: offset of the first occurrence of [c]. *)
Fixpoint memchr (c : Z) (l : list Z) : option nat :=
  match l with
  | [] => None
  | x :: l' => if x =? c then Some O else S <$> memchr c l'
  end.

(** Offset of the first occurrence of the pattern [p]
    ([std::string_view::find] with a string). *)
Fixpoint find_sub (p l : list Z) : option nat :=
  if decide (take (length p) l = p) then Some O
  else match l with [] => None | _ :: l' => S <$> find_sub p l' end.

(** The C string that starts at the first cell of [l]; a missing terminator
    makes [strlen] leave the object. *)
Definition c_str (l : list Z) : outcome (list Z) :=
  n ← of_option OutOfBounds (memchr NUL l); mret (take n l).

(** Reads and writes of arrays. *)
Definition array_get {A} (l : list A) (i : Z) : outcome A :=
  if i <? 0 then Fault OutOfBounds else of_option OutOfBounds (l !! Z.to_nat i).

(** [l[i]], ..., [l[i + n - 1]], in this order. *)
Fixpoint array_reads {A} (l : list A) (i n : nat) : outcome (list A) :=
  match n with
  | O => Ok []
  | S n' => x ← array_get l (Z.of_nat i); xs ← array_reads l (S i) n'; Ok (x :: xs)
  end.

Definition array_set {A} (l : list A) (i : Z) (x : A) : outcome (list A) :=
  if (i <? 0) || (Z.of_nat (length l) <=? i) then Fault OutOfBounds
  else Ok (<[Z.to_nat i := x]> l).

(** Overwrites the cells from [i] on with the bytes [s] (a [memcpy] into the
    middle of an array). *)
Definition splice {A} (l : list A) (i : nat) (s : list A) : list A :=
  take i l ++ s ++ drop (i + length s) l.

Lemma memchr_Some c l i :
  memchr c l = Some i <-> l !! i = Some c /\ c ∉ take i l.
Proof.
  revert i. induction l as [|x l IH]; intros i; simpl.
  - naive_solver.
  - destruct (Z.eqb_spec x c) as [->|Hne].
    + split; [intros [= <-]; split; [done | apply not_elem_of_nil]|].
      intros [Hl Hn]. destruct i; [done|]. simpl in Hn. set_solver.
    + destruct i; simpl.
      * rewrite fmap_Some. naive_solver.
      * rewrite not_elem_of_cons, fmap_Some. split.
        -- intros (j & Hj & [= ->]). apply IH in Hj as [??]. naive_solver.
        -- intros (Hl & Hne' & Hn). exists i. by rewrite IH.
Qed.

Lemma memchr_None c l : memchr c l = None <-> c ∉ l.
Proof.
  induction l as [|x l IH]; simpl; [set_solver|].
  destruct (Z.eqb_spec x c); rewrite ?fmap_None, ?IH; set_solver.
Qed.

Lemma memchr_app_l c l k i : memchr c l = Some i -> memchr c (l ++ k) = Some i.
Proof.
  revert i. induction l as [|x l IH]; simpl; [done|]. intros i.
  destruct (x =? c); [done|]. rewrite !fmap_Some.
  intros (j & Hj & ->). eauto.
Qed.

Lemma memchr_app_r c l k : c ∉ l -> memchr c (l ++ k) = (Nat.add (length l)) <$> memchr c k.
Proof.
  induction l as [|x l IH]; simpl; intros Hn.
  - by destruct (memchr c k).
  - apply not_elem_of_cons in Hn as [Hx Hn]. rewrite IH by done.
    destruct (Z.eqb_spec x c); [congruence|]. by destruct (memchr c k).
Qed.

Lemma memchr_first c l k : c ∉ l -> memchr c (l ++ c :: k) = Some (length l).
Proof.
  intros H. rewrite memchr_app_r by done. simpl. rewrite Z.eqb_refl. simpl.
  f_equal. lia.
Qed.

Lemma memchr_lt c l i : memchr c l = Some i -> (i < length l)%nat.
Proof. intros [H _]%memchr_Some. by apply lookup_lt_Some in H. Qed.

Lemma find_sub_bound p l i : find_sub p l = Some i -> (i + length p <= length l)%nat.
Proof.
  revert i. induction l as [|x l IH]; intros i; simpl; case_decide as Hd.
  - intros [= <-]. by rewrite <- Hd, take_nil.
  - done.
  - intros [= <-]. rewrite <- Hd, length_take. simpl. lia.
  - rewrite fmap_Some. intros (j & Hj & ->). apply IH in Hj. lia.
Qed.

Lemma c_str_length l s : c_str l = Ok s -> (length s < length l)%nat.
Proof.
  unfold c_str. destruct (memchr NUL l) as [n|] eqn:E; [|done]. simpl. intros [= <-].
  apply memchr_lt in E. rewrite length_take. lia.
Qed.

Lemma length_splice {A} (l : list A) i s :
  (i + length s <= length l)%nat -> length (splice l i s) = length l.
Proof.
  intros H. unfold splice. rewrite !length_app, length_take, length_drop. lia.
Qed.

Lemma splice_cons {A} (l : list A) i x s :
  (i < length l)%nat -> splice (<[i := x]> l) (S i) s = splice l i (x :: s).
Proof.
  intros H. unfold splice. rewrite (take_S_r _ _ x) by by apply list_lookup_insert_eq.
  rewrite take_insert_ge, <- app_assoc, drop_insert_lt by lia.
  cbn [app length]. rewrite Nat.add_succ_r. done.
Qed.

Lemma splice_nil {A} (l : list A) i : splice l i [] = l.
Proof. unfold splice. simpl. rewrite Nat.add_0_r. apply take_drop. Qed.

Lemma array_get_Ok {A} (l : list A) i x :
  array_get l i = Ok x <-> 0 <= i /\ l !! Z.to_nat i = Some x.
Proof.
  unfold array_get. destruct (Z.ltb_spec i 0); rewrite ?of_option_Ok; naive_solver lia.
Qed.

Lemma array_get_nat {A} (l : list A) (i : nat) x :
  l !! i = Some x -> array_get l (Z.of_nat i) = Ok x.
Proof. intros H. apply array_get_Ok. rewrite Nat2Z.id. split; [lia|done]. Qed.

Lemma array_set_Ok {A} (l : list A) i x :
  0 <= i < Z.of_nat (length l) -> array_set l i x = Ok (<[Z.to_nat i := x]> l).
Proof.
  intros H. unfold array_set.
  destruct (Z.ltb_spec i 0), (Z.leb_spec (Z.of_nat (length l)) i); simpl; lia || done.
Qed.

Lemma array_set_inv {A} (l : list A) i x l' :
  array_set l i x = Ok l' -> 0 <= i < Z.of_nat (length l) /\ l' = <[Z.to_nat i := x]> l.
Proof.
  unfold array_set.
  destruct (Z.ltb_spec i 0), (Z.leb_spec (Z.of_nat (length l)) i); simpl; naive_solver lia.
Qed.

Lemma array_reads_Ok {A} (l : list A) i n :
  (i + n <= length l)%nat -> array_reads l i n = Ok (take n (drop i l)).
Proof.
  revert i. induction n as [|n IH]; intros i Hl; [done|]. cbn [array_reads].
  destruct (lookup_lt_is_Some_2 l i) as [x Hx]; [lia|].
  rewrite (array_get_nat _ _ _ Hx). cbn [mbind outcome_bind]. rewrite IH by lia.
  cbn [mbind outcome_bind]. by rewrite (drop_S _ _ _ Hx).
Qed.

Lemma array_reads_fault {A} (l : list A) i n e : array_reads l i n = Fault e -> e = OutOfBounds.
Proof.
  revert i. induction n as [|n IH]; intros i; [done|]. cbn [array_reads].
  destruct (array_get l (Z.of_nat i)) as [x|e'] eqn:E; cbn [mbind outcome_bind].
  - destruct (array_reads l (Datatypes.S i) n) as [xs|e''] eqn:E'; cbn [mbind outcome_bind]; [done|].
    intros [= <-]. by eapply IH.
  - intros [= <-]. unfold array_get in E. destruct (Z.of_nat i <? 0); [by injection E as <-|].
    destruct (l !! _); [done|]. by injection E as <-.
Qed.

Lemma mjoin_cons {A} (l : list A) ls : mjoin (l :: ls) = l ++ mjoin ls.
Proof. done. Qed.

Lemma mjoin_app {A} (ls ks : list (list A)) : mjoin (ls ++ ks) = mjoin ls ++ mjoin ks.
Proof. induction ls as [|l ls IH]; [done|]. cbn [app]. by rewrite !mjoin_cons, IH, app_assoc. Qed.
