(* ===== verification/Text.v ===== *)
(** * Text: decimal numbers and the string services of Abseil

    Decimal rendering of integers (what [printf], [std::to_string] and
    [absl::StrCat] write), its inverse, and the interface [Abseil] that states
    what the program relies on from the third-party string library, with a
    reference instance. *)
From S2P Require Import Prelude.
#[local] Open Scope Z_scope.

Definition is_digit (c : Z) : Prop := chr0 <= c <= chr9.

#[export] Instance is_digit_dec c : Decision (is_digit c).
Proof. unfold is_digit. apply _. Defined.

(** ** Decimal rendering *)

(** The decimal digits of [n >= 0], most significant first; [fuel] bounds
    their number. *)
Fixpoint dec_digits (fuel : nat) (n : Z) : list Z :=
  match fuel with
  | O => []
  | S f => (if n <? 10 then [] else dec_digits f (n / 10)) ++ [chr0 + n mod 10]
  end.

(** [log2 n + 1] digits always suffice. *)
Definition dec_nat (n : Z) : list Z := dec_digits (S (Z.to_nat (Z.log2 n))) n.

Definition dec_int (n : Z) : list Z :=
  if n <? 0 then MINUS :: dec_nat (- n) else dec_nat n.

(** Value of a digit string read after a prefix of value [x], with no bound. *)
Definition dec_from (x : Z) (l : list Z) : Z :=
  fold_left (fun v c => v * 10 + (c - chr0)) l x.

Definition dec_value (l : list Z) : Z := dec_from 0 l.

Lemma dec_value_snoc l c : dec_value (l ++ [c]) = dec_value l * 10 + (c - chr0).
Proof. unfold dec_value, dec_from. by rewrite fold_left_app. Qed.

Lemma dec_from_ge x l : 0 <= x -> Forall is_digit l -> x <= dec_from x l.
Proof.
  intros Hx Hl. revert x Hx. induction Hl as [|c l Hc Hl IH]; intros x Hx; [done|].
  unfold is_digit, chr0, chr9 in Hc. change (dec_from x (c :: l)) with (dec_from (x * 10 + (c - chr0)) l).
  specialize (IH (x * 10 + (c - chr0))). unfold chr0 in *. lia.
Qed.

Lemma dec_digits_value f n : 0 <= n < 10 ^ Z.of_nat f -> dec_value (dec_digits f n) = n.
Proof.
  revert n. induction f as [|f IH]; intros n Hn; simpl.
  - change (10 ^ Z.of_nat 0) with 1 in Hn. unfold dec_value, dec_from. simpl. lia.
  - rewrite dec_value_snoc, Nat2Z.inj_succ, Z.pow_succ_r in * by lia.
    pose proof (Z.div_mod n 10 ltac:(lia)).
    destruct (Z.ltb_spec n 10).
    + change (dec_value []) with 0. rewrite Z.mod_small by lia. lia.
    + rewrite IH; [lia|]. split; [apply Z.div_pos; lia|].
      apply Z.div_lt_upper_bound; lia.
Qed.

Lemma log2_fuel n : 0 <= n -> n < 10 ^ Z.of_nat (S (Z.to_nat (Z.log2 n))).
Proof.
  intros Hn. rewrite Nat2Z.inj_succ, Z2Nat.id by apply Z.log2_nonneg.
  destruct (Z.eq_dec n 0) as [->|]; [done|].
  destruct (Z.log2_spec n ltac:(lia)) as [_ H].
  eapply Z.lt_le_trans; [exact H|]. apply Z.pow_le_mono_l. lia.
Qed.

(** Rendering and reading back. *)
Lemma dec_nat_value n : 0 <= n -> dec_value (dec_nat n) = n.
Proof. intros. apply dec_digits_value. split; [done|]. by apply log2_fuel. Qed.

Lemma dec_digits_is_digit f n : Forall is_digit (dec_digits f n).
Proof.
  revert n. induction f as [|f IH]; intros n; simpl; [done|].
  apply Forall_app. split; [destruct (n <? 10); [done|apply IH]|].
  constructor; [|done]. unfold is_digit, chr0, chr9.
  pose proof (Z.mod_pos_bound n 10 ltac:(lia)). lia.
Qed.

Lemma dec_nat_is_digit n : Forall is_digit (dec_nat n).
Proof. apply dec_digits_is_digit. Qed.

Lemma dec_nat_nonempty n : dec_nat n <> [].
Proof. unfold dec_nat. simpl. by destruct (if n <? 10 then _ else _). Qed.

Lemma dec_digits_length f n k :
  (1 <= k)%nat -> 0 <= n < 10 ^ Z.of_nat k -> (length (dec_digits f n) <= k)%nat.
Proof.
  revert n k. induction f as [|f IH]; intros n k Hk Hn; simpl; [lia|].
  rewrite length_app. simpl. destruct (Z.ltb_spec n 10); simpl; [lia|].
  destruct k as [|[|k]]; [lia|simpl in Hn; lia|].
  rewrite Nat2Z.inj_succ, Z.pow_succ_r in Hn by lia.
  assert (length (dec_digits f (n / 10)) <= S k)%nat; [|lia].
  apply IH; [lia|]. split; [apply Z.div_pos; lia|].
  apply Z.div_lt_upper_bound; lia.
Qed.

Lemma dec_nat_length n k :
  (1 <= k)%nat -> 0 <= n < 10 ^ Z.of_nat k -> (length (dec_nat n) <= k)%nat.
Proof. apply dec_digits_length. Qed.

(** Fuel beyond the number of digits changes nothing. *)
Lemma dec_digits_fuel f g n :
  (0 < f)%nat -> (0 < g)%nat ->
  0 <= n < 10 ^ Z.of_nat f -> 0 <= n < 10 ^ Z.of_nat g -> dec_digits f n = dec_digits g n.
Proof.
  revert g n. induction f as [|f IH]; intros [|g] n Hf Hg Hn Hn'; try lia.
  simpl. destruct (Z.ltb_spec n 10); [done|]. f_equal.
  rewrite !Nat2Z.inj_succ, !Z.pow_succ_r in * by lia.
  assert (0 < f)%nat by (destruct f; simpl in *; lia).
  assert (0 < g)%nat by (destruct g; simpl in *; lia).
  apply IH; try done.
  all: split; [apply Z.div_pos; lia | apply Z.div_lt_upper_bound; lia].
Qed.

(** The recursion that a digit loop follows: the last digit, then the rest. *)
Lemma dec_nat_step n :
  0 <= n -> dec_nat n = (if n <? 10 then [] else dec_nat (n / 10)) ++ [chr0 + n mod 10].
Proof.
  intros Hn. unfold dec_nat at 1. simpl. f_equal.
  destruct (Z.ltb_spec n 10); [done|]. unfold dec_nat.
  assert (Hl : 0 < Z.log2 n) by (apply Z.log2_pos; lia).
  assert (Hq : 0 <= n / 10) by (apply Z.div_pos; lia).
  apply dec_digits_fuel; [lia|lia| |split; [done|by apply log2_fuel]].
  split; [done|]. apply Z.div_lt_upper_bound; [lia|].
  pose proof (log2_fuel n Hn) as Hb. rewrite Nat2Z.inj_succ, Z.pow_succ_r in Hb by lia. lia.
Qed.

Lemma dec_nat_no_byte c n : ~ is_digit c -> c ∉ dec_nat n.
Proof.
  intros Hc Hin. apply Hc. by eapply Forall_forall in Hin; [|apply dec_nat_is_digit].
Qed.

Lemma dec_int_nonneg n : 0 <= n -> dec_int n = dec_nat n.
Proof. intros. unfold dec_int. destruct (Z.ltb_spec n 0); [lia|done]. Qed.

Lemma dec_int_no_byte c n : ~ is_digit c -> c <> MINUS -> c ∉ dec_int n.
Proof.
  intros. unfold dec_int. destruct (n <? 0); [apply not_elem_of_cons; split; [done|]|];
    by apply dec_nat_no_byte.
Qed.

(** ** The services of Abseil *)

(** Arguments of [absl::StrCat]. *)
Inductive AlphaNum :=
| ANstr (s : list Z)
| ANint (n : Z).

Definition piece_bytes (p : AlphaNum) : list Z :=
  match p with ANstr s => s | ANint n => dec_int n end.

(** What the program relies on, as documented by the library. *)
Class Abseil := {
  StartsWith : list Z -> list Z -> bool;
  SimpleAtoi : list Z -> option Z;
  StrCat : list AlphaNum -> list Z;
  StrAppend : list Z -> list AlphaNum -> list Z;
  StartsWith_spec : forall text prefix,
    StartsWith text prefix = true <-> exists rest, text = prefix ++ rest;
  SimpleAtoi_digit : forall c, is_digit c -> SimpleAtoi [c] = Some (c - chr0);
  SimpleAtoi_other : forall c, ~ is_digit c -> SimpleAtoi [c] = None;
  StrCat_spec : forall ps, StrCat ps = mjoin (piece_bytes <$> ps);
  StrAppend_spec : forall dest ps, StrAppend dest ps = dest ++ mjoin (piece_bytes <$> ps)
}.

(** A concrete instance, which shows that the interface can be met. *)
Definition ref_starts_with (text prefix : list Z) : bool :=
  bool_decide (take (length prefix) text = prefix).

Definition ref_atoi (l : list Z) : option Z :=
  match l with
  | [] => None
  | _ => if decide (Forall is_digit l) then Some (dec_value l) else None
  end.

Definition ref_strcat (ps : list AlphaNum) : list Z := mjoin (piece_bytes <$> ps).

Definition abseil_ref : Abseil.
Proof.
  refine {| StartsWith := ref_starts_with; SimpleAtoi := ref_atoi; StrCat := ref_strcat;
            StrAppend := fun dest ps => dest ++ ref_strcat ps |}.
  - intros text prefix. unfold ref_starts_with. rewrite bool_decide_eq_true. split.
    + intros H. exists (drop (length prefix) text). rewrite <- H at 1. by rewrite take_drop.
    + intros [rest ->]. by rewrite take_app_length.
  - intros c Hc. unfold ref_atoi. rewrite decide_True by (by constructor). done.
  - intros c Hc. unfold ref_atoi. rewrite decide_False; [done|].
    intros H. by apply Forall_cons in H as [? _].
  - done.
  - done.
Defined.

Lemma StartsWith_app `{Abseil} prefix rest : StartsWith (prefix ++ rest) prefix = true.
Proof. apply StartsWith_spec. eauto. Qed.

Lemma StartsWith_false `{Abseil} text prefix :
  take (length prefix) text <> prefix -> StartsWith text prefix = false.
Proof.
  intros H1. apply not_true_is_false. intros [rest ->]%StartsWith_spec.
  by rewrite take_app_length in H1.
Qed.
