(* ===== verification/Structs.v ===== *)
(** * Structs: the data of the service and its layout in memory

    The enums and structs of [rinha/structs.h], the well-formedness of their
    values, and the byte image of [Customer] (372 bytes on the target ABI)
    through which [rinha/handler_socket.cc] stores a customer in the database
    and reads it back with [reinterpret_cast]. *)
From S2P Require Import Prelude.
#[local] Open Scope Z_scope.

Inductive TransactionResult := TR_SUCCESS | TR_LIMIT_EXCEEDED | TR_NOT_FOUND.
Inductive RequestType := TRANSACTION | BALANCE.
Inductive Result := SUCCESS | INVALID_REQUEST | NOT_FOUND.

#[export] Instance TransactionResult_eq_dec : EqDecision TransactionResult.
Proof. solve_decision. Defined.
#[export] Instance RequestType_eq_dec : EqDecision RequestType.
Proof. solve_decision. Defined.
#[export] Instance Result_eq_dec : EqDecision Result.
Proof. solve_decision. Defined.

Record Transaction := mkTransaction {
  value : Z;
  description : list Z;
  timestamp : list Z
}.

Record Customer := mkCustomer {
  limit : Z;
  balance : Z;
  transactions : list Transaction;
  transaction_count : Z;
  next_transaction_index : Z
}.

Record Request := mkRequest {
  req_type : RequestType;
  req_id : Z;
  transaction : Transaction
}.

#[export] Instance Transaction_eq_dec : EqDecision Transaction.
Proof. solve_decision. Defined.
#[export] Instance Customer_eq_dec : EqDecision Customer.
Proof. solve_decision. Defined.
#[export] Instance Request_eq_dec : EqDecision Request.
Proof. solve_decision. Defined.

Definition kDescriptionSize : nat := 11.
Definition kTimestampSize : nat := 20.
Definition kRingSize : nat := 10.

(** ** Well-formed values: fields within their C++ types *)
Definition is_char (c : Z) : Prop := -128 <= c < 128.

#[export] Instance is_char_dec c : Decision (is_char c).
Proof. unfold is_char. apply _. Defined.

Record wf_transaction (t : Transaction) : Prop := {
  wf_value : is_int (value t);
  wf_description : length (description t) = kDescriptionSize;
  wf_description_bytes : Forall is_byte (description t);
  wf_timestamp : length (timestamp t) = kTimestampSize;
  wf_timestamp_bytes : Forall is_byte (timestamp t)
}.

Record wf_customer (c : Customer) : Prop := {
  wf_limit : is_int (limit c);
  wf_balance : is_int (balance c);
  wf_ring : length (transactions c) = kRingSize;
  wf_transactions : Forall wf_transaction (transactions c);
  wf_count : is_char (transaction_count c);
  wf_next : is_char (next_transaction_index c)
}.

(** ** Layout *)

(** Little-endian image of a 32-bit word and its value as an [int]. *)
Definition le32 (z : Z) : list Z :=
  let w := wrap_u32 z in
  [w mod 256; (w / 256) mod 256; (w / 65536) mod 256; (w / 16777216) mod 256].

Definition int_of_le (l : list Z) : Z :=
  wrap_int (foldr (fun b acc => b + 256 * acc) 0 (take 4 l)).

Definition kTransactionSize : nat := 36.
Definition kCustomerSize : nat := 372.

Section Layout.
(** The value of the padding bytes is unspecified. *)
Variable padding : nat -> Z.

Definition encode_transaction (t : Transaction) : list Z :=
  le32 (value t) ++ description t ++ timestamp t ++ [padding 0].

Definition encode_customer (c : Customer) : list Z :=
  le32 (limit c) ++ le32 (balance c)
    ++ mjoin (encode_transaction <$> transactions c)
    ++ [transaction_count c mod 256; next_transaction_index c mod 256]
    ++ [padding 1; padding 2].
End Layout.

Definition decode_transaction (l : list Z) : Transaction :=
  {| value := int_of_le l;
     description := take kDescriptionSize (drop 4 l);
     timestamp := take kTimestampSize (drop 15 l) |}.

Fixpoint decode_transactions (n : nat) (l : list Z) : list Transaction :=
  match n with
  | O => []
  | S m => decode_transaction l :: decode_transactions m (drop kTransactionSize l)
  end.

(** [*reinterpret_cast<const Customer *>(p)] where [l] is the memory from [p]
    to the end of its object. *)
Definition decode_customer (l : list Z) : outcome Customer :=
  if (length l <? kCustomerSize)%nat then Fault OutOfBounds
  else
    let tail := drop (8 + kRingSize * kTransactionSize) l in
    Ok {| limit := int_of_le l;
          balance := int_of_le (drop 4 l);
          transactions := decode_transactions kRingSize (drop 8 l);
          transaction_count := schar (nth 0 tail 0);
          next_transaction_index := schar (nth 1 tail 0) |}.

(** ** Round trip *)
Lemma le32_bytes z : Forall is_byte (le32 z).
Proof.
  repeat constructor; unfold is_byte; apply Z.mod_pos_bound; lia.
Qed.

(** Base-256 digits of a word below 2^32. *)
Lemma base256_digits w :
  0 <= w < 4294967296 ->
  w = w mod 256 + 256 * ((w / 256) mod 256 + 256 * ((w / 65536) mod 256
        + 256 * ((w / 16777216) mod 256 + 256 * 0))).
Proof.
  intros Hw.
  replace (w / 65536) with (w / 256 / 256) by (rewrite Z.div_div; lia || done).
  replace (w / 16777216) with (w / 256 / 256 / 256) by (rewrite !Z.div_div; lia || done).
  pose proof (Z.div_mod w 256 ltac:(lia)).
  pose proof (Z.div_mod (w / 256) 256 ltac:(lia)).
  pose proof (Z.div_mod (w / 256 / 256) 256 ltac:(lia)).
  rewrite (Z.mod_small (w / 256 / 256 / 256)); [lia|].
  split; [repeat apply Z.div_pos; lia|].
  rewrite !Z.div_div by lia. apply Z.div_lt_upper_bound; lia.
Qed.

Lemma int_of_le32 z l : is_int z -> int_of_le (le32 z ++ l) = z.
Proof.
  intros Hz. unfold int_of_le, le32. cbn [app take foldr].
  rewrite <- base256_digits by (apply Z.mod_pos_bound; lia).
  unfold wrap_int, wrap_u32. rewrite Zplus_mod_idemp_l.
  fold (wrap_int z). by apply wrap_int_id.
Qed.

Lemma schar_mod z : is_char z -> schar (z mod 256) = z.
Proof.
  unfold is_char, schar. intros H.
  destruct (Z.ltb_spec (z mod 256) 128); lia.
Qed.

Section RoundTrip.
Variable padding : nat -> Z.

Lemma length_encode_transaction t :
  wf_transaction t -> length (encode_transaction padding t) = kTransactionSize.
Proof.
  intros [_ Hd _ Ht _]. unfold encode_transaction.
  rewrite !length_app, Hd, Ht. done.
Qed.

Lemma decode_encode_transaction t l :
  wf_transaction t -> decode_transaction (encode_transaction padding t ++ l) = t.
Proof.
  intros [Hv Hd _ Ht _]. unfold decode_transaction, encode_transaction.
  rewrite <- !app_assoc, int_of_le32 by done.
  change 15%nat with (4 + kDescriptionSize)%nat. rewrite <- drop_drop.
  rewrite (drop_app_length' (le32 _)) by done.
  rewrite take_app_length' by done.
  rewrite (drop_app_length' (description t)) by done.
  rewrite take_app_length' by done. by destruct t.
Qed.

Lemma decode_encode_transactions ts l :
  Forall wf_transaction ts ->
  decode_transactions (length ts) (mjoin (encode_transaction padding <$> ts) ++ l) = ts.
Proof.
  induction 1 as [|t ts Ht Hts IH]; [done|].
  rewrite fmap_cons, mjoin_cons. cbn [length decode_transactions].
  rewrite <- app_assoc, decode_encode_transaction by done. f_equal.
  rewrite drop_app_length' by (by rewrite length_encode_transaction). done.
Qed.

Lemma length_encode_transactions ts :
  Forall wf_transaction ts ->
  length (mjoin (encode_transaction padding <$> ts)) = (length ts * kTransactionSize)%nat.
Proof.
  induction 1 as [|t ts Ht Hts IH]; [done|].
  rewrite fmap_cons, mjoin_cons, length_app, length_encode_transaction, IH by done. done.
Qed.

Lemma length_encode_customer c :
  wf_customer c -> length (encode_customer padding c) = kCustomerSize.
Proof.
  intros [_ _ Hr Hts _ _]. unfold encode_customer.
  rewrite !length_app, length_encode_transactions, Hr by done. done.
Qed.

Lemma decode_encode_customer c l :
  wf_customer c -> decode_customer (encode_customer padding c ++ l) = Ok c.
Proof.
  intros Hc. unfold decode_customer.
  rewrite length_app, length_encode_customer by done.
  destruct (Nat.ltb_spec (kCustomerSize + length l) kCustomerSize); [lia|].
  destruct Hc as [Hl Hb Hr Hts Hn Hx]. unfold encode_customer.
  rewrite <- !app_assoc, int_of_le32, <- drop_drop by done.
  change 8%nat with (4 + 4)%nat. rewrite <- !(drop_drop _ 4 4).
  rewrite !(drop_app_length' (le32 _)), int_of_le32 by done.
  rewrite <- Hr, decode_encode_transactions by done.
  rewrite drop_app_length' by (by rewrite length_encode_transactions).
  simpl. rewrite !schar_mod by done. by destruct c.
Qed.

Lemma encode_transaction_bytes t :
  wf_transaction t -> (forall i, is_byte (padding i)) -> Forall is_byte (encode_transaction padding t).
Proof.
  intros [_ _ Hd _ Ht] Hp. unfold encode_transaction.
  rewrite !Forall_app. split_and!; [apply le32_bytes|done..|by apply Forall_singleton].
Qed.

Lemma encode_customer_bytes c :
  wf_customer c -> (forall i, is_byte (padding i)) -> Forall is_byte (encode_customer padding c).
Proof.
  intros [_ _ _ Hts _ _] Hp. unfold encode_customer.
  assert (Hm : forall z, is_byte (z mod 256)) by (intros z; apply Z.mod_pos_bound; lia).
  rewrite !Forall_app. split_and!; try apply le32_bytes;
    [|by repeat (apply Forall_cons_2; [apply Hm|])|by repeat (apply Forall_cons_2; [apply Hp|])].
  induction Hts as [|t ts Ht Hts IH]; [done|]. rewrite fmap_cons, mjoin_cons.
  apply Forall_app. split; [by apply encode_transaction_bytes|done].
Qed.
End RoundTrip.
