(* ===== verification/Account.v ===== *)
(** * Account: what a transaction does to a customer

    [try_transaction] is the arithmetic of the body of
    [MariaDbExecuteTransaction] ([rinha/maria_database.cc]): the overdraft test
    and the update of the balance and of the ring of the last ten
    transactions.  The abstract account is the list of all its accepted transactions,
    newest first; [account] relates it to the struct. *)
From S2P Require Import Prelude Structs.
#[local] Open Scope Z_scope.

(** [None]: the limit would be exceeded, the customer is left as it was. *)
Definition try_transaction (customer : Customer) (t : Transaction)
    : outcome (option Customer) :=
  sum ← int_op (balance customer + value t);
  floor ← int_op (- limit customer);
  if sum <? floor then Ok None
  else
    ts ← array_set (transactions customer) (next_transaction_index customer) t;
    Ok (Some {| limit := limit customer;
                balance := sum;
                transactions := ts;
                transaction_count :=
                  if transaction_count customer <=? 10
                  then transaction_count customer + 1 else transaction_count customer;
                next_transaction_index := Z.rem (next_transaction_index customer + 1) 10 |}).

(** ** The abstract account *)

Definition total (h : list Transaction) : Z := foldr (fun t acc => value t + acc) 0 h.

Lemma total_cons t h : total (t :: h) = value t + total h.
Proof. done. Qed.

(** [ring h c]: the ring of [c] holds the newest ten transactions of [h]. *)
Record ring (h : list Transaction) (c : Customer) : Prop := {
  ring_length : length (transactions c) = kRingSize;
  ring_count : transaction_count c = Z.of_nat (Nat.min 11 (length h));
  ring_next : next_transaction_index c = Z.of_nat (length h mod 10);
  ring_slots : forall k, (k < Nat.min 10 (length h))%nat ->
    transactions c !! ((length h - 1 - k) mod 10)%nat = h !! k
}.

(** [account l h c]: [c] is the account with limit [l] whose accepted
    transactions are [h]. *)
Record account (l : Z) (h : list Transaction) (c : Customer) : Prop := {
  account_limit : limit c = l;
  account_balance : balance c = total h;
  account_floor : - l <= total h;
  account_ring : ring h c
}.

(** The specification of a transaction on the abstract account. *)
Definition spec_transaction (l : Z) (h : list Transaction) (t : Transaction)
    : option (list Transaction) :=
  if total h + value t <? - l then None else Some (t :: h).

Lemma ring_push h c t :
  ring h c ->
  ring (t :: h)
    {| limit := limit c; balance := balance c + value t;
       transactions := <[(length h mod 10)%nat := t]> (transactions c);
       transaction_count :=
         if transaction_count c <=? 10 then transaction_count c + 1 else transaction_count c;
       next_transaction_index := Z.rem (next_transaction_index c + 1) 10 |}.
Proof.
  intros [Hl Hc Hn Hs]. unfold kRingSize in *.
  pose proof (Nat.mod_upper_bound (length h) 10 ltac:(lia)) as Hm.
  split; cbn [transactions transaction_count next_transaction_index].
  - by rewrite length_insert.
  - rewrite Hc. cbn [length]. destruct (Z.leb_spec (Z.of_nat (length h `min` 11)) 10);
      destruct (Z.leb_spec (Z.of_nat (11 `min` length h)) 10); lia.
  - rewrite Hn, Z.rem_mod_nonneg by lia. cbn [length].
    lia.
  - intros [|k] Hk; cbn [length] in *.
    + replace (S (length h) - 1 - 0)%nat with (length h) by lia.
      rewrite list_lookup_insert_eq by lia. done.
    + replace (S (length h) - 1 - S k)%nat with (length h - 1 - k)%nat by lia.
      rewrite list_lookup_insert_ne, Hs by lia.
      done.
Qed.

(** The update keeps the ring within the limits of its fields. *)
Lemma ring_bounds h c :
  ring h c -> 0 <= next_transaction_index c < 10 /\ 0 <= transaction_count c <= 11.
Proof. intros [_ -> -> _]. lia. Qed.

Lemma try_transaction_inv c t c' :
  try_transaction c t = Ok (Some c') ->
  is_int (balance c + value t) /\ - limit c <= balance c + value t
  /\ 0 <= next_transaction_index c < Z.of_nat (length (transactions c))
  /\ c' = {| limit := limit c; balance := balance c + value t;
             transactions := <[Z.to_nat (next_transaction_index c) := t]> (transactions c);
             transaction_count :=
               if transaction_count c <=? 10
               then transaction_count c + 1 else transaction_count c;
             next_transaction_index := Z.rem (next_transaction_index c + 1) 10 |}.
Proof.
  intros H. unfold try_transaction in H. inv_ok.
  apply int_op_Ok in Hr as [-> ?]. apply int_op_Ok in Hr0 as [-> ?].
  destruct (Z.ltb_spec (balance c + value t) (- limit c)); inv_ok; [done|].
  apply array_set_inv in Hr as [? ->]. done.
Qed.

(** The refinement of the abstract account by the struct. *)
Lemma try_transaction_refines l h c t :
  account l h c -> is_int (balance c + value t) -> is_int (- l) ->
  match spec_transaction l h t with
  | None => try_transaction c t = Ok None
  | Some h' => exists c', try_transaction c t = Ok (Some c') /\ account l h' c'
  end.
Proof.
  intros [Hl Hb Hf Hr] Hi Hli. unfold spec_transaction, try_transaction.
  rewrite Hl, <- Hb, int_op_in_range, int_op_in_range by done. cbn [mbind outcome_bind].
  destruct (Z.ltb_spec (balance c + value t) (- l)); [done|].
  pose proof (ring_bounds _ _ Hr) as [Hn _].
  rewrite array_set_Ok by (rewrite (ring_length _ _ Hr); unfold kRingSize; lia).
  eexists. split; [reflexivity|]. rewrite (ring_next _ _ Hr), Nat2Z.id.
  split; cbn [balance limit]; rewrite ?total_cons; [done|lia|lia|].
  pose proof (ring_push h c t Hr) as Hp. rewrite (ring_next _ _ Hr) in Hp. by destruct Hp.
Qed.

(** Whatever the history, an accepted transaction leaves an account above its floor. *)
Lemma spec_transaction_floor l h t h' :
  spec_transaction l h t = Some h' -> h' = t :: h /\ - l <= total h'.
Proof.
  unfold spec_transaction. destruct (Z.ltb_spec (total h + value t) (- l)); [done|].
  intros [= <-]. rewrite total_cons. split; [done|lia].
Qed.

(** ** The initial customers ([kInitialCustomers], [rinha/maria_database.cc]) *)
Definition empty_transaction : Transaction :=
  mkTransaction 0 (replicate kDescriptionSize 0) (replicate kTimestampSize 0).

Definition initial_customer (l : Z) : Customer :=
  mkCustomer l 0 (replicate kRingSize empty_transaction) 0 0.

Definition kInitialCustomers : list Customer :=
  initial_customer <$> [100000; 80000; 1000000; 10000000; 500000].

Lemma account_initial l : 0 <= l -> account l [] (initial_customer l).
Proof.
  intros Hl. split; [done|done|unfold total; simpl; lia|].
  split; [done..|]. simpl. lia.
Qed.

(** A sequence of transactions, refused ones skipped. *)
Fixpoint run_transactions (c : Customer) (ts : list Transaction) : outcome Customer :=
  match ts with
  | [] => Ok c
  | t :: ts' =>
      o ← try_transaction c t;
      run_transactions (from_option id c o) ts'
  end.

Fixpoint spec_run (l : Z) (h : list Transaction) (ts : list Transaction) : list Transaction :=
  match ts with
  | [] => h
  | t :: ts' => spec_run l (from_option id h (spec_transaction l h t)) ts'
  end.

(** All the sums a run can form stay within [int]. *)
Definition run_in_range (b : Z) (ts : list Transaction) : Prop :=
  is_int (b - foldr (fun t acc => Z.abs (value t) + acc) 0 ts)
  /\ is_int (b + foldr (fun t acc => Z.abs (value t) + acc) 0 ts).

Lemma run_transactions_refines l h c ts :
  account l h c -> is_int (- l) -> run_in_range (total h) ts ->
  exists c', run_transactions c ts = Ok c' /\ account l (spec_run l h ts) c'.
Proof.
  intros Ha Hl. revert h c Ha. induction ts as [|t ts IH]; intros h c Ha [Hlo Hhi]; simpl in *.
  { eauto. }
  assert (0 <= foldr (fun t acc => Z.abs (value t) + acc) 0 ts).
  { clear. induction ts; simpl; lia. }
  pose proof (try_transaction_refines l h c t Ha) as Href.
  rewrite (account_balance _ _ _ Ha) in Href.
  specialize (Href ltac:(unfold is_int in *; lia) Hl).
  destruct (spec_transaction l h t) as [h'|] eqn:Es; simpl.
  - destruct Href as (c' & -> & Ha'). cbn [mbind outcome_bind from_option].
    apply spec_transaction_floor in Es as [-> _]. apply IH; [done|].
    rewrite total_cons. unfold run_in_range, is_int in *. simpl. lia.
  - rewrite Href. cbn [mbind outcome_bind from_option]. apply IH; [done|].
    unfold run_in_range, is_int in *. lia.
Qed.
