(* ===== verification/FromHttp.v ===== *)
(** * FromHttp: parsing a request ([rinha/from_http.cc])

    The parser works on [string_view]s over the connection buffer and indexes
    them without bounds checks, so a view carries the whole object it points
    into: a read past the view but inside the object sees what the buffer holds
    there, a read past the object is a fault. Sizes and offsets are bounded by
    the object, so the [size_t] arithmetic never wraps; [npos] is [None]. *)
From S2P Require Import Prelude Text Structs.
#[local] Open Scope Z_scope.

(** ** String views *)
Record string_view := mkView {
  sv_mem : list Z;
  sv_data : nat;
  sv_size : nat
}.

Definition sv_bytes (v : string_view) : list Z :=
  take (sv_size v) (drop (sv_data v) (sv_mem v)).

(** [v[i]], unchecked in a release build. *)
Definition sv_at (v : string_view) (i : nat) : outcome Z :=
  of_option OutOfBounds (sv_mem v !! (sv_data v + i)%nat).

(** [v.find(c, pos)]. *)
Definition sv_find (v : string_view) (c : Z) (pos : nat) : option nat :=
  Nat.add pos <$> memchr c (drop pos (sv_bytes v)).

(** [<] on positions, where [npos] is the largest [size_t]. *)
Definition pos_lt (a b : option nat) : bool :=
  match a, b with
  | Some x, Some y => (x <? y)%nat
  | Some _, None => true
  | None, _ => false
  end.

Definition kGetVerb : list Z := bytes "GET".
Definition kPostBeginBody : list Z := bytesn "||".

(** ** [SubstringToInt] *)
Fixpoint SubstringToInt_loop (body : string_view) (n i : nat) (x : Z) : outcome (bool * Z) :=
  match n with
  | O => Ok (true, x)
  | S n' =>
      c ← sv_at body i;
      if (schar c <? chr0) || (chr9 <? schar c) then Ok (false, x)
      else
        x10 ← int_op (x * 10);
        x' ← int_op (x10 + (schar c - chr0));
        SubstringToInt_loop body n' (S i) x'
  end.

Definition SubstringToInt (body : string_view) (start end_ : nat) : outcome (bool * Z) :=
  SubstringToInt_loop body (end_ - start) start 0.

(** ** [ParseJsonBody] *)

(** The loop that copies the description. *)
Fixpoint copy_description (body : string_view) (start n i : nat) (d : list Z)
    : outcome (list Z) :=
  match n with
  | O => Ok d
  | S n' =>
      c ← sv_at body i;
      d' ← array_set d (Z.of_nat (i - start)) c;
      copy_description body start n' (S i) d'
  end.

Definition set_value (t : Transaction) (x : Z) : Transaction :=
  {| value := x; description := description t; timestamp := timestamp t |}.
Definition set_description (t : Transaction) (d : list Z) : Transaction :=
  {| value := value t; description := d; timestamp := timestamp t |}.

Definition num_begin_idx : nat := 10.

(** The part of [ParseJsonBody] after the amount: kind and description. *)
Definition ParseJsonTail (body : string_view) (num_end_idx : nat) (t : Transaction)
    : outcome (bool * Transaction) :=
  let tipo_idx := (num_end_idx + 11)%nat in
  tipo ← sv_at body tipo_idx;
  if negb (tipo =? 99) && negb (tipo =? 100) then Ok (false, t)
  else
    v ← (if tipo =? 100 then int_op (value t * -1) else Ok (value t));
    let t := set_value t v in
    let start_desc_idx := (tipo_idx + 18)%nat in
    match sv_find body DQUOTE start_desc_idx with
    | None => Ok (false, t)
    | Some end_desc_idx =>
        last ← (if (end_desc_idx + 2 =? sv_size body)%nat
                then sv_at body (end_desc_idx + 1) else Ok RBRACE);
        if negb (end_desc_idx + 2 =? sv_size body)%nat || negb (last =? RBRACE)
        then Ok (false, t)
        else
          let len := (end_desc_idx - start_desc_idx)%nat in
          if (10 <? len)%nat || (len <? 1)%nat then Ok (false, t)
          else
            d ← copy_description body start_desc_idx len start_desc_idx (description t);
            d' ← array_set d (Z.of_nat len) NUL;
            Ok (true, set_description t d')
    end.

Definition ParseJsonBody (body : string_view) (t : Transaction) : outcome (bool * Transaction) :=
  let num_end_idx := sv_find body COMMA num_begin_idx in
  let num_dot_idx := sv_find body DOT num_begin_idx in
  match num_end_idx with
  | None => Ok (false, t)
  | Some end_idx =>
      if pos_lt num_dot_idx num_end_idx then Ok (false, t)
      else
        '(success, x) ← SubstringToInt body num_begin_idx end_idx;
        let t := set_value t x in
        if negb success then Ok (false, t) else ParseJsonTail body end_idx t
  end.

(** ** [FromHttp] *)
Section FromHttp.
Context `{Abseil}.

(** [absl::SimpleAtoi(absl::string_view(http.data() + at, 1), &id)]. *)
Definition parse_id (http : string_view) (at_ : nat) : outcome (option Z) :=
  c ← sv_at http at_; Ok (SimpleAtoi [c]).

(** [buf] is the object behind [http.data()]; the view ends at its first NUL
    because the argument is built from a [const char *]. *)
Definition FromHttp (buf : list Z) (request : Request) : outcome (bool * Request) :=
  text ← c_str buf;
  let http := mkView buf 0 (length text) in
  if StartsWith text kGetVerb then
    id ← parse_id http 14;
    match id with
    | None => Ok (false, request)
    | Some n => Ok (true, mkRequest BALANCE n (transaction request))
    end
  else
    id ← parse_id http 15;
    match id with
    | None => Ok (false, request)
    | Some n =>
        let request := mkRequest (req_type request) n (transaction request) in
        match find_sub kPostBeginBody text with
        | None => Ok (false, request)
        | Some begin_body_idx =>
            let json_body :=
              mkView buf (begin_body_idx + 4) (length text - (begin_body_idx + 4)) in
            '(ok, t) ← ParseJsonBody json_body (transaction request);
            if negb ok then Ok (false, mkRequest (req_type request) n t)
            else Ok (true, mkRequest TRANSACTION n t)
        end
    end.
End FromHttp.

(** ** Digits *)

(** What the digit loop computes from the bytes it reads. *)
Fixpoint scan_int (ds : list Z) (x : Z) : outcome (bool * Z) :=
  match ds with
  | [] => Ok (true, x)
  | c :: ds' =>
      if (schar c <? chr0) || (chr9 <? schar c) then Ok (false, x)
      else x10 ← int_op (x * 10); x' ← int_op (x10 + (schar c - chr0)); scan_int ds' x'
  end.

Lemma SubstringToInt_scan body ds i x :
  (forall k c, ds !! k = Some c -> sv_at body (i + k) = Ok c) ->
  SubstringToInt_loop body (length ds) i x = scan_int ds x.
Proof.
  revert i x. induction ds as [|c ds IH]; intros i x Hds; [done|]. simpl.
  pose proof (Hds 0%nat c eq_refl) as Hc. rewrite Nat.add_0_r in Hc. rewrite Hc. simpl.
  destruct (_ || _); [done|].
  destruct (int_op (x * 10)); [|done]. simpl. destruct (int_op (_ + _)); [|done]. simpl.
  apply IH. intros k d Hk. replace (S i + k)%nat with (i + S k)%nat by lia. by apply Hds.
Qed.

Lemma is_digit_guard c :
  is_digit c <-> ((schar c <? chr0) || (chr9 <? schar c)) = false /\ schar c = c.
Proof.
  unfold is_digit, schar, chr0, chr9. rewrite orb_false_iff, !Z.ltb_ge.
  destruct (Z.ltb_spec c 128); lia.
Qed.

Lemma scan_int_step c ds x :
  is_digit c ->
  scan_int (c :: ds) x
  = (x10 ← int_op (x * 10); x' ← int_op (x10 + (c - chr0)); scan_int ds x').
Proof. intros [Hg Hs]%is_digit_guard. simpl. by rewrite Hg, Hs. Qed.

Lemma scan_int_digits ds x :
  Forall is_digit ds -> 0 <= x -> dec_from x ds <= INT_MAX ->
  scan_int ds x = Ok (true, dec_from x ds).
Proof.
  intros Hds. revert x. induction Hds as [|c ds Hc Hds IH]; intros x Hx Hle; [done|].
  rewrite scan_int_step by done.
  change (dec_from x (c :: ds)) with (dec_from (x * 10 + (c - chr0)) ds) in *.
  unfold is_digit in Hc. assert (Hp : 0 <= x * 10 + (c - chr0)) by lia.
  pose proof (dec_from_ge _ ds Hp Hds).
  rewrite !int_op_in_range by (unfold is_int, INT_MIN; lia). simpl.
  rewrite int_op_in_range by (unfold is_int, INT_MIN; lia). simpl. by apply IH.
Qed.

Lemma scan_int_overflow ds x :
  Forall is_digit ds -> 0 <= x -> is_int x -> INT_MAX < dec_from x ds ->
  scan_int ds x = Fault SignedOverflow.
Proof.
  intros Hds. revert x. induction Hds as [|c ds Hc Hds IH]; intros x Hx Hi Hlt.
  { unfold dec_from, is_int in *. simpl in *. lia. }
  rewrite scan_int_step by done.
  change (dec_from x (c :: ds)) with (dec_from (x * 10 + (c - chr0)) ds) in *.
  unfold is_digit in Hc.
  destruct (decide (is_int (x * 10))); [rewrite int_op_in_range by done; simpl
    | by rewrite int_op_overflow by done].
  destruct (decide (is_int (x * 10 + (c - chr0)))); [rewrite int_op_in_range by done; simpl
    | by rewrite int_op_overflow by done].
  apply IH; [lia|done..].
Qed.

(** The value the loop leaves is an [int], whatever it reads. *)
Lemma scan_int_range ds x b y : is_int x -> scan_int ds x = Ok (b, y) -> is_int y.
Proof.
  revert x. induction ds as [|c ds IH]; intros x Hx H; simpl in H; [by inv_ok|].
  destruct (_ || _); [by inv_ok|]. inv_ok. eapply IH; [|done].
  by apply int_op_Ok in Hr0 as [-> ?].
Qed.

Lemma SubstringToInt_range body n i x b y :
  is_int x -> SubstringToInt_loop body n i x = Ok (b, y) -> is_int y.
Proof.
  revert i x. induction n as [|n IH]; intros i x Hx H; simpl in H; [by inv_ok|].
  inv_ok. destruct (_ || _); [by inv_ok|]. inv_ok. eapply IH; [|done].
  by apply int_op_Ok in Hr1 as [-> ?].
Qed.

(** ** Views over a known text *)

(** [view_of v text]: the view [v] shows exactly [text]. *)
Definition view_of (v : string_view) (text : list Z) : Prop :=
  sv_bytes v = text /\ sv_size v = length text.

Lemma view_at v text i c : view_of v text -> text !! i = Some c -> sv_at v i = Ok c.
Proof.
  intros [<- Hs] H. unfold sv_at. apply of_option_Ok. unfold sv_bytes in H.
  assert (i < sv_size v)%nat.
  { apply lookup_lt_Some in H. rewrite length_take in H. lia. }
  rewrite lookup_take_lt, lookup_drop in H by done. done.
Qed.

Lemma view_find v text c pos pre post :
  view_of v text -> text = pre ++ c :: post -> (pos <= length pre)%nat ->
  c ∉ drop pos pre -> sv_find v c pos = Some (length pre).
Proof.
  intros [Hv _] -> Hp Hn. unfold sv_find. rewrite Hv, drop_app_le, memchr_first by done.
  simpl. f_equal. rewrite length_drop. lia.
Qed.

Lemma view_find_spec v text c pos i :
  view_of v text ->
  sv_find v c pos = Some i <->
  (pos <= i)%nat /\ text !! i = Some c /\ c ∉ take (i - pos) (drop pos text).
Proof.
  intros [Hv _]. unfold sv_find. rewrite Hv, fmap_Some. split.
  - intros (j & [Hj Hn]%memchr_Some & ->). rewrite lookup_drop in Hj.
    replace (pos + j - pos)%nat with j by lia. split_and!; [lia|done..].
  - intros (Hp & Hi & Hn). exists (i - pos)%nat. rewrite memchr_Some, lookup_drop.
    replace (pos + (i - pos))%nat with i by lia. split_and!; [done..|lia].
Qed.

(** ** Requests as clients write them *)
Definition kValor : list Z := bytesq "{'valor': ".
Definition kTipo : list Z := bytesq ", 'tipo': '".
Definition kDescricao : list Z := bytesq "', 'descricao': '".
Definition kClose : list Z := bytesq "'}".

(** The JSON body of a transaction request. *)
Definition json_body (digits : list Z) (tipo : Z) (desc : list Z) : list Z :=
  kValor ++ digits ++ kTipo ++ [tipo] ++ kDescricao ++ desc ++ kClose.

(** The description array after [desc] and its terminator have been stored. *)
Definition desc_field (desc d : list Z) : list Z := splice d 0 (desc ++ [NUL]).

Definition signed_value (tipo x : Z) : Z := if tipo =? 100 then x * -1 else x.

Lemma copy_description_splice body start ds j d :
  (forall k c, ds !! k = Some c -> sv_at body (start + j + k) = Ok c) ->
  (j + length ds <= length d)%nat ->
  copy_description body start (length ds) (start + j) d = Ok (splice d j ds).
Proof.
  revert j d. induction ds as [|c ds IH]; intros j d Hds Hl; simpl.
  { by rewrite splice_nil. }
  pose proof (Hds 0%nat c eq_refl) as Hc. rewrite Nat.add_0_r in Hc.
  simpl in Hl. rewrite Hc. simpl. rewrite array_set_Ok by lia. simpl.
  replace (S (start + j)) with (start + S j)%nat by lia.
  replace (Z.to_nat (Z.of_nat (start + j - start))) with j by lia.
  rewrite IH.
  - by rewrite splice_cons by lia.
  - intros k e Hk. replace (start + S j + k)%nat with (start + j + S k)%nat by lia. by apply Hds.
  - rewrite length_insert. lia.
Qed.

Lemma insert_splice_end {A} (d : list A) s x :
  (length s < length d)%nat -> <[length s := x]> (splice d 0 s) = splice d 0 (s ++ [x]).
Proof.
  intros H. unfold splice. simpl. rewrite insert_app_r_alt, Nat.sub_diag by done.
  destruct (drop (length s) d) as [|y l] eqn:E.
  { apply (f_equal length) in E. rewrite length_drop in E. simpl in E. lia. }
  simpl. rewrite length_app, <- drop_drop, E, <- app_assoc. done.
Qed.

Section Render.
Variables (v : string_view) (digits desc : list Z) (tipo : Z).
Hypothesis Hv : view_of v (json_body digits tipo desc).

Let end_idx := (10 + length digits)%nat.

Lemma json_tipo_at : sv_at v (end_idx + 11) = Ok tipo.
Proof.
  eapply view_at; [exact Hv|]. unfold json_body.
  rewrite (lookup_app_r kValor), (lookup_app_r digits), (lookup_app_r kTipo);
    change (length kValor) with 10%nat; change (length kTipo) with 11%nat; unfold end_idx; try lia.
  by replace (_ - _)%nat with 0%nat by lia.
Qed.

Lemma json_desc_at k c : desc !! k = Some c -> sv_at v (end_idx + 29 + k) = Ok c.
Proof.
  intros Hk. eapply view_at; [exact Hv|]. unfold json_body.
  pose proof (lookup_lt_Some _ _ _ Hk).
  rewrite (lookup_app_r kValor), (lookup_app_r digits), (lookup_app_r kTipo),
    (lookup_app_r [tipo]), (lookup_app_r kDescricao), lookup_app_l;
    change (length kValor) with 10%nat; change (length kTipo) with 11%nat;
    change (length kDescricao) with 17%nat; change (length [tipo]) with 1%nat;
    unfold end_idx; try lia.
  rewrite <- Hk. f_equal. lia.
Qed.

Lemma json_length : sv_size v = (end_idx + 31 + length desc)%nat.
Proof.
  destruct Hv as [_ ->]. unfold json_body. rewrite !length_app. unfold end_idx.
  change (length kValor) with 10%nat; change (length kTipo) with 11%nat;
    change (length kDescricao) with 17%nat; change (length kClose) with 2%nat. simpl. lia.
Qed.

Lemma json_find_quote :
  DQUOTE ∉ desc -> sv_find v DQUOTE (end_idx + 29) = Some (end_idx + 29 + length desc)%nat.
Proof.
  intros Hn. unfold end_idx.
  erewrite (view_find v _ DQUOTE _ ((kValor ++ digits ++ kTipo ++ [tipo] ++ kDescricao) ++ desc));
    [|exact Hv| | |].
  - f_equal. rewrite !length_app.
    change (length kValor) with 10%nat; change (length kTipo) with 11%nat;
      change (length kDescricao) with 17%nat. simpl. lia.
  - unfold json_body. rewrite <- !app_assoc. reflexivity.
  - rewrite !length_app. change (length kValor) with 10%nat; change (length kTipo) with 11%nat;
      change (length kDescricao) with 17%nat. simpl. lia.
  - rewrite drop_app_length'; [done|]. rewrite !length_app.
    change (length kValor) with 10%nat; change (length kTipo) with 11%nat;
      change (length kDescricao) with 17%nat. simpl. lia.
Qed.

Lemma json_rbrace : sv_at v (end_idx + 29 + length desc + 1) = Ok RBRACE.
Proof.
  eapply view_at; [exact Hv|]. unfold json_body.
  rewrite (lookup_app_r kValor), (lookup_app_r digits), (lookup_app_r kTipo),
    (lookup_app_r [tipo]), (lookup_app_r kDescricao), (lookup_app_r desc);
    change (length kValor) with 10%nat; change (length kTipo) with 11%nat;
    change (length kDescricao) with 17%nat; change (length [tipo]) with 1%nat;
    unfold end_idx; try lia.
  by replace (_ - _)%nat with 1%nat by lia.
Qed.
End Render.

(** ** The amount: a body that starts with [kValor], digits and a comma *)
Section Amount.
Variables (v : string_view) (digits more : list Z).
Hypothesis Hv : view_of v (kValor ++ digits ++ COMMA :: more).
Hypothesis Hdigits : Forall is_digit digits.

Let end_idx := (10 + length digits)%nat.

Lemma digits_no_byte c : ~ is_digit c -> c ∉ digits.
Proof. intros Hc Hin. apply Hc. by eapply Forall_forall in Hin. Qed.

Lemma json_find_comma : sv_find v COMMA num_begin_idx = Some end_idx.
Proof.
  erewrite (view_find v _ COMMA _ (kValor ++ digits)); [|exact Hv| | |].
  - by rewrite length_app.
  - by rewrite <- app_assoc.
  - rewrite length_app. change (length kValor) with 10%nat. unfold num_begin_idx. lia.
  - change num_begin_idx with (length kValor). rewrite drop_app_length.
    apply digits_no_byte. by_decide.
Qed.

Lemma json_no_dot : pos_lt (sv_find v DOT num_begin_idx) (Some end_idx) = false.
Proof.
  destruct (sv_find v DOT num_begin_idx) as [j|] eqn:E; [|done]. simpl.
  apply (view_find_spec v _ _ _ _ Hv) in E as (Hj & Hdot & _).
  unfold num_begin_idx in *. apply Nat.ltb_ge.
  destruct (decide (j < end_idx)%nat) as [Hlt|]; [|lia]. exfalso.
  apply (digits_no_byte DOT); [by_decide|].
  rewrite (lookup_app_r kValor) in Hdot by done.
  change (length kValor) with 10%nat in Hdot. unfold end_idx in Hlt.
  rewrite lookup_app_l in Hdot by lia. by eapply list_elem_of_lookup_2.
Qed.

Lemma ParseJsonBody_scan t :
  ParseJsonBody v t
  = ('(success, x) ← scan_int digits 0;
     let t := set_value t x in
     if negb success then Ok (false, t) else ParseJsonTail v end_idx t).
Proof.
  unfold ParseJsonBody. rewrite json_find_comma, json_no_dot.
  unfold SubstringToInt, num_begin_idx, end_idx.
  replace (10 + length digits - 10)%nat with (length digits) by lia.
  rewrite SubstringToInt_scan with (ds := digits); [done|].
  intros k c Hk. eapply view_at; [exact Hv|].
  rewrite (lookup_app_r kValor) by (change (length kValor) with 10%nat; lia).
  change (length kValor) with 10%nat.
  replace (10 + k - 10)%nat with k by lia. rewrite lookup_app_l; [done|].
  by eapply lookup_lt_Some.
Qed.
End Amount.

(** The body of a transaction starts that way. *)
Lemma json_body_amount digits tipo desc :
  json_body digits tipo desc
  = kValor ++ digits ++ COMMA :: (drop 1 kTipo ++ [tipo] ++ kDescricao ++ desc ++ kClose).
Proof. reflexivity. Qed.

(** ** What the parser makes of a well-formed body *)

Lemma array_set_terminator desc d :
  length d = kDescriptionSize -> (length desc <= 10)%nat ->
  array_set (splice d 0 desc) (Z.of_nat (length desc)) NUL = Ok (desc_field desc d).
Proof.
  intros Hd Hl. unfold kDescriptionSize in Hd.
  rewrite array_set_Ok by (rewrite length_splice; lia).
  rewrite Nat2Z.id. unfold desc_field. by rewrite insert_splice_end by lia.
Qed.

Lemma ParseJsonTail_render v digits desc tipo t :
  view_of v (json_body digits tipo desc) ->
  tipo = 99 \/ tipo = 100 ->
  is_int (value t) -> value t <> INT_MIN -> length (description t) = kDescriptionSize ->
  (1 <= length desc <= 10)%nat -> DQUOTE ∉ desc ->
  ParseJsonTail v (10 + length digits) t
  = Ok (true, {| value := signed_value tipo (value t);
                 description := desc_field desc (description t);
                 timestamp := timestamp t |}).
Proof.
  intros Hv Ht Hi Hmin Hd Hl Hq. unfold ParseJsonTail.
  erewrite json_tipo_at by exact Hv. cbn [mbind outcome_bind].
  replace (negb (tipo =? 99) && negb (tipo =? 100)) with false by (destruct Ht; by subst).
  replace (if tipo =? 100 then _ else _) with (Ok (signed_value tipo (value t))); cycle 1.
  { unfold signed_value. destruct (tipo =? 100); [|done].
    rewrite int_op_in_range; [done|]. unfold is_int, INT_MIN, INT_MAX in *. lia. }
  cbn [mbind outcome_bind].
  replace (10 + length digits + 11 + 18)%nat with (10 + length digits + 29)%nat by lia.
  erewrite json_find_quote by done.
  erewrite (json_length v) by exact Hv.
  replace (_ =? _)%nat with true by (symmetry; apply Nat.eqb_eq; lia).
  erewrite json_rbrace by exact Hv. cbn [mbind outcome_bind negb orb Z.eqb].
  rewrite Z.eqb_refl. cbn [negb].
  replace (10 + length digits + 29 + length desc - (10 + length digits + 29))%nat
    with (length desc) by lia.
  destruct (Nat.ltb_spec 10 (length desc)), (Nat.ltb_spec (length desc) 1); try lia.
  cbn [orb set_value description].
  rewrite <- (Nat.add_0_r (10 + length digits + 29)) at 2.
  rewrite copy_description_splice; [|intros k c Hk; rewrite Nat.add_0_r; by eapply json_desc_at|].
  - cbn [mbind outcome_bind]. by rewrite array_set_terminator by lia.
  - rewrite Hd. unfold kDescriptionSize. lia.
Qed.

Lemma ParseJsonBody_render v digits desc tipo t :
  view_of v (json_body digits tipo desc) ->
  Forall is_digit digits -> dec_value digits <= INT_MAX ->
  tipo = 99 \/ tipo = 100 -> length (description t) = kDescriptionSize ->
  (1 <= length desc <= 10)%nat -> DQUOTE ∉ desc ->
  ParseJsonBody v t
  = Ok (true, {| value := signed_value tipo (dec_value digits);
                 description := desc_field desc (description t);
                 timestamp := timestamp t |}).
Proof.
  intros Hv Hds Hmax Ht Hd Hl Hq.
  rewrite (ParseJsonBody_scan v digits _ Hv Hds).
  rewrite scan_int_digits by done. cbn [mbind outcome_bind negb].
  pose proof (dec_from_ge 0 digits ltac:(done) Hds) as Hge.
  fold (dec_value digits) in *.
  erewrite ParseJsonTail_render; try done; cbn [set_value value].
  - unfold is_int, INT_MIN. lia.
  - unfold INT_MIN. lia.
Qed.

(** ** A whole request *)

(** [POST /clientes/<id><rest of the head>] followed by an empty line and the
    body. *)
Definition post_request (id_digit : Z) (head body : list Z) : list Z :=
  bytes "POST /clientes/" ++ [id_digit] ++ head ++ kPostBeginBody ++ body.

Definition get_request (id_digit : Z) (rest : list Z) : list Z :=
  bytes "GET /clientes/" ++ [id_digit] ++ rest.

Lemma c_str_app text rest : NUL ∉ text -> c_str (text ++ NUL :: rest) = Ok text.
Proof.
  intros H. unfold c_str. rewrite memchr_first by done. simpl. by rewrite take_app_length.
Qed.

Lemma sv_at_0 buf n i c : buf !! i = Some c -> sv_at (mkView buf 0 n) i = Ok c.
Proof. intros H. by apply of_option_Ok. Qed.

Section FromHttpTheorems.
Context `{Abseil}.

(** The head of a POST is free of an empty line when its first one is the
    one before the body. *)
Definition head_ok (id_digit : Z) (head body : list Z) : Prop :=
  find_sub kPostBeginBody (post_request id_digit head body) = Some (16 + length head)%nat.

Lemma FromHttp_post id_digit head body rest r :
  is_digit id_digit -> head_ok id_digit head body -> NUL ∉ head -> NUL ∉ body ->
  let buf := post_request id_digit head body ++ NUL :: rest in
  FromHttp buf r
  = ('(ok, t) ← ParseJsonBody (mkView buf (20 + length head) (length body)) (transaction r);
     if negb ok then Ok (false, mkRequest (req_type r) (id_digit - chr0) t)
     else Ok (true, mkRequest TRANSACTION (id_digit - chr0) t)).
Proof.
  intros Hid Hhead Hh Hb buf. unfold FromHttp, buf.
  assert (Hn : NUL ∉ post_request id_digit head body).
  { unfold post_request. rewrite !not_elem_of_app. split_and!; try done.
    - by_decide.
    - unfold is_digit, chr0, NUL in *. rewrite list_elem_of_singleton. lia.
    - by_decide. }
  rewrite c_str_app by done. cbn [mbind outcome_bind].
  rewrite StartsWith_false by done. unfold parse_id.
  rewrite (sv_at_0 _ _ 15 id_digit) by done. cbn [mbind outcome_bind].
  rewrite SimpleAtoi_digit by done. cbn [req_type transaction]. rewrite Hhead.
  replace (16 + length head + 4)%nat with (20 + length head)%nat by lia.
  replace (length _ - _)%nat with (length body); [done|].
  unfold post_request. rewrite !length_app. simpl. lia.
Qed.

Lemma view_of_post id_digit head body rest :
  view_of (mkView (post_request id_digit head body ++ NUL :: rest) (20 + length head) (length body))
    body.
Proof.
  split; [|done]. unfold sv_bytes, post_request. cbn [sv_mem sv_data sv_size].
  rewrite <- !app_assoc, drop_app_ge by (change (length (bytes "POST /clientes/")) with 15%nat; lia).
  change (length (bytes "POST /clientes/")) with 15%nat.
  replace (20 + length head - 15)%nat with (1 + (length head + 4))%nat by lia.
  cbn [app drop Nat.add]. rewrite drop_app_ge, drop_app_ge by (simpl; lia).
  replace (_ - _ - _)%nat with 0%nat by (simpl; lia). rewrite drop_0.
  by rewrite take_app_length.
Qed.
End FromHttpTheorems.

(** ** Memory safety *)

(** [in_object v]: the view lies inside its object. *)
Definition in_object (v : string_view) : Prop :=
  (sv_data v + sv_size v <= length (sv_mem v))%nat.

Lemma in_object_view v : in_object v -> view_of v (sv_bytes v).
Proof.
  intros H. split; [done|]. unfold sv_bytes, in_object in *.
  rewrite length_take, length_drop. lia.
Qed.

Lemma sv_at_in v i : (sv_data v + i < length (sv_mem v))%nat -> exists c, sv_at v i = Ok c.
Proof.
  intros [c Hc]%lookup_lt_is_Some_2. exists c. by apply of_option_Ok.
Qed.

Lemma sv_at_safe P v i :
  (sv_data v + i < length (sv_mem v))%nat -> faults_only P (sv_at v i).
Proof. intros [c ->]%sv_at_in. apply faults_only_Ok. Qed.

Lemma int_op_faults z : faults_only (eq SignedOverflow) (int_op z).
Proof. intros f. unfold int_op. case_decide; congruence. Qed.

Lemma array_set_safe {A} P (l : list A) i x :
  0 <= i < Z.of_nat (length l) -> faults_only P (array_set l i x).
Proof. intros H. rewrite array_set_Ok by done. apply faults_only_Ok. Qed.

#[local] Hint Resolve int_op_faults : outcome.

Lemma SubstringToInt_safe v n i x :
  (sv_data v + i + n <= length (sv_mem v))%nat ->
  faults_only (eq SignedOverflow) (SubstringToInt_loop v n i x).
Proof.
  revert i x. induction n as [|n IH]; intros i x H; simpl; [apply faults_only_Ok|].
  apply faults_only_bind; [apply sv_at_safe; lia|]. intros c _.
  apply faults_only_if; [apply faults_only_Ok|].
  apply faults_only_bind; [auto with outcome|]. intros y _.
  apply faults_only_bind; [auto with outcome|]. intros z _. apply IH. lia.
Qed.

Lemma copy_description_safe P v start n i d :
  (start <= i)%nat -> (sv_data v + i + n <= length (sv_mem v))%nat ->
  (i - start + n <= length d)%nat ->
  faults_only P (copy_description v start n i d).
Proof.
  revert i d. induction n as [|n IH]; intros i d Hi H Hd; simpl; [apply faults_only_Ok|].
  apply faults_only_bind; [apply sv_at_safe; lia|]. intros c _.
  apply faults_only_bind; [apply array_set_safe; lia|].
  intros d' [_ ->]%array_set_inv. apply IH; [lia..|]. rewrite length_insert. lia.
Qed.

Lemma copy_description_length v start n i d d' :
  copy_description v start n i d = Ok d' -> length d' = length d.
Proof.
  revert i d. induction n as [|n IH]; intros i d H; simpl in H; [by inv_ok|].
  inv_ok. apply array_set_inv in Hr0 as [_ ->]. apply IH in H. by rewrite H, length_insert.
Qed.

Lemma sv_find_in v c pos i :
  sv_find v c pos = Some i ->
  (pos <= i)%nat /\ sv_bytes v !! i = Some c /\ (i < sv_size v)%nat.
Proof.
  unfold sv_find. rewrite fmap_Some. intros (j & [Hj _]%memchr_Some & ->).
  rewrite lookup_drop in Hj. split_and!; [lia|done|].
  apply lookup_lt_Some in Hj. unfold sv_bytes in Hj. rewrite length_take in Hj. lia.
Qed.

Lemma ParseJsonTail_safe v e t :
  in_object v -> (sv_data v + e + 11 < length (sv_mem v))%nat ->
  length (description t) = kDescriptionSize ->
  faults_only (eq SignedOverflow) (ParseJsonTail v e t).
Proof.
  unfold in_object, kDescriptionSize. intros Hv He Hd. unfold ParseJsonTail.
  apply faults_only_bind; [apply sv_at_safe; lia|]. intros tipo _.
  apply faults_only_if; [apply faults_only_Ok|].
  apply faults_only_bind; [auto with outcome|]. intros x _.
  destruct (sv_find _ _ _) as [q|] eqn:Eq; [|apply faults_only_Ok].
  apply sv_find_in in Eq as (Hq & _ & Hlt).
  apply faults_only_bind; cycle 1.
  { intros last _. apply faults_only_if; [apply faults_only_Ok|].
    destruct (Nat.ltb_spec 10 (q - (e + 11 + 18))); [apply faults_only_Ok|].
    destruct (Nat.ltb_spec (q - (e + 11 + 18)) 1); [apply faults_only_Ok|]. simpl.
    apply faults_only_bind; [apply copy_description_safe; lia|].
    intros d Hd'%copy_description_length.
    apply faults_only_bind; [apply array_set_safe; lia|]. intros; apply faults_only_Ok. }
  destruct (Nat.eqb_spec (q + 2) (sv_size v)); [|apply faults_only_Ok].
  apply sv_at_safe. lia.
Qed.

Lemma ParseJsonBody_safe v t :
  in_object v -> (sv_data v + sv_size v + 11 <= length (sv_mem v))%nat ->
  length (description t) = kDescriptionSize ->
  faults_only (eq SignedOverflow) (ParseJsonBody v t).
Proof.
  unfold in_object. intros Hv Hs Hd. unfold ParseJsonBody.
  destruct (sv_find v COMMA num_begin_idx) as [e|] eqn:Ee; [|apply faults_only_Ok].
  apply sv_find_in in Ee as (He & _ & Hlt).
  apply faults_only_if; [apply faults_only_Ok|].
  apply faults_only_bind; [apply SubstringToInt_safe; unfold num_begin_idx in *; lia|].
  intros [ok x] _. apply faults_only_if; [apply faults_only_Ok|].
  apply ParseJsonTail_safe; [done|lia|done].
Qed.

(** ** What an accepted body contains *)
Lemma ParseJsonTail_sound v e t t' :
  in_object v -> length (description t) = kDescriptionSize -> is_int (value t) ->
  ParseJsonTail v e t = Ok (true, t') ->
  exists desc, (1 <= length desc <= 10)%nat /\ (DQUOTE ∉ desc)
    /\ description t' = desc_field desc (description t)
    /\ is_int (value t') /\ timestamp t' = timestamp t.
Proof.
  intros Hv%in_object_view Hd Hi H. unfold ParseJsonTail in H. inv_ok.
  destruct (_ && _); [by inv_ok|]. inv_ok.
  assert (Hr1 : is_int r0).
  { destruct (_ =? _); [by apply int_op_Ok in Hr0 as [-> ?]|by inv_ok]. }
  destruct (sv_find _ _ _) as [q|] eqn:Eq; [|by inv_ok]. inv_ok.
  destruct (_ || _); [by inv_ok|].
  apply (view_find_spec _ _ _ _ _ Hv) in Eq as (Hq & Hc & Hn).
  set (start := (e + 11 + 18)%nat) in *.
  destruct (Nat.ltb_spec 10 (q - start)); [by inv_ok|].
  destruct (Nat.ltb_spec (q - start) 1); [by inv_ok|]. simpl in H. inv_ok.
  set (desc := take (q - start) (drop start (sv_bytes v))) in *.
  assert (Hl : length desc = (q - start)%nat).
  { unfold desc. apply lookup_lt_Some in Hc. rewrite length_take, length_drop. lia. }
  exists desc. rewrite Hl. split_and!; [lia|lia|done| |done|done].
  pose proof (copy_description_splice v start desc 0 (description t)) as Hcopy.
  rewrite Nat.add_0_r, Hl, Hr3 in Hcopy. unfold kDescriptionSize in Hd.
  injection Hcopy as ->; cycle 1.
  - intros k c Hk. apply (view_at _ _ _ _ Hv). rewrite <- lookup_drop.
    by apply lookup_take_Some in Hk as [? _].
  - lia.
  - rewrite <- Hl, array_set_terminator in Hr4 by (done || lia). inv_ok. done.
Qed.

Lemma ParseJsonBody_sound v t t' :
  in_object v -> length (description t) = kDescriptionSize ->
  ParseJsonBody v t = Ok (true, t') ->
  exists desc, (1 <= length desc <= 10)%nat /\ (DQUOTE ∉ desc)
    /\ description t' = desc_field desc (description t)
    /\ is_int (value t') /\ timestamp t' = timestamp t.
Proof.
  intros Hv Hd H. unfold ParseJsonBody in H.
  destruct (sv_find _ _ _) as [e|]; [|by inv_ok].
  destruct (pos_lt _ _); [by inv_ok|]. inv_ok. destruct r as [[] x]; [|by inv_ok].
  cbn [negb] in H. apply ParseJsonTail_sound in H; [done|done|done|].
  eapply SubstringToInt_range; [|exact Hr]. unfold is_int, INT_MIN, INT_MAX. lia.
Qed.

(** ** The properties of the parser *)
Section FromHttpProperties.
Context `{Abseil}.

Lemma parse_transaction id_digit head rest digits tipo desc r :
  is_digit id_digit ->
  head_ok id_digit head (json_body digits tipo desc) ->
  NUL ∉ head -> NUL ∉ desc -> DQUOTE ∉ desc ->
  Forall is_digit digits -> dec_value digits <= INT_MAX ->
  tipo = 99 \/ tipo = 100 -> (1 <= length desc <= 10)%nat ->
  length (description (transaction r)) = kDescriptionSize ->
  FromHttp (post_request id_digit head (json_body digits tipo desc) ++ NUL :: rest) r
  = Ok (true, {| req_type := TRANSACTION;
                 req_id := id_digit - chr0;
                 transaction :=
                   {| value := if tipo =? 100 then - dec_value digits else dec_value digits;
                      description := desc_field desc (description (transaction r));
                      timestamp := timestamp (transaction r) |} |}).
Proof.
  intros Hid Hhead Hh Hnd Hq Hds Hmax Ht Hl Hd.
  assert (Hb : NUL ∉ json_body digits tipo desc).
  { unfold json_body. rewrite !not_elem_of_app. split_and!; try done; try by_decide.
    - by apply digits_no_byte; [|by_decide].
    - rewrite list_elem_of_singleton. unfold NUL. by destruct Ht; subst. }
  rewrite FromHttp_post by done.
  erewrite ParseJsonBody_render by (done || apply view_of_post).
  cbn [mbind outcome_bind negb]. do 4 f_equal. unfold signed_value.
  destruct (tipo =? 100); lia.
Qed.

(** C16: a well-formed [POST /clientes/<d>...] whose body is the JSON of a
    transaction (amount of at most INT_MAX, kind [c] or [d], description of 1
    to 10 bytes without a double quote) is accepted, and the request holds the id, the
    amount with the sign of its kind and the description with its terminator. *)
Theorem FromHttp_transaction id_digit head rest digits tipo desc r :
  is_digit id_digit ->
  head_ok id_digit head (json_body digits tipo desc) ->
  NUL ∉ head -> NUL ∉ desc -> DQUOTE ∉ desc ->
  Forall is_digit digits -> dec_value digits <= INT_MAX ->
  tipo = 99 \/ tipo = 100 -> (1 <= length desc <= 10)%nat ->
  length (description (transaction r)) = kDescriptionSize ->
  FromHttp (post_request id_digit head (json_body digits tipo desc) ++ NUL :: rest) r
  = Ok (true, {| req_type := TRANSACTION;
                 req_id := id_digit - chr0;
                 transaction :=
                   {| value := if tipo =? 100 then - dec_value digits else dec_value digits;
                      description := desc_field desc (description (transaction r));
                      timestamp := timestamp (transaction r) |} |}).
Proof. intros. by apply parse_transaction. Qed.

(** The same request with an amount above INT_MAX makes the digit loop
    overflow a signed [int]: undefined behaviour instead of a rejection. *)
Theorem FromHttp_amount_overflow id_digit head rest digits tipo desc r :
  is_digit id_digit ->
  head_ok id_digit head (json_body digits tipo desc) ->
  NUL ∉ head -> NUL ∉ desc -> tipo <> NUL ->
  Forall is_digit digits -> INT_MAX < dec_value digits ->
  FromHttp (post_request id_digit head (json_body digits tipo desc) ++ NUL :: rest) r
  = Fault SignedOverflow.
Proof.
  intros Hid Hhead Hh Hnd Ht Hds Hmax.
  assert (Hb : NUL ∉ json_body digits tipo desc).
  { unfold json_body. rewrite !not_elem_of_app. split_and!; try done; try by_decide.
    - by apply digits_no_byte; [|by_decide].
    - by rewrite list_elem_of_singleton. }
  rewrite FromHttp_post by done.
  erewrite ParseJsonBody_scan by (done || apply view_of_post).
  rewrite scan_int_overflow by (done || by_decide). done.
Qed.

(** C39: a request whose text ends with the comma after the amount makes the parser
    look for the kind 11 bytes after that comma; when fewer than 10 bytes of the
    buffer follow the terminator (a text of 1015 bytes or more in the 1025 bytes of a
    connection buffer) that read is outside the buffer. *)
Theorem FromHttp_reads_past_buffer id_digit head rest digits r :
  is_digit id_digit ->
  head_ok id_digit head (kValor ++ digits ++ [COMMA]) -> NUL ∉ head ->
  Forall is_digit digits -> dec_value digits <= INT_MAX -> (length rest < 10)%nat ->
  FromHttp (post_request id_digit head (kValor ++ digits ++ [COMMA]) ++ NUL :: rest) r
  = Fault OutOfBounds.
Proof.
  intros Hid Hhead Hh Hds Hmax Hrest.
  assert (Hb : NUL ∉ kValor ++ digits ++ [COMMA]).
  { rewrite !not_elem_of_app. split_and!; [by_decide| |by_decide].
    by apply digits_no_byte; [|by_decide]. }
  rewrite FromHttp_post by done.
  erewrite ParseJsonBody_scan by (done || apply view_of_post).
  rewrite scan_int_digits by done. cbn [mbind outcome_bind negb].
  unfold ParseJsonTail, sv_at. cbn [sv_mem sv_data].
  rewrite lookup_ge_None_2; [done|]. unfold post_request.
  rewrite !length_app. change (length (bytes "POST /clientes/")) with 15%nat.
  change (length kPostBeginBody) with 4%nat. change (length kValor) with 10%nat. simpl. lia.
Qed.

(** Every GET is answered for the customer whose id is the single byte
    after [/clientes/]; nothing after that byte is looked at, so
    [/clientes/12/extrato] and even [/clientes/1nonsense] are read as customer 1. *)
Theorem FromHttp_get id_digit tail_ rest r :
  is_digit id_digit -> NUL ∉ tail_ ->
  FromHttp (get_request id_digit tail_ ++ NUL :: rest) r
  = Ok (true, mkRequest BALANCE (id_digit - chr0) (transaction r)).
Proof.
  intros Hid Hn. unfold FromHttp. rewrite c_str_app.
  - cbn [mbind outcome_bind].
    change (get_request id_digit tail_)
      with (kGetVerb ++ bytes " /clientes/" ++ [id_digit] ++ tail_) at 1.
    rewrite StartsWith_app. unfold parse_id.
    rewrite (sv_at_0 _ _ 14 id_digit) by done. cbn [mbind outcome_bind].
    by rewrite SimpleAtoi_digit.
  - unfold get_request. rewrite !not_elem_of_app. split_and!; [by_decide| |done].
    rewrite list_elem_of_singleton. unfold is_digit, chr0, NUL in *. lia.
Qed.

(** C23: memory safety. When the text leaves at least 11 bytes of the buffer
    unused (and the buffer holds the fixed id positions), the parser reads and
    writes inside its objects: the only fault left is the overflow of the amount. *)
Theorem FromHttp_memory_safe buf text r :
  c_str buf = Ok text -> (length text + 11 <= length buf)%nat -> (16 <= length buf)%nat ->
  length (description (transaction r)) = kDescriptionSize ->
  faults_only (eq SignedOverflow) (FromHttp buf r).
Proof.
  intros Hc Hl H16 Hd. unfold FromHttp, parse_id. rewrite Hc. cbn [mbind outcome_bind].
  assert (Hs : forall i, (i < 16)%nat ->
    faults_only (eq SignedOverflow) (sv_at (mkView buf 0 (length text)) i)).
  { intros i Hi. apply sv_at_safe. simpl. lia. }
  apply faults_only_if.
  - apply faults_only_bind; [apply faults_only_bind; [apply Hs; lia|auto with outcome]|].
    intros [n|] _; apply faults_only_Ok.
  - apply faults_only_bind; [apply faults_only_bind; [apply Hs; lia|auto with outcome]|].
    intros [n|] _; [|apply faults_only_Ok].
    destruct (find_sub _ _) as [b|] eqn:Eb; [|apply faults_only_Ok].
    assert (b + 4 <= length text)%nat by by eapply (find_sub_bound kPostBeginBody).
    apply faults_only_bind; [apply ParseJsonBody_safe|]; unfold in_object; simpl; try lia.
    intros [[] t] _; apply faults_only_Ok.
Qed.

(** C24: soundness. Whatever the bytes received, an accepted transaction has an
    amount that fits an [int] and a description of 1 to 10 bytes without a
    double quote, stored with its terminator inside its 11 cells. *)
Theorem FromHttp_sound buf r r' :
  length (description (transaction r)) = kDescriptionSize ->
  FromHttp buf r = Ok (true, r') -> req_type r' = TRANSACTION ->
  exists desc, (1 <= length desc <= 10)%nat /\ (DQUOTE ∉ desc)
    /\ description (transaction r') = desc_field desc (description (transaction r))
    /\ length (description (transaction r')) = kDescriptionSize
    /\ is_int (value (transaction r')).
Proof.
  intros Hd H1 Ht. unfold FromHttp, parse_id in H1. inv_ok.
  destruct (StartsWith _ _); inv_ok.
  { destruct (SimpleAtoi _); by inv_ok. }
  destruct (SimpleAtoi _); [|by inv_ok].
  destruct (find_sub _ _) as [b|] eqn:Eb; [|by inv_ok]. inv_ok.
  case_match; subst. case_match; [by inv_ok|]. inv_ok.
  match goal with HP : ParseJsonBody _ _ = Ok (?b, _), Hb : negb ?b = false |- _ =>
    destruct b; [|done];
    apply ParseJsonBody_sound in HP as (desc & Hl & Hq & Hde & Hi & _); [| |done] end.
  - exists desc. cbn [transaction]. rewrite Hde. split_and!; try done; try lia.
    unfold desc_field. rewrite length_splice; [done|]. cbn [transaction] in *.
    rewrite Hd, length_app. unfold kDescriptionSize. simpl. lia.
  - apply (find_sub_bound kPostBeginBody) in Eb. unfold in_object. simpl.
    apply c_str_length in Hr. change (length kPostBeginBody) with 4%nat in Eb. lia.
Qed.
End FromHttpProperties.

(** ** The hypotheses of the properties at concrete requests *)
Definition blank_transaction : Transaction :=
  mkTransaction 0 (replicate kDescriptionSize 0) (replicate kTimestampSize 0).
Definition blank_request : Request := mkRequest BALANCE 0 blank_transaction.
Definition sample_head : list Z := bytesn "/transacoes HTTP/1.1|Host: localhost".



Lemma FromHttp_transaction_witness :
  FromHttp (H := abseil_ref)
    (post_request 49 sample_head (json_body (bytes "100") 100 (bytes "pix")) ++ NUL :: replicate 20 7)
    blank_request
  = Ok (true, mkRequest TRANSACTION 1
                (mkTransaction (-100) (bytes "pix" ++ replicate 8 0) (replicate 20 0))).
Proof. apply (@FromHttp_transaction abseil_ref); by_witness. Defined.

Lemma FromHttp_amount_overflow_witness :
  FromHttp (H := abseil_ref)
    (post_request 49 sample_head (json_body (bytes "2147483648") 99 (bytes "pix")) ++ NUL :: [])
    blank_request = Fault SignedOverflow.
Proof. apply (@FromHttp_amount_overflow abseil_ref); by_witness. Defined.

Lemma FromHttp_get_witness :
  FromHttp (H := abseil_ref) (get_request 49 (bytes "2/extrato HTTP/1.1") ++ NUL :: []) blank_request
  = Ok (true, mkRequest BALANCE 1 blank_transaction).
Proof. apply (@FromHttp_get abseil_ref); by_witness. Defined.

Lemma FromHttp_memory_safe_witness :
  faults_only (eq SignedOverflow)
    (FromHttp (H := abseil_ref)
       (post_request 49 sample_head (bytes "{ not json, at all }") ++ replicate 11 0) blank_request).
Proof.
  apply (@FromHttp_memory_safe abseil_ref _
           (post_request 49 sample_head (bytes "{ not json, at all }"))); by_witness.
Defined.

Lemma FromHttp_sound_witness :
  exists desc, (1 <= length desc <= 10)%nat /\ (DQUOTE ∉ desc)
    /\ bytes "pix" ++ replicate 8 0 = desc_field desc (replicate kDescriptionSize 0)
    /\ length (bytes "pix" ++ replicate 8 0) = kDescriptionSize /\ is_int (-100).
Proof.
  apply (@FromHttp_sound abseil_ref
    (post_request 49 sample_head (json_body (bytes "100") 100 (bytes "pix")) ++ [NUL]) blank_request
    (mkRequest TRANSACTION 1
       (mkTransaction (-100) (bytes "pix" ++ replicate 8 0) (replicate 20 0)))); by_witness.
Defined.

Lemma FromHttp_reads_past_buffer_witness :
  FromHttp (H := abseil_ref)
    (post_request 49 sample_head (kValor ++ bytes "100" ++ [COMMA]) ++ NUL :: replicate 9 0)
    blank_request = Fault OutOfBounds.
Proof. apply (@FromHttp_reads_past_buffer abseil_ref); by_witness. Defined.
