(* ===== verification/ToJson.v ===== *)
(** * ToJson: the statement of a customer ([rinha/to_json.cc])

    The literals are written with ['] for a double quote. *)
From S2P Require Import Prelude Text Structs Account.
#[local] Open Scope Z_scope.

Definition kTotal : list Z := bytesq "{'saldo':{'total':".
Definition kData : list Z := bytesq ",'data_extrato':'".
Definition kLimite : list Z := bytesq "','limite':".
Definition kUltimas : list Z := bytesq "},'ultimas_transacoes':[".
Definition kTransacaoValor : list Z := bytesq "{'valor':".
Definition kTransacaoTipo : list Z := bytesq ",'tipo':'".
Definition kTransacaoDescricao : list Z := bytesq "','descricao':'".
Definition kTransacaoRealizada : list Z := bytesq "','realizada_em':'".
Definition kTransacaoEnd : list Z := bytesq "'}".
Definition kEnd : list Z := bytesq "]}".

Section ToJson.
Context `{Abseil}.

(** [to_json(const Transaction &)]. *)
Definition to_json (t : Transaction) : outcome (list Z) :=
  v ← (if 0 <? value t then Ok (value t) else int_op (- value t));
  d ← c_str (description t);
  ts ← c_str (timestamp t);
  Ok (StrCat [ANstr kTransacaoValor; ANint v; ANstr kTransacaoTipo;
              ANstr (if 0 <? value t then bytes "c" else bytes "d");
              ANstr kTransacaoDescricao; ANstr d; ANstr kTransacaoRealizada; ANstr ts;
              ANstr kTransacaoEnd]).

(** [for (int i = n - 1; i >= 0; i--)]. *)
Fixpoint to_json_partial (transactions : list Transaction) (n : nat) (json : list Z)
    : outcome (list Z) :=
  match n with
  | O => Ok json
  | S i =>
      t ← array_get transactions (Z.of_nat i);
      s ← to_json t;
      let json := StrAppend json [ANstr s] in
      let json := if (i =? 0)%nat then json else StrAppend json [ANstr (bytes ",")] in
      to_json_partial transactions i json
  end.

(** [for (int j = 10 - n; j < 10; j++)]. *)
Fixpoint to_json_full (transactions : list Transaction) (n : nat) (i : Z) (json : list Z)
    : outcome (list Z) :=
  match n with
  | O => Ok json
  | S n' =>
      let j := (10 - n)%nat in
      t ← array_get transactions i;
      s ← to_json t;
      let json := StrAppend json [ANstr s] in
      let json := if (j =? 9)%nat then json else StrAppend json [ANstr (bytes ",")] in
      to_json_full transactions n' (Z.rem (i - 1 + 10) 10) json
  end.

(** [to_json(const Transaction[], int, int)]. *)
Definition to_json_list (transactions : list Transaction)
    (transaction_count next_transaction_index : Z) : outcome (list Z) :=
  if transaction_count <? 10
  then to_json_partial transactions (Z.to_nat next_transaction_index) []
  else to_json_full transactions 10 (Z.rem (next_transaction_index - 1 + 10) 10) [].

Definition CustomerToJson (customer : Customer) (data_extrato : list Z) : outcome (list Z) :=
  ts ← to_json_list (transactions customer) (transaction_count customer)
         (next_transaction_index customer);
  Ok (StrCat [ANstr kTotal; ANint (balance customer); ANstr kData; ANstr data_extrato;
              ANstr kLimite; ANint (limit customer); ANstr kUltimas; ANstr ts; ANstr kEnd]).
End ToJson.

(** ** Reference rendering *)

(** Elements separated by commas. *)
Fixpoint comma_list (ls : list (list Z)) : list Z :=
  match ls with
  | [] => []
  | [l] => l
  | l :: ls' => l ++ bytes "," ++ comma_list ls'
  end.

(** A transaction that can be rendered: its absolute value is an [int] and its
    strings are terminated. *)
Record renders (t : Transaction) (d ts : list Z) : Prop := {
  renders_value : is_int (value t) /\ value t <> INT_MIN;
  renders_description : c_str (description t) = Ok d;
  renders_timestamp : c_str (timestamp t) = Ok ts
}.

(** A transaction of zero is shown as a debit. *)
Definition json_of (x : Z) (d ts : list Z) : list Z :=
  kTransacaoValor ++ dec_nat (Z.abs x) ++ kTransacaoTipo
    ++ (if 0 <? x then bytes "c" else bytes "d")
    ++ kTransacaoDescricao ++ d ++ kTransacaoRealizada ++ ts ++ kTransacaoEnd.

Section ToJsonTheorems.
Context `{Abseil}.

Lemma to_json_renders t d ts : renders t d ts -> to_json t = Ok (json_of (value t) d ts).
Proof.
  intros [[Hi Hm] Hd Hts]. unfold to_json.
  replace (if 0 <? value t then _ else _) with (Ok (Z.abs (value t))); cycle 1.
  { destruct (Z.ltb_spec 0 (value t)); [f_equal; lia|].
    rewrite int_op_in_range; [f_equal; lia|].
    unfold is_int, INT_MIN, INT_MAX in *. lia. }
  cbn [mbind outcome_bind]. rewrite Hd, Hts. cbn [mbind outcome_bind].
  rewrite StrCat_spec. unfold json_of. cbn [fmap list_fmap piece_bytes].
  rewrite !mjoin_cons, dec_int_nonneg by lia. by rewrite app_nil_r.
Qed.

(** [shown f h]: [f] renders the transactions of [h] one by one. *)
Definition shown (h : list Transaction) (js : list (list Z)) : Prop :=
  Forall2 (fun t j => to_json t = Ok j) h js.

Lemma StrAppend_str dest s : StrAppend dest [ANstr s] = dest ++ s.
Proof. rewrite StrAppend_spec. cbn. by rewrite app_nil_r. Qed.

(** The downward loop renders the slots [n-1], ..., [0]. *)
Lemma to_json_partial_spec ts n js json :
  length js = n ->
  (forall k j, js !! k = Some j ->
     exists t, ts !! (n - 1 - k)%nat = Some t /\ to_json t = Ok j) ->
  to_json_partial ts n json = Ok (json ++ comma_list js).
Proof.
  revert js json. induction n as [|n IH]; intros [|j js] json Hl Hjs; try done; simpl.
  { by rewrite app_nil_r. }
  injection Hl as Hl.
  destruct (Hjs 0%nat j eq_refl) as (t & Ht & Hj).
  replace (S n - 1 - 0)%nat with n in Ht by lia.
  rewrite (array_get_nat _ _ _ Ht). cbn [mbind outcome_bind]. rewrite Hj.
  cbn [mbind outcome_bind]. rewrite !StrAppend_str.
  rewrite (IH js); [|done|]; cycle 1.
  { intros k j' Hk. destruct (Hjs (S k) j' Hk) as (t' & Ht' & ?).
    exists t'. by replace (n - 1 - k)%nat with (S n - 1 - S k)%nat by lia. }
  destruct js as [|j' js]; simpl in Hl; subst n; simpl.
  - by rewrite app_nil_r.
  - by rewrite <- !app_assoc.
Qed.

(** The circular loop renders ten slots, backwards from [i]. *)
Lemma to_json_full_spec ts n js i json :
  (n <= 10)%nat -> length js = n -> 0 <= i < 10 ->
  (forall k j, js !! k = Some j ->
     exists t, ts !! Z.to_nat ((i - Z.of_nat k) mod 10) = Some t /\ to_json t = Ok j) ->
  to_json_full ts n i json = Ok (json ++ comma_list js).
Proof.
  intros Hn. revert js i json. induction n as [|n IH]; intros [|j js] i json Hl Hi Hjs; try done.
  { simpl. by rewrite app_nil_r. }
  injection Hl as Hl. cbn [to_json_full].
  destruct (Hjs 0%nat j eq_refl) as (t & Ht & Hj).
  rewrite (proj2 (array_get_Ok ts i t)); cycle 1.
  { split; [lia|]. rewrite <- Ht. do 2 f_equal. lia. }
  cbn [mbind outcome_bind]. rewrite Hj. cbn [mbind outcome_bind]. rewrite !StrAppend_str.
  rewrite (IH ltac:(lia) js); [|done|rewrite Z.rem_mod_nonneg; lia|]; cycle 1.
  { intros k j' Hk. destruct (Hjs (S k) j' Hk) as (t' & Ht' & ?).
    exists t'. rewrite Z.rem_mod_nonneg by lia. split; [|done]. rewrite <- Ht'. do 2 f_equal. lia. }
  destruct js as [|j' js]; simpl in Hl; subst n.
  - simpl. by rewrite app_nil_r.
  - replace (_ =? 9)%nat with false by (symmetry; apply Nat.eqb_neq; lia).
    by rewrite <- !app_assoc.
Qed.

(** Both loops agree with the reference on an account: the last ten accepted
    transactions, newest first. *)
Lemma to_json_list_ring h c js :
  ring h c -> shown (take 10 h) js ->
  to_json_list (transactions c) (transaction_count c) (next_transaction_index c)
  = Ok (comma_list js).
Proof.
  intros [Hl Hc Hn Hs] Hjs. unfold to_json_list. rewrite Hc, Hn.
  pose proof (Forall2_length _ _ _ Hjs) as Hlen. rewrite length_take in Hlen.
  assert (Hjt : forall k j, js !! k = Some j ->
    exists t, transactions c !! ((length h - 1 - k) mod 10)%nat = Some t /\ to_json t = Ok j).
  { intros k j Hk. destruct (Forall2_lookup_r _ _ _ _ _ Hjs Hk) as (t & Ht & Hj).
    apply lookup_take_Some in Ht as [Ht Hk10]. exists t. split; [|done].
    rewrite Hs; [done|]. apply lookup_lt_Some in Ht. lia. }
  destruct (Z.ltb_spec (Z.of_nat (Nat.min 11 (length h))) 10).
  - rewrite Nat2Z.id, Nat.mod_small by lia.
    rewrite (to_json_partial_spec _ _ js); [done|lia|].
    intros k j Hk. destruct (Hjt k j Hk) as (t & Ht & Hj). exists t. split; [|done].
    rewrite Nat.mod_small in Ht by lia. done.
  - rewrite (to_json_full_spec _ _ js); [done|lia|lia|rewrite Z.rem_mod_nonneg; lia|].
    intros k j Hk. destruct (Hjt k j Hk) as (t & Ht & Hj). exists t. split; [|done].
    rewrite <- Ht. f_equal. apply lookup_lt_Some in Hk. rewrite Z.rem_mod_nonneg by lia. lia.
Qed.

(** The statement of an account. *)
Definition statement (l : Z) (h : list Transaction) (js : list (list Z)) (date : list Z) : list Z :=
  kTotal ++ dec_int (total h) ++ kData ++ date ++ kLimite ++ dec_int l
    ++ kUltimas ++ comma_list js ++ kEnd.

Lemma CustomerToJson_account l h c js date :
  account l h c -> shown (take 10 h) js -> CustomerToJson c date = Ok (statement l h js date).
Proof.
  intros [Hl Hb _ Hr] Hjs. unfold CustomerToJson. erewrite to_json_list_ring by done.
  cbn [mbind outcome_bind]. rewrite StrCat_spec, Hl, Hb. cbn [fmap list_fmap piece_bytes].
  rewrite !mjoin_cons. by rewrite app_nil_r.
Qed.

(** C15: the statement of an account with accepted transactions [h] (newest
    first) shows the balance, the date, the limit and exactly the last ten
    transactions, newest first, whether the ring has wrapped or not. *)
Theorem CustomerToJson_statement l h c js date :
  account l h c -> shown (take 10 h) js ->
  CustomerToJson c date
  = Ok (kTotal ++ dec_int (total h) ++ kData ++ date ++ kLimite ++ dec_int l
          ++ kUltimas ++ comma_list js ++ kEnd).
Proof. apply CustomerToJson_account. Qed.

(** A transaction is shown with its absolute value and with kind [c]
    exactly when its value is positive; in particular a credit of zero comes out
    as a debit. *)
Theorem to_json_transaction t d ts :
  is_int (value t) -> value t <> INT_MIN ->
  c_str (description t) = Ok d -> c_str (timestamp t) = Ok ts ->
  to_json t
  = Ok (kTransacaoValor ++ dec_nat (Z.abs (value t)) ++ kTransacaoTipo
          ++ (if 0 <? value t then bytes "c" else bytes "d")
          ++ kTransacaoDescricao ++ d ++ kTransacaoRealizada ++ ts ++ kTransacaoEnd).
Proof. intros. by apply to_json_renders. Qed.
End ToJsonTheorems.

(** ** The hypotheses at a concrete account *)
Definition sample_transaction (x : Z) : Transaction :=
  mkTransaction x (bytes "pix" ++ replicate 8 0) (bytes "2024-02-27 21:36" ++ replicate 4 0).

(** Twelve accepted transactions: the ring has wrapped. *)
Definition sample_history : list Transaction :=
  sample_transaction <$> [12; -11; 10; 9; 8; 7; 6; 5; 4; 3; 2; 1].

Definition sample_customer : Customer :=
  mkCustomer 1000 56
    (sample_transaction <$> [-11; 12; 3; 4; 5; 6; 7; 8; 9; 10]) 11 2.

Lemma sample_account : account 1000 sample_history sample_customer.
Proof.
  split; [done|done|by_decide|]. split; [done..|].
  intros k Hk. do 10 (destruct k as [|k]; [reflexivity|]). simpl in Hk. lia.
Qed.

Definition sample_json (x : Z) : list Z := json_of x (bytes "pix") (bytes "2024-02-27 21:36").

Lemma CustomerToJson_statement_witness :
  CustomerToJson (H := abseil_ref) sample_customer (bytes "2024-02-27 21:36")
  = Ok (kTotal ++ bytes "56" ++ kData ++ bytes "2024-02-27 21:36" ++ kLimite ++ bytes "1000"
          ++ kUltimas ++ comma_list (sample_json <$> [12; -11; 10; 9; 8; 7; 6; 5; 4; 3]) ++ kEnd).
Proof.
  apply (@CustomerToJson_statement abseil_ref 1000 sample_history);
    [apply sample_account | repeat constructor].
Defined.

Lemma to_json_transaction_witness :
  to_json (H := abseil_ref) (sample_transaction 0)
  = Ok (kTransacaoValor ++ bytes "0" ++ kTransacaoTipo ++ bytes "d" ++ kTransacaoDescricao
          ++ bytes "pix" ++ kTransacaoRealizada ++ bytes "2024-02-27 21:36" ++ kTransacaoEnd).
Proof. apply (@to_json_transaction abseil_ref); by_decide. Defined.
