(* ===== verification/StringBuffer.v ===== *)
(** * StringBuffer: the growable byte queue of the client library
    ([libhsclient/string_buffer.hpp])

    A [string_buffer] owns a block of [alloc_size] bytes of which the cells
    from [begin_offset] to [end_offset] are its contents.  Offsets are [size_t]s.
    [realloc] is a parameter with its documented contract. *)
From S2P Require Import Prelude.
#[local] Open Scope Z_scope.

Class Allocator := {
  realloc : list Z -> Z -> option (list Z);
  realloc_spec : forall b n b', 0 <= n -> realloc b n = Some b' ->
    Z.of_nat (length b') = n
    /\ forall i x, Z.of_nat i < n -> b !! i = Some x -> b' !! i = Some x
}.

Record string_buffer := mkBuffer {
  sb_buffer : list Z;
  begin_offset : Z;
  end_offset : Z;
  alloc_size : Z
}.

(** Addition and subtraction of [size_t]s. *)
Definition size_add (a b : Z) : Z := wrap_u64 (a + b).
Definition size_sub (a b : Z) : Z := wrap_u64 (a - b).

(** [memcpy(buffer + off, s, length s)] inside the owned block. *)
Definition mem_write (l : list Z) (off : Z) (s : list Z) : outcome (list Z) :=
  if (off <? 0) || (Z.of_nat (length l) <? off + Z.of_nat (length s)) then Fault OutOfBounds
  else Ok (splice l (Z.to_nat off) s).

Section Operations.
Context `{Allocator}.

Definition string_buffer_new : string_buffer := mkBuffer [] 0 0 0.

Definition sb_size (b : string_buffer) : Z := size_sub (end_offset b) (begin_offset b).

Definition clear (b : string_buffer) : string_buffer :=
  mkBuffer (sb_buffer b) 0 0 (alloc_size b).

(** The doubling loop of [reserve]; every turn doubles a positive 64-bit
    size, so 65 turns always end it. *)
Fixpoint grow (fuel : nat) (asz target : Z) : outcome Z :=
  if target <=? asz then Ok asz
  else match fuel with
  | O => Fault OutOfFuel
  | S f =>
      let asz := if asz =? 0 then 16 else asz in
      let asz_n := wrap_u64 (asz * 2) in
      if asz_n <? asz then Fault FatalAbort else grow f asz_n target
  end.

Definition grow_fuel : nat := 65.

Definition reserve (b : string_buffer) (len : Z) : outcome string_buffer :=
  let need := size_add (begin_offset b) len in
  if need <=? alloc_size b then Ok b
  else
    asz ← grow grow_fuel (alloc_size b) need;
    p ← of_option FatalAbort (realloc (sb_buffer b) asz);
    Ok (mkBuffer p (begin_offset b) (end_offset b) asz).

Definition resize (b : string_buffer) (len : Z) : outcome string_buffer :=
  b' ← (if sb_size b <? len then
          b1 ← reserve b len;
          m ← mem_write (sb_buffer b1) (end_offset b1)
                (replicate (Z.to_nat (size_sub len (sb_size b1))) 0);
          Ok (mkBuffer m (begin_offset b1) (end_offset b1) (alloc_size b1))
        else Ok b);
  Ok (mkBuffer (sb_buffer b') (begin_offset b') (size_add (begin_offset b') len)
        (alloc_size b')).

Definition erase_front (b : string_buffer) (len : Z) : string_buffer :=
  if sb_size b <=? len then clear b
  else mkBuffer (sb_buffer b) (size_add (begin_offset b) len) (end_offset b) (alloc_size b).

(** Returns the buffer and the offset that [buffer + end_offset] points at. *)
Definition make_space (b : string_buffer) (len : Z) : outcome (string_buffer * Z) :=
  b' ← reserve b (size_add (sb_size b) len);
  Ok (b', end_offset b').

(** A store of the caller through the pointer that [make_space] returned. *)
Definition store_at (b : string_buffer) (off : Z) (s : list Z) : outcome string_buffer :=
  m ← mem_write (sb_buffer b) off s;
  Ok (mkBuffer m (begin_offset b) (end_offset b) (alloc_size b)).

Definition space_wrote (b : string_buffer) (len : Z) : string_buffer :=
  let len := Z.min len (size_sub (alloc_size b) (end_offset b)) in
  mkBuffer (sb_buffer b) (begin_offset b) (size_add (end_offset b) len) (alloc_size b).

Definition append (b : string_buffer) (s : list Z) : outcome string_buffer :=
  let len := Z.of_nat (length s) in
  b' ← reserve b (size_add (sb_size b) len);
  m ← mem_write (sb_buffer b') (end_offset b') s;
  Ok (mkBuffer m (begin_offset b') (size_add (end_offset b') len) (alloc_size b')).

(** [append_literal("...")]: the array without its terminator. *)
Definition append_literal (b : string_buffer) (str : list Z) : outcome string_buffer :=
  append b str.

Definition append_2 (b : string_buffer) (s1 s2 : list Z) : outcome string_buffer :=
  let l1 := Z.of_nat (length s1) in
  let l2 := Z.of_nat (length s2) in
  b' ← reserve b (size_add (size_add (end_offset b) l1) l2);
  m ← mem_write (sb_buffer b') (end_offset b') s1;
  m' ← mem_write m (size_add (end_offset b') l1) s2;
  Ok (mkBuffer m' (begin_offset b') (size_add (end_offset b') (size_add l1 l2)) (alloc_size b')).
End Operations.

(** ** Representation *)

(** The bytes from [begin()] to [end()]. *)
Definition contents (b : string_buffer) : list Z :=
  take (Z.to_nat (end_offset b - begin_offset b)) (drop (Z.to_nat (begin_offset b)) (sb_buffer b)).

Record sb_ok (b : string_buffer) : Prop := {
  sb_begin_end : 0 <= begin_offset b <= end_offset b;
  sb_end_alloc : end_offset b <= alloc_size b;
  sb_alloc : alloc_size b = Z.of_nat (length (sb_buffer b));
  sb_alloc_u64 : alloc_size b < 2 ^ 64
}.

(** Below this size nothing in the arithmetic wraps. *)
Definition sb_limit : Z := 2 ^ 62.

(** [holds b l]: a well-formed buffer whose contents are [l]. *)
Definition holds (b : string_buffer) (l : list Z) : Prop := sb_ok b /\ contents b = l.

Lemma sb_ok_new : holds string_buffer_new [].
Proof. by split; [split|]. Qed.

Lemma size_add_small a b : 0 <= a + b < 2 ^ 64 -> size_add a b = a + b.
Proof. apply Z.mod_small. Qed.

Lemma size_sub_small a b : 0 <= a - b < 2 ^ 64 -> size_sub a b = a - b.
Proof. apply Z.mod_small. Qed.

Lemma sb_size_ok b : sb_ok b -> sb_size b = end_offset b - begin_offset b.
Proof. intros []. apply size_sub_small. lia. Qed.

Lemma length_contents b : sb_ok b -> Z.of_nat (length (contents b)) = end_offset b - begin_offset b.
Proof. intros []. unfold contents. rewrite length_take, length_drop. lia. Qed.

Lemma sb_size_contents b : sb_ok b -> sb_size b = Z.of_nat (length (contents b)).
Proof. intros. by rewrite sb_size_ok, length_contents. Qed.

Lemma clear_holds b : sb_ok b -> holds (clear b) [].
Proof. intros []. split; [split; simpl; lia|done]. Qed.

Lemma erase_front_holds b n :
  sb_ok b -> 0 <= n -> holds (erase_front b n) (drop (Z.to_nat n) (contents b)).
Proof.
  intros Hb Hn. unfold erase_front. rewrite sb_size_contents by done.
  pose proof (length_contents b Hb). destruct Hb as [H1 H2 H3 H4].
  destruct (Z.leb_spec (Z.of_nat (length (contents b))) n).
  - rewrite drop_ge by lia. by apply clear_holds.
  - rewrite size_add_small by lia. split; [split; simpl; lia|].
    unfold contents in *. simpl. rewrite skipn_firstn_comm, drop_drop.
    f_equal; [lia|]. f_equal. lia.
Qed.

(** *** Growth *)

(** One turn of the loop from a positive size: it aborts when doubling wraps. *)
Lemma grow_step f asz target :
  0 < asz < 2 ^ 64 -> asz < target ->
  grow (S f) asz target
  = if 2 ^ 64 <=? asz * 2 then Fault FatalAbort else grow f (asz * 2) target.
Proof.
  intros Ha Ht. simpl. destruct (Z.leb_spec target asz); [lia|].
  destruct (Z.eqb_spec asz 0); [lia|]. unfold wrap_u64.
  destruct (Z.leb_spec (2 ^ 64) (asz * 2)).
  - replace ((asz * 2) mod 2 ^ 64) with (asz * 2 - 2 ^ 64); cycle 1.
    { apply (Z.mod_unique_pos _ _ 1); lia. }
    destruct (Z.ltb_spec (asz * 2 - 2 ^ 64) asz); [done|lia].
  - rewrite Z.mod_small by lia. destruct (Z.ltb_spec (asz * 2) asz); [lia|done].
Qed.

Lemma grow_done f asz target : target <= asz -> grow f asz target = Ok asz.
Proof. intros. destruct f; simpl; destruct (Z.leb_spec target asz); done || lia. Qed.

(** From an empty block the loop starts with 32 bytes. *)
Lemma grow_zero f target : 0 < target -> grow (S f) 0 target = grow f 32 target.
Proof. intros. simpl. by destruct (Z.leb_spec target 0); [lia|]. Qed.

Lemma grow_range fuel asz target r :
  0 < asz < 2 ^ 64 -> grow fuel asz target = Ok r ->
  target <= r /\ asz <= r < 2 ^ 64.
Proof.
  revert asz. induction fuel as [|f IH]; intros asz Ha Hg;
    destruct (Z.le_gt_cases target asz);
    try (rewrite grow_done in Hg by done; injection Hg as <-; lia).
  - simpl in Hg. destruct (Z.leb_spec target asz); [lia|done].
  - rewrite grow_step in Hg by lia. destruct (Z.leb_spec (2 ^ 64) (asz * 2)); [done|].
    apply IH in Hg; lia.
Qed.

Lemma grow_faults fuel asz target :
  0 < asz < 2 ^ 64 -> 2 ^ 64 <= asz * 2 ^ Z.of_nat fuel ->
  faults_only (eq FatalAbort) (grow fuel asz target).
Proof.
  revert asz. induction fuel as [|f IH]; intros asz Ha Hf;
    destruct (Z.le_gt_cases target asz);
    try (rewrite grow_done by done; apply faults_only_Ok).
  - change (2 ^ Z.of_nat 0) with 1 in Hf. lia.
  - rewrite grow_step by lia. destruct (Z.leb_spec (2 ^ 64) (asz * 2)); [by intros g [= <-]|].
    apply IH; [lia|]. rewrite Nat2Z.inj_succ, Z.pow_succ_r in Hf by lia. lia.
Qed.

(** The loop ends within its fuel, whatever the sizes. *)
Lemma grow_terminates asz target :
  0 <= asz < 2 ^ 64 -> faults_only (eq FatalAbort) (grow grow_fuel asz target).
Proof.
  intros Ha. destruct (Z.le_gt_cases target asz); [rewrite grow_done by done; apply faults_only_Ok|].
  destruct (Z.eq_dec asz 0) as [->|].
  - unfold grow_fuel. rewrite grow_zero by lia. apply grow_faults; [lia|].
    change (Z.of_nat 64) with 64. lia.
  - apply grow_faults; [lia|]. unfold grow_fuel. change (Z.of_nat 65) with 65. lia.
Qed.

Lemma grow_result asz target r :
  0 <= asz < 2 ^ 64 -> grow grow_fuel asz target = Ok r -> target <= r /\ asz <= r < 2 ^ 64.
Proof.
  intros Ha Hg. destruct (Z.eq_dec asz 0) as [->|]; [|apply (grow_range grow_fuel); lia || done].
  destruct (Z.le_gt_cases target 0).
  - rewrite grow_done in Hg by done. injection Hg as <-. lia.
  - unfold grow_fuel in Hg. rewrite grow_zero in Hg by lia. apply grow_range in Hg; lia.
Qed.

(** *** Writes *)
Lemma mem_write_Ok l off s :
  0 <= off -> off + Z.of_nat (length s) <= Z.of_nat (length l) ->
  mem_write l off s = Ok (splice l (Z.to_nat off) s).
Proof.
  intros. unfold mem_write.
  destruct (Z.ltb_spec off 0), (Z.ltb_spec (Z.of_nat (length l)) (off + Z.of_nat (length s)));
    simpl; lia || done.
Qed.

(** Storing behind the contents leaves them alone, and the new bytes become
    contents when [end_offset] moves over them. *)
Lemma contents_store b s m :
  sb_ok b -> end_offset b + Z.of_nat (length s) <= alloc_size b ->
  mem_write (sb_buffer b) (end_offset b) s = Ok m ->
  holds (mkBuffer m (begin_offset b) (end_offset b + Z.of_nat (length s)) (alloc_size b))
    (contents b ++ s).
Proof.
  intros [H1 H2 H3 H4] Hs Hw. rewrite mem_write_Ok in Hw by lia. injection Hw as <-.
  split; [split; simpl; rewrite ?length_splice; lia|].
  unfold contents, splice. simpl.
  rewrite drop_app_le by (rewrite length_take; lia).
  rewrite skipn_firstn_comm.
  set (d := drop (Z.to_nat (begin_offset b)) (sb_buffer b)).
  set (n := (Z.to_nat (end_offset b) - Z.to_nat (begin_offset b))%nat).
  replace (Z.to_nat (end_offset b - begin_offset b)) with n by lia.
  assert (Hl : length (take n d) = n).
  { rewrite length_take. unfold d. rewrite length_drop. lia. }
  rewrite take_app_ge by lia. rewrite Hl, take_app_le by lia. f_equal.
  rewrite take_ge by lia. done.
Qed.

Section Correctness.
Context `{Allocator}.

Lemma realloc_contents p l n lo hi :
  0 <= n -> realloc l n = Some p -> (lo <= hi)%nat -> (hi <= length l)%nat ->
  Z.of_nat hi <= n -> take (hi - lo) (drop lo p) = take (hi - lo) (drop lo l).
Proof.
  intros Hn [Hl Hx]%realloc_spec Hlo Hhi Hn'; [|done]. apply list_eq_same_length with (hi - lo)%nat.
  - rewrite length_take, length_drop. lia.
  - rewrite length_take, length_drop. lia.
  - intros i x y Hi. rewrite !lookup_take_lt, !lookup_drop by lia.
    intros Hpx Hly. apply Hx in Hly; [congruence|lia].
Qed.

(** [reserve] keeps the contents and makes room for [len] bytes after
    [begin_offset]; the only way out is the abort on memory exhaustion. *)
Lemma reserve_faults b len : sb_ok b -> faults_only (eq FatalAbort) (reserve b len).
Proof.
  intros [H1 H2 H3 H4]. unfold reserve. apply faults_only_if; [apply faults_only_Ok|].
  apply faults_only_bind; [apply grow_terminates; lia|]. intros asz Hg.
  apply faults_only_bind; [|intros; apply faults_only_Ok].
  intros f. destruct (realloc _ _); simpl; [done|]. by intros [= <-].
Qed.

Lemma reserve_ok b len b' :
  sb_ok b -> 0 <= begin_offset b + len < 2 ^ 64 -> reserve b len = Ok b' ->
  holds b' (contents b) /\ begin_offset b' = begin_offset b /\ end_offset b' = end_offset b
  /\ begin_offset b + len <= alloc_size b' /\ alloc_size b <= alloc_size b'.
Proof.
  intros Hb Hn Hr. pose proof Hb as [H1 H2 H3 H4].
  unfold reserve in Hr. rewrite size_add_small in Hr by lia.
  destruct (Z.leb_spec (begin_offset b + len) (alloc_size b)).
  { inv_ok. split_and!; done || lia. }
  inv_ok. apply grow_result in Hr0 as (? & ? & ?); [|lia].
  pose proof (realloc_spec (sb_buffer b) r r0 ltac:(lia) Hr1) as [Hl _].
  split_and!; simpl; try done; try lia. split; [split; simpl; lia|].
  unfold contents. simpl.
  replace (Z.to_nat (end_offset b - begin_offset b))
    with (Z.to_nat (end_offset b) - Z.to_nat (begin_offset b))%nat by lia.
  eapply realloc_contents; [|exact Hr1|..]; lia.
Qed.

(** *** Appending *)

(** Room for [n] more bytes. *)
Lemma reserve_room b n b' :
  sb_ok b -> 0 <= n -> end_offset b + n < 2 ^ 64 ->
  reserve b (size_add (sb_size b) n) = Ok b' ->
  holds b' (contents b) /\ end_offset b' = end_offset b /\ end_offset b + n <= alloc_size b'.
Proof.
  intros Hb Hn He Hr. pose proof Hb as [H1 H2 H3 H4].
  rewrite sb_size_ok, size_add_small in Hr by (done || lia).
  apply reserve_ok in Hr as (Hh & _ & ? & ? & _); [|done|lia].
  split_and!; [done|done|lia].
Qed.

(** [outcome_holds m l]: [m] either delivers a buffer that holds [l] or dies
    for want of memory. *)
Definition outcome_holds (m : outcome string_buffer) (l : list Z) : Prop :=
  match m with Ok b => holds b l | Fault f => f = FatalAbort end.

Lemma reserve_cases b n :
  sb_ok b ->
  (exists b', reserve b n = Ok b') \/ reserve b n = Fault FatalAbort.
Proof.
  intros Hb. pose proof (reserve_faults b n Hb) as Hf.
  destruct (reserve b n) as [b'|f] eqn:E; [eauto|]. right. by rewrite (Hf f eq_refl).
Qed.

Lemma append_holds b l s :
  holds b l -> end_offset b + Z.of_nat (length s) < 2 ^ 64 ->
  outcome_holds (append b s) (l ++ s).
Proof.
  intros [Hb <-] Hs. unfold append.
  destruct (reserve_cases b (size_add (sb_size b) (Z.of_nat (length s))) Hb) as [[b' Hr]|Hr];
    rewrite Hr; [|done]. cbn [mbind outcome_bind].
  apply reserve_room in Hr as ([Hb' Hc] & He & Hroom); [|done|lia|lia].
  pose proof Hb' as [H1 H2 H3 H4].
  destruct (mem_write _ _ _) as [m|f] eqn:Hw; cbn [mbind outcome_bind outcome_holds].
  - rewrite size_add_small by lia. rewrite <- Hc. apply contents_store; [done|lia|done].
  - rewrite mem_write_Ok in Hw by lia. done.
Qed.

(** What [escape_string] does with the buffer: reserve [n] bytes, store [s]
    through the returned pointer, then declare the bytes written. *)
Definition write_space (b : string_buffer) (n : Z) (s : list Z) : outcome string_buffer :=
  '(b1, wp) ← make_space b n;
  b2 ← store_at b1 wp s;
  Ok (space_wrote b2 (Z.of_nat (length s))).

Lemma write_space_holds b l n s :
  holds b l -> Z.of_nat (length s) <= n -> end_offset b + n < 2 ^ 64 ->
  outcome_holds (write_space b n s) (l ++ s).
Proof.
  intros [Hb <-] Hs Hn. unfold write_space, make_space.
  destruct (reserve_cases b (size_add (sb_size b) n) Hb) as [[b' Hr]|Hr];
    rewrite Hr; [|done]. cbn [mbind outcome_bind].
  apply reserve_room in Hr as ([Hb' Hc] & He & Hroom); [|done|lia|lia].
  pose proof Hb' as [H1 H2 H3 H4]. unfold store_at.
  destruct (mem_write _ _ _) as [m|f] eqn:Hw; cbn [mbind outcome_bind outcome_holds].
  - unfold space_wrote. cbn [sb_buffer begin_offset end_offset alloc_size].
    rewrite size_sub_small, Z.min_l, size_add_small by lia.
    rewrite <- Hc. apply contents_store; [done|lia|done].
  - rewrite mem_write_Ok in Hw by lia. done.
Qed.

Lemma append_2_holds b l s1 s2 :
  holds b l -> end_offset b + Z.of_nat (length s1) + Z.of_nat (length s2) < 2 ^ 63 ->
  outcome_holds (append_2 b s1 s2) (l ++ s1 ++ s2).
Proof.
  intros [Hb <-] Hs. unfold append_2. pose proof Hb as [H1 H2 H3 H4].
  rewrite (size_add_small (end_offset b)), (size_add_small (_ + _)) by lia.
  match goal with |- context [reserve b ?n] => destruct (reserve_cases b n Hb) as [[b' Hr]|Hr] end;
    rewrite Hr; [|done]. cbn [mbind outcome_bind].
  apply reserve_ok in Hr as ([Hb' Hc] & Hbe & He & Hroom & _); [|done|lia].
  pose proof Hb' as [H1' H2' H3' H4'].
  destruct (mem_write (sb_buffer b') _ _) as [m|f] eqn:Hw; cbn [mbind outcome_bind]; cycle 1.
  { rewrite mem_write_Ok in Hw by lia. done. }
  destruct (contents_store b' s1 m Hb' ltac:(lia) Hw) as [Hb1 Hc1].
  rewrite (size_add_small (end_offset b') (Z.of_nat (length s1))) by lia.
  destruct (mem_write m _ _) as [m'|f] eqn:Hw'; cbn [mbind outcome_bind outcome_holds]; cycle 1.
  { rewrite mem_write_Ok in Hw'; [done|lia|]. destruct Hb1 as [_ _ Hl _]. simpl in Hl. lia. }
  rewrite (size_add_small (Z.of_nat (length s1))), size_add_small, Z.add_assoc by lia.
  rewrite <- Hc, app_assoc, <- Hc1.
  apply (contents_store (mkBuffer m (begin_offset b') (end_offset b' + Z.of_nat (length s1))
           (alloc_size b'))); [done|simpl; lia|done].
Qed.

Lemma resize_holds b l n :
  holds b l -> 0 <= n -> begin_offset b + n < 2 ^ 64 ->
  outcome_holds (resize b n) (take (Z.to_nat n) l ++ replicate (Z.to_nat n - length l) 0).
Proof.
  intros [Hb <-] Hn Hlt. unfold resize. pose proof Hb as [H1 H2 H3 H4].
  pose proof (length_contents b Hb) as Hlc. rewrite sb_size_contents by done.
  destruct (Z.ltb_spec (Z.of_nat (length (contents b))) n).
  - destruct (reserve_cases b n Hb) as [[b' Hr]|Hr]; rewrite Hr; [|done].
    cbn [mbind outcome_bind].
    apply reserve_ok in Hr as ([Hb' Hc] & Hbe & He & Hroom & _); [|done|lia].
    pose proof Hb' as [H1' H2' H3' H4'].
    rewrite (sb_size_contents b') by done. rewrite Hc, size_sub_small by lia.
    set (zs := replicate _ 0).
    assert (Hz : Z.of_nat (length zs) = n - Z.of_nat (length (contents b))).
    { unfold zs. rewrite length_replicate. lia. }
    destruct (mem_write _ _ _) as [m|f] eqn:Hw; cbn [mbind outcome_bind outcome_holds]; cycle 1.
    { rewrite mem_write_Ok in Hw by lia. done. }
    cbn [sb_buffer begin_offset end_offset alloc_size].
    rewrite size_add_small by lia.
    replace (begin_offset b' + n) with (end_offset b' + Z.of_nat (length zs)) by lia.
    rewrite take_ge by lia. rewrite <- Hc.
    replace (replicate _ 0) with zs; [apply contents_store; [done|lia|done]|].
    unfold zs. f_equal. rewrite Hc. lia.
  - cbn [mbind outcome_bind outcome_holds]. rewrite size_add_small by lia.
    replace (Z.to_nat n - _)%nat with 0%nat by lia. rewrite app_nil_r.
    split; [split; simpl; lia|]. unfold contents. simpl.
    rewrite take_take. f_equal. lia.
Qed.
End Correctness.

(** ** Refinement of a byte queue *)

(** The operations of a client of the buffer and their effect on the queue of
    bytes it stands for. *)
Inductive buffer_op :=
| OpAppend (s : list Z)
| OpAppendLiteral (s : list Z)
| OpAppend2 (s1 s2 : list Z)
| OpReserve (n : Z)
| OpWriteSpace (n : Z) (s : list Z)
| OpEraseFront (n : Z)
| OpClear
| OpResize (n : Z).

Definition queue_op (l : list Z) (op : buffer_op) : list Z :=
  match op with
  | OpAppend s | OpAppendLiteral s => l ++ s
  | OpAppend2 s1 s2 => l ++ s1 ++ s2
  | OpReserve _ => l
  | OpWriteSpace _ s => l ++ s
  | OpEraseFront n => drop (Z.to_nat n) l
  | OpClear => []
  | OpResize n => take (Z.to_nat n) l ++ replicate (Z.to_nat n - length l) 0
  end.

(** Number of bytes an operation can add beyond [end_offset], or asks room for. *)
Definition op_size (op : buffer_op) : Z :=
  match op with
  | OpAppend s | OpAppendLiteral s => Z.of_nat (length s)
  | OpAppend2 s1 s2 => Z.of_nat (length s1) + Z.of_nat (length s2)
  | OpReserve n => n
  | OpWriteSpace n _ => n
  | OpEraseFront _ | OpClear => 0
  | OpResize n => n
  end.

Definition op_valid (op : buffer_op) : Prop :=
  match op with
  | OpAppend _ | OpAppendLiteral _ | OpAppend2 _ _ | OpClear => True
  | OpWriteSpace n s => Z.of_nat (length s) <= n
  | OpReserve n | OpEraseFront n | OpResize n => 0 <= n
  end.

Section Refinement.
Context `{Allocator}.

Definition buffer_step (b : string_buffer) (op : buffer_op) : outcome string_buffer :=
  match op with
  | OpAppend s => append b s
  | OpAppendLiteral s => append_literal b s
  | OpAppend2 s1 s2 => append_2 b s1 s2
  | OpReserve n => reserve b n
  | OpWriteSpace n s => write_space b n s
  | OpEraseFront n => Ok (erase_front b n)
  | OpClear => Ok (clear b)
  | OpResize n => resize b n
  end.

Definition buffer_run (b : string_buffer) (ops : list buffer_op) : outcome string_buffer :=
  foldl (fun m op => b ← m; buffer_step b op) (Ok b) ops.

Lemma buffer_step_holds b l op :
  holds b l -> op_valid op -> end_offset b + op_size op < 2 ^ 63 ->
  outcome_holds (buffer_step b op) (queue_op l op).
Proof.
  intros Hh Hv Hs. destruct op; cbn [buffer_step queue_op op_valid op_size] in *.
  - apply append_holds; [done|lia].
  - apply append_holds; [done|lia].
  - apply append_2_holds; [done|lia].
  - destruct Hh as [Hb <-]. destruct (reserve_cases b n Hb) as [[b' Hr]|Hr]; rewrite Hr; [|done].
    pose proof Hb as [? ? ? ?]. by apply reserve_ok in Hr as (Hh & _); [|done|lia].
  - apply write_space_holds; done || lia.
  - destruct Hh as [Hb <-]. by apply erase_front_holds.
  - destruct Hh as [Hb <-]. by apply clear_holds.
  - apply resize_holds; [done..|]. destruct Hh as [[] _]. lia.
Qed.

Lemma append_end b s b' :
  sb_ok b -> end_offset b + Z.of_nat (length s) < 2 ^ 63 -> append b s = Ok b' ->
  end_offset b' <= end_offset b + Z.of_nat (length s).
Proof.
  intros Hb Hs He. pose proof Hb as [H1 H2 H3 H4]. unfold append in He. inv_ok. simpl.
  apply reserve_room in Hr as (_ & -> & _); [|done|lia|lia]. rewrite size_add_small; lia.
Qed.

(** How far one operation can move [end_offset]. *)
Lemma buffer_step_end b op b' :
  sb_ok b -> op_valid op -> end_offset b + op_size op < 2 ^ 63 ->
  buffer_step b op = Ok b' -> end_offset b' <= end_offset b + op_size op.
Proof.
  intros Hb Hv Hs He. pose proof Hb as [H1 H2 H3 H4]. pose proof (sb_size_ok b Hb) as Hsz.
  destruct op; cbn [buffer_step op_valid op_size] in *.
  - by apply append_end.
  - by apply append_end.
  - unfold append_2 in He. inv_ok. rewrite (size_add_small (end_offset b)), (size_add_small (_ + _)) in Hr by lia.
    simpl. apply reserve_ok in Hr as (_ & _ & -> & _); [|done|lia].
    rewrite (size_add_small (Z.of_nat (length s1))), size_add_small; lia.
  - apply reserve_ok in He as (_ & _ & -> & _); [lia|done|lia].
  - unfold write_space, make_space, store_at in He. inv_ok.
    repeat (case_match; subst; inv_ok).
    match goal with HR : reserve _ _ = Ok _ |- _ =>
      apply reserve_room in HR as ([[? ? ? ?] _] & Hee & _); [|done|lia|lia] end.
    inv_ok. unfold space_wrote. simpl.
    rewrite size_sub_small by lia. rewrite size_add_small; lia.
  - inv_ok. unfold erase_front. rewrite Hsz. destruct (Z.leb_spec (end_offset b - begin_offset b) n); simpl; lia.
  - inv_ok. simpl. lia.
  - unfold resize in He. inv_ok. simpl. destruct (_ <? _); inv_ok; simpl.
    + apply reserve_ok in Hr0 as (_ & -> & _ & _); [|done|lia]. rewrite size_add_small; lia.
    + rewrite size_add_small; lia.
Qed.

Lemma buffer_run_fault f ops :
  foldl (fun m op => b ← m; buffer_step b op) (Fault f) ops = Fault f.
Proof. by induction ops. Qed.

(** C35: the buffer refines a byte queue. Any sequence of its operations ([append],
    [append_literal], [append_2], [reserve], [resize], [erase_front], [clear], and stores into
    [make_space] with [space_wrote]) on a fresh buffer that asks for less than 2^63 bytes in all either leaves a buffer whose
    contents are those of the queue or ends in the abort on memory exhaustion; it
    never writes outside its block and never runs for ever. *)
Theorem string_buffer_refines_queue ops :
  Forall op_valid ops -> foldr (fun op acc => op_size op + acc) 0 ops < 2 ^ 63 ->
  match buffer_run string_buffer_new ops with
  | Ok b => holds b (foldl queue_op [] ops)
  | Fault f => f = FatalAbort
  end.
Proof.
  intros Hv Hs. unfold buffer_run.
  assert (Hpos : forall ops, Forall op_valid ops -> 0 <= foldr (fun op acc => op_size op + acc) 0 ops).
  { induction 1 as [|[] os Hop Hos IH]; simpl in *; lia. }
  assert (Hgen : forall b l,
    holds b l -> end_offset b + foldr (fun op acc => op_size op + acc) 0 ops < 2 ^ 63 ->
    outcome_holds (foldl (fun m op => b ← m; buffer_step b op) (Ok b) ops) (foldl queue_op l ops)).
  { clear Hs. induction Hv as [|op ops Hop Hops IH]; intros b l Hh Hlt; [done|].
    simpl in *. specialize (Hpos ops Hops).
    pose proof (buffer_step_holds b l op Hh Hop ltac:(lia)) as Hstep.
    pose proof (buffer_step_end b op) as Hend.
    destruct (buffer_step b op) as [b'|f]; simpl in Hstep.
    - apply IH; [done|]. specialize (Hend b' (proj1 Hh) Hop ltac:(lia) eq_refl). lia.
    - subst f. by rewrite buffer_run_fault. }
  apply Hgen; [apply sb_ok_new|simpl; lia].
Qed.
End Refinement.

(** An allocator that never fails and clears what it hands out. *)
Definition zero_realloc (b : list Z) (n : Z) : option (list Z) :=
  Some (take (Z.to_nat n) b ++ replicate (Z.to_nat n - length b) 0).

Definition zero_allocator : Allocator.
Proof.
  refine {| realloc := zero_realloc |}. intros b n b' Hn [= <-]. split.
  - rewrite length_app, length_take, length_replicate. lia.
  - intros i x Hi Hx. pose proof (lookup_lt_Some _ _ _ Hx).
    rewrite lookup_app_l by (rewrite length_take; lia).
    by rewrite lookup_take_lt by lia.
Defined.

Definition sample_ops : list buffer_op :=
  [OpAppend (bytes "P"); OpReserve 70; OpWriteSpace 80 (bytes "abc"); OpEraseFront 2;
   OpAppend2 (bytes "ab") (bytes "c"); OpResize 40; OpEraseFront 39].

Lemma string_buffer_refines_queue_witness :
  match buffer_run (H := zero_allocator) string_buffer_new sample_ops with
  | Ok b => holds b [0]
  | Fault f => f = FatalAbort
  end.
Proof.
  apply (@string_buffer_refines_queue zero_allocator sample_ops).
  - repeat constructor; simpl; lia.
  - by_decide.
Defined.
