(* ===== verification/StringUtil.v ===== *)
(** * StringUtil: tokens, numbers and splitting
    ([libhsclient/string_util.cpp], [string_util.hpp], [string_ref.hpp])

    A range [start, finish) of bytes is the list of its bytes; a pointer that
    a function moves along the range is the list that remains.  A [string_ref] is
    [None] when its pointer is null. *)
From S2P Require Import Prelude Text StringBuffer.
#[local] Open Scope Z_scope.

(** ** References to strings *)
Definition string_ref := option (list Z).

(** [size()]: the length field, zero for the null reference. *)
Definition sref_size (s : string_ref) : nat := length (default [] s).

(** [operator ==] on references compares sizes, then the bytes; [memcmp] of
    zero bytes is zero, also on null. *)
Definition sref_eqb (x y : string_ref) : bool :=
  (sref_size x =? sref_size y)%nat && bool_decide (default [] x = default [] y).

(** ** Tokens and numbers *)

(** [get_token]: the token and the bytes after its delimiter. *)
Definition get_token (wp : list Z) (delim : Z) : list Z * list Z :=
  match memchr delim wp with
  | None => (wp, [])
  | Some p => (take p wp, drop (S p) wp)
  end.

(** [atoi_tmpl_nocheck<uint32_t>]. *)
Fixpoint atoi_uint32_loop (l : list Z) (v : Z) : Z :=
  match l with
  | [] => v
  | c :: l' =>
      if (schar c <? chr0) || (chr9 <? schar c) then v
      else atoi_uint32_loop l' (wrap_u32 (wrap_u32 (v * 10) + wrap_u32 (schar c - chr0)))
  end.

Definition atoi_uint32_nocheck (l : list Z) : Z := atoi_uint32_loop l 0.

Definition LLONG_MAX : Z := 2 ^ 63 - 1.
Definition LLONG_MIN : Z := - 2 ^ 63.

Definition ll_op (z : Z) : outcome Z :=
  if (LLONG_MIN <=? z) && (z <=? LLONG_MAX) then Ok z else Fault SignedOverflow.

(** [atoi_signed_tmpl_nocheck<long long>]. *)
Fixpoint atoll_loop (negative : bool) (l : list Z) (v : Z) : outcome Z :=
  match l with
  | [] => Ok v
  | c :: l' =>
      if (schar c <? chr0) || (chr9 <? schar c) then Ok v
      else
        v ← ll_op (v * 10);
        v ← (if negative then ll_op (v - (schar c - chr0)) else ll_op (v + (schar c - chr0)));
        atoll_loop negative l' v
  end.

Definition atoll_nocheck (l : list Z) : outcome Z :=
  match l with
  | c :: l' =>
      if c =? MINUS then atoll_loop true l' 0
      else if c =? 43 then atoll_loop false l' 0
      else atoll_loop false l 0
  | [] => Ok 0
  end.

(** [snprintf(wp, size, ...)] keeps at most [size - 1] bytes. *)
Definition snprintf (size : nat) (text : list Z) : list Z := take (size - 1) text.

Definition uint32_text (v : Z) : list Z := snprintf 64 (dec_nat (wrap_u32 v)).

Section Append.
Context `{Allocator}.

Definition append_uint32 (buf : string_buffer) (v : Z) : outcome string_buffer :=
  write_space buf 64 (uint32_text v).
End Append.

Definition to_stdstring (v : Z) : list Z := uint32_text v.

(** [errno_string]: the code it returns and the message it leaves. *)
Definition errno_string (s : list Z) (en : Z) : Z * list Z :=
  (en, snprintf 64 (s ++ bytes ": " ++ dec_int en)).

(** ** Splitting *)

(** The loop of [split_tmpl_arr]: at most [n] parts. *)
Fixpoint split_arr_loop (delim : Z) (n : nat) (buf : list Z) : list (list Z) :=
  match n with
  | O => []
  | S n' =>
      match memchr delim buf with
      | None => [buf]
      | Some p => take p buf :: split_arr_loop delim n' (drop (S p) buf)
      end
  end.

(** [split(delim, buf, parts, parts_len)]: the count and the array, whose
    other entries are reset to the null reference. *)
Definition split_arr (delim : Z) (buf : list Z) (parts_len : nat) : nat * list string_ref :=
  let found := split_arr_loop delim parts_len buf in
  (length found, (Some <$> found) ++ replicate (parts_len - length found) None).

(** The loop of [split_tmpl_vec]; the text shrinks at every turn. *)
Fixpoint split_vec_loop (delim : Z) (fuel : nat) (buf : list Z) : outcome (list (list Z)) :=
  match fuel with
  | O => Fault OutOfFuel
  | S f =>
      match memchr delim buf with
      | None => Ok [buf]
      | Some p =>
          parts ← split_vec_loop delim f (drop (S p) buf);
          Ok (take p buf :: parts)
      end
  end.

(** [split(delim, buf, parts_r)]: its counter [i] is never advanced. *)
Definition split_vec (delim : Z) (buf : list Z) : outcome (nat * list (list Z)) :=
  parts ← split_vec_loop delim (S (length buf)) buf;
  Ok (0%nat, parts).

(** ** Facts *)

(** The parts of a text around the occurrences of a delimiter. *)
Fixpoint join_with (delim : Z) (parts : list (list Z)) : list Z :=
  match parts with
  | [] => []
  | [p] => p
  | p :: ps => p ++ delim :: join_with delim ps
  end.

Lemma memchr_split c l p :
  memchr c l = Some p -> l = take p l ++ c :: drop (S p) l /\ (c ∉ take p l).
Proof.
  intros [Hl Hn]%memchr_Some. split; [|done].
  by rewrite <- (drop_S _ _ _ Hl), take_drop.
Qed.

Lemma split_vec_loop_spec delim fuel buf :
  (length buf < fuel)%nat ->
  exists parts, split_vec_loop delim fuel buf = Ok parts /\ parts <> []
    /\ join_with delim parts = buf /\ Forall (fun p => delim ∉ p) parts.
Proof.
  revert buf. induction fuel as [|f IH]; intros buf Hf; [lia|]. simpl.
  destruct (memchr delim buf) as [p|] eqn:E.
  - pose proof (memchr_lt _ _ _ E). apply memchr_split in E as [Hb Hn].
    destruct (IH (drop (S p) buf)) as (ps & -> & Hne & Hj & Hps).
    { rewrite length_drop. lia. }
    exists (take p buf :: ps). split_and!; [done|done| |by constructor].
    destruct ps as [|q ps]; [done|].
    change (take p buf ++ delim :: join_with delim (q :: ps) = buf). by rewrite Hj, <- Hb.
  - exists [buf]. split_and!; [done..|]. constructor; [by apply memchr_None|done].
Qed.

Lemma atoi_uint32_digits ds rest v :
  Forall is_digit ds -> 0 <= v -> dec_from v ds < 2 ^ 32 ->
  atoi_uint32_loop (ds ++ rest) v = atoi_uint32_loop rest (dec_from v ds).
Proof.
  intros Hds. revert v. induction Hds as [|c ds Hc Hds IH]; intros v Hv Hlt; [done|].
  change (dec_from v (c :: ds)) with (dec_from (v * 10 + (c - chr0)) ds) in *.
  assert (Hg : ((schar c <? chr0) || (chr9 <? schar c)) = false /\ schar c = c).
  { unfold is_digit, schar, chr0, chr9 in *. rewrite orb_false_iff, !Z.ltb_ge.
    destruct (Z.ltb_spec c 128); lia. }
  destruct Hg as [Hg Hs]. simpl. rewrite Hg, Hs. unfold is_digit, chr9 in Hc.
  pose proof (dec_from_ge (v * 10 + (c - chr0)) ds ltac:(lia) Hds).
  rewrite (wrap_u32_id (v * 10)), (wrap_u32_id (c - chr0)), wrap_u32_id by (unfold chr0 in *; lia).
  apply IH; [lia|done].
Qed.

Lemma dec_nat_u32_length v : 0 <= v < 2 ^ 32 -> (length (dec_nat v) <= 10)%nat.
Proof. intros H. apply dec_nat_length; [lia|]. change (10 ^ Z.of_nat 10) with 10000000000. lia. Qed.

Lemma uint32_text_dec v : uint32_text v = dec_nat (wrap_u32 v).
Proof.
  unfold uint32_text, snprintf. apply take_ge.
  pose proof (dec_nat_u32_length (wrap_u32 v) ltac:(apply Z.mod_pos_bound; lia)). lia.
Qed.

(** What [to_stdstring] / [append_uint32] write for a 32-bit number is read
    back by [atoi_uint32_nocheck], whatever non-digit text follows. *)
Theorem uint32_text_roundtrip v c rest :
  0 <= v < 2 ^ 32 -> ~ is_digit c -> is_byte c ->
  atoi_uint32_nocheck (to_stdstring v ++ c :: rest) = v.
Proof.
  intros Hv Hc Hb. unfold atoi_uint32_nocheck, to_stdstring.
  rewrite uint32_text_dec, wrap_u32_id by done.
  rewrite atoi_uint32_digits.
  - fold (dec_value (dec_nat v)). rewrite dec_nat_value by lia. simpl.
    replace (_ || _) with true; [done|]. unfold is_digit, is_byte, schar, chr0, chr9 in *.
    destruct (Z.ltb_spec c 128), (Z.ltb_spec c 48), (Z.ltb_spec 57 c),
      (Z.ltb_spec (c - 256) 48); simpl; lia || done.
  - apply dec_nat_is_digit.
  - done.
  - fold (dec_value (dec_nat v)). rewrite dec_nat_value by lia. lia.
Qed.

(** [split] into a vector terminates and delivers the parts between the
    delimiters (joining them gives the text back, no part holds the delimiter), but
    the count it returns is always zero. *)
Theorem split_vec_parts delim buf :
  exists parts, split_vec delim buf = Ok (0%nat, parts) /\ parts <> []
    /\ join_with delim parts = buf /\ Forall (fun p => delim ∉ p) parts.
Proof.
  destruct (split_vec_loop_spec delim (S (length buf)) buf ltac:(lia)) as (ps & Hp & H).
  exists ps. unfold split_vec. by rewrite Hp.
Qed.

Lemma uint32_text_roundtrip_witness :
  atoi_uint32_nocheck (to_stdstring 4294967295 ++ TAB :: []) = 4294967295.
Proof. apply uint32_text_roundtrip; by_decide. Defined.
