(* ===== verification/Escape.v ===== *)
(** * Escape: the wire encoding of values
    ([libhsclient/escape.cpp], [escape.hpp])

    Bytes below [special_char_noescape_min] travel as a prefix byte and the
    byte shifted up, so that tab, newline and NUL never occur in an encoded value. *)
From S2P Require Import Prelude Text StringBuffer StringUtil.
#[local] Open Scope Z_scope.

Definition special_char_escape_prefix : Z := 1.
Definition special_char_noescape_min : Z := 16.
Definition special_char_escape_shift : Z := 64.

(** ** Encoding *)

(** The bytes that [escape_string(wp, start, finish)] stores at [wp]. *)
Fixpoint escape_string (l : list Z) : list Z :=
  match l with
  | [] => []
  | c :: l' =>
      (if special_char_noescape_min <=? c then [c]
       else [special_char_escape_prefix; (c + special_char_escape_shift) mod 256])
      ++ escape_string l'
  end.

(** [unescape_string(wp, start, finish)]: the result and the bytes stored. *)
Fixpoint unescape_string (l : list Z) : bool * list Z :=
  match l with
  | [] => (true, [])
  | c :: l' =>
      if negb (c =? special_char_escape_prefix) then
        let '(r, out) := unescape_string l' in (r, c :: out)
      else
        match l' with
        | cn :: l'' =>
            if cn <? special_char_escape_shift then (false, [])
            else
              let '(r, out) := unescape_string l'' in
              (r, (cn - special_char_escape_shift) mod 256 :: out)
        | [] => (false, [])
        end
  end.

(** The same loop on one memory: [start] and [wp] are offsets in [mem], [n] the
    bytes left before [finish].  Returns the result, the memory and the final [wp]. *)
Fixpoint unescape_at (n : nat) (mem : list Z) (wp start : nat)
    : outcome (bool * list Z * nat) :=
  match n with
  | O => Ok (true, mem, wp)
  | S n1 =>
      c ← array_get mem (Z.of_nat start);
      if negb (c =? special_char_escape_prefix) then
        mem ← array_set mem (Z.of_nat wp) c;
        unescape_at n1 mem (S wp) (S start)
      else
        match n1 with
        | S n2 =>
            cn ← array_get mem (Z.of_nat (S start));
            if cn <? special_char_escape_shift then Ok (false, mem, wp)
            else
              mem ← array_set mem (Z.of_nat wp) ((cn - special_char_escape_shift) mod 256);
              unescape_at n2 mem (S wp) (S (S start))
        | O => Ok (false, mem, wp)
        end
  end.

Section Buffer.
Context `{Allocator}.

(** [escape_string(string_buffer &, start, finish)]. *)
Definition escape_to_buffer (ar : string_buffer) (s : list Z) : outcome string_buffer :=
  write_space ar (Z.of_nat (length s) * 2) (escape_string s).

(** [unescape_string(string_buffer &, start, finish)]. *)
Definition unescape_to_buffer (ar : string_buffer) (s : list Z) : outcome (bool * string_buffer) :=
  let '(r, out) := unescape_string s in
  ar ← write_space ar (Z.of_nat (length s)) out;
  Ok (r, ar).

Definition write_ui32 (buf : string_buffer) (v : Z) : outcome string_buffer :=
  write_space buf 12 (snprintf 12 (dec_nat (wrap_u32 v))).

Definition write_ui64 (buf : string_buffer) (v : Z) : outcome string_buffer :=
  write_space buf 22 (snprintf 22 (dec_nat (wrap_u64 v))).
End Buffer.

(** ** Tokens of a response *)
Definition is_null_expression (l : list Z) : bool := bool_decide (l = [0]).

(** The token up to the next tab, and the range from that tab on. *)
Definition read_token (l : list Z) : list Z * list Z :=
  match memchr TAB l with
  | None => (l, [])
  | Some p => (take p l, drop p l)
  end.

Fixpoint skip_token_delim_fold (l : list Z) : list Z :=
  match l with
  | c :: l' => if c =? TAB then skip_token_delim_fold l' else l
  | [] => []
  end.

Definition skip_one (l : list Z) : list Z := drop 1 l.

(** The digits of a token; every other byte is ignored. *)
Fixpoint read_ui32_loop (tok : list Z) (v : Z) : Z :=
  match tok with
  | [] => v
  | ch :: tok' =>
      if (chr0 <=? schar ch) && (schar ch <=? chr9)
      then read_ui32_loop tok' (wrap_u32 (wrap_u32 (v * 10) + (schar ch - chr0)))
      else read_ui32_loop tok' v
  end.

Definition read_ui32 (l : list Z) : Z * list Z :=
  let '(tok, rest) := read_token l in (read_ui32_loop tok 0, rest).

(** ** Facts *)
Lemma escape_length l : (length l <= length (escape_string l) <= length l * 2)%nat.
Proof.
  induction l as [|c l IH]; simpl; [lia|].
  rewrite length_app. destruct (_ <=? _); simpl; lia.
Qed.

(** Encoded values hold only the prefix byte below 16. *)
Lemma escape_bytes l c :
  Forall is_byte l -> c ∈ escape_string l -> is_byte c /\ (16 <= c \/ c = 1).
Proof.
  induction 1 as [|b l Hb Hl IH]; simpl; [by intros ?%not_elem_of_nil|].
  rewrite elem_of_app. intros [Hc|Hc]; [|by apply IH].
  unfold special_char_noescape_min, special_char_escape_prefix, special_char_escape_shift, is_byte in *.
  destruct (Z.leb_spec 16 b).
  - apply list_elem_of_singleton in Hc as ->. lia.
  - rewrite !elem_of_cons, elem_of_nil in Hc.
    rewrite Z.mod_small in Hc by lia. destruct Hc as [-> | [-> | []]]; lia.
Qed.

Lemma escape_no_byte l c : Forall is_byte l -> c < 16 -> c <> 1 -> c ∉ escape_string l.
Proof. intros Hl H1 H2 [_ []]%escape_bytes; [lia..|done]. Qed.

Lemma unescape_escape l : Forall is_byte l -> unescape_string (escape_string l) = (true, l).
Proof.
  induction 1 as [|c l Hc Hl IH]; [done|]. simpl.
  unfold special_char_noescape_min, special_char_escape_prefix, special_char_escape_shift, is_byte in *.
  destruct (Z.leb_spec 16 c); simpl; unfold special_char_escape_prefix, special_char_escape_shift.
  - destruct (Z.eqb_spec c 1); [lia|]. simpl. by rewrite IH.
  - rewrite Z.mod_small by lia. destruct (Z.ltb_spec (c + 64) 64); [lia|].
    rewrite IH. rewrite Z.mod_small by lia. do 2 f_equal. lia.
Qed.

Lemma unescape_length l : (length (snd (unescape_string l)) <= length l)%nat.
Proof.
  enough (forall n l, (length l <= n)%nat -> (length (snd (unescape_string l)) <= length l)%nat) by eauto.
  clear l. induction n as [|n IH]; intros [|c l] Hn; simpl in *; try lia.
  destruct (_ =? _); simpl.
  - destruct l as [|cn l]; simpl; [lia|]. destruct (_ <? _); simpl; [lia|].
    pose proof (IH l ltac:(simpl in *; lia)). destruct (unescape_string l); simpl in *. lia.
  - pose proof (IH l ltac:(lia)). destruct (unescape_string l); simpl in *. lia.
Qed.

Lemma read_token_app tok rest :
  TAB ∉ tok -> read_token (tok ++ TAB :: rest) = (tok, TAB :: rest).
Proof.
  intros H. unfold read_token. rewrite memchr_first by done.
  by rewrite take_app_length, drop_app_length.
Qed.

Lemma read_token_end tok : TAB ∉ tok -> read_token tok = (tok, []).
Proof. intros H%memchr_None. unfold read_token. by rewrite H. Qed.

Lemma read_ui32_digits ds v :
  Forall is_digit ds -> 0 <= v -> dec_from v ds < 2 ^ 32 -> read_ui32_loop ds v = dec_from v ds.
Proof.
  intros Hds. revert v. induction Hds as [|c ds Hc Hds IH]; intros v Hv Hlt; [done|].
  change (dec_from v (c :: ds)) with (dec_from (v * 10 + (c - chr0)) ds) in *. simpl.
  unfold is_digit in Hc. pose proof (dec_from_ge (v * 10 + (c - chr0)) ds ltac:(lia) Hds).
  assert (Hs : schar c = c) by (unfold schar, chr9 in *; destruct (Z.ltb_spec c 128); lia).
  rewrite Hs. replace (_ && _) with true by (symmetry; rewrite andb_true_iff, !Z.leb_le; lia).
  rewrite (wrap_u32_id (v * 10)), wrap_u32_id by lia. apply IH; [lia|done].
Qed.

(** A rendered number is read back as one token. *)
Lemma read_ui32_dec v rest :
  0 <= v < 2 ^ 32 ->
  read_ui32 (dec_nat v ++ TAB :: rest) = (v, TAB :: rest) /\ read_ui32 (dec_nat v) = (v, []).
Proof.
  intros Hv. unfold read_ui32.
  rewrite read_token_app, read_token_end by (by apply dec_nat_no_byte; by_decide).
  rewrite read_ui32_digits; [|apply dec_nat_is_digit|lia|].
  - fold (dec_value (dec_nat v)). by rewrite dec_nat_value by lia.
  - fold (dec_value (dec_nat v)). rewrite dec_nat_value by lia. lia.
Qed.

(** *** Decoding in place *)

Lemma unescape_at_spec n mem wp start :
  (wp <= start)%nat -> (start + n <= length mem)%nat ->
  let '(r, out) := unescape_string (take n (drop start mem)) in
  unescape_at n mem wp start = Ok (r, splice mem wp out, (wp + length out)%nat).
Proof.
  enough (Hgen : forall k n mem wp start, (n <= k)%nat -> (wp <= start)%nat ->
    (start + n <= length mem)%nat ->
    let '(r, out) := unescape_string (take n (drop start mem)) in
    unescape_at n mem wp start = Ok (r, splice mem wp out, (wp + length out)%nat)).
  { intros. by apply (Hgen n). }
  clear. induction k as [|k IH]; intros n mem wp start Hk Hw Hs.
  { replace n with 0%nat by lia. simpl. by rewrite splice_nil, Nat.add_0_r. }
  destruct n as [|n1]; [simpl; by rewrite splice_nil, Nat.add_0_r|].
  destruct (lookup_lt_is_Some_2 mem start ltac:(lia)) as [c Hc].
  rewrite (drop_S _ _ _ Hc). cbn [take unescape_string unescape_at].
  rewrite (array_get_nat _ _ _ Hc). cbn [mbind outcome_bind].
  assert (Hset : forall x, array_set mem (Z.of_nat wp) x = Ok (<[wp := x]> mem)).
  { intros x. rewrite array_set_Ok by lia. by rewrite Nat2Z.id. }
  assert (Hkeep : forall x m i, (wp < i)%nat -> take m (drop i (<[wp := x]> mem)) = take m (drop i mem)).
  { intros x m i Hi. by rewrite drop_insert_lt by lia. }
  destruct (negb _) eqn:E.
  - specialize (IH n1 (<[wp := c]> mem) (S wp) (S start)).
    rewrite Hkeep, length_insert in IH by lia. specialize (IH ltac:(lia) ltac:(lia) ltac:(lia)).
    destruct (unescape_string _) as [r out]. rewrite Hset. cbn [mbind outcome_bind].
    rewrite IH, splice_cons by lia. cbn [length]. by rewrite Nat.add_succ_r.
  - destruct n1 as [|n2]; [simpl; by rewrite splice_nil, Nat.add_0_r|].
    destruct (lookup_lt_is_Some_2 mem (S start) ltac:(lia)) as [cn Hcn].
    rewrite (drop_S _ _ _ Hcn). cbn [take].
    rewrite (array_get_nat _ _ _ Hcn). cbn [mbind outcome_bind].
    destruct (cn <? _); [by rewrite splice_nil, Nat.add_0_r|].
    specialize (IH n2 (<[wp := (cn - special_char_escape_shift) mod 256]> mem) (S wp) (S (S start))).
    rewrite Hkeep, length_insert in IH by lia. specialize (IH ltac:(lia) ltac:(lia) ltac:(lia)).
    destruct (unescape_string _) as [r out]. rewrite Hset. cbn [mbind outcome_bind].
    rewrite IH, splice_cons by lia. cbn [length]. by rewrite Nat.add_succ_r.
Qed.

(** ** Properties *)

(** C33: decoding an encoded value gives the value back, and an encoded value holds no
    tab, newline or NUL, so it cannot end a field, a line or look like a null. *)
Theorem escape_roundtrip l :
  Forall is_byte l ->
  unescape_string (escape_string l) = (true, l)
  /\ (TAB ∉ escape_string l) /\ (LF ∉ escape_string l) /\ (NUL ∉ escape_string l).
Proof.
  intros Hl. split; [by apply unescape_escape|].
  split_and!; by apply escape_no_byte; unfold TAB, LF, NUL.
Qed.

(** C34: [unescape_string] decodes in place. For any write pointer at or before the
    read pointer ("works even if wp == start") it stays inside the memory, returns
    what decoding a separate copy returns, and stores exactly those bytes at [wp]. *)
Theorem unescape_in_place n mem wp start :
  (wp <= start)%nat -> (start + n <= length mem)%nat ->
  unescape_at n mem wp start
  = Ok (fst (unescape_string (take n (drop start mem))),
        splice mem wp (snd (unescape_string (take n (drop start mem)))),
        (wp + length (snd (unescape_string (take n (drop start mem)))))%nat).
Proof.
  intros Hw Hs. pose proof (unescape_at_spec n mem wp start Hw Hs) as H.
  by destruct (unescape_string _).
Qed.

Lemma escape_roundtrip_witness :
  unescape_string (escape_string [0; 9; 10; 1; 255]) = (true, [0; 9; 10; 1; 255])
  /\ (TAB ∉ escape_string [0; 9; 10; 1; 255]) /\ (LF ∉ escape_string [0; 9; 10; 1; 255])
  /\ (NUL ∉ escape_string [0; 9; 10; 1; 255]).
Proof. apply escape_roundtrip. by_witness. Defined.

Lemma unescape_in_place_witness :
  unescape_at 4 [7; 1; 73; 65; 66; 9] 1 1 = Ok (true, [7; 9; 65; 66; 66; 9], 4%nat).
Proof. apply (unescape_in_place 4 [7; 1; 73; 65; 66; 9] 1 1); by_witness. Defined.
