(* ===== verification/Socket.v ===== *)
(** * Socket: configuration, files and sockets of the client library
    ([libhsclient/config.cpp], [config.hpp], [auto_file.hpp], [socket.cpp], [socket.hpp])

    The system calls are the operations of the class [Net], on a world of type
    [W]; a call returns its result and the [errno] it leaves. *)
From S2P Require Import Prelude Text StringUtil.
#[local] Open Scope Z_scope.

(** ** Configuration *)

(** [std::map<std::string, std::string>]. *)
Definition config := gmap (list Z) (list Z).

Definition get_str (conf : config) (key def : list Z) : list Z := default def (conf !! key).

Definition is_space (c : Z) : bool := (c =? 32) || ((9 <=? c) && (c <=? 13)).

Fixpoint skip_spaces (l : list Z) : list Z :=
  match l with c :: l' => if is_space c then skip_spaces l' else l | [] => [] end.

(** [atoll] of the C library. *)
Definition atoll (l : list Z) : outcome Z := atoll_nocheck (skip_spaces l).

Definition get_int (conf : config) (key : list Z) (def : Z) : outcome Z :=
  match conf !! key with None => Ok def | Some v => atoll v end.

(** [parse_args]: arguments of the form key=value; the first argument is the
    program.  Returns the configuration and the verbosity it sets, if any. *)
Fixpoint parse_args_loop (args : list (list Z)) (conf : config) : config :=
  match args with
  | [] => conf
  | arg :: args' =>
      match memchr 61 arg with
      | None => parse_args_loop args' conf
      | Some eq => parse_args_loop args' (<[take eq arg := drop (S eq) arg]> conf)
      end
  end.

Definition parse_args (argv : list (list Z)) (conf : config) (verbose_level : Z)
    : outcome (config * Z) :=
  let conf := parse_args_loop (drop 1 argv) conf in
  match conf !! bytes "verbose" with
  | None => Ok (conf, verbose_level)
  | Some v => n ← atoll v; Ok (conf, wrap_u32 (wrap_int n))
  end.

(** ** System calls *)
Inductive sockaddr := SockUnix (path : list Z) | SockInet (addr : list Z) | SockNone.

#[export] Instance sockaddr_eq_dec : EqDecision sockaddr.
Proof. solve_decision. Defined.

Inductive sockopt := SO_RCVTIMEO | SO_SNDTIMEO | SO_SNDBUF | SO_RCVBUF | SO_REUSEADDR.

Definition AF_UNIX : Z := 1.
Definition AF_INET : Z := 2.
Definition SOCK_STREAM : Z := 1.
Definition EINPROGRESS : Z := 115.
Definition ENOENT : Z := 2.

Class Net (W : Type) := {
  sys_socket : Z -> Z -> Z -> W -> W * (Z * Z);
  sys_setsockopt : Z -> sockopt -> Z -> W -> W * (Z * Z);
  sys_fcntl_nonblock : Z -> W -> W * (Z * Z);
  sys_connect : Z -> sockaddr -> W -> W * (Z * Z);
  sys_bind : Z -> sockaddr -> W -> W * (Z * Z);
  sys_listen : Z -> Z -> W -> W * (Z * Z);
  sys_unlink : list Z -> W -> W * (Z * Z);
  sys_close : Z -> W -> W * Z;
  sys_send : Z -> list Z -> W -> W * Z;
  (** [None] is the error return, the empty list the end of file. *)
  sys_read : Z -> nat -> W -> W * option (list Z);
  sys_getaddrinfo : option (list Z) -> list Z -> W -> Z * sockaddr;
  sys_send_bound : forall fd s w, (sys_send fd s w).2 <= Z.of_nat (length s);
  sys_read_bound : forall fd n w l, (sys_read fd n w).2 = Some l -> (length l <= n)%nat
}.

(** ** [auto_file] *)
Section AutoFile.
Context {W : Type} `{Net W}.

(** An [auto_file] is its descriptor. *)
Definition af_close (fd : Z) (w : W) : W * Z :=
  if fd <? 0 then (w, fd) else let '(w, _) := sys_close fd w in (w, -1).

Definition af_reset (fd x : Z) (w : W) : W * Z :=
  let '(w, _) := if 0 <=? fd then af_close fd w else (w, fd) in (w, x).
End AutoFile.

(** ** Socket arguments *)
Record socket_args := mkArgs {
  sa_addr : sockaddr;
  sa_family : Z;
  sa_socktype : Z;
  sa_protocol : Z;
  sa_timeout : Z;
  sa_listen_backlog : Z;
  sa_reuseaddr : bool;
  sa_nonblocking : bool;
  sa_sndbuf : Z;
  sa_rcvbuf : Z
}.

Definition socket_args_default : socket_args :=
  mkArgs SockNone AF_INET SOCK_STREAM 0 600 256 true false 0 0.

(** [sizeof(sun_path) - 1]. *)
Definition kSunPath : nat := 107.

Definition set_unix_domain (a : socket_args) (path : list Z) : socket_args :=
  mkArgs (SockUnix (take kSunPath path)) AF_UNIX (sa_socktype a) (sa_protocol a) (sa_timeout a)
    (sa_listen_backlog a) (sa_reuseaddr a) (sa_nonblocking a) (sa_sndbuf a) (sa_rcvbuf a).

Definition set_addr (a : socket_args) (addr : sockaddr) : socket_args :=
  mkArgs addr (sa_family a) (sa_socktype a) (sa_protocol a) (sa_timeout a)
    (sa_listen_backlog a) (sa_reuseaddr a) (sa_nonblocking a) (sa_sndbuf a) (sa_rcvbuf a).

Definition set_limits (a : socket_args) (timeout backlog : Z) : socket_args :=
  mkArgs (sa_addr a) (sa_family a) (sa_socktype a) (sa_protocol a) timeout backlog
    (sa_reuseaddr a) (sa_nonblocking a) (sa_sndbuf a) (sa_rcvbuf a).

Definition set_bufs (a : socket_args) (sndbuf rcvbuf : Z) : socket_args :=
  mkArgs (sa_addr a) (sa_family a) (sa_socktype a) (sa_protocol a) (sa_timeout a)
    (sa_listen_backlog a) (sa_reuseaddr a) (sa_nonblocking a) sndbuf rcvbuf.

Section Sockets.
Context {W : Type} `{Net W}.

(** [socket_args::resolve]: the code of [getaddrinfo]. *)
Definition resolve (a : socket_args) (node : option (list Z)) (service : list Z) (w : W)
    : Z * socket_args :=
  let '(r, addr) := sys_getaddrinfo node service w in
  if negb (r =? 0) then (r, set_addr a SockNone) else (0, set_addr a addr).

(** [socket_args::set]; [fatal_exit] is a fault. *)
Definition socket_args_set (a : socket_args) (conf : config) (w : W) : outcome socket_args :=
  timeout ← get_int conf (bytes "timeout") 600;
  backlog ← get_int conf (bytes "listen_backlog") 256;
  let a := set_limits a (wrap_int timeout) (wrap_int backlog) in
  let node := get_str conf (bytes "host") [] in
  let port := get_str conf (bytes "port") [] in
  a ← (if negb (bool_decide (node = [])) || negb (bool_decide (port = [])) then
         if (sa_family a =? AF_UNIX) || bool_decide (node = bytes "/")
         then Ok (set_unix_domain a port)
         else
           let nd := if bool_decide (node = []) then None else Some node in
           let '(r, a) := resolve a nd port w in
           if negb (r =? 0) then Fault FatalAbort else Ok a
       else Ok a);
  sndbuf ← get_int conf (bytes "sndbuf") 0;
  rcvbuf ← get_int conf (bytes "rcvbuf") 0;
  Ok (set_bufs a (wrap_int sndbuf) (wrap_int rcvbuf)).

(** Result of the functions below: their return code and the message left
    in [err_r]. *)
Definition sockres := (Z * list Z)%type.
Definition sock_ok : sockres := (0, []).

(** One option call: stop with the message on failure. *)
Definition try_call (what : string) (call : W -> W * (Z * Z)) (k : W -> W * sockres) (w : W)
    : W * sockres :=
  let '(w, (rc, en)) := call w in
  if negb (rc =? 0) then (w, errno_string (bytes what) en) else k w.

Definition when (b : bool) (f : (W -> W * sockres) -> W -> W * sockres) (k : W -> W * sockres)
    : W -> W * sockres := if b then f k else k.

Definition socket_set_options (fd : Z) (args : socket_args) : W -> W * sockres :=
  when (negb (sa_timeout args =? 0) && negb (sa_nonblocking args))
    (fun k => try_call "setsockopt SO_RCVTIMEO" (sys_setsockopt fd SO_RCVTIMEO (sa_timeout args))
                (try_call "setsockopt SO_RCVTIMEO" (sys_setsockopt fd SO_SNDTIMEO (sa_timeout args)) k))
  (when (sa_nonblocking args)
    (try_call "fcntl O_NONBLOCK" (sys_fcntl_nonblock fd))
  (when (negb (sa_sndbuf args =? 0))
    (try_call "setsockopt SO_SNDBUF" (sys_setsockopt fd SO_SNDBUF (sa_sndbuf args)))
  (when (negb (sa_rcvbuf args =? 0))
    (try_call "setsockopt SO_RCVBUF" (sys_setsockopt fd SO_RCVBUF (sa_rcvbuf args)))
  (fun w => (w, sock_ok))))).

(** The functions below also return the new descriptor of [fd]. *)
Definition socket_open (fd : Z) (args : socket_args) (w : W) : W * Z * sockres :=
  let '(w, (s, en)) := sys_socket (sa_family args) (sa_socktype args) (sa_protocol args) w in
  let '(w, fd) := af_reset fd s w in
  if fd <? 0 then (w, fd, errno_string (bytes "socket") en)
  else let '(w, r) := socket_set_options fd args w in (w, fd, r).

Definition socket_connect (fd : Z) (args : socket_args) (w : W) : W * Z * sockres :=
  let '(w, fd, r) := socket_open fd args w in
  if negb (r.1 =? 0) then (w, fd, r)
  else
    let '(w, (rc, en)) := sys_connect fd (sa_addr args) w in
    if negb (rc =? 0) && (negb (sa_nonblocking args) || negb (en =? EINPROGRESS))
    then (w, fd, errno_string (bytes "connect") en)
    else (w, fd, sock_ok).

Definition socket_bind (fd : Z) (args : socket_args) (w : W) : W * Z * sockres :=
  let '(w, (s, en)) := sys_socket (sa_family args) (sa_socktype args) (sa_protocol args) w in
  let '(w, fd) := af_reset fd s w in
  if fd <? 0 then (w, fd, errno_string (bytes "socket") en)
  else
    let finish :=
      try_call "bind" (sys_bind fd (sa_addr args))
        (try_call "listen" (sys_listen fd (sa_listen_backlog args))
          (when (sa_nonblocking args) (try_call "fcntl O_NONBLOCK" (sys_fcntl_nonblock fd))
            (fun w => (w, sock_ok)))) in
    let '(w, r) :=
      (if sa_reuseaddr args then
         if sa_family args =? AF_UNIX then
           let path := match sa_addr args with SockUnix p => p | _ => [] end in
           let '(w, (rc, en)) := sys_unlink path w in
           if negb (rc =? 0) && negb (en =? ENOENT) then (w, errno_string (bytes "unlink uds") en)
           else finish w
         else try_call "setsockopt SO_REUSEADDR" (sys_setsockopt fd SO_REUSEADDR 1) finish w
       else finish w) in
    (w, fd, r).

(** [accept] also gives the address of the peer; [signal(SIGPIPE, SIG_IGN)] succeeds or
    not. *)
Definition socket_accept (sys_accept : Z -> W -> W * (Z * Z * sockaddr)) (listen_fd fd : Z)
    (args : socket_args) (w : W) : W * Z * sockaddr * sockres :=
  let '(w, (s, en, addr)) := sys_accept listen_fd w in
  let '(w, fd) := af_reset fd s w in
  if fd <? 0 then (w, fd, addr, errno_string (bytes "accept") en)
  else let '(w, r) := socket_set_options fd args w in (w, fd, addr, r).

Definition ignore_sigpipe (sys_signal : W -> W * bool) (w : W) : outcome W :=
  let '(w, ok) := sys_signal w in _ ← checked FatalAbort ok; Ok w.
End Sockets.

(** ** Facts *)

Lemma parse_args_loop_app args1 args2 conf :
  parse_args_loop (args1 ++ args2) conf = parse_args_loop args2 (parse_args_loop args1 conf).
Proof.
  revert conf. induction args1 as [|a args1 IH]; intros conf; simpl; [done|].
  destruct (memchr 61 a); apply IH.
Qed.

Section SocketFacts.
Context {W : Type} `{Net W}.

(** The unix-domain configuration the service uses never resolves a host. *)
Lemma socket_args_set_unix a conf w timeout backlog port :
  conf !! bytes "host" = Some (bytes "/") -> conf !! bytes "port" = Some port ->
  get_int conf (bytes "timeout") 600 = Ok timeout ->
  get_int conf (bytes "listen_backlog") 256 = Ok backlog ->
  conf !! bytes "sndbuf" = None -> conf !! bytes "rcvbuf" = None ->
  socket_args_set a conf w
  = Ok (set_bufs (set_unix_domain (set_limits a (wrap_int timeout) (wrap_int backlog)) port) 0 0).
Proof.
  intros Hh Hp Ht Hb Hs Hr. unfold socket_args_set. rewrite Ht. cbn [mbind outcome_bind].
  rewrite Hb. cbn [mbind outcome_bind]. unfold get_str, get_int. rewrite Hh, Hp, Hs, Hr.
  cbn [default]. rewrite (bool_decide_eq_true_2 (bytes "/" = bytes "/")) by done.
  rewrite (bool_decide_eq_false_2 (bytes "/" = [])) by done.
  rewrite orb_true_r. done.
Qed.
End SocketFacts.

(** ** A scripted peer

    A concrete world, used to run the client on given inputs: the chunks that reads will
    return (end of file afterwards) and what has been sent, newest first. *)
Record script := mkScript { incoming : list (list Z); outgoing : list (list Z) }.

Definition script_read (n : nat) (w : script) : script * option (list Z) :=
  match incoming w with
  | [] => (w, Some [])
  | ch :: chs =>
      if (length ch <=? n)%nat then (mkScript chs (outgoing w), Some ch)
      else (mkScript (drop n ch :: chs) (outgoing w), Some (take n ch))
  end.

Definition script_net : Net script.
Proof.
  refine {|
    sys_socket := fun _ _ _ w => (w, (3, 0));
    sys_setsockopt := fun _ _ _ w => (w, (0, 0));
    sys_fcntl_nonblock := fun _ w => (w, (0, 0));
    sys_connect := fun _ _ w => (w, (0, 0));
    sys_bind := fun _ _ w => (w, (0, 0));
    sys_listen := fun _ _ w => (w, (0, 0));
    sys_unlink := fun _ w => (w, (0, 0));
    sys_close := fun _ w => (w, 0);
    sys_send := fun _ s w => (mkScript (incoming w) (s :: outgoing w), Z.of_nat (length s));
    sys_read := fun _ n w => script_read n w;
    sys_getaddrinfo := fun _ _ _ => (0, SockNone)
  |}.
  - intros fd s w. simpl. lia.
  - intros fd n w l. unfold script_read. destruct (incoming w) as [|ch chs]; simpl.
    + intros [= <-]. simpl. lia.
    + destruct (Nat.leb_spec (length ch) n); simpl; intros [= <-]; [done|].
      rewrite length_take. lia.
Defined.
