(* ===== verification/Hstcpcli.v ===== *)
(** * Hstcpcli: the HandlerSocket client ([libhsclient/hstcpcli.cpp])

    The state of a connection with its read and write buffers.  The buffers are the
    byte queues that [StringBuffer] proves a [string_buffer] to be; offsets into
    [readbuf] count from [begin()].  Field references point into [readbuf], whose
    bytes [get_next_row] decodes in place. *)
From S2P Require Import Prelude Text StringUtil Escape Socket.
#[local] Open Scope Z_scope.

(** A reference into [readbuf]: null, or offset and length. *)
Definition field_ref := option (nat * nat).

Record hstcpcli := mkCli {
  fd : Z;
  sargs : socket_args;
  readbuf : list Z;
  writebuf : list Z;
  response_end_offset : nat;
  cur_row_offset : nat;
  num_flds : Z;
  num_req_bufd : Z;
  num_req_sent : Z;
  num_req_rcvd : Z;
  error_code : Z;
  error_str : list Z;
  flds : list field_ref
}.

Record hstcpcli_filter := mkFilter {
  filter_type : list Z;
  f_op : list Z;
  ff_offset : Z;
  f_val : string_ref
}.

(** ** Field updates *)
Definition with_fd (c : hstcpcli) (x : Z) : hstcpcli :=
  mkCli x (sargs c) (readbuf c) (writebuf c) (response_end_offset c) (cur_row_offset c)
    (num_flds c) (num_req_bufd c) (num_req_sent c) (num_req_rcvd c) (error_code c) (error_str c)
    (flds c).
Definition with_readbuf (c : hstcpcli) (x : list Z) : hstcpcli :=
  mkCli (fd c) (sargs c) x (writebuf c) (response_end_offset c) (cur_row_offset c)
    (num_flds c) (num_req_bufd c) (num_req_sent c) (num_req_rcvd c) (error_code c) (error_str c)
    (flds c).
Definition with_writebuf (c : hstcpcli) (x : list Z) : hstcpcli :=
  mkCli (fd c) (sargs c) (readbuf c) x (response_end_offset c) (cur_row_offset c)
    (num_flds c) (num_req_bufd c) (num_req_sent c) (num_req_rcvd c) (error_code c) (error_str c)
    (flds c).
Definition with_response (c : hstcpcli) (end_ row : nat) (nf : Z) : hstcpcli :=
  mkCli (fd c) (sargs c) (readbuf c) (writebuf c) end_ row
    nf (num_req_bufd c) (num_req_sent c) (num_req_rcvd c) (error_code c) (error_str c)
    (flds c).
Definition with_counts (c : hstcpcli) (bufd sent rcvd : Z) : hstcpcli :=
  mkCli (fd c) (sargs c) (readbuf c) (writebuf c) (response_end_offset c) (cur_row_offset c)
    (num_flds c) bufd sent rcvd (error_code c) (error_str c) (flds c).
Definition with_flds (c : hstcpcli) (x : list field_ref) : hstcpcli :=
  mkCli (fd c) (sargs c) (readbuf c) (writebuf c) (response_end_offset c) (cur_row_offset c)
    (num_flds c) (num_req_bufd c) (num_req_sent c) (num_req_rcvd c) (error_code c) (error_str c) x.

(** [set_error]; it returns the code. *)
Definition set_error (c : hstcpcli) (code : Z) (str : list Z) : hstcpcli :=
  mkCli (fd c) (sargs c) (readbuf c) (writebuf c) (response_end_offset c) (cur_row_offset c)
    (num_flds c) (num_req_bufd c) (num_req_sent c) (num_req_rcvd c) code str (flds c).

Definition clear_error (c : hstcpcli) : hstcpcli := set_error c 0 [].

Definition get_error_code (c : hstcpcli) : Z := error_code c.

Definition get_error (c : hstcpcli) : list Z := error_str c.

Definition stable_point (c : hstcpcli) : bool :=
  (0 <=? fd c) && (num_req_bufd c =? 0) && (num_req_sent c =? 0) && (num_req_rcvd c =? 0)
  && (response_end_offset c =? 0)%nat.

(** The state that [close] leaves, apart from the descriptor. *)
Definition closed (c : hstcpcli) (x : Z) : hstcpcli :=
  mkCli x (sargs c) [] [] 0 0 0 0 0 0 (error_code c) (error_str c) [].

(** A request in progress or a response not yet removed. *)
Definition out_of_sync (c : hstcpcli) : bool := (0 <? num_req_sent c) || (0 <? num_req_rcvd c).

Definition append_delim_value (buf : list Z) (s : string_ref) : list Z :=
  match s with
  | None => buf ++ [TAB; 0]
  | Some l => buf ++ [TAB] ++ escape_string l
  end.

(** ** Building requests *)
Definition open_index_line (pst_id : Z) (dbn tbl idx retflds : list Z) (filflds : option (list Z))
    : list Z :=
  bytes "P" ++ [TAB] ++ uint32_text pst_id ++ [TAB] ++ dbn ++ [TAB] ++ tbl ++ [TAB] ++ idx
    ++ [TAB] ++ retflds
    ++ match filflds with None => [] | Some f => [TAB] ++ f end ++ [LF].

Definition auth_line (secret : list Z) (typ : option (list Z)) : list Z :=
  bytes "A" ++ [TAB] ++ default (bytes "1") typ ++ [TAB] ++ secret ++ [LF].

Definition filter_text (buf : list Z) (f : hstcpcli_filter) : list Z :=
  append_delim_value
    (buf ++ [TAB] ++ filter_type f ++ [TAB] ++ f_op f ++ [TAB] ++ uint32_text (ff_offset f))
    (f_val f).

(** What [request_buf_exec_generic] appends to [writebuf]. *)
Definition exec_generic_line (buf : list Z) (pst_id : Z) (op : string_ref) (kvs : list string_ref)
    (limit skip : Z) (mod_op : string_ref) (mvs : list string_ref)
    (fils : list hstcpcli_filter) (invalues_keypart : Z) (invalues : list string_ref) : list Z :=
  let buf := buf ++ uint32_text pst_id ++ [TAB] ++ default [] op ++ [TAB]
               ++ uint32_text (Z.of_nat (length kvs)) in
  let buf := foldl append_delim_value buf kvs in
  let has_mod := negb (sref_size mod_op =? 0)%nat in
  let has_fil := negb (length fils =? 0)%nat in
  let buf :=
    if negb (limit =? 0) || negb (skip =? 0) || (0 <=? invalues_keypart) || has_mod || has_fil then
      let buf := buf ++ [TAB] ++ uint32_text limit in
      let buf :=
        if negb (skip =? 0) || (0 <=? invalues_keypart) || has_mod || has_fil
        then buf ++ [TAB] ++ uint32_text skip else buf in
      let buf :=
        if 0 <=? invalues_keypart then
          foldl append_delim_value
            (buf ++ [TAB] ++ bytes "@" ++ [TAB] ++ uint32_text invalues_keypart ++ [TAB]
               ++ uint32_text (Z.of_nat (length invalues))) invalues
        else buf in
      let buf := foldl filter_text buf fils in
      if has_mod then foldl append_delim_value (buf ++ [TAB] ++ default [] mod_op) mvs else buf
    else buf in
  buf ++ [LF].

Section Client.
Context {W : Type} `{Net W}.

Definition close (c : hstcpcli) (w : W) : W * hstcpcli :=
  let '(w, x) := af_close (fd c) w in (w, closed c x).

(** [close(); set_error(-1, ...)]. *)
Definition fail (c : hstcpcli) (w : W) (str : string) : W * hstcpcli :=
  let '(w, c) := close c w in (w, set_error c (-1) (bytes str)).

Definition connect_fd (c : hstcpcli) (w : W) : W * hstcpcli :=
  let '(w, x, r) := socket_connect (fd c) (sargs c) w in
  let c := with_fd c x in
  (w, if negb (r.1 =? 0) then set_error c (-1) r.2 else c).

(** The constructor. *)
Definition create (args : socket_args) (w : W) : W * hstcpcli :=
  connect_fd (mkCli (-1) args [] [] 0 0 0 0 0 0 0 [] []) w.

Definition reconnect (c : hstcpcli) (w : W) : W * hstcpcli * Z :=
  let '(w, c) := close (clear_error c) w in
  let '(w, c) := connect_fd c w in (w, c, error_code c).

(** The common shape of the [request_buf_*] operations. *)
Definition request_buf (name : string) (line : list Z) (c : hstcpcli) (w : W) : W * hstcpcli :=
  if out_of_sync c then fail c w (name +:+ ": protocol out of sync")
  else
    let c := with_writebuf c (writebuf c ++ line) in
    (w, with_counts c (num_req_bufd c + 1) (num_req_sent c) (num_req_rcvd c)).

Definition request_buf_open_index (pst_id : Z) (dbn tbl idx retflds : list Z)
    (filflds : option (list Z)) (c : hstcpcli) (w : W) : W * hstcpcli :=
  request_buf "request_buf_open_index" (open_index_line pst_id dbn tbl idx retflds filflds) c w.

Definition request_buf_auth (secret : list Z) (typ : option (list Z)) (c : hstcpcli) (w : W)
    : W * hstcpcli :=
  request_buf "request_buf_auth" (auth_line secret typ) c w.

Definition request_buf_exec_generic (pst_id : Z) (op : string_ref) (kvs : list string_ref)
    (limit skip : Z) (mod_op : string_ref) (mvs : list string_ref)
    (fils : list hstcpcli_filter) (invalues_keypart : Z) (invalues : list string_ref)
    (c : hstcpcli) (w : W) : W * hstcpcli :=
  request_buf "request_buf_exec_generic"
    (exec_generic_line [] pst_id op kvs limit skip mod_op mvs fils invalues_keypart invalues) c w.

(** ** Sending *)
Definition request_send (c : hstcpcli) (w : W) : W * hstcpcli * Z :=
  let failed '(w, c) := (w, c, error_code c) in
  if error_code c <? 0 then (w, c, error_code c)
  else
    let c := clear_error c in
    if fd c <? 0 then failed (fail c w "write: closed")
    else if (num_req_bufd c =? 0) || (0 <? num_req_sent c) || (0 <? num_req_rcvd c)
    then failed (fail c w "request_send: protocol out of sync")
    else
      let wrlen := Z.of_nat (length (writebuf c)) in
      let '(w, r) := sys_send (fd c) (writebuf c) w in
      if r <=? 0 then failed (fail c w (if r <? 0 then "write: failed" else "write: eof"))
      else
        let c := with_writebuf c (drop (Z.to_nat r) (writebuf c)) in
        if negb (r =? wrlen) then failed (fail c w "write: incomplete")
        else (w, with_counts c 0 (num_req_bufd c) (num_req_rcvd c), 0).

(** ** Receiving *)
Definition block_size : nat := 4096.

Definition read_more (c : hstcpcli) (w : W) : W * hstcpcli * Z :=
  let '(w, r) := sys_read (fd c) block_size w in
  match r with
  | None => (w, set_error c (error_code c) (bytes "read: failed"), -1)
  | Some [] => (w, set_error c (error_code c) (bytes "read: eof"), 0)
  | Some l => (w, with_readbuf c (readbuf c ++ l), Z.of_nat (length l))
  end.

(** The loop that waits for a whole line; [Some n] is its length with the newline,
    [None] the end of the connection. *)
Fixpoint await_line (fuel : nat) (c : hstcpcli) (w : W) : outcome (W * hstcpcli * option nat) :=
  match memchr LF (readbuf c) with
  | Some nl => Ok (w, c, Some (S nl))
  | None =>
      match fuel with
      | O => Fault OutOfFuel
      | S f =>
          let '(w, c, r) := read_more c w in
          if r <=? 0 then Ok (w, c, None) else await_line f c w
      end
  end.

(** The part of [response_recv] that reads the status of a complete line. *)
Definition parse_status (offset : nat) (c : hstcpcli) : hstcpcli * Z * Z :=
  let c := with_response c offset (cur_row_offset c) (num_flds c) in
  let c := with_counts c (num_req_bufd c) (num_req_sent c - 1) (num_req_rcvd c + 1) in
  let line := take (offset - 1) (readbuf c) in
  let '(resp_code, rest) := read_ui32 line in
  let rest := skip_one rest in
  let '(nf, rest) := read_ui32 rest in
  let c := with_response c offset (cur_row_offset c) nf in
  if negb (resp_code =? 0) then
    let rest := skip_one rest in
    let e := (read_token rest).1 in
    let e := if bool_decide (e = []) then bytes "unknown_error" else e in
    let c := set_error c (wrap_int resp_code) e in
    (c, nf, error_code c)
  else (with_response c offset (offset - 1 - length rest) nf, nf, 0).

(** Returns the code and the number of fields ([num_flds_r], as left by the caller
    when nothing is assigned). *)
Definition response_recv (fuel : nat) (num_flds_r : Z) (c : hstcpcli) (w : W)
    : outcome (W * hstcpcli * Z * Z) :=
  if error_code c <? 0 then Ok (w, c, num_flds_r, error_code c)
  else
    let c := clear_error c in
    if (0 <? num_req_bufd c) || (num_req_sent c =? 0) || (0 <? num_req_rcvd c)
       || negb (response_end_offset c =? 0)%nat
    then let '(w, c) := fail c w "response_recv: protocol out of sync" in
         Ok (w, c, num_flds_r, error_code c)
    else
      let c := with_response c (response_end_offset c) 0 0 in
      if fd c <? 0 then Ok (w, set_error c (-1) (bytes "read: closed"), 0, -1)
      else
        '(w, c, line) ← await_line fuel c w;
        match line with
        | None => let '(w, c) := fail c w "read: eof" in Ok (w, c, 0, error_code c)
        | Some offset =>
            let '(c, nf, r) := parse_status offset c in Ok (w, c, nf, r)
        end.

(** ** Rows *)

(** [n] fields of the range [start, finish) of [mem]: the memory after decoding, the
    references, and where the next field starts. *)
Fixpoint get_fields (n : nat) (mem : list Z) (start finish : nat)
    : outcome (list Z * list field_ref * nat) :=
  match n with
  | O => Ok (mem, [], start)
  | S n' =>
      let fld_begin := if (start =? finish)%nat then start else S start in
      let tok := (read_token (take (finish - fld_begin) (drop fld_begin mem))).1 in
      let fld_end := (fld_begin + length tok)%nat in
      '(mem, r) ←
        (if is_null_expression tok then Ok (mem, None)
         else
           '(_, mem, wp) ← unescape_at (length tok) mem fld_begin fld_begin;
           Ok (mem, Some (fld_begin, (wp - fld_begin)%nat)));
      '(mem, rs, e) ← get_fields n' mem fld_end finish;
      Ok (mem, r :: rs, e)
  end.

Definition get_next_row (c : hstcpcli) : outcome (hstcpcli * option (list field_ref)) :=
  if num_flds c =? 0 then Ok (c, None)
  else
    let n := Z.to_nat (num_flds c) in
    let c := with_flds c (if (length (flds c) <? n)%nat
                          then flds c ++ replicate (n - length (flds c)) None else flds c) in
    let start := cur_row_offset c in
    let finish := (response_end_offset c - 1)%nat in
    if (finish <=? start)%nat then Ok (c, None)
    else
      '(mem, rs, e) ← get_fields n (readbuf c) start finish;
      let c := with_flds (with_readbuf c mem) (rs ++ drop n (flds c)) in
      Ok (with_response c (response_end_offset c) e (num_flds c), Some (flds c)).

Definition response_buf_remove (c : hstcpcli) (w : W) : W * hstcpcli :=
  if (response_end_offset c =? 0)%nat
  then fail c w "response_buf_remove: protocol out of sync"
  else
    let c := with_readbuf c (drop (response_end_offset c) (readbuf c)) in
    let c := with_counts c (num_req_bufd c) (num_req_sent c) (num_req_rcvd c - 1) in
    (w, with_flds (with_response c 0 0 0) []).
End Client.

(** ** Dereferencing a field *)

(** The bytes of a reference and the memory from its first byte to the end of
    the buffer's contents. *)
Definition field_bytes (c : hstcpcli) (r : field_ref) : string_ref :=
  match r with Some (off, len) => Some (take len (drop off (readbuf c))) | None => None end.

Definition field_memory (c : hstcpcli) (r : field_ref) : option (list Z) :=
  match r with Some (off, _) => Some (drop off (readbuf c)) | None => None end.

(** ** Decoding a row *)

(** The wire form of a row of values. *)
Definition encode_row (vals : list string_ref) : list Z :=
  mjoin (append_delim_value [] <$> vals).

Definition deref (mem : list Z) (r : field_ref) : string_ref :=
  match r with Some (off, len) => Some (take len (drop off mem)) | None => None end.

Definition value_ok (v : string_ref) : Prop := Forall is_byte (default [] v).

(** The token of a value. *)
Definition value_token (v : string_ref) : list Z :=
  match v with None => [0] | Some s => escape_string s end.

Lemma append_delim_value_token buf v : append_delim_value buf v = buf ++ TAB :: value_token v.
Proof. by destruct v. Qed.

Lemma value_token_no_byte v c :
  value_ok v -> 0 < c < 16 -> c <> 1 -> c ∉ value_token v.
Proof.
  intros Hv Hc H1. destruct v as [s|]; simpl.
  - by apply escape_no_byte; [|lia|].
  - rewrite list_elem_of_singleton. lia.
Qed.

Lemma deref_stable m1 m2 k off len :
  (off + len <= k)%nat -> take k m1 = take k m2 ->
  deref m1 (Some (off, len)) = deref m2 (Some (off, len)).
Proof.
  intros Hk Heq. unfold deref. f_equal.
  transitivity (take len (drop off (take k m1))); [|rewrite Heq];
    rewrite skipn_firstn_comm, take_take; do 2 f_equal; lia.
Qed.

Lemma take_splice {A} (l : list A) i s : (i <= length l)%nat -> take i (splice l i s) = take i l.
Proof.
  intros H. unfold splice. rewrite take_app_le by (rewrite length_take; lia).
  by rewrite take_take, Nat.min_id.
Qed.

Lemma drop_splice {A} (l : list A) i s k :
  (i + length s <= k)%nat -> (i <= length l)%nat -> drop k (splice l i s) = drop k l.
Proof.
  intros H Hi. unfold splice. rewrite drop_app_ge by (rewrite length_take; lia).
  rewrite length_take, drop_app_ge by lia. rewrite drop_drop. f_equal. lia.
Qed.

Lemma read_splice {A} (l : list A) i s : (i <= length l)%nat -> take (length s) (drop i (splice l i s)) = s.
Proof.
  intros H. unfold splice. rewrite drop_app_ge, length_take by (rewrite length_take; lia).
  replace (i - _)%nat with 0%nat by lia. by rewrite drop_0, take_app_length.
Qed.

Lemma array_set_length {A} (l : list A) i x l' : array_set l i x = Ok l' -> length l' = length l.
Proof. intros [_ ->]%array_set_inv. apply length_insert. Qed.

(** One field. *)
Lemma get_field_value mem start finish v more :
  take (finish - start) (drop start mem) = TAB :: value_token v ++ more ->
  (more = [] \/ exists m, more = TAB :: m) -> value_ok v -> (finish <= length mem)%nat ->
  let e := (start + S (length (value_token v)))%nat in
  exists mem' r,
    (forall n, get_fields (S n) mem start finish
               = ('(mem, rs, e) ← get_fields n mem' e finish; Ok (mem, r :: rs, e)))
    /\ length mem' = length mem /\ take (S start) mem' = take (S start) mem
    /\ drop e mem' = drop e mem /\ deref mem' r = v
    /\ (forall off len, r = Some (off, len) -> (off + len <= e)%nat).
Proof.
  intros Ht Hmore Hv Hf e.
  pose proof (f_equal length Ht) as Hlen.
  rewrite length_take, length_drop in Hlen. cbn [length] in Hlen. rewrite length_app in Hlen.
  assert (Hsf : (start < finish)%nat) by lia.
  assert (Htok : take (finish - S start) (drop (S start) mem) = value_token v ++ more).
  { apply (f_equal (drop 1)) in Ht. rewrite skipn_firstn_comm, drop_drop in Ht.
    replace (finish - S start)%nat with (finish - start - 1)%nat by lia.
    by replace (S start) with (start + 1)%nat by lia. }
  assert (Hno : TAB ∉ value_token v) by (by apply value_token_no_byte).
  assert (Hrt : read_token (value_token v ++ more) = (value_token v, more)).
  { destruct Hmore as [-> | [m ->]]; [rewrite app_nil_r; by apply read_token_end|].
    by apply read_token_app. }
  assert (Hstep : forall n, get_fields (S n) mem start finish
    = ('(mem1, r) ←
         (if is_null_expression (value_token v) then Ok (mem, None)
          else '(_, m, wp) ← unescape_at (length (value_token v)) mem (S start) (S start);
               Ok (m, Some (S start, (wp - S start)%nat)));
       '(mem2, rs, e') ← get_fields n mem1 e finish; Ok (mem2, r :: rs, e'))).
  { intros n. cbn [get_fields]. destruct (Nat.eqb_spec start finish); [lia|].
    rewrite Htok, Hrt. cbn [fst]. unfold e. by rewrite Nat.add_succ_r. }
  destruct v as [s|]; cbn [value_token] in *.
  - assert (Hnull : is_null_expression (escape_string s) = false).
    { apply bool_decide_eq_false_2. intros Hs0.
      apply (escape_no_byte s 0 Hv); [lia..|]. rewrite Hs0. apply list_elem_of_singleton. done. }
    pose proof (unescape_at_spec (length (escape_string s)) mem (S start) (S start)
                  ltac:(lia) ltac:(lia)) as Hu.
    assert (Hin : take (length (escape_string s)) (drop (S start) mem) = escape_string s).
    { apply (f_equal (take (length (escape_string s)))) in Htok.
      rewrite take_take, take_app_length in Htok. rewrite <- Htok at 2. f_equal. lia. }
    rewrite Hin, unescape_escape in Hu by done.
    pose proof (escape_length s) as [Hs1 _].
    exists (splice mem (S start) s), (Some (S start, length s)). split_and!.
    + intros n. rewrite Hstep, Hnull, Hu. cbn [mbind outcome_bind].
      by replace (S start + length s - S start)%nat with (length s) by lia.
    + apply length_splice. lia.
    + apply take_splice. lia.
    + apply drop_splice; unfold e; lia.
    + unfold deref. rewrite read_splice by lia. done.
    + intros off len [= <- <-]. unfold e. lia.
  - exists mem, None. split_and!; try done.
Qed.

(** A whole row. *)
Lemma get_fields_row vals mem start finish more :
  take (finish - start) (drop start mem) = encode_row vals ++ more ->
  (more = [] \/ exists m, more = TAB :: m) -> Forall value_ok vals -> (finish <= length mem)%nat ->
  exists mem' rs,
    get_fields (length vals) mem start finish
    = Ok (mem', rs, (start + length (encode_row vals))%nat)
    /\ length mem' = length mem /\ take (S start) mem' = take (S start) mem
    /\ drop (start + length (encode_row vals)) mem' = drop (start + length (encode_row vals)) mem
    /\ deref mem' <$> rs = vals.
Proof.
  intros Ht Hmore Hvals. revert mem start Ht. induction Hvals as [|v vals Hv Hvals IH];
    intros mem start Ht Hf.
  { exists mem, []. rewrite Nat.add_0_r. split_and!; done. }
  unfold encode_row in *. rewrite fmap_cons, mjoin_cons in *.
  rewrite append_delim_value_token in *. cbn [app] in Ht. rewrite <- app_assoc in Ht.
  destruct (get_field_value mem start finish v _ Ht) as (mem1 & r & Hstep & Hl & Htk & Hdr & Hd & Hr);
    [|done|done|].
  { destruct vals as [|v' vals]; [exact Hmore|]. right.
    rewrite fmap_cons, mjoin_cons, append_delim_value_token. cbn [app]. eauto. }
  set (e := (start + S (length (value_token v)))%nat) in *.
  destruct (IH mem1 e) as (mem2 & rs & Hg & Hl2 & Htk2 & Hdr2 & Hd2).
  { pose proof (f_equal (drop (S (length (value_token v)))) Ht) as Hd'.
    cbn [drop] in Hd'. rewrite drop_app_length, skipn_firstn_comm, drop_drop in Hd'.
    fold e in Hd'. rewrite Hdr, <- Hd'. f_equal. unfold e. lia. }
  { lia. }
  exists mem2, (r :: rs). split_and!.
  - cbn [length]. rewrite Hstep, Hg. cbn [mbind outcome_bind]. do 2 f_equal.
    rewrite length_app. cbn [length app]. unfold e. lia.
  - lia.
  - transitivity (take (S start) mem1); [|done].
    apply (f_equal (take (S start))) in Htk2. rewrite !take_take in Htk2.
    rewrite !Nat.min_l in Htk2 by (unfold e; lia). done.
  - rewrite length_app. cbn [app length].
    replace (start + _)%nat with (e + length (mjoin (append_delim_value [] <$> vals)))%nat
      by (unfold e; lia).
    rewrite Hdr2, <- !drop_drop, Hdr. done.
  - rewrite fmap_cons, Hd2. f_equal. rewrite <- Hd. destruct r as [[off len]|]; [|done].
    apply (deref_stable _ _ (S e)); [|done]. specialize (Hr off len eq_refl). lia.
Qed.
