(* ===== verification/HstcpcliSpec.v ===== *)
(** * HstcpcliSpec: what the HandlerSocket client guarantees

    The operations of [hstcpcli_i] as one step function, the invariant of its
    counters and offsets, errors that stick until [reconnect], and the delivery of
    replies: rows come out as the server encoded them, however the stream is cut. *)
From S2P Require Import Prelude Text StringUtil Escape Socket Hstcpcli.
#[local] Open Scope Z_scope.

(** ** The interface [hstcpcli_i] ([hstcpcli.hpp]) *)
Inductive cli_op :=
| OpClose
| OpReconnect
| OpOpenIndex (pst_id : Z) (dbn tbl idx retflds : list Z) (filflds : option (list Z))
| OpAuth (secret : list Z) (typ : option (list Z))
| OpExec (pst_id : Z) (op : string_ref) (kvs : list string_ref) (limit skip : Z)
    (mod_op : string_ref) (mvs : list string_ref)
    (fils : list hstcpcli_filter) (invalues_keypart : Z) (invalues : list string_ref)
| OpSend
| OpRecv (fuel : nat)
| OpNextRow
| OpRemove.

(** Counters, offsets and the buffer agree. *)
Record cli_inv (c : hstcpcli) : Prop := {
  inv_bufd : 0 <= num_req_bufd c;
  inv_sent : 0 <= num_req_sent c;
  inv_rcvd : num_req_rcvd c = if (response_end_offset c =? 0)%nat then 0 else 1;
  inv_excl : 0 < num_req_bufd c -> num_req_sent c = 0 /\ num_req_rcvd c = 0;
  inv_end : (response_end_offset c <= length (readbuf c))%nat;
  inv_row : (cur_row_offset c <= response_end_offset c - 1)%nat;
  inv_flds : 0 <= num_flds c;
  inv_no_response : response_end_offset c = 0%nat -> num_flds c = 0 /\ flds c = []
}.

(** Nothing is buffered and nothing is outstanding. *)
Definition cli_clean (c : hstcpcli) : Prop :=
  readbuf c = [] /\ writebuf c = [] /\ response_end_offset c = 0%nat /\ cur_row_offset c = 0%nat
  /\ num_flds c = 0 /\ num_req_bufd c = 0 /\ num_req_sent c = 0 /\ num_req_rcvd c = 0 /\ flds c = [].

Section Steps.
Context {W : Type} `{Net W}.

Definition no_code {A B} (x : A * B) : outcome (A * B * Z) := let '(w, c) := x in Ok (w, c, 0).

(** One call; the number is the result of the calls that return a code. *)
Definition cli_step (op : cli_op) (c : hstcpcli) (w : W) : outcome (W * hstcpcli * Z) :=
  match op with
  | OpClose => no_code (close c w)
  | OpReconnect => Ok (reconnect c w)
  | OpOpenIndex id dbn tbl idx rf ff => no_code (request_buf_open_index id dbn tbl idx rf ff c w)
  | OpAuth secret typ => no_code (request_buf_auth secret typ c w)
  | OpExec id op kvs limit skip mop mvs fils kp ivs =>
      no_code (request_buf_exec_generic id op kvs limit skip mop mvs fils kp ivs c w)
  | OpSend => Ok (request_send c w)
  | OpRecv fuel => '(w, c, _, r) ← response_recv fuel 0 c w; Ok (w, c, r)
  | OpNextRow => '(c, _) ← get_next_row c; Ok (w, c, 0)
  | OpRemove => no_code (response_buf_remove c w)
  end.

(** A sequence of calls and the codes they return. *)
Fixpoint cli_run (ops : list cli_op) (c : hstcpcli) (w : W)
    : outcome (W * hstcpcli * list Z) :=
  match ops with
  | [] => Ok (w, c, [])
  | op :: ops' =>
      '(w, c, r) ← cli_step op c w;
      '(w, c, rs) ← cli_run ops' c w;
      Ok (w, c, r :: rs)
  end.

(** ** The invariant *)
Lemma closed_inv c x : cli_inv (closed c x).
Proof. split; simpl; done || lia. Qed.

Lemma set_error_inv c e s : cli_inv c -> cli_inv (set_error c e s).
Proof. by intros []. Qed.

Lemma with_fd_inv c x : cli_inv c -> cli_inv (with_fd c x).
Proof. by intros []. Qed.

Lemma with_flds_inv c x : num_flds c <> 0 -> cli_inv c -> cli_inv (with_flds c x).
Proof. intros Hn []. split; simpl; try done. intros ?%inv_no_response0. naive_solver. Qed.

Lemma close_inv c w : cli_inv (close c w).2.
Proof. unfold close. destruct (af_close _ w). apply closed_inv. Qed.

Lemma fail_inv c w s : cli_inv (fail c w s).2.
Proof.
  unfold fail, close. destruct (af_close _ w). simpl.
  apply set_error_inv, closed_inv.
Qed.

Lemma connect_fd_inv c w : cli_inv c -> cli_inv (connect_fd c w).2.
Proof.
  intros Hc. unfold connect_fd. destruct (socket_connect _ _ _) as [[w1 x] r]. simpl.
  destruct (negb _); by repeat first [apply set_error_inv | apply with_fd_inv].
Qed.

Lemma create_inv args w : cli_inv (create args w).2.
Proof. apply connect_fd_inv. split; simpl; done || lia. Qed.

Lemma request_buf_inv name line c w : cli_inv c -> cli_inv (request_buf name line c w).2.
Proof.
  intros Hc. unfold request_buf, out_of_sync.
  destruct (Z.ltb_spec 0 (num_req_sent c)); [apply fail_inv|].
  destruct (Z.ltb_spec 0 (num_req_rcvd c)); [apply fail_inv|].
  destruct Hc as [? ? Hr ? ? ? ? ?]. simpl. split; simpl; try done; [lia|].
  rewrite Hr in *. destruct (_ =? _)%nat; lia.
Qed.

Lemma request_send_inv c w : cli_inv c -> cli_inv (request_send c w).1.2.
Proof.
  intros Hc. unfold request_send.
  assert (Hf : forall c w s, cli_inv (let '(w, c) := fail c w s in (w, c, error_code c)).1.2).
  { intros c0 w0 s. pose proof (fail_inv c0 w0 s). by destruct (fail c0 w0 s). }
  destruct (_ <? 0); [done|]. destruct (_ <? 0); [apply Hf|].
  destruct (_ || _ || _) eqn:E; [apply Hf|].
  destruct (sys_send _ _ _) as [w1 r]. destruct (r <=? 0); [apply Hf|].
  destruct (negb _); [apply Hf|].
  rewrite !orb_false_iff in E. destruct E as [[E1 E2] E3]. simpl in E1, E2, E3.
  apply Z.ltb_ge in E2, E3.
  destruct Hc as [? ? Hr ? ? ? ? ?]. split; simpl; try done; lia.
Qed.

Lemma read_token_length l : (length (read_token l).1 + length (read_token l).2 = length l)%nat.
Proof.
  unfold read_token. destruct (memchr TAB l) as [p|] eqn:E; simpl; [|lia].
  rewrite length_take, length_drop. apply memchr_lt in E. lia.
Qed.

Lemma read_ui32_loop_nonneg tok v : 0 <= v -> 0 <= read_ui32_loop tok v.
Proof.
  revert v. induction tok as [|c tok IH]; intros v Hv; simpl; [done|].
  destruct (_ && _); apply IH; [apply Z.mod_pos_bound; lia|done].
Qed.

Lemma read_ui32_rest l : 0 <= (read_ui32 l).1 /\ (length (read_ui32 l).2 <= length l)%nat.
Proof.
  unfold read_ui32. pose proof (read_token_length l). destruct (read_token l) as [tok rest].
  simpl in *. split; [by apply read_ui32_loop_nonneg|lia].
Qed.

Lemma parse_status_inv offset c :
  cli_inv c -> num_req_rcvd c = 0 -> 0 < num_req_sent c -> num_req_bufd c = 0 ->
  cur_row_offset c = 0%nat -> (0 < offset <= length (readbuf c))%nat ->
  cli_inv (parse_status offset c).1.1.
Proof.
  intros Hc Hr Hs Hb Hrow Ho. unfold parse_status. cbn [readbuf with_response with_counts].
  set (line := take _ _).
  assert (Hline : length line = (offset - 1)%nat) by (unfold line; rewrite length_take; lia).
  destruct (read_ui32 line) as [code rest] eqn:E1.
  pose proof (read_ui32_rest (skip_one rest)) as [H2 _].
  destruct (read_ui32 (skip_one rest)) as [nf rest2] eqn:E2. simpl in H2.
  destruct Hc. destruct (negb _); split; simpl; try lia.
  all: destruct (Nat.eqb_spec offset 0); lia.
Qed.

Lemma read_more_keeps c w :
  exists l e, (read_more c w).1.2
    = mkCli (fd c) (sargs c) (readbuf c ++ l) (writebuf c) (response_end_offset c)
        (cur_row_offset c) (num_flds c) (num_req_bufd c) (num_req_sent c) (num_req_rcvd c)
        (error_code c) e (flds c).
Proof.
  unfold read_more. destruct (sys_read _ _ _) as [w1 [[|b l]|]]; cbn.
  - exists [], (bytes "read: eof"). by rewrite app_nil_r.
  - by exists (b :: l), (error_str c).
  - exists [], (bytes "read: failed"). by rewrite app_nil_r.
Qed.

(** Waiting only appends to the read buffer. *)
Lemma await_line_keeps fuel c w w' c' line :
  await_line fuel c w = Ok (w', c', line) ->
  (exists l e, c' = mkCli (fd c) (sargs c) (readbuf c ++ l) (writebuf c) (response_end_offset c)
        (cur_row_offset c) (num_flds c) (num_req_bufd c) (num_req_sent c) (num_req_rcvd c)
        (error_code c) e (flds c))
  /\ (forall n, line = Some n -> (0 < n <= length (readbuf c'))%nat).
Proof.
  assert (Hsame : forall c : hstcpcli, exists l e, c = mkCli (fd c) (sargs c) (readbuf c ++ l)
    (writebuf c) (response_end_offset c) (cur_row_offset c) (num_flds c) (num_req_bufd c)
    (num_req_sent c) (num_req_rcvd c) (error_code c) e (flds c)).
  { intros c0. exists [], (error_str c0). rewrite app_nil_r. by destruct c0. }
  revert c w. induction fuel as [|f IH]; intros c w; cbn [await_line];
    (destruct (memchr LF (readbuf c)) as [nl|] eqn:E;
     [intros H'; injection H' as <- <- <-; split;
       [done | intros n [= <-]; pose proof (memchr_lt _ _ _ E); lia]|]); [done|].
  pose proof (read_more_keeps c w) as (l & e & Hc1).
  destruct (read_more c w) as [[w1 c1] r]. simpl in Hc1. subst c1.
  destruct (r <=? 0).
  { intros [= <- <- <-]. split; [by eauto|done]. }
  intros (H1 & Hn)%IH. split; [|done].
  destruct H1 as (l' & e' & ->). cbn. rewrite <- app_assoc. eauto.
Qed.

Lemma response_recv_inv fuel x c w w' c' nf r :
  cli_inv c -> response_recv fuel x c w = Ok (w', c', nf, r) -> cli_inv c'.
Proof.
  intros Hc. unfold response_recv. destruct (_ <? 0); [by intros [= <- <- <- <-]|].
  destruct (_ || _ || _ || _) eqn:E.
  { pose proof (fail_inv (clear_error c) w "response_recv: protocol out of sync").
    destruct (fail _ _ _). by intros [= <- <- <- <-]. }
  rewrite !orb_false_iff, negb_false_iff in E. destruct E as [[[E1 E2] E3] E4].
  simpl in E1, E2, E3, E4. apply Z.ltb_ge in E1, E3. apply Z.eqb_neq in E2.
  apply Nat.eqb_eq in E4.
  assert (Hrc : num_req_rcvd c = 0) by (by rewrite (inv_rcvd c Hc), E4).
  assert (Hc0 : cli_inv (with_response (clear_error c) (response_end_offset (clear_error c)) 0 0)).
  { destruct Hc. split; simpl; try done; [lia|]. naive_solver. }
  destruct (_ <? 0); [intros [= <- <- <- <-]; by apply set_error_inv|].
  intros Ha. inv_ok. destruct r0 as [[w1 c1] line].
  apply await_line_keeps in Hr as [(l & e & Hc1) Hn].
  destruct line as [offset|].
  - specialize (Hn offset eq_refl). destruct Hc. destruct Hc0.
    pose proof (parse_status_inv offset c1) as Hp. subst c1. simpl in *.
    destruct (parse_status _ _) as [[c2 nf2] r2]. inv_ok. apply Hp; try done; try lia.
    split; simpl; try done; rewrite ?length_app; lia.
  - pose proof (fail_inv c1 w1 "read: eof"). destruct (fail _ _ _). inv_ok. done.
Qed.

(** The fields of any text are inside the buffer. *)
Lemma get_fields_total n mem start finish :
  (start <= finish)%nat -> (finish <= length mem)%nat ->
  exists mem' rs e, get_fields n mem start finish = Ok (mem', rs, e)
    /\ length mem' = length mem /\ (start <= e <= finish)%nat /\ length rs = n
    /\ ((0 < n)%nat -> (start < finish)%nat -> (start < e)%nat)
    /\ Forall (fun r => forall off len, r = Some (off, len) -> (off + len <= finish)%nat) rs.
Proof.
  revert mem start. induction n as [|n IH]; intros mem start Hs Hf.
  { exists mem, [], start. split_and!; done || lia. }
  cbn [get_fields]. set (fb := if (start =? finish)%nat then start else S start).
  assert (Hfb : (start <= fb <= finish)%nat).
  { unfold fb. destruct (Nat.eqb_spec start finish); lia. }
  set (tok := (read_token _).1).
  assert (Ht : (length tok <= finish - fb)%nat).
  { unfold tok. pose proof (read_token_length (take (finish - fb) (drop fb mem))) as Hl.
    rewrite length_take in Hl. lia. }
  assert (Hone : exists m r, (if is_null_expression tok then Ok (mem, None)
      else '(_, m, wp) ← unescape_at (length tok) mem fb fb; Ok (m, Some (fb, (wp - fb)%nat)))
      = Ok (m, r) /\ length m = length mem
        /\ (forall off len, r = Some (off, len) -> (off + len <= finish)%nat)).
  { destruct (is_null_expression tok); [by exists mem, None|].
    pose proof (unescape_at_spec (length tok) mem fb fb ltac:(lia) ltac:(lia)) as Hu.
    set (src := take (length tok) (drop fb mem)) in Hu.
    assert (Hsrc : length src = length tok).
    { unfold src. rewrite length_take, length_drop. lia. }
    pose proof (unescape_length src). destruct (unescape_string src) as [r out].
    rewrite Hu. cbn [mbind outcome_bind]. eexists _, _. split; [done|].
    simpl in *. split; [apply length_splice; lia|]. intros off len [= <- <-]. lia. }
  destruct Hone as (m & r & -> & Hm & Hr). cbn [mbind outcome_bind].
  destruct (IH m (fb + length tok)%nat) as (m2 & rs & e & -> & Hm2 & He & Hrs & _ & Hall); [lia..|].
  cbn [mbind outcome_bind]. eexists _, _, _. split; [done|].
  split_and!; [lia|lia|lia|simpl; lia| |by constructor].
  intros _ Hlt. unfold fb in *. destruct (Nat.eqb_spec start finish); lia.
Qed.

Lemma get_next_row_ok c :
  cli_inv c -> exists c' row, get_next_row c = Ok (c', row) /\ cli_inv c'
    /\ error_code c' = error_code c /\ response_end_offset c' = response_end_offset c
    /\ (row <> None -> (cur_row_offset c < cur_row_offset c')%nat).
Proof.
  intros Hc. unfold get_next_row. destruct (Z.eqb_spec (num_flds c) 0); [by exists c, None|].
  cbn [readbuf cur_row_offset response_end_offset with_flds num_flds].
  destruct (Nat.leb_spec (response_end_offset c - 1) (cur_row_offset c)).
  { eexists _, None. split; [done|]. split; [by apply with_flds_inv|done]. }
  pose proof (inv_end c Hc). pose proof (inv_flds c Hc).
  destruct (get_fields_total (Z.to_nat (num_flds c)) (readbuf c) (cur_row_offset c)
              (response_end_offset c - 1)) as (m & rs & e & -> & Hm & He & _ & Hlt & _); [lia..|].
  cbn [mbind outcome_bind]. eexists _, (Some _). split; [done|].
  split; [destruct Hc; split; simpl; try done; lia|]. split; [done|]. split; [done|].
  intros _. simpl. apply Hlt; lia.
Qed.

Lemma response_buf_remove_inv c w : cli_inv c -> cli_inv (response_buf_remove c w).2.
Proof.
  intros Hc. unfold response_buf_remove.
  destruct (Nat.eqb_spec (response_end_offset c) 0); [apply fail_inv|].
  destruct Hc as [? ? Hr Hx ? ? ? ?].
  rewrite (proj2 (Nat.eqb_neq _ _) n) in Hr.
  split; simpl; try done; try lia.
Qed.

Lemma cli_step_inv op c w :
  cli_inv c ->
  (forall w' c' r, cli_step op c w = Ok (w', c', r) -> cli_inv c')
  /\ faults_only (eq OutOfFuel) (cli_step op c w).
Proof.
  intros Hc.
  assert (Hno : forall x : W * hstcpcli, cli_inv x.2 ->
    (forall w' c' r, no_code x = Ok (w', c', r) -> cli_inv c')
    /\ faults_only (eq OutOfFuel) (no_code x)).
  { intros [w0 c0] Hx. split; [by intros ? ? ? [= <- <- <-]|done]. }
  destruct op; cbn [cli_step];
    try (apply Hno; first [apply close_inv | by apply request_buf_inv | by apply response_buf_remove_inv]).
  - split; [|done]. intros w' c' r H1. unfold reconnect in H1.
    pose proof (close_inv (clear_error c) w) as Hcl.
    destruct (close _ _) as [w1 c1]. pose proof (connect_fd_inv c1 w1 Hcl) as Hcn.
    destruct (connect_fd _ _) as [w2 c2]. by injection H1 as <- <- <-.
  - split; [|done]. intros w' c' r H1. pose proof (request_send_inv c w Hc).
    destruct (request_send c w) as [[? ?] ?]. by injection H1 as <- <- <-.
  - split.
    + intros w' c' r H1. inv_ok. destruct r0 as [[[w1 c1] nf] r1]. inv_ok.
      by eapply response_recv_inv.
    + apply faults_only_bind; [|by intros [[[??]?]?] _].
      unfold response_recv. destruct (_ <? 0); [done|].
      destruct (_ || _ || _ || _); [by destruct (fail _ _ _)|].
      destruct (_ <? 0); [done|].
      apply faults_only_bind; [|intros [[? ?] [?|]] _; [by destruct (parse_status _ _) as [[??]?]|
                                                         by destruct (fail _ _ _)]].
      generalize (with_response (clear_error c) (response_end_offset (clear_error c)) 0 0).
      revert w. induction fuel as [|f IH]; intros w c0; cbn [await_line];
        (destruct (memchr _ _); [done|]); [by intros ? [= <-]|].
      destruct (read_more c0 w) as [[??]?]. destruct (_ <=? _); [done|apply IH].
  - destruct (get_next_row_ok c Hc) as (c' & row & -> & Hi & _).
    cbn [mbind outcome_bind]. split; [by intros ? ? ? [= <- <- <-]|done].
Qed.

(** C14: the client is memory safe and its bookkeeping consistent. From a fresh
    client, whatever calls are made in whatever order and whatever the server sends,
    no call leaves the buffers (the only way not to return is a server that keeps sending
    without a newline), and at most one response is outstanding, with its
    offsets inside the read buffer. *)
Theorem client_invariant args (w : W) ops :
  let '(w0, c0) := create args w in
  (forall w' c' rs, cli_run ops c0 w0 = Ok (w', c', rs) -> cli_inv c')
  /\ faults_only (eq OutOfFuel) (cli_run ops c0 w0).
Proof.
  pose proof (create_inv args w) as Hc. destruct (create args w) as [w0 c0]. simpl in Hc.
  revert w0 c0 Hc. induction ops as [|op ops IH]; intros w0 c0 Hc; cbn [cli_run].
  { split; [by intros ? ? ? [= <- <- <-]|done]. }
  destruct (cli_step_inv op c0 w0 Hc) as [Hi Hf].
  destruct (cli_step op c0 w0) as [[[w1 c1] r]|f] eqn:E; cbn [mbind outcome_bind].
  - destruct (IH w1 c1 (Hi _ _ _ eq_refl)) as [Hi' Hf'].
    destruct (cli_run ops c1 w1) as [[[w2 c2] rs]|f']; cbn [mbind outcome_bind].
    + split; [|done]. intros ? ? ? [= <- <- <-]. by eapply Hi'.
    + split; [done|]. intros f [= <-]. by apply Hf'.
  - split; [done|]. intros f' [= <-]. by apply Hf.
Qed.

(** ** Errors stick *)
Definition is_io (op : cli_op) : Prop :=
  match op with OpSend | OpRecv _ => True | _ => False end.

Definition no_reconnect (op : cli_op) : Prop :=
  match op with OpReconnect => False | _ => True end.

Lemma close_error c w : error_code (close c w).2 = error_code c.
Proof. unfold close. by destruct (af_close _ w). Qed.

Lemma fail_error c w s : error_code (fail c w s).2 = -1.
Proof. unfold fail, close. by destruct (af_close _ w). Qed.

Lemma cli_step_sticky op c w :
  cli_inv c -> error_code c < 0 -> no_reconnect op ->
  exists w' c' r, cli_step op c w = Ok (w', c', r) /\ error_code c' < 0 /\ (is_io op -> r < 0).
Proof.
  intros Hc He Hop.
  assert (Hno : forall x : W * hstcpcli, error_code x.2 < 0 ->
    exists w' c' r, no_code x = Ok (w', c', r) /\ error_code c' < 0 /\ (False -> r < 0)).
  { intros [w0 c0] Hx. simpl. naive_solver. }
  assert (Hrb : forall name line, error_code (request_buf name line c w).2 < 0).
  { intros name line. unfold request_buf. destruct (out_of_sync c); [|done].
    rewrite fail_error. lia. }
  destruct op; cbn [cli_step is_io]; try done.
  - apply Hno. by rewrite close_error.
  - apply Hno, Hrb.
  - apply Hno, Hrb.
  - apply Hno, Hrb.
  - unfold request_send. rewrite (proj2 (Z.ltb_lt _ _) He). naive_solver.
  - unfold response_recv. rewrite (proj2 (Z.ltb_lt _ _) He).
    cbn [mbind outcome_bind]. naive_solver.
  - destruct (get_next_row_ok c Hc) as (c' & row & -> & _ & He' & _).
    cbn [mbind outcome_bind]. eexists _, _, _. split; [done|]. split; [lia|done].
  - apply Hno. unfold response_buf_remove. destruct (_ =? _)%nat; [rewrite fail_error; lia|done].
Qed.

(** An input/output error is sticky. Once the code of the client is negative,
    every sequence of calls without [reconnect] returns, leaves the code
    negative and gives a negative result for every [request_send] and
    [response_recv] it holds. *)
Theorem errors_stick c (w : W) ops :
  cli_inv c -> error_code c < 0 -> Forall no_reconnect ops ->
  exists w' c' rs, cli_run ops c w = Ok (w', c', rs) /\ error_code c' < 0
    /\ Forall2 (fun op r => is_io op -> r < 0) ops rs.
Proof.
  intros Hc He Hops. revert c w Hc He. induction Hops as [|op ops Hop Hops IH]; intros c w Hc He.
  { exists w, c, []. by split_and!. }
  cbn [cli_run]. destruct (cli_step_sticky op c w Hc He Hop) as (w1 & c1 & r & Hs & He1 & Hr).
  pose proof (proj1 (cli_step_inv op c w Hc) _ _ _ Hs) as Hc1.
  rewrite Hs. cbn [mbind outcome_bind].
  destruct (IH c1 w1 Hc1 He1) as (w2 & c2 & rs & -> & He2 & Hrs).
  cbn [mbind outcome_bind]. eexists _, _, _. split; [done|]. split; [done|]. by constructor.
Qed.

(** [reconnect] recovers. Whatever the state before, it drops everything buffered and
    outstanding, returns the new error code, and a client whose socket was opened is at
    a stable point, ready for a request. *)
Theorem reconnect_recovers c (w : W) :
  let '(_, c', e) := reconnect c w in
  e = error_code c' /\ cli_clean c' /\ stable_point c' = (0 <=? fd c').
Proof.
  unfold reconnect, close, connect_fd. destruct (af_close _ w) as [w1 x].
  cbn [fd sargs closed clear_error set_error].
  destruct (socket_connect _ _ w1) as [[w2 y] r].
  split; [done|]. destruct (negb _); (split; [by split_and!|]); unfold stable_point; simpl;
    by rewrite !andb_true_r.
Qed.
End Steps.

(** ** Delivery of a reply *)

(** Successive reads of [fd] return the chunks and lead from [w] to [w']. *)
Fixpoint delivers {W} `{Net W} (fd : Z) (chunks : list (list Z)) (w w' : W) : Prop :=
  match chunks with
  | [] => w = w'
  | ch :: chs =>
      ch <> [] /\ exists w1, sys_read fd block_size w = (w1, Some ch) /\ delivers fd chs w1 w'
  end.

(** A successful reply without its newline. *)
Definition encode_reply (nf : Z) (rows : list (list string_ref)) : list Z :=
  bytes "0" ++ TAB :: dec_nat nf ++ mjoin (encode_row <$> rows).

Lemma encode_reply_split nf rows :
  encode_reply nf rows = encode_reply nf [] ++ mjoin (encode_row <$> rows).
Proof.
  unfold encode_reply. cbn [fmap list_fmap mjoin list_join].
  rewrite app_nil_r, <- app_assoc. done.
Qed.

(** The loop of a caller over [get_next_row]. *)
Fixpoint fetch_rows (fuel : nat) (c : hstcpcli) : outcome (hstcpcli * list (list string_ref)) :=
  match fuel with
  | O => Fault OutOfFuel
  | S f =>
      '(c, row) ← get_next_row c;
      match row with
      | None => Ok (c, [])
      | Some rs =>
          let vals := field_bytes c <$> (rs : list field_ref) in
          '(c, rows) ← fetch_rows f c;
          Ok (c, vals :: rows)
      end
  end.

(** The response of [c] still holds exactly [rows]. *)
Record rows_pending (c : hstcpcli) (rows : list (list string_ref)) : Prop := {
  rp_row : (cur_row_offset c <= response_end_offset c - 1)%nat;
  rp_end : (0 < response_end_offset c <= length (readbuf c))%nat;
  rp_text : take (response_end_offset c - 1 - cur_row_offset c)
              (drop (cur_row_offset c) (readbuf c)) = mjoin (encode_row <$> rows);
  rp_flds : 0 < num_flds c;
  rp_rows : Forall (fun r => length r = Z.to_nat (num_flds c) /\ Forall value_ok r) rows;
  rp_old : (length (flds c) <= Z.to_nat (num_flds c))%nat
}.

(** What reading rows leaves alone. *)
Definition same_response (c c' : hstcpcli) : Prop :=
  exists mem row fl,
    c' = mkCli (fd c) (sargs c) mem (writebuf c) (response_end_offset c) row (num_flds c)
           (num_req_bufd c) (num_req_sent c) (num_req_rcvd c) (error_code c) (error_str c) fl
    /\ drop (response_end_offset c) mem = drop (response_end_offset c) (readbuf c).

Lemma same_response_trans c1 c2 c3 :
  same_response c1 c2 -> same_response c2 c3 -> same_response c1 c3.
Proof.
  intros (m1 & r1 & f1 & -> & H1) (m2 & r2 & f2 & -> & H2). simpl in *.
  exists m2, r2, f2. split; [done|]. by rewrite H2.
Qed.

Lemma encode_row_tab r : r <> [] -> exists l, encode_row r = TAB :: l.
Proof.
  destruct r as [|v r]; [done|]. intros _. unfold encode_row.
  rewrite fmap_cons, mjoin_cons, append_delim_value_token. simpl. eauto.
Qed.

Lemma get_next_row_value c vals rows :
  rows_pending c (vals :: rows) ->
  exists c' rs, get_next_row c = Ok (c', Some rs) /\ field_bytes c' <$> rs = vals
    /\ rows_pending c' rows /\ same_response c c' /\ flds c' = rs.
Proof.
  intros [Hrow Hend Ht Hnf Hrows Hold].
  apply Forall_cons in Hrows as [[Hlen Hvals] Hrows].
  rewrite fmap_cons, mjoin_cons in Ht.
  assert (Hne : vals <> []) by (intros ->; simpl in Hlen; lia).
  destruct (encode_row_tab vals Hne) as [l0 Hl0].
  assert (Hlt : (cur_row_offset c < response_end_offset c - 1)%nat).
  { apply (f_equal length) in Ht. rewrite Hl0, length_take in Ht. simpl in Ht. lia. }
  unfold get_next_row. destruct (Z.eqb_spec (num_flds c) 0); [lia|].
  cbn [readbuf cur_row_offset response_end_offset with_flds num_flds flds].
  destruct (Nat.leb_spec (response_end_offset c - 1) (cur_row_offset c)); [lia|].
  destruct (get_fields_row vals (readbuf c) (cur_row_offset c) (response_end_offset c - 1) _ Ht)
    as (mem & rs & Hg & Hml & _ & Hd & Hv); [|done|lia|].
  { destruct rows as [|r rows]; [by left|right].
    apply Forall_cons in Hrows as [[Hr _] _].
    destruct (encode_row_tab r) as [l1 Hl1]; [intros ->; simpl in Hr; lia|].
    rewrite fmap_cons, mjoin_cons, Hl1. simpl. eauto. }
  rewrite Hlen in Hg. rewrite Hg. cbn [mbind outcome_bind].
  match goal with |- context [drop (Z.to_nat (num_flds c)) ?x] => set (fl := x) end.
  assert (Hfl : drop (Z.to_nat (num_flds c)) fl = []).
  { apply drop_ge. unfold fl. destruct (Nat.ltb_spec (length (flds c)) (Z.to_nat (num_flds c))); [|lia].
    rewrite length_app, length_replicate. lia. }
  rewrite Hfl, app_nil_r. set (e := (cur_row_offset c + length (encode_row vals))%nat) in *.
  pose proof (f_equal length Ht) as Htl. rewrite length_take, length_drop, length_app in Htl.
  assert (He : (e <= response_end_offset c - 1)%nat) by (unfold e; lia).
  eexists _, rs. split; [reflexivity|]. split; [exact Hv|]. split; [|split; [|reflexivity]].
  - split; simpl; try done; [lia..| |].
    + rewrite Hd. apply (f_equal (drop (length (encode_row vals)))) in Ht.
      rewrite drop_app_length, skipn_firstn_comm, drop_drop in Ht. fold e in Ht.
      rewrite <- Ht. f_equal. unfold e. lia.
    + pose proof (f_equal length Hv) as Hl. rewrite length_fmap in Hl. lia.
  - exists mem, e, rs. split; [done|].
    replace (response_end_offset c) with (e + (response_end_offset c - e))%nat by lia.
    by rewrite <- !drop_drop, Hd.
Qed.

Lemma get_next_row_end c :
  rows_pending c [] -> exists c', get_next_row c = Ok (c', None) /\ same_response c c'.
Proof.
  intros [Hrow Hend Ht Hnf _ _]. unfold get_next_row.
  destruct (Z.eqb_spec (num_flds c) 0); [lia|].
  cbn [cur_row_offset response_end_offset with_flds].
  destruct (Nat.leb_spec (response_end_offset c - 1) (cur_row_offset c)).
  - eexists. split; [reflexivity|]. eexists _, _, _. split; [reflexivity|done].
  - apply (f_equal length) in Ht. rewrite length_take, length_drop in Ht. simpl in Ht. lia.
Qed.

(** ** The shape of what the client returns *)
Lemma get_fields_length n mem start finish mem' rs e :
  get_fields n mem start finish = Ok (mem', rs, e) -> length rs = n.
Proof.
  revert mem start mem' rs e. induction n as [|n IH]; intros mem start mem' rs e; cbn [get_fields].
  { by intros [= <- <- <-]. }
  intros Hg. apply bind_Ok_inv in Hg as ([mem1 r] & _ & Hg).
  apply bind_Ok_inv in Hg as ([[mem2 rs2] e2] & Hg & [= <- <- <-]).
  cbn [length]. f_equal. by eapply IH.
Qed.

(** A row has a cell for every field of the response. *)
Lemma get_next_row_length c c' row :
  get_next_row c = Ok (c', Some row) ->
  num_flds c' = num_flds c /\ num_flds c <> 0 /\ (Z.to_nat (num_flds c) <= length row)%nat.
Proof.
  unfold get_next_row. destruct (Z.eqb_spec (num_flds c) 0) as [|Hn]; [done|].
  case_match; [done|]. intros Hg. apply bind_Ok_inv in Hg as ([[mem rs] e] & Hg & [= <- <-]).
  apply get_fields_length in Hg. split; [done|]. split; [done|]. cbn.
  rewrite length_app. cbn in Hg. lia.
Qed.

(** A response received without an error has the number of fields it returns. *)
Lemma response_recv_flds {W} `{Net W} fuel x c (w w' : W) c' nf r :
  response_recv fuel x c w = Ok (w', c', nf, r) -> error_code c' = 0 -> num_flds c' = nf.
Proof.
  unfold response_recv. destruct (Z.ltb_spec (error_code c) 0); [intros [= <- <- <- <-]; lia|].
  destruct (_ || _ || _ || _).
  { pose proof (fail_error (clear_error c) w "response_recv: protocol out of sync") as Hf.
    destruct (fail _ _ _). simpl in Hf. intros [= <- <- <- <-]. lia. }
  case_match; [by intros [= <- <- <- <-]|].
  intros Hr. apply bind_Ok_inv in Hr as ([[w1 c1] line] & _ & Hr). destruct line as [offset|].
  - unfold parse_status in Hr. destruct (read_ui32 (take _ _)) as [code rest].
    destruct (read_ui32 (skip_one rest)) as [n rest']. destruct (negb _);
      by injection Hr as <- <- <- <-.
  - pose proof (fail_error c1 w1 "read: eof") as Hf. destruct (fail c1 w1 _). simpl in Hf.
    injection Hr as <- <- <- <-. lia.
Qed.

(** The code that [response_recv] returns is that of the client. *)
Lemma response_recv_code {W} `{Net W} fuel x c (w w' : W) c' nf r :
  response_recv fuel x c w = Ok (w', c', nf, r) -> r = error_code c'.
Proof.
  unfold response_recv. destruct (error_code c <? 0); [by intros [= <- <- <- <-]|].
  destruct (_ || _ || _ || _); [by destruct (fail _ _ _); intros [= <- <- <- <-]|].
  case_match; [by intros [= <- <- <- <-]|].
  intros Hr. apply bind_Ok_inv in Hr as ([[w1 c1] line] & Hl & Hr). destruct line as [offset|].
  - apply await_line_keeps in Hl as [(l & e & ->) _]. cbn in Hr.
    unfold parse_status in Hr. destruct (read_ui32 (take _ _)) as [code rest].
    destruct (read_ui32 (skip_one rest)) as [n rest']. destruct (negb _);
      injection Hr as <- <- <- <-; done.
  - destruct (fail c1 w1 _). by injection Hr as <- <- <- <-.
Qed.

Lemma response_recv_returns {W} `{Net W} fuel x c (w : W) :
  cli_inv c ->
  returns (eq OutOfFuel) (fun r => cli_inv r.1.1.2 /\ (error_code r.1.1.2 = 0 -> num_flds r.1.1.2 = r.1.2))
    (response_recv fuel x c w).
Proof.
  intros Hc. destruct (response_recv fuel x c w) as [[[[w' c'] nf] r]|f] eqn:E; simpl.
  - split; [by eapply response_recv_inv|by eapply response_recv_flds].
  - destruct (cli_step_inv (OpRecv fuel) c w Hc) as [_ Hf]. unfold response_recv in E.
    cbn [cli_step] in Hf. apply Hf. unfold response_recv in *.
    destruct (error_code c <? 0); [done|]. destruct (_ || _ || _ || _); [by destruct (fail _ _ _)|].
    destruct (fd _ <? 0); [done|]. destruct (await_line _ _ _) as [[[w1 c1] [o|]]|f1]; simpl in *.
    + destruct (parse_status o c1) as [[c2 nf] r]. done.
    + by destruct (fail c1 w1 _).
    + by injection E as ->.
Qed.

(** The end of the rows can be asked for again. *)
Lemma get_next_row_end_again c c' :
  rows_pending c [] -> get_next_row c = Ok (c', None) -> rows_pending c' [].
Proof.
  intros [Hrow Hend Ht Hnf Hr Hold]. unfold get_next_row.
  destruct (Z.eqb_spec (num_flds c) 0); [lia|].
  cbn [cur_row_offset response_end_offset with_flds].
  destruct (Nat.leb_spec (response_end_offset c - 1) (cur_row_offset c)).
  - intros [= <-]. split; try done. cbn [flds num_flds with_flds].
    case_match; [|done].
    rewrite length_app, length_replicate. lia.
  - apply (f_equal length) in Ht. rewrite length_take, length_drop in Ht. simpl in Ht. lia.
Qed.

Lemma fetch_rows_pending c rows :
  rows_pending c rows ->
  exists c', fetch_rows (S (length rows)) c = Ok (c', rows) /\ same_response c c'.
Proof.
  revert c. induction rows as [|vals rows IH]; intros c Hp.
  - destruct (get_next_row_end c Hp) as (c' & Hg & Hs). cbn [fetch_rows].
    rewrite Hg. cbn [mbind outcome_bind]. eauto.
  - destruct (get_next_row_value c vals rows Hp) as (c1 & rs & Hg & Hv & Hp1 & Hs1 & _).
    destruct (IH c1 Hp1) as (c2 & Hf & Hs2).
    change (fetch_rows (S (length (vals :: rows))) c) with
      ('(c, row) ← get_next_row c;
       match row with
       | None => Ok (c, [])
       | Some rs => let vals := field_bytes c <$> (rs : list field_ref) in
           '(c, rows) ← fetch_rows (S (length rows)) c; Ok (c, vals :: rows)
       end).
    rewrite Hg. cbn [mbind outcome_bind]. rewrite Hf. cbn [mbind outcome_bind]. rewrite Hv.
    eexists. split; [done|]. by eapply same_response_trans.
Qed.

(** ** Waiting for a line *)
Section Delivery.
Context {W : Type} `{Net W}.

(** A line already buffered needs no read. *)
Lemma await_line_here fuel c (w : W) line rest :
  readbuf c = line ++ LF :: rest -> (LF ∉ line) ->
  await_line fuel c w = Ok (w, c, Some (S (length line))).
Proof. intros Hr Hn. destruct fuel; cbn [await_line]; by rewrite Hr, memchr_first. Qed.

Lemma with_readbuf_id c : with_readbuf c (readbuf c) = c.
Proof. by destruct c. Qed.

(** Some number of chunks completes the line; the others stay unread. *)
Lemma await_line_delivers fuel c w w' chunks line rest :
  delivers (fd c) chunks w w' -> (length chunks <= fuel)%nat ->
  readbuf c ++ mjoin chunks = line ++ LF :: rest -> (LF ∉ line) ->
  exists k w1 rest',
    await_line fuel c w = Ok (w1, with_readbuf c (line ++ LF :: rest'), Some (S (length line)))
    /\ delivers (fd c) (drop k chunks) w1 w' /\ rest' ++ mjoin (drop k chunks) = rest.
Proof.
  revert fuel c w. induction chunks as [|ch chs IH]; intros fuel c w Hd Hf Hj Hn.
  { simpl in Hd. subst w'. rewrite app_nil_r in Hj. exists 0%nat, w, rest.
    rewrite <- Hj, with_readbuf_id. simpl. rewrite app_nil_r.
    split; [by eapply await_line_here|done]. }
  destruct (memchr LF (readbuf c)) as [nl|] eqn:E.
  { pose proof (memchr_app_l _ _ (mjoin (ch :: chs)) _ E) as E'.
    rewrite Hj, memchr_first in E' by done. injection E' as <-.
    pose proof (memchr_lt _ _ _ E) as Hlt. apply memchr_split in E as [Hb _].
    set (d := drop (S (length line)) (readbuf c)) in Hb. rewrite Hb in Hj.
    rewrite <- app_assoc in Hj. apply app_inj_1 in Hj as [Hl Hj]; [|rewrite length_take; lia].
    injection Hj as Hj. rewrite Hl in Hb.
    exists 0%nat, w, d. rewrite drop_0, <- Hb, with_readbuf_id.
    split; [by eapply await_line_here|done]. }
  destruct fuel as [|f]; [simpl in Hf; lia|].
  destruct Hd as (Hne & w1 & Hr & Hd). cbn [await_line]. rewrite E.
  assert (Hrm : read_more c w
    = (w1, with_readbuf c (readbuf c ++ ch), Z.of_nat (length ch))).
  { unfold read_more. rewrite Hr. by destruct ch. }
  rewrite Hrm. destruct (Z.leb_spec (Z.of_nat (length ch)) 0).
  { destruct ch; [done|]. simpl in *. lia. }
  destruct (IH f (with_readbuf c (readbuf c ++ ch)) w1) as (k & w2 & rest' & Hw & Hd' & Hr').
  { done. } { simpl in Hf. lia. } { cbn. by rewrite <- app_assoc. } { done. }
  exists (S k), w2, rest'. rewrite Hw. done.
Qed.

(** A client that has sent [n + 1] requests and waits for the first reply. *)
Record waiting (c : hstcpcli) : Prop := {
  wt_error : 0 <= error_code c;
  wt_fd : 0 <= fd c;
  wt_bufd : num_req_bufd c = 0;
  wt_sent : 0 < num_req_sent c;
  wt_rcvd : num_req_rcvd c = 0;
  wt_end : response_end_offset c = 0%nat;
  wt_flds : flds c = []
}.

(** The state in which [response_recv] examines a complete line. *)
Definition line_ready (c : hstcpcli) (buf : list Z) : hstcpcli :=
  mkCli (fd c) (sargs c) buf (writebuf c) 0 0 0 0 (num_req_sent c) 0 0 [] [].

Lemma response_recv_line fuel x c w w' chunks line rest :
  waiting c -> delivers (fd c) chunks w w' -> (length chunks <= fuel)%nat ->
  readbuf c ++ mjoin chunks = line ++ LF :: rest -> (LF ∉ line) ->
  exists k w1 rest',
    response_recv fuel x c w
    = (let '(c', nf, r) := parse_status (S (length line)) (line_ready c (line ++ LF :: rest')) in
       Ok (w1, c', nf, r))
    /\ delivers (fd c) (drop k chunks) w1 w' /\ rest' ++ mjoin (drop k chunks) = rest.
Proof.
  intros [He Hfd Hb Hs Hr Hend Hfl] Hd Hf Hj Hn. unfold response_recv.
  destruct (Z.ltb_spec (error_code c) 0); [lia|].
  cbn [clear_error set_error num_req_bufd num_req_sent num_req_rcvd response_end_offset].
  rewrite Hb, Hr, Hend. destruct (Z.eqb_spec (num_req_sent c) 0); [lia|].
  cbn [Z.ltb Z.compare Nat.eqb orb negb].
  cbn [fd with_response clear_error set_error].
  destruct (Z.ltb_spec (fd c) 0); [lia|].
  match goal with |- context [await_line fuel ?c0 w] =>
    destruct (await_line_delivers fuel c0 w w' chunks line rest) as (k & w1 & rest' & Ha & Hdel & Hrest) end;
    [done..|].
  exists k, w1, rest'. cbn in Ha. cbn. rewrite Ha. cbn [mbind outcome_bind].
  unfold line_ready, with_readbuf, with_response, clear_error, set_error. cbn. by rewrite Hb, Hr, Hfl.
Qed.

Lemma parse_status_reply nf rows c rest :
  0 <= nf < 2 ^ 32 -> Forall (fun r => r <> []) rows ->
  parse_status (S (length (encode_reply nf rows)))
    (line_ready c (encode_reply nf rows ++ LF :: rest))
  = (mkCli (fd c) (sargs c) (encode_reply nf rows ++ LF :: rest) (writebuf c)
       (S (length (encode_reply nf rows)))
       (length (encode_reply nf []))
       nf 0 (num_req_sent c - 1) 1 0 [] [], nf, 0).
Proof.
  intros Hnf Hrows. unfold parse_status. cbn [readbuf with_response with_counts line_ready].
  replace (S (length (encode_reply nf rows)) - 1)%nat with (length (encode_reply nf rows)) by lia.
  rewrite take_app_length.
  assert (H0 : read_ui32 (encode_reply nf rows) = (0, TAB :: dec_nat nf ++ mjoin (encode_row <$> rows)))
    by (by apply (read_ui32_dec 0)).
  rewrite H0. unfold skip_one. cbn [drop].
  assert (Hrd : read_ui32 (dec_nat nf ++ mjoin (encode_row <$> rows))
                = (nf, mjoin (encode_row <$> rows))).
  { destruct rows as [|r rows]; [rewrite app_nil_r; by apply read_ui32_dec|].
    apply Forall_cons in Hrows as [Hr _]. destruct (encode_row_tab r Hr) as [l Hl].
    rewrite fmap_cons, mjoin_cons, Hl. apply (read_ui32_dec nf). done. }
  rewrite drop_0, Hrd. cbn [negb Z.eqb]. unfold with_response, with_counts, line_ready.
  cbn [fd sargs readbuf writebuf num_req_bufd num_req_sent num_req_rcvd error_code error_str flds
       response_end_offset cur_row_offset num_flds].
  do 3 f_equal. unfold encode_reply. cbn [fmap list_fmap mjoin list_join].
  rewrite app_nil_r, !length_app. cbn [length]. rewrite !length_app. simpl. lia.
Qed.
End Delivery.

(** ** Framing of a request *)

Definition has_mod (mod_op : string_ref) : bool := negb (sref_size mod_op =? 0)%nat.

Definition filter_tokens (f : hstcpcli_filter) : list (list Z) :=
  [filter_type f; f_op f; uint32_text (ff_offset f); value_token (f_val f)].

(** The fields of an [exec_generic] request. *)
Definition exec_tokens (pst_id : Z) (op : string_ref) (kvs : list string_ref) (limit skip : Z)
    (mod_op : string_ref) (mvs : list string_ref) (fils : list hstcpcli_filter)
    (invalues_keypart : Z) (invalues : list string_ref) : list (list Z) :=
  let has_fil := negb (length fils =? 0)%nat in
  let opts := negb (skip =? 0) || (0 <=? invalues_keypart) || has_mod mod_op || has_fil in
  [uint32_text pst_id; default [] op; uint32_text (Z.of_nat (length kvs))]
    ++ (value_token <$> kvs)
    ++ (if negb (limit =? 0) || opts then
          [uint32_text limit]
            ++ (if opts then [uint32_text skip] else [])
            ++ (if 0 <=? invalues_keypart
                then [bytes "@"; uint32_text invalues_keypart;
                      uint32_text (Z.of_nat (length invalues))] ++ (value_token <$> invalues)
                else [])
            ++ mjoin (filter_tokens <$> fils)
            ++ (if has_mod mod_op then default [] mod_op :: (value_token <$> mvs) else [])
        else []).

(** Each token behind a tab. *)
Definition tabbed (ts : list (list Z)) : list Z := mjoin (cons TAB <$> ts).

Lemma tabbed_app ts us : tabbed (ts ++ us) = tabbed ts ++ tabbed us.
Proof. unfold tabbed. by rewrite fmap_app, mjoin_app. Qed.

Lemma tabbed_cons t ts : tabbed (t :: ts) = TAB :: t ++ tabbed ts.
Proof. done. Qed.

Lemma tabbed_nil : tabbed [] = [].
Proof. done. Qed.

Lemma join_with_tabbed t ts : join_with TAB (t :: ts) = t ++ tabbed ts.
Proof.
  revert t. induction ts as [|u ts IH]; intros t; [by rewrite app_nil_r|].
  change (t ++ TAB :: join_with TAB (u :: ts) = t ++ tabbed (u :: ts)). by rewrite IH.
Qed.

Lemma append_values_tabbed buf vs :
  foldl append_delim_value buf vs = buf ++ tabbed (value_token <$> vs).
Proof.
  revert buf. induction vs as [|v vs IH]; intros buf; simpl; [by rewrite app_nil_r|].
  rewrite IH, append_delim_value_token, tabbed_cons. by rewrite <- ?app_assoc.
Qed.

Lemma filters_tabbed buf fils :
  foldl filter_text buf fils = buf ++ tabbed (mjoin (filter_tokens <$> fils)).
Proof.
  revert buf. induction fils as [|f fils IH]; intros buf; simpl; [by rewrite app_nil_r|].
  rewrite IH. unfold filter_text. rewrite append_delim_value_token.
  rewrite !tabbed_cons, <- ?app_assoc. cbn [app]. by rewrite <- ?app_assoc.
Qed.

Lemma exec_generic_line_tokens id op kvs limit skip mop mvs fils kp ivs :
  exec_generic_line [] id op kvs limit skip mop mvs fils kp ivs
  = join_with TAB (exec_tokens id op kvs limit skip mop mvs fils kp ivs) ++ [LF].
Proof.
  unfold exec_generic_line, exec_tokens, has_mod. cbv zeta. f_equal. cbn [app].
  rewrite join_with_tabbed, !tabbed_cons, tabbed_app, !append_values_tabbed, !filters_tabbed.
  set (o := negb (skip =? 0) || (0 <=? kp)). rewrite !orb_assoc. fold o.
  replace (negb (limit =? 0) || negb (skip =? 0) || (0 <=? kp)) with (negb (limit =? 0) || o)
    by (unfold o; by rewrite orb_assoc).
  destruct (negb (limit =? 0)), o, (0 <=? kp), (negb (sref_size mop =? 0)%nat),
    (negb (length fils =? 0)%nat) eqn:Ef; cbn [orb];
    repeat (rewrite ?append_values_tabbed, ?tabbed_app, ?tabbed_cons, ?tabbed_nil, <- ?app_assoc,
              ?app_nil_r; cbn [app]); try done.
Qed.

(** A token free of the bytes that separate fields and lines. *)
Definition plain (l : list Z) : Prop := (TAB ∉ l) /\ (LF ∉ l).

Lemma plain_uint32 v : plain (uint32_text v).
Proof. rewrite uint32_text_dec. split; apply dec_nat_no_byte; by_decide. Qed.

Lemma plain_value v : value_ok v -> plain (value_token v).
Proof. intros Hv. split; by apply value_token_no_byte. Qed.

Lemma plain_values vs : Forall value_ok vs -> Forall plain (value_token <$> vs).
Proof. intros H. apply Forall_fmap. by eapply Forall_impl; [|apply plain_value]. Qed.

Lemma plain_filters fils :
  Forall (fun f => plain (filter_type f) /\ plain (f_op f) /\ value_ok (f_val f)) fils ->
  Forall plain (mjoin (filter_tokens <$> fils)).
Proof.
  induction 1 as [|f fils (Ht & Ho & Hv) Hfs IH]; [done|].
  rewrite fmap_cons, mjoin_cons. apply Forall_app. split; [|done].
  repeat constructor; try apply Ht; try apply Ho; try apply plain_uint32; by apply plain_value.
Qed.

Create HintDb plain.
#[local] Hint Resolve plain_uint32 plain_value plain_values plain_filters : plain.

Lemma exec_tokens_plain id op kvs limit skip mop mvs fils kp ivs :
  plain (default [] op) -> plain (default [] mop) ->
  Forall value_ok kvs -> Forall value_ok mvs -> Forall value_ok ivs ->
  Forall (fun f => plain (filter_type f) /\ plain (f_op f) /\ value_ok (f_val f)) fils ->
  Forall plain (exec_tokens id op kvs limit skip mop mvs fils kp ivs).
Proof.
  intros. unfold exec_tokens. cbv zeta.
  assert (plain (bytes "@")) by (split; by_decide).
  repeat first [apply Forall_nil_2 | apply Forall_cons_2 | apply Forall_app_2 | case_match];
    auto with plain.
Qed.

(** ** Properties *)

(** Requests are framed. An [exec_generic] request is its fields, in the
    order of the protocol, joined by tabs and ended by a newline, and no field
    holds a tab or a newline, whatever bytes (or null) the keys and values are. *)
Theorem exec_generic_framing id op kvs limit skip mop mvs fils kp ivs :
  plain (default [] op) -> plain (default [] mop) ->
  Forall value_ok kvs -> Forall value_ok mvs -> Forall value_ok ivs ->
  Forall (fun f => plain (filter_type f) /\ plain (f_op f) /\ value_ok (f_val f)) fils ->
  exec_generic_line [] id op kvs limit skip mop mvs fils kp ivs
  = join_with TAB (exec_tokens id op kvs limit skip mop mvs fils kp ivs) ++ [LF]
  /\ Forall plain (exec_tokens id op kvs limit skip mop mvs fils kp ivs).
Proof. intros. split; [apply exec_generic_line_tokens|by apply exec_tokens_plain]. Qed.

Section DeliveryTheorems.
Context {W : Type} `{Net W}.

(** The client after the status of a reply has been read. *)
Definition reply_ready (c : hstcpcli) (nf : Z) (rows : list (list string_ref)) (rest' : list Z)
    : hstcpcli :=
  mkCli (fd c) (sargs c) (encode_reply nf rows ++ LF :: rest') (writebuf c)
    (S (length (encode_reply nf rows))) (length (encode_reply nf []))
    nf 0 (num_req_sent c - 1) 1 0 [] [].

Lemma encode_reply_no_LF nf rows :
  Forall (Forall value_ok) rows -> LF ∉ encode_reply nf rows.
Proof.
  intros Hrows. unfold encode_reply. apply not_elem_of_app. split; [by_decide|].
  apply not_elem_of_cons. split; [done|]. apply not_elem_of_app.
  split; [by apply dec_nat_no_byte; by_decide|].
  induction Hrows as [|r rows Hr Hrows IH]; [by apply not_elem_of_nil|].
  rewrite fmap_cons, mjoin_cons. apply not_elem_of_app. split; [|done].
  unfold encode_row. clear IH Hrows. induction Hr as [|v vs Hv Hvs IHr]; [by apply not_elem_of_nil|].
  rewrite fmap_cons, mjoin_cons, append_delim_value_token. cbn [app].
  apply not_elem_of_cons. split; [done|]. apply not_elem_of_app.
  split; [by apply value_token_no_byte|done].
Qed.

Lemma reply_ready_pending c nf rows rest' :
  0 < nf -> Forall (fun r => length r = Z.to_nat nf /\ Forall value_ok r) rows ->
  rows_pending (reply_ready c nf rows rest') rows.
Proof.
  intros Hnf Hrows. pose proof (encode_reply_split nf rows) as Hsp.
  pose proof (f_equal length Hsp) as Hsl. rewrite length_app in Hsl.
  unfold reply_ready. split; cbn [cur_row_offset response_end_offset readbuf num_flds flds length];
    rewrite ?length_app; cbn [length]; try lia; [|done].
  rewrite Hsp at 2. rewrite <- app_assoc, drop_app_length.
  replace (_ - _ - _)%nat with (length (mjoin (encode_row <$> rows))) by lia.
  by rewrite take_app_length.
Qed.

Lemma response_recv_reply fuel x c (w w' : W) chunks nf rows rest :
  waiting c -> delivers (fd c) chunks w w' -> (length chunks <= fuel)%nat ->
  readbuf c ++ mjoin chunks = encode_reply nf rows ++ LF :: rest ->
  0 < nf < 2 ^ 32 ->
  Forall (fun r => length r = Z.to_nat nf /\ Forall value_ok r) rows ->
  exists k w1 rest',
    response_recv fuel x c w = Ok (w1, reply_ready c nf rows rest', nf, 0)
    /\ delivers (fd c) (drop k chunks) w1 w' /\ rest' ++ mjoin (drop k chunks) = rest.
Proof.
  intros Hw Hd Hf Hj Hnf Hrows.
  destruct (response_recv_line fuel x c w w' chunks _ rest Hw Hd Hf Hj)
    as (k & w1 & rest' & Hrecv & Hdel & Hrest).
  { apply encode_reply_no_LF. eapply Forall_impl; [exact Hrows|]. by intros ? []. }
  rewrite parse_status_reply in Hrecv; [by exists k, w1, rest'|lia|].
  eapply Forall_impl; [exact Hrows|]. intros r [Hl _] ->. simpl in Hl. lia.
Qed.

(** Removing a response whose rows have been read. *)
Lemma remove_reply c nf rows rest' c2 (w : W) :
  same_response (reply_ready c nf rows rest') c2 ->
  response_buf_remove c2 w
  = (w, mkCli (fd c) (sargs c) rest' (writebuf c) 0 0 0 0 (num_req_sent c - 1) 0 0 [] []).
Proof.
  intros (mem & row & fl & -> & Hmem). unfold response_buf_remove, reply_ready in *.
  cbn in Hmem |- *. rewrite Hmem, drop_app_ge by lia.
  replace (S _ - _)%nat with 1%nat by lia. reflexivity.
Qed.

(** C13: replies are delivered, however the stream is cut into reads. If the bytes
    already buffered and the chunks that the next reads return form a successful
    reply with some rows and a remainder, [response_recv] succeeds with the number of
    fields, the loop over [get_next_row] yields exactly the values the server
    encoded, nulls and escaped bytes included, and [response_buf_remove] leaves the
    remainder for the next reply. *)
Theorem reply_delivered fuel x c (w w' : W) chunks nf rows rest :
  waiting c -> delivers (fd c) chunks w w' -> (length chunks <= fuel)%nat ->
  readbuf c ++ mjoin chunks = encode_reply nf rows ++ LF :: rest ->
  0 < nf < 2 ^ 32 ->
  Forall (fun r => length r = Z.to_nat nf /\ Forall value_ok r) rows ->
  exists k w1 c1 c2 c3,
    response_recv fuel x c w = Ok (w1, c1, nf, 0)
    /\ fetch_rows (S (length rows)) c1 = Ok (c2, rows)
    /\ response_buf_remove c2 w1 = (w1, c3)
    /\ readbuf c3 ++ mjoin (drop k chunks) = rest
    /\ delivers (fd c3) (drop k chunks) w1 w'
    /\ num_req_sent c3 = num_req_sent c - 1 /\ num_req_rcvd c3 = 0 /\ num_req_bufd c3 = 0
    /\ response_end_offset c3 = 0%nat /\ error_code c3 = 0 /\ fd c3 = fd c.
Proof.
  intros Hw Hd Hf Hj Hnf Hrows.
  destruct (response_recv_reply fuel x c w w' chunks nf rows rest)
    as (k & w1 & rest' & Hrecv & Hdel & Hrest); [done..|].
  destruct (fetch_rows_pending (reply_ready c nf rows rest') rows) as (c2 & Hfetch & Hsame).
  { apply reply_ready_pending; [lia|done]. }
  eexists k, w1, _, c2, _. split; [exact Hrecv|]. split; [exact Hfetch|].
  split; [by eapply remove_reply|]. by split_and!.
Qed.

(** An error reply without its newline. *)
Definition encode_error (code nf : Z) (msg : list Z) : list Z :=
  dec_nat code ++ TAB :: dec_nat nf ++ TAB :: msg.

(** The client that has received it. *)
Definition error_ready (c : hstcpcli) (code nf : Z) (msg rest' : list Z) : hstcpcli :=
  mkCli (fd c) (sargs c) (encode_error code nf msg ++ LF :: rest') (writebuf c)
    (S (length (encode_error code nf msg))) 0 nf 0 (num_req_sent c - 1) 1
    (wrap_int code) (if bool_decide (msg = []) then bytes "unknown_error" else msg) [].

Lemma response_recv_error fuel x c (w w' : W) chunks code nf msg rest :
  waiting c -> delivers (fd c) chunks w w' -> (length chunks <= fuel)%nat ->
  readbuf c ++ mjoin chunks = encode_error code nf msg ++ LF :: rest ->
  0 < code < 2 ^ 32 -> 0 <= nf < 2 ^ 32 -> (TAB ∉ msg) -> (LF ∉ msg) ->
  exists k w1 rest',
    response_recv fuel x c w = Ok (w1, error_ready c code nf msg rest', nf, wrap_int code)
    /\ delivers (fd c) (drop k chunks) w1 w' /\ rest' ++ mjoin (drop k chunks) = rest.
Proof.
  intros Hw Hd Hf Hj Hcode Hnf Htab Hmsg.
  set (line := encode_error code nf msg) in *.
  assert (Hlf : LF ∉ line).
  { unfold line, encode_error.
    rewrite !not_elem_of_app, !not_elem_of_cons, not_elem_of_app, not_elem_of_cons.
    split_and!; try done; apply dec_nat_no_byte; by_decide. }
  destruct (response_recv_line fuel x c w w' chunks _ rest Hw Hd Hf Hj Hlf)
    as (k & w1 & rest' & Hrecv & Hdel & Hrest).
  unfold parse_status in Hrecv. cbn [readbuf with_response with_counts line_ready] in Hrecv.
  replace (S (length line) - 1)%nat with (length line) in Hrecv by lia.
  rewrite take_app_length in Hrecv.
  assert (H0 : read_ui32 line = (code, TAB :: dec_nat nf ++ TAB :: msg))
    by (apply (read_ui32_dec code); lia).
  rewrite H0 in Hrecv. unfold skip_one in Hrecv. cbn [drop] in Hrecv. rewrite drop_0 in Hrecv.
  rewrite (proj1 (read_ui32_dec nf _ ltac:(lia))) in Hrecv.
  destruct (Z.eqb_spec code 0); [lia|]. cbn [negb drop] in Hrecv. rewrite drop_0 in Hrecv.
  rewrite read_token_end in Hrecv by done. cbn [fst] in Hrecv.
  exists k, w1, rest'. split; [exact Hrecv|done].
Qed.

(** An error reply is reported with its code and message (or [unknown_error]),
    however the stream is cut; the response stays in the buffer and
    counts as received until it is removed. *)
Theorem error_reply_delivered fuel x c (w w' : W) chunks code nf msg rest :
  waiting c -> delivers (fd c) chunks w w' -> (length chunks <= fuel)%nat ->
  readbuf c ++ mjoin chunks = encode_error code nf msg ++ LF :: rest ->
  0 < code < 2 ^ 32 -> 0 <= nf < 2 ^ 32 -> (TAB ∉ msg) -> (LF ∉ msg) ->
  exists w1 c1,
    response_recv fuel x c w = Ok (w1, c1, nf, wrap_int code)
    /\ error_code c1 = wrap_int code
    /\ error_str c1 = (if bool_decide (msg = []) then bytes "unknown_error" else msg)
    /\ num_req_rcvd c1 = 1 /\ num_req_sent c1 = num_req_sent c - 1
    /\ response_end_offset c1 <> 0%nat.
Proof.
  intros Hw Hd Hf Hj Hcode Hnf Htab Hmsg.
  destruct (response_recv_error fuel x c w w' chunks code nf msg rest)
    as (k & w1 & rest' & Hrecv & _ & _); [done..|].
  eexists w1, _. split; [exact Hrecv|]. by split_and!.
Qed.
End DeliveryTheorems.

(** ** The hypotheses at concrete inputs *)

(** A client of descriptor 3 that waits for one reply and has read one byte of it. *)
Definition sample_waiting : hstcpcli :=
  mkCli 3 socket_args_default (bytes "0") [] 0 0 0 0 1 0 0 [] [].

Definition sample_row : list string_ref := [Some (bytes "1"); None; Some [9; 0; 255]].

Lemma sample_waiting_ok : waiting sample_waiting.
Proof. by split. Qed.

Lemma sample_inv : cli_inv (set_error sample_waiting (-1) (bytes "read: eof")).
Proof. split; simpl; done || lia. Qed.

(** The reply and the first byte of the next one in three reads. *)
Definition sample_chunks : list (list Z) :=
  [[TAB; 51]; TAB :: 49 :: TAB :: 0 :: [TAB; 1]; [73; 1; 64; 255; LF; 48]].

Lemma errors_stick_witness :
  exists w' c' rs,
    @cli_run script script_net [OpSend; OpRemove; OpRecv 0]
      (set_error sample_waiting (-1) (bytes "read: eof")) (mkScript [] []) = Ok (w', c', rs)
    /\ error_code c' < 0
    /\ Forall2 (fun op r => is_io op -> r < 0) [OpSend; OpRemove; OpRecv 0] rs.
Proof.
  apply (@errors_stick script script_net); [apply sample_inv|by_decide|by repeat constructor].
Defined.

Lemma exec_generic_framing_witness :
  exec_generic_line [] 1 (Some (bytes "=")) [Some [9; 10]; None] 0 0 (Some (bytes "U"))
    [Some (bytes "x")] [] (-1) []
  = join_with TAB (exec_tokens 1 (Some (bytes "=")) [Some [9; 10]; None] 0 0 (Some (bytes "U"))
      [Some (bytes "x")] [] (-1) []) ++ [LF]
  /\ Forall plain (exec_tokens 1 (Some (bytes "=")) [Some [9; 10]; None] 0 0 (Some (bytes "U"))
      [Some (bytes "x")] [] (-1) []).
Proof.
  apply exec_generic_framing;
    first [split; by_decide | repeat constructor; by_decide].
Defined.

Lemma reply_delivered_witness :
  exists k w1 c1 c2 c3,
    @response_recv script script_net 3 0 sample_waiting (mkScript sample_chunks [])
    = Ok (w1, c1, 3, 0)
    /\ fetch_rows 2 c1 = Ok (c2, [sample_row])
    /\ @response_buf_remove script script_net c2 w1 = (w1, c3)
    /\ readbuf c3 ++ mjoin (drop k sample_chunks) = [48]
    /\ @delivers script script_net (fd c3) (drop k sample_chunks) w1 (mkScript [] [])
    /\ num_req_sent c3 = 1 - 1 /\ num_req_rcvd c3 = 0 /\ num_req_bufd c3 = 0
    /\ response_end_offset c3 = 0%nat /\ error_code c3 = 0 /\ fd c3 = 3.
Proof.
  apply (@reply_delivered script script_net 3 0 sample_waiting (mkScript sample_chunks [])
           (mkScript [] []) sample_chunks 3 [sample_row] [48]).
  - apply sample_waiting_ok.
  - simpl. repeat first [exact eq_refl | split; [done|] | eexists].
  - by_decide.
  - by_decide.
  - by_decide.
  - repeat constructor; by_decide.
Defined.

(** The same client before any byte has arrived. *)
Definition sample_empty : hstcpcli := with_readbuf sample_waiting [].

Definition sample_error : list Z := bytes "21" ++ TAB :: bytes "1" ++ TAB :: bytes "kpnum".

Lemma error_reply_delivered_witness :
  exists w1 c1,
    @response_recv script script_net 1 0 sample_empty (mkScript [sample_error ++ [LF]] [])
    = Ok (w1, c1, 1, wrap_int 21)
    /\ error_code c1 = wrap_int 21
    /\ error_str c1 = (if bool_decide (bytes "kpnum" = []) then bytes "unknown_error" else bytes "kpnum")
    /\ num_req_rcvd c1 = 1 /\ num_req_sent c1 = 1 - 1 /\ response_end_offset c1 <> 0%nat.
Proof.
  apply (@error_reply_delivered script script_net 1 0 sample_empty
           (mkScript [sample_error ++ [LF]] []) (mkScript [] []) [sample_error ++ [LF]]
           21 1 (bytes "kpnum") []); try by_decide.
  - by split.
  - simpl. repeat first [exact eq_refl | split; [done|] | eexists].
Defined.
