(* ===== verification/HandlerSocket.v ===== *)
(** * HandlerSocket: customers over the HandlerSocket protocol
    ([rinha/handler_socket.cc])

    The two clients of a thread and the three functions on them.  An output parameter
    that the caller has not set yet is [None].  [recv_fuel] bounds the reads that
    wait for one line. *)
From S2P Require Import Prelude Text Structs StringUtil Escape Socket Hstcpcli HstcpcliSpec.
#[local] Open Scope Z_scope.

(** ** [std::stoi] *)
Fixpoint digit_prefix (l : list Z) : list Z :=
  match l with
  | c :: l' => if decide (is_digit c) then c :: digit_prefix l' else []
  | [] => []
  end.

(** No digits or a value outside [int] throw. *)
Definition std_stoi (l : list Z) : outcome Z :=
  let l := skip_spaces l in
  let '(neg, l) := match l with
                   | c :: l' => if c =? MINUS then (true, l')
                                else if c =? 43 then (false, l') else (false, l)
                   | [] => (false, [])
                   end in
  let ds := digit_prefix l in
  let v := if neg : bool then - dec_value ds else dec_value ds in
  if bool_decide (ds = []) || negb (bool_decide (is_int v)) then Fault UncaughtException else Ok v.

(** ** The state of a thread *)
Record hs_thread := mkHs {
  read_ptr : option hstcpcli;
  read_ptr_id : Z;
  write_ptr : option hstcpcli;
  write_ptr_id : Z
}.

Definition hs_thread_new : hs_thread := mkHs None 1 None 2.

Definition with_read (t : hs_thread) (c : hstcpcli) : hs_thread :=
  mkHs (Some c) (read_ptr_id t) (write_ptr t) (write_ptr_id t).
Definition with_write (t : hs_thread) (c : hstcpcli) : hs_thread :=
  mkHs (read_ptr t) (read_ptr_id t) (Some c) (write_ptr_id t).

Definition hs_conf (host port : list Z) : config :=
  <[bytes "host" := host]> (<[bytes "port" := port]> (<[bytes "timeout" := bytes "30"]>
    (<[bytes "listen_backlog" := bytes "256"]> ∅))).

(** The key of a customer: one byte. *)
Definition id_key (id : Z) : string_ref := Some [(id + 48) mod 256].

(** The rows of a reply, field by field. *)
Fixpoint read_fields (i : nat) (row : list field_ref) (c : hstcpcli) (customer : option Customer)
    (version : option Z) : outcome (option Customer * option Z) :=
  match row with
  | [] => Ok (customer, version)
  | v :: row' =>
      customer ← (match field_memory c v with
                  | Some mem => if (i =? 1)%nat then (x ← decode_customer mem; Ok (Some x))
                                else Ok customer
                  | None => Ok customer
                  end);
      version ← (match field_bytes c v with
                 | Some s => if (i =? 2)%nat then (x ← std_stoi s; Ok (Some x)) else Ok version
                 | None => Ok version
                 end);
      read_fields (S i) row' c customer version
  end.

Fixpoint read_rows (fuel : nat) (nflds : Z) (c : hstcpcli) (customer : option Customer)
    (version : option Z) : outcome (hstcpcli * option Customer * option Z) :=
  match fuel with
  | O => Fault OutOfFuel
  | S f =>
      '(c, row) ← get_next_row c;
      match row with
      | None => Ok (c, customer, version)
      | Some row =>
          row ← array_reads row 0 (Z.to_nat nflds);
          '(customer, version) ← read_fields 0 row c customer version;
          read_rows f nflds c customer version
      end
  end.

(** Whether some field of the reply to an update holds a positive number. *)
Fixpoint modified_fields (row : list field_ref) (c : hstcpcli) (modified : bool) : outcome bool :=
  match row with
  | [] => Ok modified
  | v :: row' =>
      modified ← (match field_bytes c v with
                  | Some s => n ← std_stoi s; Ok (if 0 <? n then true else modified)
                  | None => Ok modified
                  end);
      modified_fields row' c modified
  end.

Fixpoint modified_rows (fuel : nat) (nflds : Z) (c : hstcpcli) (modified : bool)
    : outcome (hstcpcli * bool) :=
  match fuel with
  | O => Fault OutOfFuel
  | S f =>
      '(c, row) ← get_next_row c;
      match row with
      | None => Ok (c, modified)
      | Some row =>
          row ← array_reads row 0 (Z.to_nat nflds);
          modified ← modified_fields row c modified;
          modified_rows f nflds c modified
      end
  end.

(** Every row consumes a byte of the response, so its length bounds the loop. *)
Definition rows_fuel (c : hstcpcli) : nat := S (response_end_offset c).

Section HandlerSocket.
Context {W : Type} `{Net W}.
Variable recv_fuel : nat.
Variable padding : nat -> Z.

(** The two blocks of [InitializeHs]: connect, take the next handler id, open the
    index.  The old client of [ptr] is destroyed by the assignment. *)
Definition create_client (ptr : option hstcpcli) (host port : list Z) (w : W)
    : outcome (W * hstcpcli) :=
  args ← socket_args_set socket_args_default (hs_conf host port) w;
  let '(w, c) := create args w in
  Ok (match ptr with Some old => (af_close (fd old) w).1 | None => w end, c).

Definition open_index (c : hstcpcli) (index : list Z) (id : Z) (w : W)
    : outcome (W * hstcpcli * bool) :=
  let '(w, c) := request_buf_open_index id (bytes "mydb") (bytes "Users") index
                   (bytes "id,data,version") None c w in
  let '(w, c, rc) := request_send c w in
  if negb (rc =? 0) then Ok (w, c, false)
  else
    '(w, c, _, _) ← response_recv recv_fuel 0 c w;
    let e := get_error_code c in
    if 0 <=? e then
      if negb (e =? 0) then Ok (w, c, false)
      else let '(w, c) := response_buf_remove c w in Ok (w, c, true)
    else Ok (w, c, true).

(** One block without interruption. *)
Definition open_handler (ptr : option hstcpcli) (host port index : list Z) (id_count : Z) (w : W)
    : outcome (W * hstcpcli * Z * bool) :=
  '(w, c) ← create_client ptr host port w;
  '(w, c, ok) ← open_index c index id_count w;
  Ok (w, c, id_count, ok).

(** [id_count] is the atomic counter all threads share. *)
Definition InitializeHs (host : list Z) (t : hs_thread) (id_count : Z) (w : W)
    : outcome (W * hs_thread * Z * bool) :=
  '(w, c, id, ok) ← open_handler (read_ptr t) host (bytes "/tmp/handler_socket_read")
                      (bytes "handlers_index") id_count w;
  let id_count := wrap_int (id_count + 1) in
  let t := mkHs (Some c) id (write_ptr t) (write_ptr_id t) in
  if negb ok then Ok (w, t, id_count, false)
  else
    '(w, c, id, ok) ← open_handler (write_ptr t) host (bytes "/tmp/handler_socket_write")
                        (bytes "writers_index") id_count w;
    let id_count := wrap_int (id_count + 1) in
    let t := mkHs (read_ptr t) (read_ptr_id t) (Some c) id in
    if negb ok then Ok (w, t, id_count, false) else Ok (w, t, id_count, true).

Definition ReadCustomerHs (id : Z) (customer : option Customer) (version : option Z)
    (t : hs_thread) (w : W) : outcome (W * hs_thread * bool * option Customer * option Z) :=
  c ← of_option NullDeref (read_ptr t);
  let '(w, c) := request_buf_exec_generic (read_ptr_id t) (Some (bytes "=")) [id_key id] 0 0
                   None [] [] (-1) [] c w in
  let '(w, c, rc) := request_send c w in
  if negb (rc =? 0) then Ok (w, with_read t c, false, customer, version)
  else if negb (get_error_code c =? 0) then Ok (w, with_read t c, false, customer, version)
  else
    '(w, c, nflds, _) ← response_recv recv_fuel 0 c w;
    if negb (get_error_code c =? 0) then Ok (w, with_read t c, false, customer, version)
    else
      '(c, customer, version) ← read_rows (rows_fuel c) nflds c customer version;
      let '(w, c) := response_buf_remove c w in
      Ok (w, with_read t c, true, customer, version).

(** The two [return 1] are [true]. *)
Definition WriteCustomerHs (id : Z) (customer : Customer) (version : Z) (t : hs_thread) (w : W)
    : outcome (W * hs_thread * bool) :=
  next ← int_op (version + 1);
  c ← of_option NullDeref (write_ptr t);
  let '(w, c) := request_buf_exec_generic (write_ptr_id t) (Some (bytes "="))
                   [id_key id; Some (dec_int version)] 0 0
                   (Some (bytes "U"))
                   [id_key id; Some (encode_customer padding customer); Some (dec_int next)]
                   [] (-1) [] c w in
  let '(w, c, rc) := request_send c w in
  if negb (rc =? 0) then Ok (w, with_write t c, false)
  else if negb (get_error_code c =? 0) then Ok (w, with_write t c, true)
  else
    '(w, c, nflds, e) ← response_recv recv_fuel 0 c w;
    if negb (get_error_code c =? 0) then Ok (w, with_write t c, true)
    else
      '(c, modified) ← modified_rows (rows_fuel c) nflds c false;
      let '(w, c) := if 0 <=? e then response_buf_remove c w else (w, c) in
      Ok (w, with_write t c, modified).
End HandlerSocket.

(** ** Numbers *)
Lemma digit_prefix_all l : Forall is_digit l -> digit_prefix l = l.
Proof. induction 1 as [|c l Hc Hl IH]; simpl; [done|]. by rewrite decide_True, IH. Qed.

Lemma skip_spaces_digit c l : is_digit c \/ c = MINUS -> skip_spaces (c :: l) = c :: l.
Proof.
  intros Hc. cbn [skip_spaces].
  assert (Hs : is_space c = false).
  { unfold is_space, is_digit, chr0, chr9, MINUS in *. rewrite orb_false_iff, andb_false_iff.
    rewrite Z.eqb_neq, !Z.leb_gt. lia. }
  by rewrite Hs.
Qed.

(** [std::to_string] and [std::stoi] are inverse. *)
Lemma std_stoi_dec_int v : is_int v -> std_stoi (dec_int v) = Ok v.
Proof.
  intros Hv. unfold std_stoi, dec_int.
  assert (Hds : forall n, 0 <= n -> exists c l, dec_nat n = c :: l /\ is_digit c).
  { intros n Hn. pose proof (dec_nat_is_digit n) as Hd. pose proof (dec_nat_nonempty n).
    destruct (dec_nat n) as [|c l]; [done|]. apply Forall_cons in Hd as [Hc _]. eauto. }
  assert (Hp : forall n, 0 <= n -> digit_prefix (dec_nat n) = dec_nat n
                                  /\ bool_decide (dec_nat n = []) = false).
  { intros n Hn. split; [apply digit_prefix_all, dec_nat_is_digit|].
    apply bool_decide_eq_false_2, dec_nat_nonempty. }
  destruct (Z.ltb_spec v 0).
  - rewrite skip_spaces_digit by (by right). rewrite Z.eqb_refl.
    destruct (Hp (- v) ltac:(lia)) as [-> ->]. rewrite dec_nat_value by lia.
    rewrite Z.opp_involutive. by rewrite (bool_decide_eq_true_2 _ Hv).
  - destruct (Hds v ltac:(lia)) as (c & l & Hcl & Hc).
    rewrite Hcl, skip_spaces_digit by (by left).
    assert (Hm : (c =? MINUS) = false /\ (c =? 43) = false).
    { unfold is_digit, chr0, chr9, MINUS in *. rewrite !Z.eqb_neq. lia. }
    destruct Hm as [-> ->]. rewrite <- Hcl.
    destruct (Hp v ltac:(lia)) as [-> ->]. rewrite dec_nat_value by lia.
    by rewrite (bool_decide_eq_true_2 _ Hv).
Qed.

Lemma dec_int_bytes v : Forall is_byte (dec_int v).
Proof.
  assert (Hn : forall n, Forall is_byte (dec_nat n)).
  { intros n. eapply Forall_impl; [apply dec_nat_is_digit|].
    intros c. unfold is_digit, is_byte, chr0, chr9. lia. }
  unfold dec_int. destruct (v <? 0); [constructor; [by_decide|]|]; apply Hn.
Qed.

(** ** One exchange with the server *)

(** A client between requests. *)
Record ready (c : hstcpcli) : Prop := {
  rd_error : 0 <= error_code c;
  rd_fd : 0 <= fd c;
  rd_bufd : num_req_bufd c = 0;
  rd_sent : num_req_sent c = 0;
  rd_rcvd : num_req_rcvd c = 0;
  rd_end : response_end_offset c = 0%nat;
  rd_flds : flds c = [];
  rd_writebuf : writebuf c = [];
  rd_readbuf : readbuf c = []
}.

(** The client after its request has been sent, and at rest after the reply. *)
Definition sent_client (c : hstcpcli) : hstcpcli :=
  mkCli (fd c) (sargs c) [] [] 0 (cur_row_offset c) (num_flds c) 0 1 0 0 [] [].

Definition idle_client (c : hstcpcli) : hstcpcli :=
  mkCli (fd c) (sargs c) [] [] 0 0 0 0 0 0 0 [] [].

Lemma idle_ready c : 0 <= fd c -> ready (idle_client c).
Proof. intros. by split. Qed.

Definition row_ok (nf : Z) (r : list string_ref) : Prop :=
  length r = Z.to_nat nf /\ Forall value_ok r.

Section Exchange.
Context {W : Type} `{Net W}.
Variable recv_fuel : nat.

(** The network takes the whole request and then delivers, in some number of
    reads, a reply text. *)
Definition served (c : hstcpcli) (line text : list Z) (w w2 : W) : Prop :=
  exists w1 chunks, sys_send (fd c) line w = (w1, Z.of_nat (length line))
    /\ delivers (fd c) chunks w1 w2 /\ (length chunks <= recv_fuel)%nat
    /\ mjoin chunks = text ++ [LF].

Lemma delivers_nothing fd chunks (w w' : W) :
  delivers fd chunks w w' -> mjoin chunks = [] -> w = w'.
Proof.
  destruct chunks as [|ch chs]; [done|]. intros [Hne _]. rewrite mjoin_cons.
  by intros [??]%app_nil.
Qed.

Lemma send_request name line c (w w1 : W) :
  ready c -> line <> [] -> sys_send (fd c) line w = (w1, Z.of_nat (length line)) ->
  exists c1, request_buf name line c w = (w, c1) /\ request_send c1 w = (w1, sent_client c, 0).
Proof.
  intros [He Hfd Hb Hs Hr Hend Hfl Hwb Hrb] Hline Hsend. unfold request_buf, out_of_sync.
  rewrite Hs, Hr. cbn [Z.ltb Z.compare orb]. eexists. split; [reflexivity|].
  unfold request_send. cbn. destruct (Z.ltb_spec (error_code c) 0); [lia|].
  destruct (Z.ltb_spec (fd c) 0); [lia|]. rewrite Hb, Hs, Hr, Hwb. cbn. rewrite Hsend.
  destruct (Z.leb_spec (Z.of_nat (length line)) 0); [destruct line; [done|simpl in *; lia]|].
  rewrite Z.eqb_refl. cbn. unfold with_counts, with_writebuf, sent_client, clear_error, set_error.
  cbn. rewrite Hrb, Hend, Hfl, Nat2Z.id, drop_all. reflexivity.
Qed.

Lemma send_request_cut name line c r (w w1 : W) :
  ready c -> sys_send (fd c) line w = (w1, r) -> r <> Z.of_nat (length line) ->
  exists c1, request_buf name line c w = (w, c1)
    /\ exists w2 c2, request_send c1 w = (w2, c2, -1) /\ error_code c2 = -1.
Proof.
  intros [He Hfd Hb Hs Hr Hend Hfl Hwb Hrb] Hsend Hlen. unfold request_buf, out_of_sync.
  rewrite Hs, Hr. cbn [Z.ltb Z.compare orb]. eexists. split; [reflexivity|].
  assert (Hf : forall c' (w' : W) s, exists w2 c2,
    (let '(w, c) := fail c' w' s in (w, c, error_code c)) = (w2, c2, -1) /\ error_code c2 = -1).
  { intros c' w' s. pose proof (fail_error c' w' s) as Hx. destruct (fail c' w' s) as [w2 c2].
    simpl in Hx. exists w2, c2. by rewrite Hx. }
  unfold request_send. cbn -[fail]. destruct (Z.ltb_spec (error_code c) 0); [lia|].
  destruct (Z.ltb_spec (fd c) 0); [lia|]. rewrite Hb, Hs, Hr, Hwb. cbn -[fail]. rewrite Hsend.
  change (0 + 1 =? 0) with false. cbn [orb]. apply Z.eqb_neq in Hlen.
  destruct (r <=? 0); [|rewrite Hlen; cbn [negb]];
    match goal with |- context [fail ?c ?w ?s] => destruct (Hf c w s) as (w2 & c2 & Hx & ?) end;
    exists w2, c2; (split; [exact Hx|done]).
Qed.

Lemma sent_waiting c : 0 <= fd c -> waiting (sent_client c).
Proof. intros. by split. Qed.

Lemma exchange name line c (w w2 : W) nf rows :
  ready c -> line <> [] -> served c line (encode_reply nf rows) w w2 ->
  0 < nf < 2 ^ 32 -> Forall (row_ok nf) rows ->
  exists c1 w1,
    request_buf name line c w = (w, c1) /\ request_send c1 w = (w1, sent_client c, 0)
    /\ response_recv recv_fuel 0 (sent_client c) w1
       = Ok (w2, reply_ready (sent_client c) nf rows [], nf, 0).
Proof.
  intros Hc Hline (w1 & chunks & Hsend & Hdel & Hfuel & Htext) Hnf Hrows.
  destruct (send_request name line c w w1 Hc Hline Hsend) as (c1 & Hb & Hs).
  exists c1, w1. split; [done|]. split; [done|].
  destruct (response_recv_reply recv_fuel 0 (sent_client c) w1 w2 chunks nf rows [])
    as (k & w2' & rest' & Hr & Hd & Hrest); try done.
  { apply sent_waiting, Hc. }
  apply app_nil in Hrest as [-> Hk].
  by rewrite (delivers_nothing _ _ _ _ Hd Hk) in Hr.
Qed.

Lemma remove_idle c nf rows c2 (w : W) :
  same_response (reply_ready (sent_client c) nf rows []) c2 ->
  response_buf_remove c2 w = (w, idle_client c).
Proof. intros Hs. by rewrite (remove_reply _ _ _ _ _ _ Hs). Qed.
End Exchange.

Lemma exec_line_nonempty id op kvs limit skip mop mvs fils kp ivs :
  exec_generic_line [] id op kvs limit skip mop mvs fils kp ivs <> [].
Proof. rewrite exec_generic_line_tokens. by intros [_ ?]%app_nil. Qed.

(** ** Reading rows *)

(** The values of the row of a customer. *)
Definition customer_row (padding : nat -> Z) (id : Z) (x : Customer) (v : Z) : list string_ref :=
  [id_key id; Some (encode_customer padding x); Some (dec_int v)].

Lemma field_memory_bytes c r s :
  field_bytes c r = Some s -> exists more, field_memory c r = Some (s ++ more).
Proof.
  destruct r as [[off len]|]; [|done]. simpl. intros [= <-]. exists (drop len (drop off (readbuf c))).
  by rewrite take_drop.
Qed.

Lemma read_customer_row padding c id x v cust ver fuel :
  wf_customer x -> is_int v -> num_flds c = 3 ->
  rows_pending c [customer_row padding id x v] ->
  exists c', read_rows (S (S fuel)) 3 c cust ver = Ok (c', Some x, Some v) /\ same_response c c'.
Proof.
  intros Hx Hv Hnf Hp. cbn [read_rows].
  destruct (get_next_row_value _ _ _ Hp) as (c1 & rs & Hg & Hvals & Hp1 & Hs1 & _).
  rewrite Hg. cbn [mbind outcome_bind].
  unfold customer_row in Hvals.
  destruct rs as [|r1 [|r2 [|r3 [|]]]]; try discriminate Hvals.
  cbn [fmap list_fmap] in Hvals. injection Hvals as H1 H2 H3.
  destruct (field_memory_bytes _ _ _ H1) as [m1 M1].
  destruct (field_memory_bytes _ _ _ H2) as [m2 M2].
  destruct (field_memory_bytes _ _ _ H3) as [m3 M3].
  change (array_reads [r1; r2; r3] 0 (Z.to_nat 3)) with (Ok [r1; r2; r3]).
  cbn [mbind outcome_bind read_fields].
  rewrite M1, H1. cbn [Nat.eqb mbind outcome_bind]. rewrite M2, H2. cbn [Nat.eqb mbind outcome_bind].
  rewrite decode_encode_customer by done. cbn [mbind outcome_bind].
  rewrite M3, H3. cbn [Nat.eqb mbind outcome_bind].
  rewrite std_stoi_dec_int by done. cbn [mbind outcome_bind].
  destruct (get_next_row_end _ Hp1) as (c2 & Hg2 & Hs2). rewrite Hg2. cbn [mbind outcome_bind].
  exists c2. split; [done|]. by eapply same_response_trans.
Qed.

(** A reply without rows. *)
Lemma read_no_row c cust ver fuel nf :
  rows_pending c [] ->
  exists c', read_rows (S fuel) nf c cust ver = Ok (c', cust, ver) /\ same_response c c'.
Proof.
  intros Hp. cbn [read_rows]. destruct (get_next_row_end _ Hp) as (c' & -> & Hs). eauto.
Qed.

(** The reply to an update: one row with the number of modified rows. *)
Lemma modified_row c n fuel :
  is_int n -> num_flds c = 1 -> rows_pending c [[Some (dec_int n)]] ->
  exists c', modified_rows (S (S fuel)) 1 c false = Ok (c', 0 <? n) /\ same_response c c'.
Proof.
  intros Hn Hnf Hp. cbn [modified_rows].
  destruct (get_next_row_value _ _ _ Hp) as (c1 & rs & Hg & Hvals & Hp1 & Hs1 & _).
  rewrite Hg. cbn [mbind outcome_bind].
  destruct rs as [|r1 [|]]; try discriminate Hvals. injection Hvals as H1.
  change (array_reads [r1] 0 (Z.to_nat 1)) with (Ok [r1]). cbn [mbind outcome_bind modified_fields].
  rewrite H1. cbn [mbind outcome_bind]. rewrite std_stoi_dec_int by done. cbn [mbind outcome_bind].
  destruct (get_next_row_end _ Hp1) as (c2 & Hg2 & Hs2). rewrite Hg2. cbn [mbind outcome_bind].
  exists c2. split; [|by eapply same_response_trans]. by destruct (0 <? n).
Qed.

Lemma customer_row_ok padding id x v :
  wf_customer x -> (forall i, is_byte (padding i)) -> row_ok 3 (customer_row padding id x v).
Proof.
  intros Hx Hp. split; [done|]. unfold customer_row. rewrite !Forall_cons.
  split_and!; [| | |done]; unfold value_ok; cbn [default id_key].
  - apply Forall_singleton, Z.mod_pos_bound. lia.
  - by apply encode_customer_bytes.
  - apply dec_int_bytes.
Qed.

Lemma count_row_ok n : row_ok 1 [Some (dec_int n)].
Proof. split; [done|]. apply Forall_singleton, dec_int_bytes. Qed.

(** The requests of the two functions. *)
Definition read_line (handler id : Z) : list Z :=
  exec_generic_line [] handler (Some (bytes "=")) [id_key id] 0 0 None [] [] (-1) [].

Definition write_line (padding : nat -> Z) (handler id : Z) (x : Customer) (v : Z) : list Z :=
  exec_generic_line [] handler (Some (bytes "=")) [id_key id; Some (dec_int v)] 0 0
    (Some (bytes "U")) [id_key id; Some (encode_customer padding x); Some (dec_int (v + 1))]
    [] (-1) [].

(** ** A client that has failed *)

(** A thread whose client [ptr] is in error for good. *)
Definition failed_client (ptr : option hstcpcli) : Prop :=
  exists c, ptr = Some c /\ error_code c < 0.

Section Failed.
Context {W : Type} `{Net W}.

Lemma request_buf_failed name line c (w : W) :
  error_code c < 0 -> error_code (request_buf name line c w).2 < 0.
Proof.
  intros He. unfold request_buf. destruct (out_of_sync c); [rewrite fail_error; lia|done].
Qed.

Lemma request_send_failed c (w : W) : error_code c < 0 -> request_send c w = (w, c, error_code c).
Proof. intros He. unfold request_send. by rewrite (proj2 (Z.ltb_lt _ _) He). Qed.

(** The row loop ends on every response. *)
Lemma read_rows_end fuel nf c cust ver :
  cli_inv c -> (response_end_offset c - cur_row_offset c < fuel)%nat ->
  read_rows fuel nf c cust ver <> Fault OutOfFuel.
Proof.
  assert (Hs : forall l, std_stoi l <> Fault OutOfFuel).
  { intros l. unfold std_stoi. by repeat case_match. }
  assert (Hd : forall l, decode_customer l <> Fault OutOfFuel).
  { intros l. unfold decode_customer. by case_match. }
  assert (Hf : forall row i c cust ver, read_fields i row c cust ver <> Fault OutOfFuel).
  { induction row as [|v row IH]; intros i c0 cu ve; [done|]. cbn [read_fields].
    destruct (field_memory c0 v) as [mem|], (field_bytes c0 v) as [s|],
      (i =? 1)%nat, (i =? 2)%nat; cbn [mbind outcome_bind]; try apply IH;
      try (destruct (decode_customer mem) eqn:Em; cbn [mbind outcome_bind];
           [|intros [= ->]; by apply (Hd mem)]); try apply IH;
      try (destruct (std_stoi s) eqn:Es; cbn [mbind outcome_bind];
           [|intros [= ->]; by apply (Hs s)]); apply IH. }
  revert c cust ver. induction fuel as [|fuel IH]; intros c cust ver Hc Hlt; [lia|].
  cbn [read_rows]. destruct (get_next_row_ok c Hc) as (c' & row & -> & Hc' & _ & He & Hp).
  cbn [mbind outcome_bind]. destruct row as [row|]; [|done].
  destruct (array_reads row 0 (Z.to_nat nf)) as [row'|e] eqn:Er; cbn [mbind outcome_bind];
    [|by intros [= ->]; apply array_reads_fault in Er].
  pose proof (Hf row' 0%nat c' cust ver) as Hrf.
  destruct (read_fields _ _ _ _ _) as [[cu ve]|f]; cbn [mbind outcome_bind];
    [|intros [= ->]; done].
  pose proof (inv_row c' Hc'). specialize (Hp ltac:(done)). apply IH; [done|lia].
Qed.
End Failed.

(** The socket arguments of the two clients. *)
Definition hs_args (port : list Z) : socket_args :=
  set_bufs (set_unix_domain (set_limits socket_args_default 30 256) port) 0 0.

Lemma hs_conf_args {W} `{Net W} port (w : W) :
  socket_args_set socket_args_default (hs_conf (bytes "/") port) w = Ok (hs_args port).
Proof.
  rewrite (socket_args_set_unix _ _ _ 30 256 port); unfold hs_conf, get_int; try done.
Qed.

Section Calls.
Context {W : Type} `{Net W}.
Variable recv_fuel : nat.
Variable padding : nat -> Z.

(** A failed client fails every call and stays failed. *)
Lemma ReadCustomerHs_failed id cust ver t (w : W) :
  failed_client (read_ptr t) ->
  exists w' t', ReadCustomerHs recv_fuel id cust ver t w = Ok (w', t', false, cust, ver)
    /\ failed_client (read_ptr t') /\ write_ptr t' = write_ptr t.
Proof.
  clear padding. intros (c & Hc & He). unfold ReadCustomerHs. rewrite Hc. cbn [of_option mbind outcome_bind].
  unfold request_buf_exec_generic.
  match goal with |- context [request_buf ?n ?l c w] =>
    pose proof (request_buf_failed n l c w He) as He1; destruct (request_buf n l c w) as [w1 c1] end.
  simpl in He1. rewrite request_send_failed by done. cbn [mbind].
  destruct (Z.eqb_spec (error_code c1) 0); [lia|]. cbn [negb].
  eexists _, _. split; [reflexivity|]. split; [by exists c1|done].
Qed.

Lemma WriteCustomerHs_failed id x v t (w : W) :
  is_int (v + 1) -> failed_client (write_ptr t) ->
  exists w' t', WriteCustomerHs recv_fuel padding id x v t w = Ok (w', t', false)
    /\ failed_client (write_ptr t') /\ read_ptr t' = read_ptr t.
Proof.
  intros Hv (c & Hc & He). unfold WriteCustomerHs. rewrite int_op_in_range, Hc by done.
  cbn [of_option mbind outcome_bind]. unfold request_buf_exec_generic.
  match goal with |- context [request_buf ?n ?l c w] =>
    pose proof (request_buf_failed n l c w He) as He1; destruct (request_buf n l c w) as [w1 c1] end.
  simpl in He1. rewrite request_send_failed by done.
  destruct (Z.eqb_spec (error_code c1) 0); [lia|]. cbn [negb].
  eexists _, _. split; [reflexivity|]. split; [by exists c1|done].
Qed.

(** The start of both functions against a server that answers. *)
Lemma rows_fuel_2 c : exists f, rows_fuel (reply_ready c 1 [] []) = S f.
Proof. by eexists. Qed.

Lemma rows_fuel_reply c nf rows :
  exists f, rows_fuel (reply_ready c nf rows []) = S (S f).
Proof. eexists. reflexivity. Qed.

(** The customer and version the server holds are read. *)
Lemma ReadCustomerHs_row id cust ver t c x v (w w2 : W) :
  read_ptr t = Some c -> ready c -> wf_customer x -> is_int v -> (forall i, is_byte (padding i)) ->
  served recv_fuel c (read_line (read_ptr_id t) id)
    (encode_reply 3 [customer_row padding id x v]) w w2 ->
  ReadCustomerHs recv_fuel id cust ver t w
  = Ok (w2, with_read t (idle_client c), true, Some x, Some v).
Proof.
  intros Hc Hr Hx Hv Hp Hs. unfold ReadCustomerHs. rewrite Hc. cbn [of_option mbind outcome_bind].
  assert (Hrows : Forall (row_ok 3) [customer_row padding id x v])
    by (apply Forall_singleton, customer_row_ok; done).
  destruct (exchange recv_fuel "request_buf_exec_generic" (read_line (read_ptr_id t) id) c w w2 3 _
              Hr ltac:(apply exec_line_nonempty) Hs ltac:(lia) Hrows) as (c1 & w1 & Hb & Hsd & Hrv).
  unfold request_buf_exec_generic. fold (read_line (read_ptr_id t) id). rewrite Hb, Hsd.
  cbn [negb Z.eqb get_error_code error_code sent_client]. fold (sent_client c).
  rewrite Hrv. cbn [mbind outcome_bind].
  change (get_error_code (reply_ready _ _ _ _)) with 0. cbn [negb Z.eqb].
  destruct (rows_fuel_reply (sent_client c) 3 [customer_row padding id x v]) as [f ->].
  destruct (read_customer_row padding (reply_ready (sent_client c) 3 [customer_row padding id x v] [])
              id x v cust ver f Hx Hv eq_refl) as (c2 & -> & Hsame).
  { apply reply_ready_pending; [lia|exact Hrows]. }
  cbn [mbind outcome_bind]. by rewrite (remove_idle _ _ _ _ _ Hsame).
Qed.

(** A reply without rows leaves the outputs as they were. *)
Lemma ReadCustomerHs_no_row id cust ver t c (w w2 : W) :
  read_ptr t = Some c -> ready c ->
  served recv_fuel c (read_line (read_ptr_id t) id) (encode_reply 3 []) w w2 ->
  ReadCustomerHs recv_fuel id cust ver t w
  = Ok (w2, with_read t (idle_client c), true, cust, ver).
Proof.
  clear padding. intros Hc Hr Hs. unfold ReadCustomerHs. rewrite Hc. cbn [of_option mbind outcome_bind].
  destruct (exchange recv_fuel "request_buf_exec_generic" (read_line (read_ptr_id t) id) c w w2 3 _
              Hr ltac:(apply exec_line_nonempty) Hs ltac:(lia) ltac:(done)) as (c1 & w1 & Hb & Hsd & Hrv).
  unfold request_buf_exec_generic. fold (read_line (read_ptr_id t) id). rewrite Hb, Hsd.
  cbn [negb Z.eqb get_error_code error_code sent_client]. fold (sent_client c).
  rewrite Hrv. cbn [mbind outcome_bind].
  change (get_error_code (reply_ready _ _ _ _)) with 0. cbn [negb Z.eqb].
  destruct (read_no_row (reply_ready (sent_client c) 3 [] []) cust ver
              (response_end_offset (reply_ready (sent_client c) 3 [] [])) 3) as (c2 & Hrr & Hsame).
  { apply reply_ready_pending; [lia|done]. }
  unfold rows_fuel. rewrite Hrr. cbn [mbind outcome_bind]. by rewrite (remove_idle _ _ _ _ _ Hsame).
Qed.

(** The number of modified rows decides. *)
Lemma WriteCustomerHs_count id x v n t c (w w2 : W) :
  write_ptr t = Some c -> ready c -> is_int (v + 1) -> is_int n ->
  served recv_fuel c (write_line padding (write_ptr_id t) id x v)
    (encode_reply 1 [[Some (dec_int n)]]) w w2 ->
  WriteCustomerHs recv_fuel padding id x v t w
  = Ok (w2, with_write t (idle_client c), 0 <? n).
Proof.
  intros Hc Hr Hv Hn Hs. unfold WriteCustomerHs. rewrite int_op_in_range, Hc by done.
  cbn [of_option mbind outcome_bind].
  assert (Hrows : Forall (row_ok 1) [[Some (dec_int n)]]) by (apply Forall_singleton, count_row_ok).
  destruct (exchange recv_fuel "request_buf_exec_generic" (write_line padding (write_ptr_id t) id x v)
              c w w2 1 _ Hr ltac:(apply exec_line_nonempty) Hs ltac:(lia) Hrows)
    as (c1 & w1 & Hb & Hsd & Hrv).
  unfold request_buf_exec_generic. fold (write_line padding (write_ptr_id t) id x v). rewrite Hb, Hsd.
  cbn [negb Z.eqb get_error_code error_code sent_client]. fold (sent_client c).
  rewrite Hrv. cbn [mbind outcome_bind].
  change (get_error_code (reply_ready _ _ _ _)) with 0. cbn [negb Z.eqb].
  destruct (rows_fuel_reply (sent_client c) 1 [[Some (dec_int n)]]) as [f ->].
  destruct (modified_row (reply_ready (sent_client c) 1 [[Some (dec_int n)]] []) n f Hn eq_refl)
    as (c2 & -> & Hsame).
  { apply reply_ready_pending; [lia|exact Hrows]. }
  cbn [mbind outcome_bind Z.leb Z.compare]. by rewrite (remove_idle _ _ _ _ _ Hsame).
Qed.
End Calls.

Section Errors.
Context {W : Type} `{Net W}.
Variable recv_fuel : nat.
Variable padding : nat -> Z.

Lemma wrap_int_nonzero code : 0 < code < 2 ^ 32 -> wrap_int code <> 0.
Proof. unfold wrap_int. intros Hc Hw. lia. Qed.

Lemma WriteCustomerHs_error id x v t c code nf msg (w w2 : W) :
  write_ptr t = Some c -> ready c -> is_int (v + 1) ->
  served recv_fuel c (write_line padding (write_ptr_id t) id x v) (encode_error code nf msg) w w2 ->
  0 < code < 2 ^ 32 -> 0 <= nf < 2 ^ 32 -> (TAB ∉ msg) -> (LF ∉ msg) ->
  WriteCustomerHs recv_fuel padding id x v t w
  = Ok (w2, with_write t (error_ready (sent_client c) code nf msg []), true).
Proof.
  intros Hc Hr Hv (w1 & chunks & Hsend & Hdel & Hfuel & Htext) Hcode Hnf Ht Hl.
  unfold WriteCustomerHs. rewrite int_op_in_range, Hc by done.
  cbn [of_option mbind outcome_bind].
  destruct (send_request "request_buf_exec_generic" (write_line padding (write_ptr_id t) id x v) c w w1
              Hr ltac:(apply exec_line_nonempty) Hsend) as (c1 & Hb & Hsd).
  unfold request_buf_exec_generic. fold (write_line padding (write_ptr_id t) id x v). rewrite Hb, Hsd.
  cbn [negb Z.eqb get_error_code error_code sent_client]. fold (sent_client c).
  destruct (response_recv_error recv_fuel 0 (sent_client c) w1 w2 chunks code nf msg [])
    as (k & w2' & rest' & Hrv & Hd & Hrest); try done.
  { apply sent_waiting, Hr. }
  apply app_nil in Hrest as [-> Hk]. rewrite (delivers_nothing _ _ _ _ Hd Hk) in Hrv.
  rewrite Hrv. cbn [mbind outcome_bind].
  change (get_error_code (error_ready _ _ _ _ _)) with (wrap_int code).
  pose proof (wrap_int_nonzero code Hcode). destruct (Z.eqb_spec (wrap_int code) 0); [done|]. done.
Qed.

(** The connection ends before a reply. *)
Lemma WriteCustomerHs_no_reply id x v t c s (w w1 w2 : W) :
  write_ptr t = Some c -> ready c -> is_int (v + 1) -> (1 <= recv_fuel)%nat ->
  let line := write_line padding (write_ptr_id t) id x v in
  sys_send (fd c) line w = (w1, Z.of_nat (length line)) ->
  sys_read (fd c) block_size w1 = (w2, s) -> s = None \/ s = Some [] ->
  exists w' t', WriteCustomerHs recv_fuel padding id x v t w = Ok (w', t', true)
    /\ failed_client (write_ptr t') /\ read_ptr t' = read_ptr t.
Proof.
  intros Hc Hr Hv Hfuel line Hsend Hread Hs. destruct recv_fuel as [|f] eqn:Ef; [lia|]. subst line.
  unfold WriteCustomerHs. rewrite int_op_in_range, Hc by done. cbn [of_option mbind outcome_bind].
  destruct (send_request "request_buf_exec_generic" (write_line padding (write_ptr_id t) id x v) c w w1
              Hr ltac:(apply exec_line_nonempty) Hsend) as (c1 & Hb & Hsd).
  unfold request_buf_exec_generic. fold (write_line padding (write_ptr_id t) id x v). rewrite Hb, Hsd.
  cbn [negb Z.eqb get_error_code error_code sent_client]. fold (sent_client c).
  unfold response_recv. cbn -[Nat.eqb fail].
  destruct (Z.ltb_spec (fd c) 0) as [Hfd|_]; [destruct Hr; lia|].
  unfold read_more. cbn [fd set_error with_response negb Nat.eqb clear_error sent_client]. rewrite Hread.
  assert (Hx : forall c' (w' : W), exists w3 c3,
    (let '(w, c) := fail c' w' "read: eof" in Ok (w, c, 0, error_code c)) = Ok (w3, c3, 0, -1)
    /\ error_code c3 = -1).
  { intros c' w'. pose proof (fail_error c' w' "read: eof") as Hx. destruct (fail c' w' _) as [w3 c3].
    simpl in Hx. exists w3, c3. by rewrite Hx. }
  destruct Hs as [->| ->]; cbn -[fail];
    match goal with |- context [fail ?c ?w ?s] => destruct (Hx c w) as (w3 & c3 & -> & He) end;
    cbn [mbind outcome_bind]; unfold get_error_code; rewrite He; cbn [negb Z.eqb];
    eexists _, _; (split; [reflexivity|]); (split; [|done]); exists c3; (split; [done|lia]).
Qed.

(** The request is not taken whole. *)
Lemma WriteCustomerHs_not_sent id x v t c r (w w1 : W) :
  write_ptr t = Some c -> ready c -> is_int (v + 1) ->
  let line := write_line padding (write_ptr_id t) id x v in
  sys_send (fd c) line w = (w1, r) -> r <> Z.of_nat (length line) ->
  exists w' t', WriteCustomerHs recv_fuel padding id x v t w = Ok (w', t', false)
    /\ failed_client (write_ptr t') /\ read_ptr t' = read_ptr t.
Proof.
  intros Hc Hr Hv line Hsend Hlen. subst line.
  destruct (send_request_cut "request_buf_exec_generic" _ c r w w1 Hr Hsend Hlen)
    as (c1 & Hb & w2 & c2 & Hsd & He).
  unfold WriteCustomerHs. rewrite int_op_in_range, Hc by done. cbn [of_option mbind outcome_bind].
  unfold request_buf_exec_generic. fold (write_line padding (write_ptr_id t) id x v). rewrite Hb, Hsd.
  cbn [negb Z.eqb]. eexists _, _. split; [reflexivity|]. split; [|done]. exists c2. split; [done|lia].
Qed.

(** With a response left in its buffer the client falls out of step. *)
Lemma WriteCustomerHs_unread id x v t c (w : W) :
  write_ptr t = Some c -> 0 < num_req_rcvd c -> is_int (v + 1) ->
  exists w' t', WriteCustomerHs recv_fuel padding id x v t w = Ok (w', t', false)
    /\ failed_client (write_ptr t').
Proof.
  intros Hc Hn Hv. unfold WriteCustomerHs. rewrite int_op_in_range, Hc by done.
  cbn [of_option mbind outcome_bind]. unfold request_buf_exec_generic, request_buf, out_of_sync.
  rewrite (proj2 (Z.ltb_lt _ _) Hn), orb_true_r.
  match goal with |- context [fail c w ?s] =>
    pose proof (fail_error c w s) as He; destruct (fail c w s) as [w1 c1] end.
  simpl in He. rewrite request_send_failed by (rewrite He; lia). rewrite He. cbn [negb Z.eqb].
  eexists _, _. split; [reflexivity|]. exists c1. split; [done|lia].
Qed.

(** One block of [InitializeHs] against a server that opens the index. *)
Lemma open_handler_opens ptr port index n c (w w1 w2 : W) :
  ptr = None -> create (hs_args port) w = (w1, c) -> ready c ->
  served recv_fuel c
    (open_index_line n (bytes "mydb") (bytes "Users") index (bytes "id,data,version") None)
    (encode_reply 1 []) w1 w2 ->
  open_handler recv_fuel ptr (bytes "/") port index n w = Ok (w2, idle_client c, n, true).
Proof.
  clear padding. intros -> Hcr Hr Hs. unfold open_handler, create_client. rewrite hs_conf_args. cbn [mbind outcome_bind].
  rewrite Hcr. cbn [mbind outcome_bind]. unfold open_index, request_buf_open_index.
  match goal with |- context [request_buf ?nm ?line c w1] =>
    destruct (exchange recv_fuel nm line c w1 w2 1 []
                Hr ltac:(by unfold open_index_line) Hs ltac:(lia) ltac:(done))
      as (c1 & w1' & Hb & Hsd & Hrv) end.
  rewrite Hb, Hsd. cbn [negb Z.eqb]. rewrite Hrv. cbn [mbind outcome_bind].
  change (get_error_code (reply_ready _ _ _ _)) with 0. cbn [negb Z.eqb Z.leb Z.compare].
  rewrite (remove_idle c 1 []); [done|]. by eexists _, _, _.
Qed.
End Errors.

(** ** Properties *)
Section Theorems.
Context {W : Type} `{Net W}.
Variable recv_fuel : nat.
Variable padding : nat -> Z.

(** A customer is read back. When the server answers the read request with the
    row of a customer, however the answer is cut into reads, [ReadCustomerHs]
    succeeds with exactly that customer and version, and the client is ready for the
    next request. *)
Theorem ReadCustomerHs_found id cust ver t c x v (w w2 : W) :
  read_ptr t = Some c -> ready c -> wf_customer x -> is_int v -> (forall i, is_byte (padding i)) ->
  served recv_fuel c (read_line (read_ptr_id t) id)
    (encode_reply 3 [customer_row padding id x v]) w w2 ->
  exists t', ReadCustomerHs recv_fuel id cust ver t w = Ok (w2, t', true, Some x, Some v)
    /\ read_ptr t' = Some (idle_client c) /\ ready (idle_client c) /\ write_ptr t' = write_ptr t.
Proof.
  intros Hc Hr Hx Hv Hp Hs. eexists. split; [by eapply ReadCustomerHs_row|].
  split; [done|]. split; [apply idle_ready, Hr|done].
Qed.

(** A customer that is not in the table is read without an error: on a reply
    without rows [ReadCustomerHs] reports success and leaves customer and
    version as the caller passed them. *)
Theorem ReadCustomerHs_missing_row id cust ver t c (w w2 : W) :
  read_ptr t = Some c -> ready c ->
  served recv_fuel c (read_line (read_ptr_id t) id) (encode_reply 3 []) w w2 ->
  exists t', ReadCustomerHs recv_fuel id cust ver t w = Ok (w2, t', true, cust, ver).
Proof. clear padding. intros Hc Hr Hs. eexists. by eapply ReadCustomerHs_no_row. Qed.

(** C19: A versioned write. The request asks for the row with this id and this
    version and replaces it with the next version.  To a reply with the number of rows
    modified [WriteCustomerHs] answers success exactly when the number is positive, so a lost
    race is told apart from a stored customer, and the client stays ready.  The other
    replies are answered without that knowledge: to one with an error code it answers
    success too ([return 1] in a function that returns [bool]) and leaves the code and the
    response with the client; so it does when the connection fails before a reply; and a
    request that is not sent whole is a failure.  Both of these lose the client. *)
Theorem WriteCustomerHs_versioned id x v t c (w : W) :
  write_ptr t = Some c -> ready c -> is_int (v + 1) ->
  let line := write_line padding (write_ptr_id t) id x v in
  (forall n w2, is_int n -> served recv_fuel c line (encode_reply 1 [[Some (dec_int n)]]) w w2 ->
     exists t', WriteCustomerHs recv_fuel padding id x v t w = Ok (w2, t', 0 <? n)
       /\ write_ptr t' = Some (idle_client c) /\ ready (idle_client c) /\ read_ptr t' = read_ptr t)
  /\ (forall code nf msg w2, 0 < code < 2 ^ 32 -> 0 <= nf < 2 ^ 32 -> (TAB ∉ msg) -> (LF ∉ msg) ->
       served recv_fuel c line (encode_error code nf msg) w w2 ->
       exists t' c', WriteCustomerHs recv_fuel padding id x v t w = Ok (w2, t', true)
         /\ write_ptr t' = Some c' /\ get_error_code c' = wrap_int code /\ 0 < num_req_rcvd c'
         /\ read_ptr t' = read_ptr t)
  /\ (forall w1 w2 s, sys_send (fd c) line w = (w1, Z.of_nat (length line)) ->
       sys_read (fd c) block_size w1 = (w2, s) -> s = None \/ s = Some [] -> (1 <= recv_fuel)%nat ->
       exists w' t', WriteCustomerHs recv_fuel padding id x v t w = Ok (w', t', true)
         /\ failed_client (write_ptr t') /\ read_ptr t' = read_ptr t)
  /\ (forall w1 r, sys_send (fd c) line w = (w1, r) -> r <> Z.of_nat (length line) ->
       exists w' t', WriteCustomerHs recv_fuel padding id x v t w = Ok (w', t', false)
         /\ failed_client (write_ptr t') /\ read_ptr t' = read_ptr t).
Proof.
  intros Hc Hr Hv line. split; [|split; [|split]].
  - intros n w2 Hn Hs. eexists. split; [by eapply WriteCustomerHs_count|].
    split; [done|]. split; [apply idle_ready, Hr|done].
  - intros code nf msg w2 Hcode Hnf Ht Hl Hs. eexists _, _.
    split; [by eapply WriteCustomerHs_error|done].
  - intros w1 w2 s Hsend Hread Hs Hfuel. by eapply WriteCustomerHs_no_reply.
  - intros w1 r Hsend Hlen. by eapply WriteCustomerHs_not_sent.
Qed.

(** An error reply to a write is reported as a success ([return 1] in a
    function that returns [bool]), and since the response is not removed the
    next write closes the connection and reports a failure. *)
Theorem WriteCustomerHs_error_is_success id x v t c code nf msg (w w2 : W) :
  write_ptr t = Some c -> ready c -> is_int (v + 1) ->
  served recv_fuel c (write_line padding (write_ptr_id t) id x v) (encode_error code nf msg) w w2 ->
  0 < code < 2 ^ 32 -> 0 <= nf < 2 ^ 32 -> (TAB ∉ msg) -> (LF ∉ msg) ->
  exists t', WriteCustomerHs recv_fuel padding id x v t w = Ok (w2, t', true)
    /\ forall id' x' v' (w' : W), is_int (v' + 1) ->
         exists w3 t3, WriteCustomerHs recv_fuel padding id' x' v' t' w' = Ok (w3, t3, false)
           /\ failed_client (write_ptr t3).
Proof.
  intros Hc Hr Hv Hs Hcode Hnf Ht Hl. eexists. split; [by eapply WriteCustomerHs_error|].
  intros id' x' v' w' Hv'. by eapply WriteCustomerHs_unread.
Qed.

(** [InitializeHs] on a fresh thread opens one connection for reads and one for
    writes under two different handler ids, and leaves both clients ready. *)
Theorem InitializeHs_opens n c1 c2 (w w1 w2 w3 w4 : W) :
  0 <= n < INT_MAX - 1 ->
  create (hs_args (bytes "/tmp/handler_socket_read")) w = (w1, c1) -> ready c1 ->
  served recv_fuel c1 (open_index_line n (bytes "mydb") (bytes "Users") (bytes "handlers_index")
    (bytes "id,data,version") None) (encode_reply 1 []) w1 w2 ->
  create (hs_args (bytes "/tmp/handler_socket_write")) w2 = (w3, c2) -> ready c2 ->
  served recv_fuel c2 (open_index_line (n + 1) (bytes "mydb") (bytes "Users") (bytes "writers_index")
    (bytes "id,data,version") None) (encode_reply 1 []) w3 w4 ->
  InitializeHs recv_fuel (bytes "/") hs_thread_new n w
  = Ok (w4, mkHs (Some (idle_client c1)) n (Some (idle_client c2)) (n + 1), n + 2, true)
  /\ ready (idle_client c1) /\ ready (idle_client c2).
Proof.
  clear padding. intros Hn Hc1 Hr1 Hs1 Hc2 Hr2 Hs2.
  assert (Hw : forall z, 0 <= z <= INT_MAX -> wrap_int z = z).
  { intros z Hz. apply wrap_int_id. unfold is_int, INT_MIN, INT_MAX in *. lia. }
  unfold InitializeHs.
  rewrite (open_handler_opens recv_fuel None _ _ n c1 w w1 w2) by done. cbn [mbind outcome_bind negb].
  rewrite (Hw (n + 1)) by (unfold INT_MAX in *; lia).
  rewrite (open_handler_opens recv_fuel None _ _ (n + 1) c2 w2 w3 w4) by done.
  cbn [mbind outcome_bind negb]. rewrite (Hw (n + 1 + 1)) by (unfold INT_MAX in *; lia).
  split; [by rewrite <- Z.add_assoc|]. split; apply idle_ready; [apply Hr1|apply Hr2].
Qed.

(** Reading the rows of a response ends, whatever bytes the server sent: every
    turn of the loop consumes at least one byte of the response. *)
Theorem read_rows_terminates nf c cust ver :
  cli_inv c -> read_rows (rows_fuel c) nf c cust ver <> Fault OutOfFuel.
Proof. clear. intros Hc. apply read_rows_end; [done|]. unfold rows_fuel. lia. Qed.
End Theorems.

(** ** The hypotheses at concrete inputs *)

(** A scripted server that answers with one text. *)
Lemma script_served fuel c line text rest out :
  (1 <= fuel)%nat -> (length (text ++ [LF]) <=? block_size)%nat = true ->
  @served script script_net fuel c line text
    (mkScript ((text ++ [LF]) :: rest) out) (mkScript rest (line :: out)).
Proof.
  intros Hf Hl. exists (mkScript ((text ++ [LF]) :: rest) (line :: out)), [text ++ [LF]].
  split; [done|]. split; [|by split; [|rewrite mjoin_cons, app_nil_r]].
  split; [by intros [_ ?]%app_nil|]. eexists. split; [|reflexivity].
  cbn [sys_read script_net]. unfold script_read. cbn [incoming outgoing]. by rewrite Hl.
Qed.

Definition sample_client : hstcpcli :=
  mkCli 3 (hs_args (bytes "/tmp/handler_socket_read")) [] [] 0 0 0 0 0 0 0 [] [].

Definition sample_thread : hs_thread := mkHs (Some sample_client) 0 (Some sample_client) 1.

Lemma sample_ready : ready sample_client.
Proof. by split. Qed.

Definition sample_stored : Customer :=
  mkCustomer 100000 (-250)
    (replicate kRingSize (mkTransaction (-250) (bytes "pix" ++ replicate 8 0)
                            (bytes "2024-02-27 21:36" ++ replicate 4 0))) 11 3.

Lemma sample_stored_wf : wf_customer sample_stored.
Proof.
  split; try by_decide. apply Forall_replicate. split; by_decide.
Qed.

Definition no_padding (_ : nat) : Z := 0.

Definition sample_reply : list Z := encode_reply 3 [customer_row no_padding 0 sample_stored 7].

Lemma ReadCustomerHs_found_witness :
  exists t', @ReadCustomerHs script script_net 1 0 None None sample_thread
               (mkScript [sample_reply ++ [LF]] [])
             = Ok (mkScript [] [read_line 0 0], t', true, Some sample_stored, Some 7)
    /\ read_ptr t' = Some (idle_client sample_client) /\ ready (idle_client sample_client)
    /\ write_ptr t' = Some sample_client.
Proof.
  apply (@ReadCustomerHs_found script script_net 1 no_padding 0 None None sample_thread sample_client
           sample_stored 7).
  - reflexivity.
  - apply sample_ready.
  - apply sample_stored_wf.
  - by_decide.
  - intros i. by_decide.
  - apply script_served; [lia|vm_compute; reflexivity].
Defined.

Lemma ReadCustomerHs_missing_row_witness :
  exists t', @ReadCustomerHs script script_net 1 4 (Some sample_stored) None sample_thread
               (mkScript [encode_reply 3 [] ++ [LF]] [])
             = Ok (mkScript [] [read_line 0 4], t', true, Some sample_stored, None).
Proof.
  apply (@ReadCustomerHs_missing_row script script_net 1 4 (Some sample_stored) None sample_thread
           sample_client).
  - reflexivity.
  - apply sample_ready.
  - apply script_served; [lia|vm_compute; reflexivity].
Defined.

Lemma WriteCustomerHs_versioned_witness :
  (exists t', @WriteCustomerHs script script_net 1 no_padding 0 sample_stored 7 sample_thread
               (mkScript [encode_reply 1 [[Some (dec_int 0)]] ++ [LF]] [])
             = Ok (mkScript [] [write_line no_padding 1 0 sample_stored 7], t', false)
     /\ write_ptr t' = Some (idle_client sample_client))
  /\ (exists t' c', @WriteCustomerHs script script_net 1 no_padding 0 sample_stored 7 sample_thread
               (mkScript [encode_error 3 1 (bytes "readonly") ++ [LF]] [])
             = Ok (mkScript [] [write_line no_padding 1 0 sample_stored 7], t', true)
     /\ write_ptr t' = Some c' /\ get_error_code c' = 3)
  /\ exists w' t', @WriteCustomerHs script script_net 1 no_padding 0 sample_stored 7 sample_thread
               (mkScript [] []) = Ok (w', t', true) /\ failed_client (write_ptr t').
Proof.
  pose proof (fun w => @WriteCustomerHs_versioned script script_net 1 no_padding 0 sample_stored 7
    sample_thread sample_client w eq_refl sample_ready ltac:(by_decide)) as Hw.
  split; [|split].
  - destruct (Hw (mkScript [encode_reply 1 [[Some (dec_int 0)]] ++ [LF]] [])) as (H & _).
    destruct (H 0 (mkScript [] [write_line no_padding 1 0 sample_stored 7])) as (t' & H1 & H2 & _).
    + by_decide.
    + apply script_served; [lia|vm_compute; reflexivity].
    + exists t'. split; [exact H1|exact H2].
  - destruct (Hw (mkScript [encode_error 3 1 (bytes "readonly") ++ [LF]] [])) as (_ & H & _).
    destruct (H 3 1 (bytes "readonly") (mkScript [] [write_line no_padding 1 0 sample_stored 7]))
      as (t' & c' & H1 & H2 & H3 & _); [lia..|by_decide|by_decide| |].
    + apply script_served; [lia|vm_compute; reflexivity].
    + exists t', c'. split; [exact H1|]. split; [exact H2|exact H3].
  - destruct (Hw (mkScript [] [])) as (_ & _ & H & _).
    destruct (H (mkScript [] [write_line no_padding 1 0 sample_stored 7]) (mkScript [] [write_line no_padding 1 0 sample_stored 7]) (Some [])) as (w' & t' & H1 & H2 & _).
    + vm_compute. reflexivity.
    + vm_compute. reflexivity.
    + by right.
    + lia.
    + exists w', t'. split; [exact H1|exact H2].
Defined.

Lemma WriteCustomerHs_error_is_success_witness :
  exists t', @WriteCustomerHs script script_net 1 no_padding 0 sample_stored 7 sample_thread
               (mkScript [encode_error 3 1 (bytes "readonly") ++ [LF]] [])
             = Ok (mkScript [] [write_line no_padding 1 0 sample_stored 7], t', true)
    /\ forall id' x' v' (w' : script), is_int (v' + 1) ->
         exists w3 t3, @WriteCustomerHs script script_net 1 no_padding id' x' v' t' w' = Ok (w3, t3, false)
           /\ failed_client (write_ptr t3).
Proof.
  apply (@WriteCustomerHs_error_is_success script script_net 1 no_padding 0 sample_stored 7
           sample_thread sample_client 3 1 (bytes "readonly")).
  - reflexivity.
  - apply sample_ready.
  - by_decide.
  - apply script_served; [lia|vm_compute; reflexivity].
  - lia.
  - lia.
  - by_decide.
  - by_decide.
Defined.

Definition sample_open (n : Z) (index : list Z) : list Z :=
  open_index_line n (bytes "mydb") (bytes "Users") index (bytes "id,data,version") None.

Definition fresh_client (port : list Z) : hstcpcli :=
  mkCli 3 (hs_args port) [] [] 0 0 0 0 0 0 0 [] [].

Lemma InitializeHs_opens_witness :
  let c1 := fresh_client (bytes "/tmp/handler_socket_read") in
  let c2 := fresh_client (bytes "/tmp/handler_socket_write") in
  @InitializeHs script script_net 1 (bytes "/") hs_thread_new 4
    (mkScript [encode_reply 1 [] ++ [LF]; encode_reply 1 [] ++ [LF]] [])
  = Ok (mkScript [] [sample_open 5 (bytes "writers_index"); sample_open 4 (bytes "handlers_index")],
        mkHs (Some (idle_client c1)) 4 (Some (idle_client c2)) 5, 6, true)
  /\ ready (idle_client c1) /\ ready (idle_client c2).
Proof.
  intros c1 c2.
  apply (@InitializeHs_opens script script_net 1 4 c1 c2
           (mkScript [encode_reply 1 [] ++ [LF]; encode_reply 1 [] ++ [LF]] [])
           (mkScript [encode_reply 1 [] ++ [LF]; encode_reply 1 [] ++ [LF]] [])
           (mkScript [encode_reply 1 [] ++ [LF]] [sample_open 4 (bytes "handlers_index")])
           (mkScript [encode_reply 1 [] ++ [LF]] [sample_open 4 (bytes "handlers_index")])).
  - by_decide.
  - reflexivity.
  - by split.
  - apply script_served; [lia|vm_compute; reflexivity].
  - reflexivity.
  - by split.
  - apply script_served; [lia|vm_compute; reflexivity].
Defined.

Lemma read_rows_terminates_witness :
  read_rows (rows_fuel (reply_ready (sent_client sample_client) 2 [[None; None]] [])) 2
    (reply_ready (sent_client sample_client) 2 [[None; None]] []) None None <> Fault OutOfFuel.
Proof.
  apply read_rows_terminates. split; simpl; done || lia.
Defined.
