(* ===== verification/ManualTest.v ===== *)
(** * ManualTest: the test program of the client ([rinha/test_hslongrun.cc])

    It reads the customer "1" over one connection, adds 100 to its balance and writes it back
    over another.  The customer it has not read is [None].  Logging is left out; the
    clients are closed at the end, the last one first. *)
From S2P Require Import Prelude Text Structs StringUtil Escape Socket Hstcpcli HstcpcliSpec HandlerSocket.
#[local] Open Scope Z_scope.

Definition test_conf (port : list Z) : config :=
  <[bytes "host" := bytes "127.0.0.1"]> (<[bytes "port" := port]>
    (<[bytes "timeout" := bytes "600"]> (<[bytes "listen_backlog" := bytes "256"]> ∅))).

(** The fields of a row: the second is taken as the memory of a customer. *)
Fixpoint test_fields (i : nat) (row : list field_ref) (c : hstcpcli) (customer : option Customer)
    : outcome (option Customer) :=
  match row with
  | [] => Ok customer
  | v :: row' =>
      customer ← (match field_memory c v with
                  | Some mem => if (i =? 1)%nat then (x ← decode_customer mem; Ok (Some x))
                                else Ok customer
                  | None => Ok customer
                  end);
      test_fields (S i) row' c customer
  end.

Fixpoint test_read_rows (fuel : nat) (nflds : Z) (c : hstcpcli) (customer : option Customer)
    : outcome (hstcpcli * option Customer) :=
  match fuel with
  | O => Fault OutOfFuel
  | S f =>
      '(c, row) ← get_next_row c;
      match row with
      | None => Ok (c, customer)
      | Some row =>
          row ← array_reads row 0 (Z.to_nat nflds);
          customer ← test_fields 0 row c customer;
          test_read_rows f nflds c customer
      end
  end.

(** The rows of the reply to the update are only printed. *)
Fixpoint test_skip_rows (fuel : nat) (c : hstcpcli) : outcome hstcpcli :=
  match fuel with
  | O => Fault OutOfFuel
  | S f =>
      '(c, row) ← get_next_row c;
      match row with None => Ok c | Some _ => test_skip_rows f c end
  end.

Definition test_key : string_ref := Some (bytes "1").

Section Test.
Context {W : Type} `{Net W}.
Variable recv_fuel : nat.
Variable padding : nat -> Z.

(** Connect and open the index as [handler]: the client, the error code, and whether to go on. *)
Definition test_open (handler : Z) (port : list Z) (w : W) : outcome (W * hstcpcli * Z * bool) :=
  args ← socket_args_set socket_args_default (test_conf port) w;
  let '(w, c) := create args w in
  let '(w, c) := request_buf_open_index handler (bytes "mydb") (bytes "Users")
                   (bytes "handlers_index") (bytes "id,data") None c w in
  let '(w, c, rc) := request_send c w in
  if negb (rc =? 0) then Ok (w, c, 0, false)
  else
    '(w, c, _, _) ← response_recv recv_fuel 0 c w;
    let e := get_error_code c in
    if 0 <=? e then
      if negb (e =? 0) then Ok (w, c, e, false)
      else let '(w, c) := response_buf_remove c w in Ok (w, c, e, true)
    else Ok (w, c, e, true).

(** Send the buffered request and receive its reply: whether to go on, and the number of
    fields. *)
Definition test_exchange (c : hstcpcli) (w : W) : outcome (W * hstcpcli * Z * bool) :=
  let '(w, c, rc) := request_send c w in
  if negb (rc =? 0) then Ok (w, c, 0, false)
  else if negb (get_error_code c =? 0) then Ok (w, c, 0, false)
  else
    '(w, c, nflds, _) ← response_recv recv_fuel 0 c w;
    if negb (get_error_code c =? 0) then Ok (w, c, nflds, false) else Ok (w, c, nflds, true).

(** The first half of [main]: the reading client and the customer; [false]: [return 1]. *)
Definition test_read (w : W) : outcome (W * hstcpcli * option Customer * bool) :=
  '(w, c, _, ok) ← test_open 1 (bytes "10019") w;
  if negb ok then Ok (w, c, None, false)
  else
    let '(w, c) := request_buf_exec_generic 1 (Some (bytes "=")) [test_key] 0 0
                     None [] [] (-1) [] c w in
    '(w, c, nflds, ok) ← test_exchange c w;
    if negb ok then Ok (w, c, None, false)
    else
      '(c, customer) ← test_read_rows (rows_fuel c) nflds c None;
      let '(w, c) := response_buf_remove c w in Ok (w, c, customer, true).

(** The second half: [customer.balance += 100] and the update. *)
Definition test_write (customer : option Customer) (w : W) : outcome (W * hstcpcli * bool) :=
  '(w, c, e, ok) ← test_open 2 (bytes "10020") w;
  if negb ok then Ok (w, c, false)
  else
    x ← of_option Uninitialized customer;
    b ← int_op (balance x + 100);
    let x := mkCustomer (limit x) b (transactions x) (transaction_count x) (next_transaction_index x) in
    let '(w, c) := request_buf_exec_generic 2 (Some (bytes "=")) [test_key] 0 0
                     (Some (bytes "U")) [test_key; Some (encode_customer padding x)] [] (-1) [] c w in
    '(w, c, _, ok) ← test_exchange c w;
    if negb ok then Ok (w, c, false)
    else
      c ← test_skip_rows (rows_fuel c) c;
      let '(w, c) := if 0 <=? e then response_buf_remove c w else (w, c) in
      Ok (w, c, true).

(** [main]: the exit code. *)
Definition test_main (w : W) : outcome (W * Z) :=
  '(w, c1, customer, ok) ← test_read w;
  if negb ok then Ok ((af_close (fd c1) w).1, 1)
  else
    '(w, c2, ok) ← test_write customer w;
    let w := (af_close (fd c2) w).1 in
    Ok ((af_close (fd c1) w).1, if ok : bool then 0 else 1).
End Test.

(** ** Its exchanges with a server *)
(** The row of a customer as the index of the test shows it. *)
Definition test_row (padding : nat -> Z) (x : Customer) : list string_ref :=
  [test_key; Some (encode_customer padding x)].

Definition test_open_line (handler : Z) : list Z :=
  open_index_line handler (bytes "mydb") (bytes "Users") (bytes "handlers_index") (bytes "id,data") None.
Definition test_read_line : list Z :=
  exec_generic_line [] 1 (Some (bytes "=")) [test_key] 0 0 None [] [] (-1) [].
Definition test_write_line (padding : nat -> Z) (x : Customer) : list Z :=
  exec_generic_line [] 2 (Some (bytes "=")) [test_key] 0 0 (Some (bytes "U")) (test_row padding x)
    [] (-1) [].

Definition add_balance (n : Z) (x : Customer) : Customer :=
  mkCustomer (limit x) (balance x + n) (transactions x) (transaction_count x) (next_transaction_index x).

Lemma test_row_ok padding x :
  wf_customer x -> (forall i, is_byte (padding i)) -> row_ok 2 (test_row padding x).
Proof.
  intros Hx Hp. split; [done|]. unfold test_row. rewrite !Forall_cons. split_and!; [| |done].
  - unfold value_ok, test_key. cbn [default]. repeat constructor; by_decide.
  - by apply encode_customer_bytes.
Qed.

Lemma test_rows_read padding c x cust fuel :
  wf_customer x -> rows_pending c [test_row padding x] ->
  exists c', test_read_rows (S (S fuel)) 2 c cust = Ok (c', Some x) /\ same_response c c'.
Proof.
  intros Hx Hp. cbn [test_read_rows].
  destruct (get_next_row_value _ _ _ Hp) as (c1 & rs & Hg & Hvals & Hp1 & Hs1 & _).
  rewrite Hg. cbn [mbind outcome_bind].
  destruct rs as [|r1 [|r2 [|]]]; try discriminate Hvals. injection Hvals as H1 H2.
  destruct (field_memory_bytes _ _ _ H1) as [m1 M1]. destruct (field_memory_bytes _ _ _ H2) as [m2 M2].
  change (array_reads [r1; r2] 0 (Z.to_nat 2)) with (Ok [r1; r2]). cbn [mbind outcome_bind test_fields].
  rewrite M1. cbn [Nat.eqb mbind outcome_bind]. rewrite M2. cbn [Nat.eqb].
  rewrite decode_encode_customer by done. cbn [mbind outcome_bind].
  destruct (get_next_row_end _ Hp1) as (c2 & Hg2 & Hs2). rewrite Hg2. cbn [mbind outcome_bind].
  exists c2. split; [done|]. by eapply same_response_trans.
Qed.

Lemma test_rows_skipped c row fuel :
  rows_pending c [row] ->
  exists c', test_skip_rows (S (S fuel)) c = Ok c' /\ same_response c c'.
Proof.
  intros Hp. cbn [test_skip_rows].
  destruct (get_next_row_value _ _ _ Hp) as (c1 & rs & Hg & _ & Hp1 & Hs1 & _).
  rewrite Hg. cbn [mbind outcome_bind].
  destruct (get_next_row_end _ Hp1) as (c2 & Hg2 & Hs2). rewrite Hg2. cbn [mbind outcome_bind].
  exists c2. split; [done|]. by eapply same_response_trans.
Qed.

Section TestFacts.
Context {W : Type} `{Net W}.
Variable recv_fuel : nat.
Variable padding : nat -> Z.

Lemma test_open_ok handler port args c (w w1 w2 : W) :
  socket_args_set socket_args_default (test_conf port) w = Ok args ->
  create args w = (w1, c) -> ready c ->
  served recv_fuel c (test_open_line handler) (encode_reply 1 []) w1 w2 ->
  test_open recv_fuel handler port w = Ok (w2, idle_client c, 0, true).
Proof.
  intros Ha Hc Hr Hs. unfold test_open. rewrite Ha. cbn [mbind outcome_bind]. rewrite Hc.
  destruct (exchange recv_fuel "request_buf_open_index" (test_open_line handler) c w1 w2 1 []
              Hr ltac:(by unfold test_open_line, open_index_line) Hs ltac:(lia) ltac:(done))
    as (c1 & w1' & Hb & Hsd & Hrv).
  unfold request_buf_open_index. fold (test_open_line handler). rewrite Hb, Hsd.
  cbn [negb Z.eqb]. rewrite Hrv. cbn [mbind outcome_bind].
  change (get_error_code (reply_ready _ _ _ _)) with 0. cbn [negb Z.eqb Z.leb Z.compare].
  rewrite (remove_idle c 1 []); [done|]. by eexists _, _, _.
Qed.

Lemma test_exchange_ok line c nf rows (w w2 : W) :
  ready c -> line <> [] -> served recv_fuel c line (encode_reply nf rows) w w2 ->
  0 < nf < 2 ^ 32 -> Forall (row_ok nf) rows ->
  exists c1, request_buf "request_buf_exec_generic" line c w = (w, c1)
    /\ test_exchange recv_fuel c1 w = Ok (w2, reply_ready (sent_client c) nf rows [], nf, true).
Proof.
  intros Hr Hl Hs Hnf Hrows.
  destruct (exchange recv_fuel "request_buf_exec_generic" line c w w2 nf rows Hr Hl Hs Hnf Hrows)
    as (c1 & w1 & Hb & Hsd & Hrv).
  exists c1. split; [done|]. unfold test_exchange. rewrite Hsd.
  cbn [negb Z.eqb get_error_code error_code sent_client]. fold (sent_client c).
  rewrite Hrv. done.
Qed.

Lemma test_read_ok args c x (w w1 w2 w3 : W) :
  wf_customer x -> (forall i, is_byte (padding i)) ->
  socket_args_set socket_args_default (test_conf (bytes "10019")) w = Ok args ->
  create args w = (w1, c) -> ready c ->
  served recv_fuel c (test_open_line 1) (encode_reply 1 []) w1 w2 ->
  served recv_fuel c test_read_line (encode_reply 2 [test_row padding x]) w2 w3 ->
  test_read recv_fuel w = Ok (w3, idle_client c, Some x, true).
Proof.
  intros Hx Hp Ha Hc Hr Hs1 Hs2. unfold test_read.
  rewrite (test_open_ok _ _ _ _ _ _ _ Ha Hc Hr Hs1). cbn [mbind outcome_bind negb].
  assert (Hrows : Forall (row_ok 2) [test_row padding x])
    by (apply Forall_singleton; by apply test_row_ok).
  destruct (test_exchange_ok test_read_line (idle_client c) 2 [test_row padding x] w2 w3)
    as (c1 & Hb & He); [apply idle_ready, Hr|apply exec_line_nonempty|exact Hs2|lia|done|].
  unfold request_buf_exec_generic. fold test_read_line. rewrite Hb, He. cbn [mbind outcome_bind negb].
  destruct (rows_fuel_reply (sent_client (idle_client c)) 2 [test_row padding x]) as [f ->].
  destruct (test_rows_read padding (reply_ready (sent_client (idle_client c)) 2 [test_row padding x] [])
              x None f Hx) as (c2 & -> & Hsame).
  { apply reply_ready_pending; [lia|exact Hrows]. }
  cbn [mbind outcome_bind]. by rewrite (remove_idle _ _ _ _ _ Hsame).
Qed.

Lemma test_write_ok args c x n (w w1 w2 w3 : W) :
  is_int (balance x + 100) ->
  socket_args_set socket_args_default (test_conf (bytes "10020")) w = Ok args ->
  create args w = (w1, c) -> ready c ->
  served recv_fuel c (test_open_line 2) (encode_reply 1 []) w1 w2 ->
  served recv_fuel c (test_write_line padding (add_balance 100 x)) (encode_reply 1 [[Some (dec_int n)]]) w2 w3 ->
  test_write recv_fuel padding (Some x) w = Ok (w3, idle_client c, true).
Proof.
  intros Hi Ha Hc Hr Hs1 Hs2. unfold test_write.
  rewrite (test_open_ok _ _ _ _ _ _ _ Ha Hc Hr Hs1). cbn [mbind outcome_bind negb of_option].
  rewrite int_op_in_range by done. cbn [mbind outcome_bind].
  assert (Hrows : Forall (row_ok 1) [[Some (dec_int n)]]) by (apply Forall_singleton, count_row_ok).
  destruct (test_exchange_ok (test_write_line padding (add_balance 100 x)) (idle_client c) 1 [[Some (dec_int n)]] w2 w3)
    as (c1 & Hb & He); [apply idle_ready, Hr|apply exec_line_nonempty|exact Hs2|lia|exact Hrows|].
  unfold request_buf_exec_generic. fold (add_balance 100 x).
  fold (test_row padding (add_balance 100 x)). fold (test_write_line padding (add_balance 100 x)).
  rewrite Hb, He. cbn [mbind outcome_bind negb].
  destruct (rows_fuel_reply (sent_client (idle_client c)) 1 [[Some (dec_int n)]]) as [f ->].
  destruct (test_rows_skipped (reply_ready (sent_client (idle_client c)) 1 [[Some (dec_int n)]] [])
              [Some (dec_int n)] f) as (c2 & -> & Hsame).
  { apply reply_ready_pending; [lia|exact Hrows]. }
  cbn [mbind outcome_bind Z.leb Z.compare]. by rewrite (remove_idle _ _ _ _ _ Hsame).
Qed.
End TestFacts.

(** The manual test adds 100 to the balance of a customer. Against servers that open the
    index on both connections, show the row of a customer under the key "1" and accept an
    update, the program sends exactly four requests: the second reads the key and the
    fourth replaces the row by the same customer with its balance raised by 100. It then closes
    both connections and exits with 0, whatever number of rows the server says it modified. *)
Theorem test_main_adds {W} `{Net W} recv padding args1 args2 c1 c2 x n (w0 w1 w2 w3 w4 w5 w6 : W) :
  wf_customer x -> (forall i, is_byte (padding i)) -> is_int (balance x + 100) ->
  socket_args_set socket_args_default (test_conf (bytes "10019")) w0 = Ok args1 ->
  create args1 w0 = (w1, c1) -> ready c1 ->
  served recv c1 (test_open_line 1) (encode_reply 1 []) w1 w2 ->
  served recv c1 test_read_line (encode_reply 2 [test_row padding x]) w2 w3 ->
  socket_args_set socket_args_default (test_conf (bytes "10020")) w3 = Ok args2 ->
  create args2 w3 = (w4, c2) -> ready c2 ->
  served recv c2 (test_open_line 2) (encode_reply 1 []) w4 w5 ->
  served recv c2 (test_write_line padding (add_balance 100 x)) (encode_reply 1 [[Some (dec_int n)]]) w5 w6 ->
  test_main recv padding w0
  = Ok ((af_close (fd c1) (af_close (fd c2) w6).1).1, 0).
Proof.
  intros Hx Hp Hi Ha1 Hc1 Hr1 Ho1 Hs1 Ha2 Hc2 Hr2 Ho2 Hs2. unfold test_main.
  rewrite (test_read_ok recv padding args1 c1 x w0 w1 w2 w3) by done. cbn [mbind outcome_bind negb].
  by rewrite (test_write_ok recv padding args2 c2 x n w3 w4 w5 w6).
Qed.

Lemma test_main_adds_witness :
  exists w', @test_main script script_net 1 no_padding
    (mkScript [encode_reply 1 [] ++ [LF]; encode_reply 2 [test_row no_padding sample_stored] ++ [LF];
               encode_reply 1 [] ++ [LF]; encode_reply 1 [[Some (dec_int 1)]] ++ [LF]] []) = Ok (w', 0)
    /\ w'.(outgoing) = [test_write_line no_padding (add_balance 100 sample_stored); test_open_line 2;
                        test_read_line; test_open_line 1].
Proof.
  eexists. split.
  - eapply (@test_main_adds script script_net 1 no_padding _ _ _ _ sample_stored 1).
    + apply sample_stored_wf.
    + intros i. by_decide.
    + by_decide.
    + reflexivity.
    + reflexivity.
    + by split.
    + apply script_served; [lia|vm_compute; reflexivity].
    + apply script_served; [lia|vm_compute; reflexivity].
    + reflexivity.
    + reflexivity.
    + by split.
    + apply script_served; [lia|vm_compute; reflexivity].
    + apply script_served; [lia|vm_compute; reflexivity].
  - reflexivity.
Defined.
