(* ===== verification/MariaDatabase.v ===== *)
(** * MariaDatabase: accounts in the database ([rinha/maria_database.cc])

    Reads and transactions are written against [CustomerStore], the interface that
    [ReadCustomerHs] and [WriteCustomerHs] offer; [hs_store] is its
    implementation by [HandlerSocket].  The mutexes of a process are a list of
    flags.  The client library of MariaDB is the class [MySql]. *)
From S2P Require Import Prelude Structs Account Socket Hstcpcli HstcpcliSpec HandlerSocket.
#[local] Open Scope Z_scope.

(** ** The store of customers *)
Class CustomerStore (St : Type) := {
  read_customer : Z -> option Customer -> option Z -> St
                  -> outcome (St * bool * option Customer * option Z);
  write_customer : Z -> Customer -> Z -> St -> outcome (St * bool)
}.

(** What a store promises: it holds versioned customers, reads them, and a write
    succeeds exactly when the version is the stored one.  [good] delimits the
    states and [fits] the values for which it promises that. *)
Class StoreLaws (St : Type) `{CustomerStore St} := {
  cell : St -> gmap Z (Customer * Z);
  good : St -> Prop;
  fits : Z -> Customer -> Z -> Prop;
  read_law : forall st id cust ver c v,
    good st -> cell st !! id = Some (c, v) -> fits id c v ->
    exists st', read_customer id cust ver st = Ok (st', true, Some c, Some v)
      /\ cell st' = cell st /\ good st';
  write_law : forall st id c c0 v v0,
    good st -> cell st !! id = Some (c0, v0) -> fits id c v -> fits id c (v + 1) ->
    exists st', write_customer id c v st = Ok (st', bool_decide (v = v0))
      /\ cell st' = (if bool_decide (v = v0) then <[id := (c, v + 1)]> (cell st) else cell st)
      /\ good st'
}.

(** ** Transactions *)
Definition kMutexes : nat := 5.

(** [absl::Mutex]: locking a mutex that this thread or another one holds waits. *)
Definition Lock (locks : list bool) (id : Z) : outcome (list bool) :=
  b ← array_get locks id;
  if b : bool then Fault Blocked else array_set locks id true.

Definition Unlock (locks : list bool) (id : Z) : outcome (list bool) := array_set locks id false.

Section Transactions.
Context {St : Type} `{CustomerStore St}.

(** [while (!success)]. *)
Fixpoint transaction_loop (fuel : nat) (id : Z) (transaction : Transaction)
    (customer : option Customer) (locks : list bool) (st : St)
    : outcome (St * list bool * TransactionResult * option Customer) :=
  match fuel with
  | O => Fault OutOfFuel
  | S f =>
      '(st, ok, customer, version) ← read_customer id customer None st;
      if negb ok then transaction_loop f id transaction customer locks st
      else
        c ← of_option Uninitialized customer;
        r ← try_transaction c transaction;
        match r with
        | None => locks ← Unlock locks id; Ok (st, locks, TR_LIMIT_EXCEEDED, Some c)
        | Some c' =>
            v ← of_option Uninitialized version;
            '(st, ok) ← write_customer id c' v st;
            if negb ok then transaction_loop f id transaction (Some c') locks st
            else locks ← Unlock locks id; Ok (st, locks, TR_SUCCESS, Some c')
        end
  end.

Definition MariaDbExecuteTransaction (fuel : nat) (id : Z) (transaction : Transaction)
    (customer : option Customer) (locks : list bool) (st : St)
    : outcome (St * list bool * TransactionResult * option Customer) :=
  if (5 <? id) || (id <? 1) then Ok (st, locks, TR_NOT_FOUND, customer)
  else
    locks ← Lock locks (id - 1);
    transaction_loop fuel (id - 1) transaction customer locks st.

Definition MariaDbGetCustomer (id : Z) (customer : option Customer) (st : St)
    : outcome (St * bool * option Customer) :=
  if (5 <? id) || (id <? 1) then Ok (st, false, customer)
  else
    '(st, ok, customer, _) ← read_customer (id - 1) customer None st;
    if negb ok then Ok (st, false, customer) else Ok (st, true, customer).
End Transactions.

(** ** Initialization *)

(** The calls of the MariaDB client: whether they succeed ([mysql_init] and
    [mysql_stmt_init]: whether they return an object). *)
Class MySql (W : Type) := {
  mysql_init : W -> W * bool;
  mysql_real_connect : list Z -> list Z -> list Z -> list Z -> list Z -> W -> W * bool;
  mysql_stmt_init : W -> W * bool;
  mysql_stmt_prepare : list Z -> W -> W * bool;
  (** The two parameters of the statement: a [LONG] and a [BLOB]. *)
  mysql_stmt_bind_param : Z -> list Z -> W -> W * bool;
  mysql_stmt_execute : W -> W * bool;
  mysql_stmt_free_result : W -> W;
  sleep : Z -> W -> W
}.

Definition stmt_insert : list Z :=
  bytes "INSERT INTO Users (id, data) VALUES (?, ?) ON DUPLICATE KEY UPDATE data = VALUES(data)".

Section Initialization.
Context {W : Type} `{MySql W}.
Variable padding : nat -> Z.

Definition InsertCustomer (customer : Customer) (id : Z) (w : W) : W * bool :=
  let '(w, ok) := mysql_stmt_bind_param id (encode_customer padding customer) w in
  if negb ok then (mysql_stmt_free_result w, false)
  else
    let '(w, ok) := mysql_stmt_execute w in
    if negb ok then (mysql_stmt_free_result w, false)
    else (mysql_stmt_free_result w, true).

Definition LazyInitializeDb (w : W) : W * bool :=
  let '(w, conn) := mysql_init w in
  if negb conn then (w, false)
  else
    let '(w, ok) := mysql_real_connect (bytes "localhost") (bytes "rinha") (bytes "mypassword")
                      (bytes "mydb") (bytes "/tmp/mysql.sock") w in
    if negb ok then (w, false) else (w, true).

Definition LazyInitializeStatements (w : W) : W * bool :=
  let '(w, stmt) := mysql_stmt_init w in
  if negb stmt then (w, false)
  else
    let '(w, ok) := mysql_stmt_prepare stmt_insert w in
    if negb ok then (w, false) else (w, true).

Definition LazyInit (w : W) : W * bool :=
  let '(w, ok) := LazyInitializeDb w in
  if negb ok then (w, false)
  else
    let '(w, ok) := LazyInitializeStatements w in
    if negb ok then (w, false) else (w, true).

(** [while (!success)] around [LazyInit], with the pause of the caller. *)
Fixpoint connect_loop (fuel : nat) (pause : Z) (w : W) : outcome W :=
  match fuel with
  | O => Fault OutOfFuel
  | S f =>
      let '(w, success) := LazyInit w in
      let w := sleep pause w in
      if negb success then connect_loop f pause w else Ok w
  end.

(** [for (int i = 0; i < 5; i++)]. *)
Fixpoint insert_all (customers : list Customer) (i : Z) (w : W) : W * bool :=
  match customers with
  | [] => (w, true)
  | c :: cs =>
      let '(w, ok) := InsertCustomer c i w in
      if negb ok then (w, false) else insert_all cs (i + 1) w
  end.

Definition MariaInitializeDb (fuel : nat) (w : W) : outcome (W * bool) :=
  w ← connect_loop fuel 10 w;
  Ok (insert_all kInitialCustomers 0 w).

Definition MariaInitializeThread (fuel : nat) (w : W) : outcome (W * bool) :=
  w ← connect_loop fuel 1 w; Ok (w, true).
End Initialization.

(** What the statement of [stmt_insert] does to the rows of [Users], as documented: an
    executed statement stores the bound blob under the bound id; nothing else
    changes the rows. *)
Class MySqlLaws (W : Type) `{MySql W} := {
  rows : W -> gmap Z (list Z);
  bound : W -> option (Z * list Z);
  init_rows : forall w, rows (mysql_init w).1 = rows w;
  connect_rows : forall a b c d e w, rows (mysql_real_connect a b c d e w).1 = rows w;
  stmt_init_rows : forall w, rows (mysql_stmt_init w).1 = rows w;
  prepare_rows : forall s w, rows (mysql_stmt_prepare s w).1 = rows w;
  bind_rows : forall id b w, rows (mysql_stmt_bind_param id b w).1 = rows w;
  bind_bound : forall id b w, (mysql_stmt_bind_param id b w).2 = true ->
    bound (mysql_stmt_bind_param id b w).1 = Some (id, b);
  execute_rows : forall id b w, bound w = Some (id, b) -> (mysql_stmt_execute w).2 = true ->
    rows (mysql_stmt_execute w).1 = <[id := b]> (rows w);
  free_rows : forall w, rows (mysql_stmt_free_result w) = rows w
}.

(** ** The store over HandlerSocket *)
Section HsStore.
Context {W : Type} `{Net W}.
Variable recv_fuel : nat.
Variable padding : nat -> Z.

Definition hs_store : CustomerStore (W * hs_thread) := {|
  read_customer id cust ver st :=
    '(w, t, ok, cust, ver) ← ReadCustomerHs recv_fuel id cust ver st.2 st.1;
    Ok ((w, t), ok, cust, ver);
  write_customer id c v st :=
    '(w, t, ok) ← WriteCustomerHs recv_fuel padding id c v st.2 st.1; Ok ((w, t), ok)
|}.
End HsStore.

(** ** Locks *)
Lemma Lock_inv locks id locks' :
  Lock locks id = Ok locks' -> 0 <= id < Z.of_nat (length locks)
    /\ locks !! Z.to_nat id = Some false /\ locks' = <[Z.to_nat id := true]> locks.
Proof.
  unfold Lock. intros Hl. inv_ok. destruct r; [done|].
  apply array_get_Ok in Hr as [_ Hr]. by apply array_set_inv in Hl as [? ->].
Qed.

Lemma Unlock_Lock locks id locks1 locks2 :
  Lock locks id = Ok locks1 -> Unlock locks1 id = Ok locks2 -> locks2 = locks.
Proof.
  intros (Hr & Hf & ->)%Lock_inv [_ ->]%array_set_inv.
  rewrite list_insert_insert_eq. by apply list_insert_id.
Qed.

Lemma Lock_Unlock locks id locks1 :
  Lock locks id = Ok locks1 -> Unlock locks1 id = Ok locks.
Proof.
  intros Hl. pose proof (Lock_inv _ _ _ Hl) as (Hr & _ & ->).
  destruct (Unlock (<[Z.to_nat id:=true]> locks) id) as [l2|f] eqn:E.
  - by rewrite (Unlock_Lock _ _ _ _ Hl E).
  - unfold Unlock in E. rewrite array_set_Ok in E by (rewrite length_insert; lia). done.
Qed.

Lemma Lock_free locks id :
  0 <= id -> locks !! Z.to_nat id = Some false -> Lock locks id = Ok (<[Z.to_nat id := true]> locks).
Proof.
  intros Hid Hl. unfold Lock. rewrite (proj2 (array_get_Ok _ _ false)) by done.
  cbn [mbind outcome_bind]. apply array_set_Ok. apply lookup_lt_Some in Hl. lia.
Qed.

(** ** The loop *)
Section LoopFacts.
Context {St : Type} `{CustomerStore St}.

Lemma transaction_loop_locks fuel id t cust locks locks1 st st' locks' r c' :
  Lock locks id = Ok locks1 ->
  transaction_loop fuel id t cust locks1 st = Ok (st', locks', r, c') -> locks' = locks.
Proof.
  intros Hl. revert cust st. induction fuel as [|f IH]; intros cust st; [done|].
  cbn [transaction_loop]. intros Hr. inv_ok. destruct r0 as [[[st1 ok] cust1] ver].
  destruct ok; cbn [negb] in *; [|by eapply IH].
  inv_ok. destruct r1 as [c2|]; [|inv_ok; by eapply Unlock_Lock].
  inv_ok. destruct r2 as [st2 ok]. destruct ok; cbn [negb] in *; [|by eapply IH].
  inv_ok. by eapply Unlock_Lock.
Qed.
End LoopFacts.

Lemma try_transaction_wf c t c' :
  wf_customer c -> wf_transaction t -> 0 <= transaction_count c -> 0 <= next_transaction_index c ->
  try_transaction c t = Ok (Some c') -> wf_customer c'.
Proof.
  intros [Hl Hb Hr Hts Hn Hx] Ht Hc Hnx (Hi & _ & Hidx & ->)%try_transaction_inv.
  split; cbn [limit balance transactions transaction_count next_transaction_index].
  - done.
  - done.
  - by rewrite length_insert.
  - apply Forall_insert; [done|done].
  - unfold is_char in *. destruct (Z.leb_spec (transaction_count c) 10); lia.
  - unfold is_char. pose proof (Z.rem_bound_pos (next_transaction_index c + 1) 10). lia.
Qed.

(** ** Properties *)

(** The mutex of a customer is held exactly during the transaction: whichever way
    [MariaDbExecuteTransaction] returns, after however many lost races and
    failed reads, every mutex is as it was before the call. *)
Theorem execute_releases_locks {St} `{CustomerStore St} fuel id t cust locks st st' locks' r c' :
  MariaDbExecuteTransaction fuel id t cust locks st = Ok (st', locks', r, c') -> locks' = locks.
Proof.
  unfold MariaDbExecuteTransaction. destruct (_ || _); [by intros [= <- <- <- <-]|].
  intros Hr. inv_ok. by eapply transaction_loop_locks.
Qed.

(** A stored customer with its ring in order: every field in the range of its C++ type, a
    count that is not negative and an index inside the ring. *)
Record typed_customer (c : Customer) : Prop := {
  ty_wf : wf_customer c;
  ty_count : 0 <= transaction_count c;
  ty_next : 0 <= next_transaction_index c < 10
}.

Definition typed_result (o : option Customer) : Prop := from_option typed_customer True o.

(** A store of typed customers: reads give what was stored. *)
Class TypedStore (St : Type) `{CustomerStore St} := {
  typed : St -> Prop;
  read_typed : forall st id cust ver st' ok cust' ver',
    typed st -> typed_result cust -> read_customer id cust ver st = Ok (st', ok, cust', ver') ->
    typed st' /\ typed_result cust';
  write_typed : forall st id c v st' ok,
    typed st -> typed_customer c -> write_customer id c v st = Ok (st', ok) -> typed st'
}.

Lemma try_transaction_typed c t c' :
  typed_customer c -> wf_transaction t -> try_transaction c t = Ok (Some c') -> typed_customer c'.
Proof.
  intros [Hw Hc Hn] Ht Htry.
  split; [by eapply try_transaction_wf; [..|exact Htry]; try lia| |];
    apply try_transaction_inv in Htry as (_ & _ & _ & ->);
    cbn [transaction_count next_transaction_index].
  - destruct (Z.leb_spec (transaction_count c) 10); lia.
  - apply Z.rem_bound_pos; lia.
Qed.

Lemma transaction_loop_typed {St} `{TypedStore St} fuel id t cust locks st st' locks' r c' :
  typed st -> typed_result cust -> wf_transaction t ->
  transaction_loop fuel id t cust locks st = Ok (st', locks', r, c') ->
  typed st' /\ typed_result c'.
Proof.
  intros Hst Hc Ht. revert cust st Hst Hc. induction fuel as [|f IH]; intros cust st Hst Hc; [done|].
  cbn [transaction_loop]. intros Hr. inv_ok. destruct r0 as [[[st1 ok] cust1] ver].
  apply read_typed in Hr0 as [Hst1 Hc1]; [|done..].
  destruct ok; cbn [negb] in *; [|by eapply IH].
  inv_ok. destruct r1 as [c2|]; [|by inv_ok].
  apply try_transaction_typed in Hr1; [|done..].
  inv_ok. destruct r2 as [st2 ok]. 
  match goal with Hw : write_customer _ _ _ _ = Ok _ |- _ => apply write_typed in Hw; [|done..] end.
  destruct ok; cbn [negb] in *; [|eapply IH; [| |exact Hr]; done].
  inv_ok. split; assumption.
Qed.

(** C32: a transaction writes only typed customers. On any store whose customers are typed
    (fields in the range of their C++ types, a ring of ten entries, a count that is not
    negative and an index inside the ring), a transaction with typed fields leaves the store
    typed and returns a typed customer, however many reads fail and races are lost on the
    way, and whatever the answer is. *)
Theorem execute_keeps_types {St} `{TypedStore St} fuel id t cust locks st st' locks' r c' :
  typed st -> typed_result cust -> wf_transaction t ->
  MariaDbExecuteTransaction fuel id t cust locks st = Ok (st', locks', r, c') ->
  typed st' /\ typed_result c'.
Proof.
  intros Hst Hc Ht. unfold MariaDbExecuteTransaction.
  destruct (_ || _); [by intros [= <- <- <- <-]|].
  intros Hr. inv_ok. by eapply transaction_loop_typed.
Qed.

Section Refinement.
Context {St : Type} `{StoreLaws St}.

(** What a call needs to know of the stored customer. *)
Record prepared (id : Z) (t : Transaction) (locks : list bool) (st : St)
    (l : Z) (h : list Transaction) (c : Customer) (v : Z) : Prop := {
  pr_good : good st;
  pr_cell : cell st !! (id - 1) = Some (c, v);
  pr_fits : fits (id - 1) c v;
  pr_account : account l h c;
  pr_sum : is_int (balance c + value t);
  pr_limit : is_int (- l);
  pr_stored : forall c', try_transaction c t = Ok (Some c') ->
    fits (id - 1) c' v /\ fits (id - 1) c' (v + 1);
  pr_free : locks !! Z.to_nat (id - 1) = Some false
}.

Lemma execute_on_account f id t cust locks st l h c v :
  1 <= id <= 5 -> prepared id t locks st l h c v ->
  match spec_transaction l h t with
  | None => exists st', MariaDbExecuteTransaction (S f) id t cust locks st
                        = Ok (st', locks, TR_LIMIT_EXCEEDED, Some c)
              /\ cell st' = cell st /\ good st'
  | Some h' => exists st' c', MariaDbExecuteTransaction (S f) id t cust locks st
                              = Ok (st', locks, TR_SUCCESS, Some c')
              /\ account l h' c' /\ cell st' = <[id - 1 := (c', v + 1)]> (cell st) /\ good st'
              /\ fits (id - 1) c' (v + 1)
  end.
Proof.
  intros Hid [Hg Hcell Hfit Ha Hi Hl Hfits Hlock]. unfold MariaDbExecuteTransaction.
  destruct (Z.ltb_spec 5 id), (Z.ltb_spec id 1); try lia. cbn [orb].
  pose proof (Lock_free locks (id - 1) ltac:(lia) Hlock) as Hlk. rewrite Hlk.
  pose proof (Lock_Unlock _ _ _ Hlk) as Hul. cbn [mbind outcome_bind transaction_loop].
  destruct (read_law st (id - 1) cust None c v Hg Hcell Hfit) as (st1 & -> & Hc1 & Hg1).
  cbn [mbind outcome_bind negb of_option].
  pose proof (try_transaction_refines l h c t Ha Hi Hl) as Href.
  destruct (spec_transaction l h t) as [h'|].
  - destruct Href as (c' & Htr & Ha'). destruct (Hfits c' Htr) as [Hf1 Hf2].
    rewrite Htr. cbn [mbind outcome_bind of_option].
    rewrite <- Hc1 in Hcell.
    destruct (write_law st1 (id - 1) c' c v v Hg1 Hcell Hf1 Hf2) as (st2 & -> & Hc2 & Hg2).
    rewrite bool_decide_eq_true_2 in Hc2 |- * by done. cbn [mbind outcome_bind negb].
    rewrite Hul. cbn [mbind outcome_bind]. exists st2, c'. rewrite Hc2, Hc1. done.
  - rewrite Href. cbn [mbind outcome_bind]. rewrite Hul. cbn [mbind outcome_bind]. eauto.
Qed.

Lemma execute_not_found fuel id t cust locks (st : St) :
  ~ 1 <= id <= 5 ->
  MariaDbExecuteTransaction fuel id t cust locks st = Ok (st, locks, TR_NOT_FOUND, cust).
Proof.
  intros Hid. unfold MariaDbExecuteTransaction.
  destruct (Z.ltb_spec 5 id), (Z.ltb_spec id 1); done || lia.
Qed.

Lemma get_customer_stored id cust st c v :
  1 <= id <= 5 -> good st -> cell st !! (id - 1) = Some (c, v) -> fits (id - 1) c v ->
  exists st', MariaDbGetCustomer id cust st = Ok (st', true, Some c) /\ cell st' = cell st /\ good st'.
Proof.
  intros Hid Hg Hc Hf. unfold MariaDbGetCustomer.
  destruct (Z.ltb_spec 5 id), (Z.ltb_spec id 1); try lia. cbn [orb].
  destruct (read_law st (id - 1) cust None c v Hg Hc Hf) as (st1 & -> & Hst1).
  cbn [mbind outcome_bind negb]. eauto.
Qed.

(** The stored row of customer [id] is the account [(l, h)], and the store can hold what a
    transaction makes of it. *)
Record stored_account (id : Z) (t : Transaction) (st : St) (l : Z) (h : list Transaction)
    (c : Customer) (v : Z) : Prop := {
  sa_good : good st;
  sa_cell : cell st !! (id - 1) = Some (c, v);
  sa_fits : fits (id - 1) c v;
  sa_account : account l h c;
  sa_limit : is_int (- l);
  sa_stored : forall c', try_transaction c t = Ok (Some c') ->
    fits (id - 1) c' v /\ fits (id - 1) c' (v + 1)
}.

(** C9: a transaction refines the abstract account. An id outside 1..5 is [NOT_FOUND] and changes
    nothing. On a lawful store whose row for the customer is an account (its negated limit an
    [int], its successor a row the store can hold) one turn of the loop decides.  When the
    mutex of the customer is held, the call blocks.  When it is free and balance plus amount is
    an [int], a transaction that would take the account below its floor is [LIMIT_EXCEEDED] and
    changes nothing; any other is [SUCCESS], the stored customer becomes the account with the
    transaction in front of its history, its version goes up by one, and the mutex is free
    again.  When that sum is not an [int], it overflows, which is undefined behaviour. *)
Theorem execute_refines_account f id t cust locks st l h c v :
  length locks = kMutexes -> (1 <= id <= 5 -> stored_account id t st l h c v) ->
  let call := MariaDbExecuteTransaction (S f) id t cust locks st in
  if decide (1 <= id <= 5) then
    if default true (locks !! Z.to_nat (id - 1)) then call = Fault Blocked
    else if decide (is_int (balance c + value t)) then
      match spec_transaction l h t with
      | None => exists st', call = Ok (st', locks, TR_LIMIT_EXCEEDED, Some c)
                  /\ cell st' = cell st /\ good st'
      | Some h' => exists st' c', call = Ok (st', locks, TR_SUCCESS, Some c')
                  /\ account l h' c' /\ cell st' = <[id - 1 := (c', v + 1)]> (cell st) /\ good st'
      end
    else call = Fault SignedOverflow
  else call = Ok (st, locks, TR_NOT_FOUND, cust).
Proof.
  intros Hlen Hp call. case_decide as Hid; [|by apply execute_not_found].
  destruct (Hp Hid) as [Hg Hcell Hfit Ha Hl Hst].
  destruct (lookup_lt_is_Some_2 locks (Z.to_nat (id - 1))) as [b Hb]; [unfold kMutexes in *; lia|].
  rewrite Hb. change (default true (Some b)) with b. destruct b.
  { unfold call, MariaDbExecuteTransaction, Lock.
    destruct (Z.ltb_spec 5 id), (Z.ltb_spec id 1); try lia. cbn [orb].
    by rewrite (proj2 (array_get_Ok locks (id - 1) true)) by (split; [lia|done]). }
  case_decide as Hsum.
  - pose proof (execute_on_account f id t cust locks st l h c v Hid) as He.
    destruct (spec_transaction l h t); [|by apply He].
    destruct He as (st' & c' & ? & ? & ? & ? & _); [done|]. eauto 10.
  - unfold call, MariaDbExecuteTransaction.
    destruct (Z.ltb_spec 5 id), (Z.ltb_spec id 1); try lia. cbn [orb].
    rewrite (Lock_free locks (id - 1)) by (lia || done). cbn [mbind outcome_bind transaction_loop].
    destruct (read_law st (id - 1) cust None c v Hg Hcell Hfit) as (st1 & -> & _).
    cbn [mbind outcome_bind negb of_option]. unfold try_transaction.
    rewrite (int_op_overflow _ Hsum). reflexivity.
Qed.
End Refinement.

Section Spin.
Context {W : Type} `{Net W}.
Variable recv_fuel : nat.
Variable padding : nat -> Z.

Lemma transaction_loop_spins fuel id t cust locks (w : W) th :
  failed_client (read_ptr th) ->
  transaction_loop (H := hs_store recv_fuel padding) fuel id t cust locks (w, th) = Fault OutOfFuel.
Proof.
  revert cust w th. induction fuel as [|f IH]; intros cust w th Hf; [done|].
  cbn [transaction_loop read_customer hs_store fst snd].
  destruct (ReadCustomerHs_failed recv_fuel id cust None th w Hf) as (w' & t' & -> & Hf' & _).
  cbn [mbind outcome_bind negb]. by apply IH.
Qed.

(** A thread whose read connection has failed never returns from a transaction:
    the error of its client is sticky, nothing reconnects it, and the loop retries
    for ever while it holds the mutex of the customer. *)
Theorem execute_spins_on_failed_client fuel id t cust locks (w : W) th :
  failed_client (read_ptr th) -> 1 <= id <= 5 ->
  locks !! Z.to_nat (id - 1) = Some false ->
  MariaDbExecuteTransaction (H := hs_store recv_fuel padding) fuel id t cust locks (w, th)
  = Fault OutOfFuel.
Proof.
  intros Hf Hid Hl. unfold MariaDbExecuteTransaction.
  destruct (Z.ltb_spec 5 id), (Z.ltb_spec id 1); try lia. cbn [orb].
  rewrite Lock_free by (done || lia). cbn [mbind outcome_bind].
  by apply transaction_loop_spins.
Qed.
End Spin.

(** ** The first contents of the table *)
Section Initial.
Context {W : Type} `{MySqlLaws W}.
Variable padding : nat -> Z.

Lemma insert_customer_rows c id w w' :
  InsertCustomer padding c id w = (w', true) ->
  rows w' = <[id := encode_customer padding c]> (rows w).
Proof.
  unfold InsertCustomer.
  pose proof (bind_rows id (encode_customer padding c) w) as Hb.
  pose proof (bind_bound id (encode_customer padding c) w) as Hbb.
  destruct (mysql_stmt_bind_param _ _ w) as [w1 ok]. simpl in Hb, Hbb.
  destruct ok; cbn [negb]; [|done].
  pose proof (execute_rows id (encode_customer padding c) w1 (Hbb eq_refl)) as He.
  destruct (mysql_stmt_execute w1) as [w2 ok]. simpl in He.
  destruct ok; cbn [negb]; [|done]. intros [= <-]. rewrite free_rows, He, Hb by done. done.
Qed.

Lemma insert_all_rows cs i w w' :
  insert_all padding cs i w = (w', true) ->
  (forall k c, cs !! k = Some c -> rows w' !! (i + Z.of_nat k) = Some (encode_customer padding c))
  /\ (forall j, j < i -> rows w' !! j = rows w !! j).
Proof.
  revert i w. induction cs as [|c cs IH]; intros i w; cbn [insert_all].
  { intros [= <-]. done. }
  destruct (InsertCustomer padding c i w) as [w1 ok] eqn:E. destruct ok; cbn [negb]; [|done].
  intros Hr. destruct (IH _ _ Hr) as [Hk Hj]. pose proof (insert_customer_rows _ _ _ _ E) as H1.
  split.
  - intros [|k] c0 Hl; simpl in Hl.
    + injection Hl as <-. rewrite Z.add_0_r, Hj, H1 by lia. apply lookup_insert_eq.
    + replace (i + Z.of_nat (S k)) with (i + 1 + Z.of_nat k) by lia. by apply Hk.
  - intros j Hlt. rewrite Hj, H1 by lia. by rewrite lookup_insert_ne by lia.
Qed.

Lemma initial_customer_wf l : is_int l -> wf_customer (initial_customer l).
Proof.
  intros Hl. split; try done; try by_decide.
  apply Forall_replicate. split; by_decide.
Qed.

Lemma initialized_rows fuel (w w' : W) k l :
  MariaInitializeDb padding fuel w = Ok (w', true) ->
  [100000; 80000; 1000000; 10000000; 500000] !! k = Some l ->
  rows w' !! Z.of_nat k = Some (encode_customer padding (initial_customer l)).
Proof.
  unfold MariaInitializeDb. intros Hi Hk. apply bind_Ok_inv in Hi as (w1 & _ & Hi). apply (inj Ok) in Hi.
  destruct (insert_all_rows _ _ _ _ Hi) as [Hrows _].
  rewrite <- (Z.add_0_l (Z.of_nat k)). apply Hrows. unfold kInitialCustomers.
  by rewrite list_lookup_fmap, Hk.
Qed.

(** After a successful initialization the row of every customer 0..4 decodes to
    an account with the customer's limit and no transactions. *)
Theorem initialization_stores_accounts fuel (w w' : W) k l more :
  MariaInitializeDb padding fuel w = Ok (w', true) ->
  [100000; 80000; 1000000; 10000000; 500000] !! k = Some l ->
  exists blob c, rows w' !! Z.of_nat k = Some blob /\ decode_customer (blob ++ more) = Ok c
    /\ account l [] c.
Proof.
  intros Hi Hk. exists (encode_customer padding (initial_customer l)), (initial_customer l). split_and!.
  - by eapply initialized_rows.
  - apply decode_encode_customer, initial_customer_wf.
    apply list_elem_of_lookup_2 in Hk. revert l Hk. apply Forall_forall. repeat constructor; by_decide.
  - apply account_initial. apply list_elem_of_lookup_2 in Hk. revert l Hk. apply Forall_forall.
    repeat constructor; by_decide.
Qed.
End Initial.

(** ** A store in memory *)
Section MemoryStore.
(** A map of versioned customers; a missing customer is read as the protocol reports it. *)
Definition memory_store : CustomerStore (gmap Z (Customer * Z)) := {|
  read_customer id cust ver st :=
    Ok (match st !! id with
        | Some (c, v) => (st, true, Some c, Some v)
        | None => (st, true, cust, ver)
        end);
  write_customer id c v st :=
    Ok (match st !! id with
        | Some (_, v0) => if bool_decide (v = v0) then (<[id := (c, v + 1)]> st, true) else (st, false)
        | None => (st, false)
        end)
|}.

Definition memory_laws : @StoreLaws _ memory_store.
Proof.
  refine (@Build_StoreLaws _ memory_store (fun st => st) (fun _ => True) (fun _ _ _ => True) _ _).
  - intros st id cust ver c v _ Hc _. cbn. rewrite Hc. eauto.
  - intros st id c c0 v v0 _ Hc _ _. cbn. rewrite Hc. case_bool_decide; eauto.
Defined.
End MemoryStore.

(** ** The hypotheses at concrete inputs *)
Definition sample_pix (x : Z) : Transaction :=
  mkTransaction x (bytes "pix" ++ replicate 8 0) (bytes "2024-02-27 21:36" ++ replicate 4 0).

Definition sample_table : gmap Z (Customer * Z) := {[ 0 := (initial_customer 1000, 1) ]}.

Definition free_locks : list bool := replicate kMutexes false.

Lemma execute_releases_locks_witness :
  exists locks', @MariaDbExecuteTransaction _ memory_store 1 1 (sample_pix (-2000)) None free_locks
                   sample_table
                 = Ok (sample_table, locks', TR_LIMIT_EXCEEDED, Some (initial_customer 1000))
    /\ locks' = free_locks.
Proof.
  exists free_locks. split; [vm_compute; reflexivity|].
  apply (@execute_releases_locks _ memory_store 1 1 (sample_pix (-2000)) None free_locks sample_table
           sample_table free_locks TR_LIMIT_EXCEEDED (Some (initial_customer 1000))).
  vm_compute. reflexivity.
Defined.

(** The table in memory keeps types. *)
Definition memory_typed : @TypedStore _ memory_store.
Proof.
  refine (@Build_TypedStore _ memory_store (map_Forall (fun _ p => typed_customer p.1)) _ _).
  - intros st id cust ver st' ok cust' ver' Hst Hc E. cbn in E. injection E as E.
    destruct (st !! id) as [[c v]|] eqn:Hl; injection E as <- <- <- <-; (split; [done|]); [|done].
    apply (map_Forall_lookup_1 _ _ _ _ Hst) in Hl. done.
  - intros st id c v st' ok Hst Hc E. cbn in E. injection E as E.
    destruct (st !! id) as [[c0 v0]|]; [case_bool_decide|]; injection E as <- <-.
    + by apply map_Forall_insert_2.
    + exact Hst.
    + exact Hst.
Defined.

Lemma initial_customer_typed l : is_int l -> typed_customer (initial_customer l).
Proof.
  intros Hl. split; [split|unfold initial_customer; simpl; lia|unfold initial_customer; simpl; lia];
    cbn [initial_customer limit balance transactions transaction_count next_transaction_index].
  - exact Hl.
  - by_decide.
  - by rewrite length_replicate.
  - apply Forall_replicate. split; by_decide.
  - by_decide.
  - by_decide.
Qed.

Definition sample_after : Customer :=
  mkCustomer 1000 (-1000) (sample_pix (-1000) :: replicate 9 empty_transaction) 1 1.

Lemma execute_keeps_types_witness :
  @MariaDbExecuteTransaction _ memory_store 1 1 (sample_pix (-1000)) None free_locks sample_table
    = Ok (<[0 := (sample_after, 2)]> sample_table, free_locks, TR_SUCCESS, Some sample_after)
  /\ @typed _ memory_store memory_typed (<[0 := (sample_after, 2)]> sample_table)
  /\ typed_result (Some sample_after).
Proof.
  split; [vm_compute; reflexivity|].
  apply (@execute_keeps_types _ memory_store memory_typed 1 1 (sample_pix (-1000)) None free_locks
           sample_table (<[0 := (sample_after, 2)]> sample_table) free_locks TR_SUCCESS
           (Some sample_after)).
  - apply map_Forall_singleton, initial_customer_typed. by_decide.
  - exact I.
  - split; by_decide.
  - vm_compute. reflexivity.
Defined.

Lemma sample_prepared :
  @prepared _ memory_store memory_laws 1 (sample_pix (-1000)) free_locks sample_table
    1000 [] (initial_customer 1000) 1.
Proof.
  split; [exact I|reflexivity|exact I|by apply account_initial|by_decide|by_decide|done|done].
Qed.

Lemma execute_refines_account_witness :
  exists st' c', @MariaDbExecuteTransaction _ memory_store 1 1 (sample_pix (-1000)) None free_locks
                   sample_table = Ok (st', free_locks, TR_SUCCESS, Some c')
    /\ account 1000 [sample_pix (-1000)] c'
    /\ st' = <[0 := (c', 2)]> sample_table /\ True.
Proof.
  apply (@execute_refines_account _ memory_store memory_laws 0 1 (sample_pix (-1000)) None free_locks
           sample_table 1000 [] (initial_customer 1000) 1); [reflexivity|].
  intros _. split; [exact I|reflexivity|exact I|by apply account_initial|by_decide|done].
Defined.

Definition broken_thread : hs_thread :=
  mkHs (Some (set_error sample_client (-1) (bytes "read: eof"))) 0 (Some sample_client) 1.

Lemma execute_spins_on_failed_client_witness :
  @MariaDbExecuteTransaction _ (@hs_store script script_net 1 no_padding) 9 2 (sample_pix 1) None
    free_locks (mkScript [] [], broken_thread) = Fault OutOfFuel.
Proof.
  apply (@execute_spins_on_failed_client script script_net 1 no_padding).
  - eexists. split; [reflexivity|by_decide].
  - lia.
  - reflexivity.
Defined.

(** A database that is reached at the third attempt and then never fails. *)
Definition sql_world := (nat * gmap Z (list Z) * option (Z * list Z))%type.

Definition memory_sql : MySql sql_world := {|
  mysql_init w := (w, true);
  mysql_real_connect _ _ _ _ _ w :=
    match w with (S n, r, b) => ((n, r, b), false) | _ => (w, true) end;
  mysql_stmt_init w := (w, true);
  mysql_stmt_prepare _ w := (w, true);
  mysql_stmt_bind_param id b w := ((w.1, Some (id, b)), true);
  mysql_stmt_execute w :=
    match w with (n, r, Some (id, b)) => ((n, <[id := b]> r, None), true) | _ => (w, false) end;
  mysql_stmt_free_result w := w;
  sleep _ w := w
|}.

Definition memory_sql_laws : @MySqlLaws sql_world memory_sql.
Proof.
  refine (@Build_MySqlLaws sql_world memory_sql (fun w => w.1.2) (fun w => w.2) _ _ _ _ _ _ _ _);
    try done.
  - by intros a b c d e [[[|n] r] x].
  - intros id b [[n r] x]. simpl. by intros -> _.
Defined.

Lemma initialization_stores_accounts_witness :
  exists w', @MariaInitializeDb sql_world memory_sql no_padding 3 (2%nat, ∅, None) = Ok (w', true)
    /\ exists blob c, w'.1.2 !! 3 = Some blob /\ decode_customer (blob ++ []) = Ok c
         /\ account 10000000 [] c.
Proof.
  eexists. split; [vm_compute; reflexivity|].
  apply (@initialization_stores_accounts sql_world memory_sql memory_sql_laws no_padding 3
           (2%nat, ∅, None) _ 3%nat 10000000 []); vm_compute; reflexivity.
Defined.
