(* ===== verification/Ledger.v ===== *)
(** * Ledger: transactions of many threads and processes on one customer

    Two processes of the service, each with several worker threads, run
    [MariaDbExecuteTransaction] ([rinha/maria_database.cc]) on the same row.  A
    mutex per process and customer orders the threads of a process; between
    processes only the version test of the write decides.  The state holds
    the row, the owners of the mutexes and, per thread, the point of the function
    it has reached; a step is one action of one thread, and threads interleave
    freely.  A read of the row and a versioned write of it are atomic, as the database
    makes them.  Each thread has a client for reads and one for writes; a client that fails may
    be of no use from then on, since nothing reconnects it. *)
From stdpp Require Import functions relations.
From S2P Require Import Prelude Structs Account.
#[local] Open Scope Z_scope.

Definition tid := nat.

(** Where a thread is. *)
Inductive pc :=
| Idle
| Reading (t : Transaction)
| Deciding (t : Transaction) (c : Customer) (version : Z)
| Writing (t : Transaction) (c' : Customer) (version : Z)
| Finishing (t : Transaction) (r : TransactionResult).

Record ledger := mkLedger {
  row : Customer * Z;
  owner : nat -> option tid;
  pcs : tid -> pc;
  (** Whether the clients of a thread still work. *)
  read_ok : tid -> bool;
  write_ok : tid -> bool;
  (** Ghost state: the committed transactions, newest first, the answers each thread has
      given, newest first, and a transaction of the thread that counts as a success although
      it was not stored. *)
  committed : list (tid * Transaction);
  answered : tid -> list (Transaction * TransactionResult);
  unstored : tid -> option Transaction
}.

Definition set_pc (w : ledger) (i : tid) (p : pc) : ledger :=
  mkLedger (row w) (owner w) (<[i := p]> (pcs w)) (read_ok w) (write_ok w) (committed w)
    (answered w) (unstored w).
Definition set_owner (w : ledger) (q : nat) (o : option tid) : ledger :=
  mkLedger (row w) (<[q := o]> (owner w)) (pcs w) (read_ok w) (write_ok w) (committed w)
    (answered w) (unstored w).
Definition set_read_ok (w : ledger) (i : tid) (b : bool) : ledger :=
  mkLedger (row w) (owner w) (pcs w) (<[i := b]> (read_ok w)) (write_ok w) (committed w)
    (answered w) (unstored w).
Definition set_write_ok (w : ledger) (i : tid) (b : bool) : ledger :=
  mkLedger (row w) (owner w) (pcs w) (read_ok w) (<[i := b]> (write_ok w)) (committed w)
    (answered w) (unstored w).
Definition commit (w : ledger) (i : tid) (t : Transaction) (c : Customer) (v : Z) : ledger :=
  mkLedger (c, v) (owner w) (pcs w) (read_ok w) (write_ok w) ((i, t) :: committed w)
    (answered w) (unstored w).
Definition answer (w : ledger) (i : tid) (t : Transaction) (r : TransactionResult) : ledger :=
  mkLedger (row w) (owner w) (pcs w) (read_ok w) (write_ok w) (committed w)
    (<[i := (t, r) :: answered w i]> (answered w)) (unstored w).
Definition claim (w : ledger) (i : tid) (t : Transaction) : ledger :=
  mkLedger (row w) (owner w) (pcs w) (read_ok w) (write_ok w) (committed w) (answered w)
    (<[i := Some t]> (unstored w)).

Section Ledger.
(** The process of a thread. *)
Variable proc : tid -> nat.

(** The steps of thread [i].  A failure of a client with [b = true] passes; with [b = false]
    the client is lost. *)
Inductive step_of (i : tid) (w : ledger) : ledger -> Prop :=
| step_lock t :
    pcs w i = Idle -> owner w (proc i) = None ->
    step_of i w (set_pc (set_owner w (proc i) (Some i)) i (Reading t))
| step_read t :
    pcs w i = Reading t -> read_ok w i = true ->
    step_of i w (set_pc w i (Deciding t (row w).1 (row w).2))
(** [ReadCustomerHs] returns false, and the loop goes on. *)
| step_read_fails t b :
    pcs w i = Reading t -> step_of i w (set_read_ok w i (read_ok w i && b))
| step_refuse t c v :
    pcs w i = Deciding t c v -> try_transaction c t = Ok None ->
    step_of i w (set_pc w i (Finishing t TR_LIMIT_EXCEEDED))
| step_compute t c v c' :
    pcs w i = Deciding t c v -> try_transaction c t = Ok (Some c') ->
    step_of i w (set_pc w i (Writing t c' v))
(** The row is written.  With [b = false] the reply is lost: [WriteCustomerHs] returns 1,
    which is true, all the same. *)
| step_commit t c' v b :
    pcs w i = Writing t c' v -> write_ok w i = true -> (row w).2 = v ->
    step_of i w (set_pc (set_write_ok (commit w i t c' (v + 1)) i b) i (Finishing t TR_SUCCESS))
| step_lost t c' v :
    pcs w i = Writing t c' v -> write_ok w i = true -> (row w).2 <> v ->
    step_of i w (set_pc w i (Reading t))
(** An error reply, or a connection lost before the request was executed: [WriteCustomerHs]
    returns 1 again.  The response is not removed, which costs the client. *)
| step_write_error t c' v :
    pcs w i = Writing t c' v -> write_ok w i = true ->
    step_of i w (set_pc (claim (set_write_ok w i false) i t) i (Finishing t TR_SUCCESS))
(** The request cannot be sent: [WriteCustomerHs] returns false. *)
| step_send_fails t c' v b :
    pcs w i = Writing t c' v ->
    step_of i w (set_pc (set_write_ok w i (write_ok w i && b)) i (Reading t))
| step_unlock t r :
    pcs w i = Finishing t r ->
    step_of i w (set_pc (set_owner (answer w i t r) (proc i) None) i Idle).

Definition step (w w' : ledger) : Prop := exists i, step_of i w w'.

(** No thread is in a transaction. *)
Definition start (c : Customer) (v : Z) : ledger :=
  mkLedger (c, v) (fun _ => None) (fun _ => Idle) (fun _ => true) (fun _ => true) []
    (fun _ => []) (fun _ => None).

Definition reachable (c : Customer) (v : Z) (w : ledger) : Prop := rtc step (start c v) w.

(** ** Views of the history *)
Definition history (w : ledger) : list Transaction := snd <$> committed w.

Definition commits_of (i : tid) (w : ledger) : list Transaction :=
  snd <$> filter (fun p => p.1 = i) (committed w).

(** A commit not answered yet. *)
Definition pending (p : pc) : list Transaction :=
  match p with Finishing t TR_SUCCESS => [t] | _ => [] end.

Definition successes (l : list (Transaction * TransactionResult)) : list Transaction :=
  fst <$> filter (fun p => p.2 = TR_SUCCESS) l.

(** The account was seen with history [h] and refused [t]. *)
Definition refused (l : Z) (w : ledger) (t : Transaction) : Prop :=
  exists h, h `suffix_of` history w /\ spec_transaction l h t = None.

(** A thread works on the state of the row after the commits [h]. *)
Definition snapshot (l v0 : Z) (w : ledger) (c : Customer) (v : Z) : Prop :=
  exists h, h `suffix_of` history w /\ account l h c /\ v = v0 + Z.of_nat (length h).

Record ledger_inv (l v0 : Z) (w : ledger) : Prop := {
  li_row : account l (history w) (row w).1;
  li_version : (row w).2 = v0 + Z.of_nat (length (committed w));
  li_owner : forall i, pcs w i <> Idle <-> owner w (proc i) = Some i;
  li_deciding : forall i t c v, pcs w i = Deciding t c v -> snapshot l v0 w c v;
  li_writing : forall i t c' v, pcs w i = Writing t c' v ->
    exists c, snapshot l v0 w c v /\ try_transaction c t = Ok (Some c');
  li_answers : forall i,
    pending (pcs w i) ++ successes (answered w i) = option_list (unstored w i) ++ commits_of i w;
  li_unstored : forall i, unstored w i <> None -> write_ok w i = false;
  li_refusing : forall i t, pcs w i = Finishing t TR_LIMIT_EXCEEDED -> refused l w t;
  li_refused : forall i t, (t, TR_LIMIT_EXCEEDED) ∈ answered w i -> refused l w t
}.
End Ledger.

(** ** The arithmetic of a step *)
Lemma try_transaction_account l h c t c' :
  account l h c -> try_transaction c t = Ok (Some c') -> account l (t :: h) c'.
Proof.
  intros [Hl Hb Hf Hr] (_ & Hfl & _ & ->)%try_transaction_inv.
  split; cbn [balance limit]; rewrite ?total_cons; [done|lia|lia|].
  pose proof (ring_push h c t Hr) as Hp. rewrite (ring_next _ _ Hr), Nat2Z.id.
  rewrite (ring_next _ _ Hr) in Hp. by destruct Hp.
Qed.

Lemma try_transaction_refused l h c t :
  account l h c -> try_transaction c t = Ok None -> spec_transaction l h t = None.
Proof.
  intros Ha Ht. unfold try_transaction in Ht. inv_ok.
  apply int_op_Ok in Hr as [-> _]. apply int_op_Ok in Hr0 as [-> _].
  unfold spec_transaction. rewrite (account_limit _ _ _ Ha), (account_balance _ _ _ Ha) in Ht.
  destruct (_ <? _); [done|]. by inv_ok.
Qed.

Lemma suffix_length_eq {A} (h l : list A) : h `suffix_of` l -> length h = length l -> h = l.
Proof. intros [k ->] Hl. rewrite length_app in Hl. by destruct k; [|simpl in Hl; lia]. Qed.

(** ** The invariant *)

(** Look at a function that was updated at thread [i] from thread [j]. *)
Ltac at_thread i j :=
  destruct (decide (i = j)) as [<-|?];
  [rewrite ?fn_lookup_insert|rewrite ?fn_lookup_insert_ne by done].

Section Invariant.
Variable proc : tid -> nat.
Variables (l v0 : Z).

(** A thread that moves inside its transaction. *)
Lemma set_pc_inv w i p :
  ledger_inv proc l v0 w -> pcs w i <> Idle -> p <> Idle ->
  pending p = pending (pcs w i) ->
  (forall t c v, p = Deciding t c v -> snapshot l v0 w c v) ->
  (forall t c' v, p = Writing t c' v ->
     exists c, snapshot l v0 w c v /\ try_transaction c t = Ok (Some c')) ->
  (forall t, p = Finishing t TR_LIMIT_EXCEEDED -> refused l w t) ->
  ledger_inv proc l v0 (set_pc w i p).
Proof.
  intros [Hrow Hver Hown Hdec Hwr Hans Huns Hrfg Hrfd] Hi Hp Hpend Hd Hw Hr.
  split; simpl; try done.
  - intros j. rewrite <- Hown. by at_thread i j.
  - intros j t c v. at_thread i j; [apply Hd|apply Hdec].
  - intros j t c v. at_thread i j; [apply Hw|apply Hwr].
  - intros j. at_thread i j; [rewrite Hpend|]; apply Hans.
  - intros j t. at_thread i j; [apply Hr|apply Hrfg].
Qed.

Lemma start_inv c : account l [] c -> ledger_inv proc l v0 (start c v0).
Proof.
  intros Ha. split; simpl; try done; [lia|].
  intros i t Hin. by apply not_elem_of_nil in Hin.
Qed.

(** The state of the clients. *)
Lemma set_read_ok_inv w i b : ledger_inv proc l v0 w -> ledger_inv proc l v0 (set_read_ok w i b).
Proof. by intros []. Qed.

Lemma set_write_ok_inv w i b :
  ledger_inv proc l v0 w -> (unstored w i <> None -> b = false) ->
  ledger_inv proc l v0 (set_write_ok w i b).
Proof.
  intros [Hrow Hver Hown Hdec Hwr Hans Huns Hrfg Hrfd] Hb. split; try done.
  intros j. simpl. at_thread i j; [done|apply Huns].
Qed.

(** A thread whose client for writes works has only told the truth. *)
Lemma write_ok_stored w i : ledger_inv proc l v0 w -> write_ok w i = true -> unstored w i = None.
Proof.
  intros Hw Hi. destruct (unstored w i) eqn:E; [|done].
  pose proof (li_unstored _ _ _ _ Hw i). rewrite E, Hi in *. by discriminate H.
Qed.

(** A refusal or snapshot outlives a commit. *)
Lemma refused_mono w w' t :
  history w `suffix_of` history w' -> refused l w t -> refused l w' t.
Proof. intros Hs (h & Hh & Hr). exists h. split; [by etrans|done]. Qed.

Lemma snapshot_mono w w' c v :
  history w `suffix_of` history w' -> snapshot l v0 w c v -> snapshot l v0 w' c v.
Proof. intros Hs (h & Hh & Hr). exists h. split; [by etrans|done]. Qed.

(** Who owns the mutexes after thread [i] has taken or released that of its process. *)
Lemma owner_update w i p o :
  ledger_inv proc l v0 w -> (p <> Idle <-> o = Some i) ->
  (o = Some i /\ owner w (proc i) = None \/ o = None /\ owner w (proc i) = Some i) ->
  forall j, <[i := p]> (pcs w) j <> Idle <-> <[proc i := o]> (owner w) (proc j) = Some j.
Proof.
  intros Hw Hp Ho j. at_thread i j; [done|]. rewrite (li_owner _ _ _ _ Hw).
  destruct (decide (proc i = proc j)) as [E|E].
  - rewrite <- E, fn_lookup_insert. naive_solver.
  - by rewrite fn_lookup_insert_ne.
Qed.

Lemma lock_inv w i t :
  ledger_inv proc l v0 w -> pcs w i = Idle -> owner w (proc i) = None ->
  ledger_inv proc l v0 (set_pc (set_owner w (proc i) (Some i)) i (Reading t)).
Proof.
  intros Hinv Hi Ho. pose proof Hinv as [Hrow Hver Hown Hdec Hwr Hans Huns Hrfg Hrfd].
  split; simpl; try done.
  - apply owner_update; [done|done|by left].
  - intros j. at_thread i j; [done|apply Hdec].
  - intros j. at_thread i j; [done|apply Hwr].
  - intros j. specialize (Hans j). at_thread i j; [by rewrite Hi in Hans|exact Hans].
  - intros j. at_thread i j; [done|apply Hrfg].
Qed.

Lemma commit_inv w i t c' v :
  ledger_inv proc l v0 w -> pcs w i = Writing t c' v -> write_ok w i = true -> (row w).2 = v ->
  ledger_inv proc l v0 (set_pc (commit w i t c' (v + 1)) i (Finishing t TR_SUCCESS)).
Proof.
  intros Hinv Hi Hok Hv. pose proof (write_ok_stored w i Hinv Hok) as Hun.
  pose proof Hinv as [Hrow Hver Hown Hdec Hwr Hans Huns Hrfg Hrfd].
  destruct (Hwr _ _ _ _ Hi) as (c & (h & Hs & Ha & Hvh) & Ht).
  assert (Hh : h = history w).
  { apply suffix_length_eq; [done|]. unfold history. rewrite length_fmap. lia. }
  subst h.
  assert (Hsuf : history w `suffix_of` (t :: history w)) by (by exists [t]).
  split; simpl; try done.
  - by eapply try_transaction_account.
  - lia.
  - intros j. rewrite <- Hown. at_thread i j; [by rewrite Hi|done].
  - intros j t' c0 v'. at_thread i j; [done|]. intros Hj.
    eapply snapshot_mono; [exact Hsuf|by eapply Hdec].
  - intros j t' c0 v'. at_thread i j; [done|]. intros Hj.
    destruct (Hwr _ _ _ _ Hj) as (c1 & Hsn & Htr). exists c1. split; [|done].
    by eapply snapshot_mono; [exact Hsuf|].
  - intros j. specialize (Hans j). unfold commits_of in *. simpl. rewrite filter_cons.
    at_thread i j.
    + rewrite decide_True by done. rewrite Hi, Hun in *. simpl in *. by rewrite Hans.
    + by rewrite decide_False.
  - intros j t'. at_thread i j; [done|]. intros Hj. eapply refused_mono; [exact Hsuf|by eapply Hrfg].
  - intros j t' Hj. eapply refused_mono; [exact Hsuf|by eapply Hrfd].
Qed.

Lemma write_error_inv w i t c' v :
  ledger_inv proc l v0 w -> pcs w i = Writing t c' v -> write_ok w i = true ->
  ledger_inv proc l v0 (set_pc (claim (set_write_ok w i false) i t) i (Finishing t TR_SUCCESS)).
Proof.
  intros Hinv Hi Hok. pose proof (write_ok_stored w i Hinv Hok) as Hun.
  pose proof Hinv as [Hrow Hver Hown Hdec Hwr Hans Huns Hrfg Hrfd]. split; simpl; try done.
  - intros j. rewrite <- Hown. at_thread i j; [by rewrite Hi|done].
  - intros j. at_thread i j; [done|apply Hdec].
  - intros j. at_thread i j; [done|apply Hwr].
  - intros j. specialize (Hans j). at_thread i j; [|done]. rewrite Hi, Hun in Hans. simpl in *. by rewrite Hans.
  - intros j. at_thread i j; [done|apply Huns].
  - intros j. at_thread i j; [done|apply Hrfg].
Qed.

Lemma unlock_inv w i t r :
  ledger_inv proc l v0 w -> pcs w i = Finishing t r ->
  ledger_inv proc l v0 (set_pc (set_owner (answer w i t r) (proc i) None) i Idle).
Proof.
  intros Hinv Hi. pose proof Hinv as [Hrow Hver Hown Hdec Hwr Hans Huns Hrfg Hrfd].
  assert (Ho : owner w (proc i) = Some i) by (apply Hown; congruence).
  split; simpl; try done.
  - apply owner_update; [done|naive_solver|by right].
  - intros j. at_thread i j; [done|apply Hdec].
  - intros j. at_thread i j; [done|apply Hwr].
  - intros j. specialize (Hans j). at_thread i j; [|done].
    rewrite Hi in Hans. etransitivity; [|exact Hans]. unfold successes. rewrite filter_cons. by destruct r.
  - intros j. at_thread i j; [done|apply Hrfg].
  - intros j t'. at_thread i j; [|apply Hrfd].
    rewrite elem_of_cons. intros [[= -> <-]|Hin]; [by eapply Hrfg|by eapply Hrfd].
Qed.

Lemma step_of_inv i w w' : ledger_inv proc l v0 w -> step_of proc i w w' -> ledger_inv proc l v0 w'.
Proof.
  intros Hw Hs. destruct Hs as [t Hi Ho|t Hi Hok|t b Hi|t c v Hi Ht|t c v c' Hi Ht
    |t c' v b Hi Hok Hv|t c' v Hi Hok Hv|t c' v Hi Hok|t c' v b Hi|t r Hi].
  - by apply lock_inv.
  - apply set_pc_inv; rewrite ?Hi; try done. intros t' c v [= <- <- <-].
    exists (history w). split; [done|]. split; [apply Hw|].
    rewrite (li_version _ _ _ _ Hw). unfold history. by rewrite length_fmap.
  - by apply set_read_ok_inv.
  - destruct (li_deciding _ _ _ _ Hw _ _ _ _ Hi) as (h & Hh & Ha & _).
    apply set_pc_inv; rewrite ?Hi; try done. intros t' [= <-].
    exists h. split; [done|]. by eapply try_transaction_refused.
  - pose proof (li_deciding _ _ _ _ Hw _ _ _ _ Hi) as Hsn.
    apply set_pc_inv; rewrite ?Hi; try done. intros t' c2 v' [= <- <- <-]. eauto.
  - apply (set_write_ok_inv (set_pc (commit w i t c' (v + 1)) i (Finishing t TR_SUCCESS)));
      [by apply commit_inv|]. simpl. by rewrite (write_ok_stored w i).
  - by apply set_pc_inv; rewrite ?Hi.
  - by eapply write_error_inv.
  - apply (set_write_ok_inv (set_pc w i (Reading t))); [by apply set_pc_inv; rewrite ?Hi|].
    simpl. intros Hu. by rewrite (li_unstored _ _ _ _ Hw i Hu).
  - by apply unlock_inv.
Qed.

Lemma step_inv w w' : ledger_inv proc l v0 w -> step proc w w' -> ledger_inv proc l v0 w'.
Proof. intros Hw [i Hs]. by eapply step_of_inv. Qed.

Lemma run_inv w w' : ledger_inv proc l v0 w -> rtc (step proc) w w' -> ledger_inv proc l v0 w'.
Proof. intros Hw Hr. induction Hr as [|w1 w2 w3 Hs Hr IH]; [done|]. apply IH. by eapply step_inv. Qed.

Lemma reachable_inv c w : account l [] c -> reachable proc c v0 w -> ledger_inv proc l v0 w.
Proof. intros Ha Hr. eapply run_inv; [by apply start_inv|exact Hr]. Qed.
End Invariant.

(** What a thread does leaves the others where they are. *)
Lemma step_of_others proc i j w w' :
  step_of proc i w w' -> j <> i ->
  pcs w' j = pcs w j /\ answered w' j = answered w j /\ read_ok w' j = read_ok w j
  /\ write_ok w' j = write_ok w j.
Proof. intros Hs Hj. destruct Hs; simpl; by rewrite ?fn_lookup_insert_ne by done. Qed.

(** ** Threads of one process *)

(** Nobody else has committed since a thread read the row. *)
Definition current (w : ledger) : Prop :=
  forall i, match pcs w i with
            | Deciding _ _ v | Writing _ _ v => (row w).2 = v
            | _ => True
            end.

Section OneProcess.
Variable proc : tid -> nat.
Hypothesis one_process : forall i j, proc i = proc j.

Lemma busy_unique w l v0 i j :
  ledger_inv proc l v0 w -> pcs w i <> Idle -> pcs w j <> Idle -> i = j.
Proof.
  intros Hw Hi%(li_owner _ _ _ _ Hw) Hj%(li_owner _ _ _ _ Hw).
  rewrite (one_process i j) in Hi. congruence.
Qed.

Lemma step_current w w' l v0 :
  ledger_inv proc l v0 w -> current w -> step proc w w' -> current w'.
Proof.
  intros Hw Hc [i Hs] j. destruct (decide (j = i)) as [->|Hij].
  - specialize (Hc i). destruct Hs as [t Hi|t Hi|t b Hi|t c v Hi|t c v c' Hi|t c' v b Hi|t c' v Hi|t c' v Hi
      |t c' v b Hi|t r Hi]; simpl; rewrite ?fn_lookup_insert; rewrite ?Hi in *; done.
  - destruct (step_of_others _ _ _ _ _ Hs Hij) as [Hp _]. specialize (Hc j). rewrite Hp.
    assert (Hidle : pcs w j <> Idle -> pcs w i = Idle).
    { intros Hj. destruct (pcs w i) eqn:Ei; [done|..]; destruct Hij;
        by eapply (busy_unique w l v0); rewrite ?Ei. }
    assert (Hrow : pcs w i = Idle -> row w' = row w) by (intros Hi; by destruct Hs; simpl in *; congruence).
    destruct (pcs w j); [done|done| | |done]; by rewrite Hrow by by apply Hidle.
Qed.
End OneProcess.

(** ** A thread that runs alone *)
Section Solo.
Variable proc : tid -> nat.









End Solo.

(** ** Properties *)
(** The thread is between [Lock] and [Unlock]. *)
Definition in_transaction (w : ledger) (i : tid) : Prop := pcs w i <> Idle.

Section Theorems.
Variable proc : tid -> nat.
Variables (l v0 : Z) (c : Customer) (w : ledger).
Hypothesis Hinit : account l [] c.

(** C2: transactions are serializable and no update is lost. However the threads of
    any number of processes interleave, the row is always the account whose history
    is the sequence of the committed transactions, its version counts them, and
    its balance, the sum of all of them, never falls below the negated limit. *)
Theorem ledger_serializable :
  reachable proc c v0 w ->
  account l (history w) (row w).1
  /\ (row w).2 = v0 + Z.of_nat (length (committed w))
  /\ balance (row w).1 = total (history w)
  /\ - l <= balance (row w).1.
Proof.
  intros Hw%(reachable_inv proc l v0 c w Hinit).
  pose proof (li_row _ _ _ _ Hw) as Ha. split; [done|]. split; [apply Hw|].
  split; [apply Ha|]. rewrite (account_balance _ _ _ Ha). apply Ha.
Qed.

(** C30: Answers are truthful, but for one. The transactions that a thread has answered with
    [SUCCESS] (or is about to) are, in order, the ones it has committed, with at most one more
    at the end: when the reply to a write was an error, the code answers [SUCCESS] although
    nothing was stored.  This costs the thread its client for writes, so it happens at most once
    to a thread, and never while that client works.  Every transaction it answered with
    [LIMIT_EXCEEDED] would have taken some past state of the account below its floor. *)
Theorem ledger_answers i :
  reachable proc c v0 w ->
  pending (pcs w i) ++ successes (answered w i) = option_list (unstored w i) ++ commits_of i w
  /\ (unstored w i <> None -> write_ok w i = false)
  /\ forall t, (t, TR_LIMIT_EXCEEDED) ∈ answered w i ->
       exists h, h `suffix_of` history w /\ spec_transaction l h t = None.
Proof.
  intros Hw%(reachable_inv proc l v0 c w Hinit).
  split; [apply Hw|]. split; [apply Hw|]. intros t. apply Hw.
Qed.

(** Mutual exclusion. Two threads of one process are never in a transaction on the
    same customer at the same time. *)
Theorem ledger_mutual_exclusion i j :
  reachable proc c v0 w ->
  proc i = proc j -> in_transaction w i -> in_transaction w j -> i = j.
Proof.
  intros Hw%(reachable_inv proc l v0 c w Hinit) Hp Hi%(li_owner _ _ _ _ Hw) Hj%(li_owner _ _ _ _ Hw). rewrite Hp in Hi. congruence.
Qed.

(** Only another process can win a race. When all threads belong to one process,
    a thread that has read the row still finds the version it read when it comes to
    its versioned write, so it never loses a race. *)
Theorem single_process_never_retries :
  reachable proc c v0 w -> (forall i j, proc i = proc j) -> current w.
Proof.
  intros Hreach Hp. pose proof (start_inv proc l v0 c Hinit) as H0.
  assert (Hc0 : current (start c v0)) by (by intros j).
  unfold reachable in Hreach. clear Hinit. revert H0 Hc0.
  induction Hreach as [|w1 w2 w3 Hs Hr IH]; [done|]. intros H0 Hc0.
  apply IH; [by eapply step_inv|by eapply step_current].
Qed.

End Theorems.

(** ** The hypotheses on a concrete run *)

(** Threads 0 and 2 are of process 0, thread 1 of process 1. *)
Definition sample_proc (i : tid) : nat := (i mod 2)%nat.

Definition sample_debit : Transaction := mkTransaction (-600) (replicate 11 0) (replicate 20 0).

(** Thread 0 reads; thread 1 reads and commits the same debit first. *)
Definition sample_trace (w : ledger) : Prop :=
  rtc (step sample_proc) (start (initial_customer 1000) 1) w.

(** One step of the run by thread [i]. *)
Tactic Notation "run_step" constr(i) uconstr(rule) :=
  eapply rtc_l; [exists i; eapply rule; reflexivity|].

Lemma sample_race :
  exists w c', sample_trace w /\ pcs w 0%nat = Writing sample_debit c' 1
    /\ pcs w 1%nat = Finishing sample_debit TR_SUCCESS /\ (row w).2 = 2.
Proof.
  eexists _, _. split; [|split_and!].
  - unfold sample_trace.
    run_step 0%nat (step_lock sample_proc 0%nat _ sample_debit).
    run_step 0%nat step_read.
    run_step 1%nat (step_lock sample_proc 1%nat _ sample_debit).
    run_step 1%nat step_read.
    run_step 1%nat step_compute.
    run_step 0%nat step_compute.
    run_step 1%nat (step_commit sample_proc 1%nat _ sample_debit _ 1 true).
    apply rtc_refl.
  - reflexivity.
  - reflexivity.
  - reflexivity.
Defined.

(** Thread 0 gets an error for its write and answers that it succeeded. *)
Lemma sample_error :
  exists w, sample_trace w /\ answered w 0%nat = [(sample_debit, TR_SUCCESS)]
    /\ unstored w 0%nat = Some sample_debit /\ committed w = [].
Proof.
  eexists _. split; [|split_and!].
  - unfold sample_trace.
    run_step 0%nat (step_lock sample_proc 0%nat _ sample_debit).
    run_step 0%nat step_read.
    run_step 0%nat step_compute.
    run_step 0%nat step_write_error.
    run_step 0%nat step_unlock.
    apply rtc_refl.
  - reflexivity.
  - reflexivity.
  - reflexivity.
Defined.

Lemma sample_account_1000 : account 1000 [] (initial_customer 1000).
Proof. by apply account_initial. Qed.

Lemma ledger_serializable_witness :
  exists w, sample_trace w /\ (row w).2 = 2
    /\ account 1000 (history w) (row w).1 /\ (row w).2 = 1 + Z.of_nat (length (committed w))
    /\ balance (row w).1 = total (history w) /\ - 1000 <= balance (row w).1.
Proof.
  destruct sample_race as (w & c' & Hr & _ & _ & Hv). exists w. split; [exact Hr|].
  split; [exact Hv|].
  apply (ledger_serializable sample_proc 1000 1 (initial_customer 1000) w sample_account_1000 Hr).
Defined.

Lemma ledger_answers_witness :
  exists w, sample_trace w /\ committed w = []
    /\ pending (pcs w 0%nat) ++ successes (answered w 0%nat)
       = option_list (Some sample_debit) ++ commits_of 0%nat w
    /\ write_ok w 0%nat = false
    /\ forall t, (t, TR_LIMIT_EXCEEDED) ∈ answered w 0%nat ->
         exists h, h `suffix_of` history w /\ spec_transaction 1000 h t = None.
Proof.
  destruct sample_error as (w & Hr & _ & Hu & Hc). exists w. split; [exact Hr|]. split; [exact Hc|].
  destruct (ledger_answers sample_proc 1000 1 (initial_customer 1000) w sample_account_1000 0%nat Hr)
    as (H1 & H2 & H3). rewrite Hu in H1, H2. split; [exact H1|]. split; [by apply H2|exact H3].
Defined.

Lemma ledger_mutual_exclusion_witness :
  exists w c', sample_trace w /\ pcs w 0%nat = Writing sample_debit c' 1 /\ 0%nat = 0%nat.
Proof.
  destruct sample_race as (w & c' & Hr & H0 & _). exists w, c'. split; [exact Hr|]. split; [exact H0|].
  apply (ledger_mutual_exclusion sample_proc 1000 1 (initial_customer 1000) w sample_account_1000 0%nat 0%nat Hr).
  - reflexivity.
  - unfold in_transaction. rewrite H0. discriminate.
  - unfold in_transaction. rewrite H0. discriminate.
Defined.

Lemma sample_alone :
  exists w c', reachable (fun _ => 0%nat) (initial_customer 1000) 1 w
    /\ pcs w 0%nat = Writing sample_debit c' 1.
Proof.
  eexists _, _. split.
  - unfold reachable.
    run_step 0%nat (step_lock (fun _ => 0%nat) 0%nat _ sample_debit).
    run_step 0%nat step_read.
    run_step 0%nat step_compute.
    apply rtc_refl.
  - reflexivity.
Defined.

Lemma single_process_never_retries_witness :
  exists w c', reachable (fun _ => 0%nat) (initial_customer 1000) 1 w
    /\ pcs w 0%nat = Writing sample_debit c' 1 /\ current w.
Proof.
  destruct sample_alone as (w & c' & Hr & Hi). exists w, c'. split; [exact Hr|]. split; [exact Hi|].
  apply (single_process_never_retries (fun _ => 0%nat) 1000 1 (initial_customer 1000) w
           sample_account_1000 Hr). reflexivity.
Defined.

