(* ===== verification/LedgerCode.v ===== *)
(** * LedgerCode: the transaction of the code is the transaction of the ledger

    [Ledger] has the transaction of [rinha/maria_database.cc] as steps of many threads, and
    [MariaDatabase] as a function on a store.  Here the store is the ledger itself, seen by
    one thread: before each of its accesses the other threads take any steps they can, and
    reads and writes may fail in every way in which [ReadCustomerHs] and [WriteCustomerHs] can.
    What the function does on this store is a run of the ledger that ends where the thread
    is about to answer what the function returns. *)
From stdpp Require Import functions relations.
From S2P Require Import Prelude Structs Account Socket Hstcpcli HandlerSocket MariaDatabase Ledger.
#[local] Open Scope Z_scope.

(** A step of the ledger that is not one of thread [i]. *)
Definition others (proc : tid -> nat) (i : tid) (w w' : ledger) : Prop :=
  exists j, j <> i /\ step_of proc j w w'.

(** What becomes of a write: the server answers it; it executes the request, but the reply is
    lost; it answers with an error or the request is lost; or the request cannot be sent,
    with a failure that passes or with the client lost. *)
Inductive write_event := Replied | ReplyLost | Refused | NotSent (passes : bool).

Section Code.
Variable proc : tid -> nat.
Variable i : tid.
(** At the [n]-th access: the steps of the others before it, whether a read fails (and whether
    the failure passes), and what becomes of a write. *)
Variable others_at : nat -> ledger -> ledger.
Variable read_at : nat -> option bool.
Variable write_at : nat -> write_event.

Definition seen (st : ledger * nat) : ledger := others_at st.2 st.1.

(** The read of thread [i] in the state [w], for the transaction [t]. *)
Definition read_row (n : nat) (t : Transaction) (w : ledger) : ledger * bool :=
  match read_at n with
  | None =>
      if read_ok w i then (set_pc w i (Deciding t (row w).1 (row w).2), true)
      else (set_read_ok w i (read_ok w i && true), false)
  | Some b => (set_read_ok w i (read_ok w i && b), false)
  end.

(** Its write. *)
Definition write_row (n : nat) (t : Transaction) (c : Customer) (v : Z) (w : ledger) : ledger * bool :=
  let stored b := (set_pc (set_write_ok (commit w i t c (v + 1)) i b) i (Finishing t TR_SUCCESS), true) in
  let error := (set_pc (claim (set_write_ok w i false) i t) i (Finishing t TR_SUCCESS), true) in
  let unsent b := (set_pc (set_write_ok w i (write_ok w i && b)) i (Reading t), false) in
  if write_ok w i then
    match write_at n with
    | Replied => if (row w).2 =? v then stored true else (set_pc w i (Reading t), false)
    | ReplyLost => if (row w).2 =? v then stored false else error
    | Refused => error
    | NotSent b => unsent b
    end
  else unsent true.

(** The row as the thread [i] reads and writes it. *)
#[local] Instance ledger_store : CustomerStore (ledger * nat) := {|
  read_customer id cust ver st :=
    match pcs (seen st) i with
    | Reading t =>
        let '(w, ok) := read_row st.2 t (seen st) in
        Ok ((w, S st.2), ok,
            if ok : bool then Some (row (seen st)).1 else cust,
            if ok then Some (row (seen st)).2 else ver)
    | _ => Fault Blocked
    end;
  write_customer id c v st :=
    match pcs st.1 i with
    | Deciding t _ _ =>
        let '(w, ok) := write_row st.2 t c v (seen (set_pc st.1 i (Writing t c v), st.2)) in
        Ok ((w, S st.2), ok)
    | _ => Fault Blocked
    end
|}.

(** After [Lock], with the mutex free. *)
Definition locked (w : ledger) (t : Transaction) : ledger :=
  set_pc (set_owner w (proc i) (Some i)) i (Reading t).

Hypothesis others_step : forall n w, rtc (others proc i) w (others_at n w).

Lemma others_keep w w' :
  rtc (others proc i) w w' ->
  pcs w' i = pcs w i /\ answered w' i = answered w i /\ read_ok w' i = read_ok w i
  /\ write_ok w' i = write_ok w i.
Proof.
  induction 1 as [|w1 w2 w3 (j & Hj & Hs) _ (H1 & H2 & H3 & H4)]; [done|].
  destruct (step_of_others proc j i w1 w2 Hs ltac:(done)) as (E1 & E2 & E3 & E4). repeat split; congruence.
Qed.

Lemma others_run w w' : rtc (others proc i) w w' -> rtc (step proc) w w'.
Proof. induction 1 as [|w1 w2 w3 (j & _ & Hs) _ IH]; [done|]. eapply rtc_l; [by exists j|done]. Qed.

Lemma seen_keeps st :
  pcs (seen st) i = pcs st.1 i /\ answered (seen st) i = answered st.1 i
  /\ read_ok (seen st) i = read_ok st.1 i /\ write_ok (seen st) i = write_ok st.1 i.
Proof. apply others_keep, others_step. Qed.

Lemma seen_pcs st : pcs (seen st) i = pcs st.1 i.
Proof. apply seen_keeps. Qed.

Lemma seen_run st : rtc (step proc) st.1 (seen st).
Proof. apply others_run, others_step. Qed.

Lemma own_step w w' : step_of proc i w w' -> rtc (step proc) w w'.
Proof. intros Hs. apply rtc_once. by exists i. Qed.

(** ** Accesses are steps *)
Lemma read_row_step n t w w' ok :
  pcs w i = Reading t -> read_row n t w = (w', ok) ->
  step_of proc i w w' /\ answered w' i = answered w i
  /\ if ok : bool then w' = set_pc w i (Deciding t (row w).1 (row w).2) else pcs w' i = Reading t.
Proof.
  intros Hi. unfold read_row. destruct (read_at n) as [b|].
  - intros [= <- <-]. split; [by eapply step_read_fails|done].
  - destruct (read_ok w i) eqn:E; intros [= <- <-].
    + split; [by apply step_read|done].
    + pose proof (step_read_fails proc i w t true Hi) as Hs. by rewrite E in Hs.
Qed.

(** What a write that counts as a success has done. *)
Definition written (w : ledger) (t : Transaction) (c : Customer) : Prop :=
  ((exists old, committed w = (i, t) :: old) /\ (row w).1 = c)
  \/ unstored w i = Some t /\ write_ok w i = false.

Lemma write_row_step n t c v w w' ok :
  pcs w i = Writing t c v -> write_row n t c v w = (w', ok) ->
  step_of proc i w w' /\ answered w' i = answered w i
  /\ if ok : bool then pcs w' i = Finishing t TR_SUCCESS /\ written w' t c
     else pcs w' i = Reading t.
Proof.
  intros Hi. unfold write_row.
  assert (Hstored : forall b, write_ok w i = true -> (row w).2 = v ->
    let w' := set_pc (set_write_ok (commit w i t c (v + 1)) i b) i (Finishing t TR_SUCCESS) in
    step_of proc i w w' /\ answered w' i = answered w i
    /\ pcs w' i = Finishing t TR_SUCCESS /\ written w' t c).
  { intros b Hok Hv. split; [by apply step_commit|]. split; [done|].
    split; [apply fn_lookup_insert|]. left. split; [by eexists|done]. }
  assert (Herr : write_ok w i = true ->
    let w' := set_pc (claim (set_write_ok w i false) i t) i (Finishing t TR_SUCCESS) in
    step_of proc i w w' /\ answered w' i = answered w i
    /\ pcs w' i = Finishing t TR_SUCCESS /\ written w' t c).
  { intros Hok. split; [by eapply step_write_error|]. split; [done|].
    split; [apply fn_lookup_insert|]. right. split; apply fn_lookup_insert. }
  assert (Hun : forall b,
    let w' := set_pc (set_write_ok w i (write_ok w i && b)) i (Reading t) in
    step_of proc i w w' /\ answered w' i = answered w i /\ pcs w' i = Reading t).
  { intros b. split; [by eapply step_send_fails|]. split; [done|apply fn_lookup_insert]. }
  destruct (write_ok w i) eqn:Hok; [|intros [= <- <-]; apply (Hun true)].
  destruct (write_at n) as [| | |b].
  - destruct (Z.eqb_spec (row w).2 v) as [Hv|Hv]; intros [= <- <-]; [by apply Hstored|].
    split; [by eapply step_lost|]. split; [done|apply fn_lookup_insert].
  - destruct (Z.eqb_spec (row w).2 v) as [Hv|Hv]; intros [= <- <-]; [by apply Hstored|by apply Herr].
  - intros [= <- <-]. by apply Herr.
  - intros [= <- <-]. apply (Hun b).
Qed.

(** ** A call that returns *)
(** Thread [i] has nothing left to do but to give the answer [r]. *)
Definition about_to_answer (w : ledger) (t : Transaction) (r : TransactionResult) : Prop :=
  exists w', rtc (step_of proc i) w w' /\ answered w' i = (t, r) :: answered w i
    /\ pcs w' i = Idle /\ owner w' (proc i) = None
    /\ row w' = row w /\ committed w' = committed w /\ unstored w' = unstored w.

Lemma finishing_answers w t r : pcs w i = Finishing t r -> about_to_answer w t r.
Proof.
  intros Hi. eexists. split; [by apply rtc_once, (step_unlock proc i w t r)|].
  simpl. by rewrite !fn_lookup_insert.
Qed.

Lemma refused_answers w t c v :
  pcs w i = Deciding t c v -> try_transaction c t = Ok None -> about_to_answer w t TR_LIMIT_EXCEEDED.
Proof.
  intros Hi Ht. pose proof (step_refuse proc i w t c v Hi Ht) as Hs.
  destruct (finishing_answers (set_pc w i (Finishing t TR_LIMIT_EXCEEDED)) t TR_LIMIT_EXCEEDED)
    as (w' & Hr & Hrest); [apply fn_lookup_insert|].
  exists w'. split; [by eapply rtc_l|exact Hrest].
Qed.

(** From [w] the ledger has run to [w'], where thread [i] is about to answer [t] with [r] and
    has the customer [cust]. *)
Definition runs_to (l : Z) (w w' : ledger) (t : Transaction) (r : TransactionResult)
    (cust : option Customer) : Prop :=
  rtc (step proc) w w' /\ answered w' i = answered w i /\ about_to_answer w' t r
  /\ match r with
     | TR_SUCCESS => exists c, cust = Some c /\ written w' t c
     | TR_LIMIT_EXCEEDED => cust = Some (row w').1 /\ spec_transaction l (history w') t = None
     | TR_NOT_FOUND => False
     end.

Lemma runs_to_later l w w1 w' t r cust :
  rtc (step proc) w w1 -> answered w1 i = answered w i -> runs_to l w1 w' t r cust ->
  runs_to l w w' t r cust.
Proof. intros Hr Ha (H1 & H2 & H3). split; [by etrans|]. split; [congruence|done]. Qed.

Lemma loop_runs l v0 fuel id t cust locks st st' locks' r c' :
  ledger_inv proc l v0 st.1 -> pcs st.1 i = Reading t ->
  transaction_loop fuel id t cust locks st = Ok (st', locks', r, c') -> runs_to l st.1 st'.1 t r c'.
Proof.
  revert cust st. induction fuel as [|f IH]; intros cust st Hinv Hi; [done|].
  cbn [transaction_loop read_customer ledger_store].
  destruct (seen_keeps st) as (Hs & Ha & _). rewrite Hs, Hi. intros Hl.
  apply (runs_to_later l _ (seen st)); [apply seen_run|done|].
  pose proof (run_inv proc l v0 _ _ Hinv (seen_run st)) as Hinv1. rewrite Hi in Hs.
  set (w := seen st) in *. clearbody w.
  destruct (read_row st.2 t w) as [w1 ok] eqn:Er.
  destruct (read_row_step _ _ _ _ _ Hs Er) as (Hstep & Ha1 & Hcase).
  pose proof (step_of_inv proc l v0 i w w1 Hinv1 Hstep) as Hinv2.
  apply (runs_to_later l _ w1); [by apply own_step|done|]. clear Er Ha1 Hstep.
  destruct ok; cbn [mbind outcome_bind negb of_option] in Hl; [|exact (IH _ (w1, S st.2) Hinv2 Hcase Hl)].
  assert (H1 : pcs w1 i = Deciding t (row w).1 (row w).2) by (rewrite Hcase; apply fn_lookup_insert).
  apply bind_Ok_inv in Hl as ([c|] & Htry & Hl).
  - cbn [mbind outcome_bind of_option write_customer ledger_store fst snd] in Hl. rewrite H1 in Hl.
    pose proof (step_compute proc i w1 t _ _ c H1 Htry) as Hcomp.
    pose proof (step_of_inv proc l v0 i _ _ Hinv2 Hcomp) as Hinv3.
    set (st2 := (set_pc w1 i (Writing t c (row w).2), S st.2)) in *.
    destruct (seen_keeps st2) as (Hs2 & Ha2 & _). cbn [fst st2 set_pc pcs] in Hs2.
    rewrite fn_lookup_insert in Hs2.
    pose proof (run_inv proc l v0 _ _ Hinv3 (seen_run st2)) as Hinv4.
    apply (runs_to_later l _ st2.1); [by apply own_step|done|].
    apply (runs_to_later l _ (seen st2)); [apply (seen_run st2)|done|].
    destruct (write_row (S st.2) t c (row w).2 (seen st2)) as [w4 ok] eqn:Ew.
    destruct (write_row_step _ _ _ _ _ _ _ Hs2 Ew) as (Hstep & Ha4 & Hcase4).
    pose proof (step_of_inv proc l v0 i _ _ Hinv4 Hstep) as Hinv5.
    apply (runs_to_later l _ w4); [by apply own_step|done|].
    destruct ok; cbn [mbind outcome_bind negb] in Hl; [|exact (IH _ (w4, _) Hinv5 Hcase4 Hl)].
    destruct Hcase4 as [Hp Hw]. apply bind_Ok_inv in Hl as (lk & _ & [= <- _ <- <-]).
    split; [done|]. split; [done|]. split; [by apply finishing_answers|]. by exists c.
  - apply bind_Ok_inv in Hl as (lk & _ & [= <- _ <- <-]).
    split; [done|]. split; [done|]. split; [by eapply refused_answers|]. subst w1. split; [done|].
    eapply try_transaction_refused; [apply (li_row _ _ _ _ Hinv1)|exact Htry].
Qed.

Lemma reachable_later c0 v0 w w' :
  reachable proc c0 v0 w -> rtc (step proc) w w' -> reachable proc c0 v0 w'.
Proof. intros H1 H2. unfold reachable. by etrans. Qed.

(** ** Termination *)
(** From the access [quiet] on the others rest, reads succeed and writes are answered; until
    then no failure costs the thread a client it still needs. *)
Variable quiet : nat.
Hypothesis others_rest : forall n w, (quiet <= n)%nat -> others_at n w = w.
Hypothesis reads_succeed : forall n, (quiet <= n)%nat -> read_at n = None.
Hypothesis writes_replied : forall n, (quiet <= n)%nat -> write_at n = Replied.
Hypothesis failures_pass : forall n, read_at n <> Some false /\ write_at n <> NotSent false.
Variables (l v0 : Z).

(** The call returns, unless a sum overflows. *)
Definition returns {A} (m : outcome A) : Prop := (exists a, m = Ok a) \/ m = Fault SignedOverflow.

Lemma try_transaction_returns h c t : account l h c -> returns (try_transaction c t).
Proof.
  intros [_ _ _ Hr]. unfold returns, try_transaction.
  destruct (decide (is_int (balance c + value t))) as [Hb|Hb];
    [rewrite (int_op_in_range _ Hb)|rewrite (int_op_overflow _ Hb); by right].
  cbn [mbind outcome_bind].
  destruct (decide (is_int (- limit c))) as [Hl|Hl];
    [rewrite (int_op_in_range _ Hl)|rewrite (int_op_overflow _ Hl); by right].
  cbn [mbind outcome_bind]. left.
  case_match; [by eexists|]. pose proof (ring_bounds _ _ Hr) as [Hn _].
  rewrite array_set_Ok by (rewrite (ring_length _ _ Hr); unfold kRingSize; lia). by eexists.
Qed.

(** The clients of the thread after an access. *)
Definition clients_ok (w : ledger) : Prop := read_ok w i = true /\ write_ok w i = true.

Lemma read_row_clients n t w w' ok :
  clients_ok w -> read_row n t w = (w', ok) ->
  clients_ok w' /\ ((quiet <= n)%nat -> ok = true).
Proof.
  intros [H1 H2]. unfold read_row. destruct (failures_pass n) as [Hf _].
  pose proof (reads_succeed n) as Hq. destruct (read_at n) as [b|].
  - intros [= <- <-]. destruct b; [|done]. rewrite H1. split; [|by intros ?%Hq].
    split; [apply fn_lookup_insert|done].
  - rewrite H1. by intros [= <- <-].
Qed.

Lemma write_row_clients n t c v w w' :
  clients_ok w -> write_row n t c v w = (w', false) ->
  clients_ok w' /\ ((quiet <= n)%nat -> (row w).2 <> v).
Proof.
  intros [H1 H2]. unfold write_row. rewrite H2. destruct (failures_pass n) as [_ Hf].
  pose proof (writes_replied n) as Hq. destruct (write_at n) as [| | |b]; try done.
  - destruct (Z.eqb_spec (row w).2 v); [done|]. by intros [= <-].
  - by destruct (_ =? v).
  - destruct b; [|done]. intros [= <-]. split; [|by intros ?%Hq]. split; [done|apply fn_lookup_insert].
Qed.

Lemma loop_returns fuel id t cust locks locks1 st :
  ledger_inv proc l v0 st.1 -> pcs st.1 i = Reading t -> clients_ok st.1 ->
  Unlock locks id = Ok locks1 -> (quiet - st.2 < fuel)%nat ->
  returns (transaction_loop fuel id t cust locks st).
Proof.
  revert cust st. induction fuel as [|f IH]; intros cust st Hinv Hi Hok Hu Hf; [lia|].
  cbn [transaction_loop read_customer ledger_store].
  destruct (seen_keeps st) as (Hs & _ & Hr & Hw). rewrite Hs, Hi. rewrite Hi in Hs.
  pose proof (run_inv proc l v0 _ _ Hinv (seen_run st)) as Hinv1.
  assert (Hok1 : clients_ok (seen st)) by (by split; rewrite ?Hr, ?Hw; apply Hok).
  destruct (read_row st.2 t (seen st)) as [w1 ok] eqn:Er.
  destruct (read_row_step _ _ _ _ _ Hs Er) as (Hstep & _ & Hcase).
  destruct (read_row_clients _ _ _ _ _ Hok1 Er) as [Hok2 Hq].
  pose proof (step_of_inv proc l v0 i _ _ Hinv1 Hstep) as Hinv2.
  destruct ok; cbn [mbind outcome_bind negb of_option].
  2:{ apply IH; simpl; [done..|]. destruct (decide (quiet <= st.2)%nat) as [Hle|]; [by discriminate (Hq Hle)|lia]. }
  assert (H1 : pcs w1 i = Deciding t (row (seen st)).1 (row (seen st)).2)
    by (rewrite Hcase; apply fn_lookup_insert).
  destruct (try_transaction_returns _ _ t (li_row _ _ _ _ Hinv1)) as [[[c|] Htry]|Htry];
    rewrite Htry; cbn [mbind outcome_bind]; [|rewrite Hu; by left; eexists|by right].
  cbn [write_customer ledger_store fst snd of_option mbind outcome_bind]. rewrite H1.
  set (st2 := (set_pc w1 i (Writing t c (row (seen st)).2), S st.2)).
  destruct (seen_keeps st2) as (Hs2 & _ & Hr2 & Hw2).
  cbn [fst st2 set_pc pcs] in Hs2. rewrite fn_lookup_insert in Hs2.
  assert (Hinv4 : ledger_inv proc l v0 (seen st2)).
  { eapply run_inv; [|apply (seen_run st2)]. eapply step_of_inv; [exact Hinv2|].
    by eapply step_compute. }
  assert (Hok3 : clients_ok (seen st2)) by (by split; rewrite ?Hr2, ?Hw2; apply Hok2).
  destruct (write_row (S st.2) t c (row (seen st)).2 (seen st2)) as [w4 ok] eqn:Ew.
  destruct (write_row_step _ _ _ _ _ _ _ Hs2 Ew) as (Hstep4 & _ & Hcase4).
  destruct ok; cbn [mbind outcome_bind negb]; [rewrite Hu; by left; eexists|].
  destruct (write_row_clients _ _ _ _ _ _ Hok3 Ew) as [Hok4 Hq4].
  apply IH; simpl; [by eapply step_of_inv|done|done|done|].
  destruct (decide (quiet <= S st.2)%nat) as [Hle|]; [|lia]. destruct (Hq4 Hle).
  unfold st2, seen. cbn [fst snd]. rewrite others_rest by done. by subst w1.
Qed.
End Code.

(** ** Properties *)

(** C3: What [MariaDbExecuteTransaction] does while other threads interfere is a transaction of
    the ledger.  Run by thread [i] on the row of a reachable ledger, with any steps of the
    other threads before each of its reads and writes and any failures of them, a call that
    returns has run the ledger, from where the thread had locked the mutex, to the state it
    returns, in which the thread has nothing left to do but to answer with the result returned
    and to release the mutex.  [SUCCESS] means that the transaction is the last one committed and
    the customer returned is the row, or that the reply to the write was an error, which has cost
    the thread its client; [LIMIT_EXCEEDED] that the account, as it is, refuses the transaction.
    If from the access [quiet] on the others rest and the server answers, and no failure before
    cost the thread a client, enough fuel makes the call return, unless a sum overflows. *)
Theorem execute_runs_ledger proc i others_at read_at write_at l c0 v0 fuel id t cust locks w n :
  account l [] c0 -> reachable proc c0 v0 w -> pcs w i = Idle -> owner w (proc i) = None ->
  1 <= id <= 5 -> locks !! Z.to_nat (id - 1) = Some false ->
  (forall n w, rtc (others proc i) w (others_at n w)) ->
  let call := @MariaDbExecuteTransaction _ (ledger_store i others_at read_at write_at) fuel id t cust
                locks (locked proc i w t, n) in
  (forall st' locks' r c', call = Ok (st', locks', r, c') ->
     locks' = locks /\ reachable proc c0 v0 st'.1 /\ runs_to proc i l (locked proc i w t) st'.1 t r c')
  /\ forall quiet,
       (forall n w, (quiet <= n)%nat -> others_at n w = w) ->
       (forall n, (quiet <= n)%nat -> read_at n = None) ->
       (forall n, (quiet <= n)%nat -> write_at n = Replied) ->
       (forall n, read_at n <> Some false /\ write_at n <> NotSent false) ->
       clients_ok i w -> (quiet - n < fuel)%nat -> returns call.
Proof.
  intros Ha Hr Hi Ho Hid Hl Hs call. unfold call, MariaDbExecuteTransaction.
  destruct (Z.ltb_spec 5 id), (Z.ltb_spec id 1); try lia. cbn [orb].
  pose proof (Lock_free locks (id - 1) ltac:(lia) Hl) as Hlk. rewrite Hlk.
  pose proof (Lock_Unlock _ _ _ Hlk) as Hul. cbn [mbind outcome_bind].
  assert (Hrl : reachable proc c0 v0 (locked proc i w t)).
  { eapply reachable_later; [exact Hr|]. apply rtc_once. exists i. by apply step_lock. }
  assert (Hpc : pcs (locked proc i w t) i = Reading t) by apply fn_lookup_insert.
  pose proof (reachable_inv proc l v0 c0 _ Ha Hrl) as Hinv. split.
  - intros st' locks' r c' He. split; [by eapply transaction_loop_locks|].
    pose proof (loop_runs proc i others_at read_at write_at Hs l v0 fuel _ t cust _
                  (locked proc i w t, n) st' locks' r c' Hinv Hpc He) as Hrun.
    split; [|exact Hrun]. eapply reachable_later; [exact Hrl|apply Hrun].
  - intros quiet Hq1 Hq2 Hq3 Hq4 Hok Hfuel.
    by eapply (loop_returns proc i others_at read_at write_at Hs quiet Hq1 Hq2 Hq3 Hq4 l v0).
Qed.

(** ** A lost race *)
(** Thread 1, of another process, locks, reads and commits a debit of its own. *)
Definition rival (w : ledger) : ledger :=
  match pcs w 1%nat, owner w 1%nat, read_ok w 1%nat, write_ok w 1%nat, try_transaction (row w).1 sample_debit with
  | Idle, None, true, true, Ok (Some c') =>
      let w1 := locked sample_proc 1%nat w sample_debit in
      let w2 := set_pc w1 1%nat (Deciding sample_debit (row w).1 (row w).2) in
      let w3 := set_pc w2 1%nat (Writing sample_debit c' (row w).2) in
      set_pc (set_write_ok (commit w3 1%nat sample_debit c' ((row w).2 + 1)) 1%nat true) 1%nat
        (Finishing sample_debit TR_SUCCESS)
  | _, _, _, _, _ => w
  end.

Lemma rival_steps w : rtc (others sample_proc 0%nat) w (rival w).
Proof.
  unfold rival. destruct (pcs w 1%nat) eqn:Hp; try done. destruct (owner w 1%nat) eqn:Ho; [done|].
  destruct (read_ok w 1%nat) eqn:Hr; [|done]. destruct (write_ok w 1%nat) eqn:Hw; [|done].
  destruct (try_transaction (row w).1 sample_debit) as [[c'|]|] eqn:Ht; try done.
  eapply rtc_l; [exists 1%nat; split; [done|by apply (step_lock sample_proc 1%nat w sample_debit)]|].
  eapply rtc_l; [exists 1%nat; split; [done|by apply step_read; [apply fn_lookup_insert|]]|].
  eapply rtc_l; [exists 1%nat; split; [done|by eapply step_compute; [apply fn_lookup_insert|]]|].
  apply rtc_once. exists 1%nat. split; [done|]. by apply step_commit; [apply fn_lookup_insert|..].
Qed.

(** The rival commits before the first write, and one read fails. *)
Definition rival_at (n : nat) (w : ledger) : ledger := if decide (n = 2%nat) then rival w else w.
Definition first_fails (n : nat) : option bool := if (n =? 0)%nat then Some true else None.

Lemma execute_runs_ledger_witness :
  exists w', reachable sample_proc (initial_customer 1000) 1 w'
    /\ about_to_answer sample_proc 0%nat w' sample_debit TR_LIMIT_EXCEEDED
    /\ spec_transaction 1000 (history w') sample_debit = None /\ history w' = [sample_debit].
Proof.
  destruct (execute_runs_ledger sample_proc 0%nat rival_at first_fails (fun _ => Replied) 1000
              (initial_customer 1000) 1 5%nat 1 sample_debit None (replicate 5 false)
              (start (initial_customer 1000) 1) 0%nat) as [Hrun Hret].
  - exact sample_account_1000.
  - apply rtc_refl.
  - reflexivity.
  - reflexivity.
  - lia.
  - reflexivity.
  - intros n w. unfold rival_at. case_decide; [apply rival_steps|apply rtc_refl].
  - destruct (Hret 3%nat) as [[[[[st' locks'] r] c'] He]|He].
    + intros n w Hn. unfold rival_at. by rewrite decide_False by lia.
    + intros n Hn. unfold first_fails. by rewrite (proj2 (Nat.eqb_neq n 0)) by lia.
    + reflexivity.
    + intros n. unfold first_fails. by destruct (n =? 0)%nat.
    + by split.
    + lia.
    + destruct (Hrun _ _ _ _ He) as (_ & Hr & _ & _ & Hans & Hcase). exists st'.1. split; [exact Hr|].
      vm_compute in He. injection He as <- _ <- _. split; [exact Hans|]. split; [apply Hcase|reflexivity].
    + vm_compute in He. discriminate He.
Defined.
