(* ===== verification/Handler.v ===== *)
(** * Handler: the time and the handling of a request
    ([rinha/time.cc], [rinha/request_handler.cc])

    The clock and the formatting of times belong to Abseil and are the class
    [Clock]; times and durations are nanoseconds. *)
From S2P Require Import Prelude Text Structs Account FromHttp ToJson MariaDatabase.
#[local] Open Scope Z_scope.

(** ** Time *)
Class Clock (W : Type) := {
  Now : W -> W * Z;
  (** [absl::FormatTime("%E4Y-%m-%d %H:%M", t, absl::LocalTimeZone())]. *)
  FormatTime : Z -> list Z
}.

(** The thread-local cache. *)
Record time_cache := mkTime { time_str : list Z; last_update : Z }.

Definition time_cache_new (now : Z) : time_cache :=
  mkTime (bytes "a" ++ replicate 19 0) now.

Definition kCalculateInterval : Z := 30 * 1000000000.

(** [strncpy(dst, src, n)] with a C string [src]: padded with NULs, not terminated
    when [src] fills [dst]. *)
Definition strncpy (src : list Z) (n : nat) : list Z := take n (src ++ replicate n 0).

Section Time.
Context {W : Type} `{Clock W}.

Definition GetTime (tc : time_cache) (w : W) : outcome (W * time_cache) :=
  let '(w, now) := Now w in
  first ← array_get (time_str tc) 0;
  if (kCalculateInterval <? now - last_update tc) || (first =? 97) then
    let '(w, now) := Now w in
    src ← c_str (FormatTime now ++ [NUL]);
    Ok (w, mkTime (strncpy src 20) now)
  else Ok (w, tc).
End Time.

(** [std::strcpy(dst, src)]. *)
Definition strcpy (dst src : list Z) : outcome (list Z) :=
  s ← c_str src;
  if (length dst <? S (length s))%nat then Fault OutOfBounds else Ok (splice dst 0 (s ++ [NUL])).

Definition with_timestamp (t : Transaction) (ts : list Z) : Transaction :=
  mkTransaction (value t) (description t) ts.

(** ** [HandleRequest] *)

(** The state a worker thread shares with its callers: the store, the mutexes of the
    process, the clock and the cached time. *)
Record service (St W : Type) := mkService {
  sv_store : St;
  sv_locks : list bool;
  sv_world : W;
  sv_time : time_cache
}.
Arguments mkService {_ _} _ _ _ _.
Arguments sv_store {_ _} _.
Arguments sv_locks {_ _} _.
Arguments sv_world {_ _} _.
Arguments sv_time {_ _} _.

Section Handler.
Context {St W : Type} `{CustomerStore St, Clock W, Abseil}.

Definition HandleRequest (fuel : nat) (request : Request) (response_body : list Z)
    (customer : option Customer) (s : service St W)
    : outcome (service St W * Result * list Z * option Customer) :=
  '(w, tc) ← GetTime (sv_time s) (sv_world s);
  let current_time := time_str tc in
  match req_type request with
  | BALANCE =>
      '(st, success, local) ← MariaDbGetCustomer (req_id request) None (sv_store s);
      let s := mkService st (sv_locks s) w tc in
      if negb success then Ok (s, NOT_FOUND, response_body, customer)
      else
        c ← of_option Uninitialized local;
        date ← c_str current_time;
        body ← CustomerToJson c date;
        Ok (s, SUCCESS, body, customer)
  | TRANSACTION =>
      ts ← strcpy (timestamp (transaction request)) current_time;
      '(st, locks, result, customer) ←
        MariaDbExecuteTransaction fuel (req_id request)
          (with_timestamp (transaction request) ts) customer (sv_locks s) (sv_store s);
      let s := mkService st locks w tc in
      match result with
      | TR_NOT_FOUND => Ok (s, NOT_FOUND, response_body, customer)
      | TR_LIMIT_EXCEEDED => Ok (s, INVALID_REQUEST, response_body, customer)
      | TR_SUCCESS => Ok (s, SUCCESS, response_body, customer)
      end
  end.
End Handler.

(** ** The cached time *)

(** A time text that fits the buffer. *)
Definition time_text (s : list Z) : Prop := (length s < 20)%nat /\ (NUL ∉ s).

Section TimeFacts.
Context {W : Type} `{Clock W}.

(** The cache is unset or holds the text of its time. *)
Definition time_ok (tc : time_cache) : Prop :=
  length (time_str tc) = 20%nat
  /\ (time_str tc !! 0%nat = Some 97 \/ time_str tc = strncpy (FormatTime (last_update tc)) 20).

(** The time of a request that starts in the world [w] with the cache [tc]: the clock now (it is
    asked twice then), or a time in the cache that is at most half a minute old. *)
Definition present (tc : time_cache) (w : W) (time : Z) : Prop :=
  time = (Now (Now w).1).2 \/ time = last_update tc /\ (Now w).2 - time <= kCalculateInterval.

Lemma strncpy_length s n : length (strncpy s n) = n.
Proof. unfold strncpy. rewrite length_take, length_app, length_replicate. lia. Qed.

Lemma strncpy_text s : time_text s -> strncpy s 20 = s ++ NUL :: replicate (19 - length s) 0.
Proof.
  intros [Hl _]. unfold strncpy. rewrite take_app_ge by lia. f_equal.
  rewrite take_replicate. replace (_ `min` _)%nat with (S (19 - length s)) by lia. done.
Qed.

Lemma strncpy_c_str s : time_text s -> c_str (strncpy s 20) = Ok s.
Proof. intros Hs. rewrite strncpy_text by done. apply c_str_app, Hs. Qed.

Lemma GetTime_ok tc (w : W) :
  (forall t, time_text (FormatTime t)) -> time_ok tc ->
  exists w' tc', GetTime tc w = Ok (w', tc') /\ time_ok tc'
    /\ time_str tc' = strncpy (FormatTime (last_update tc')) 20
    /\ ((w' = (Now w).1 /\ tc' = tc /\ (Now w).2 - last_update tc <= kCalculateInterval)
        \/ (w' = (Now (Now w).1).1 /\ last_update tc' = (Now (Now w).1).2)).
Proof.
  intros Hf [Hl Hok]. unfold GetTime. destruct (Now w) as [w1 now] eqn:E1.
  destruct (lookup_lt_is_Some_2 (time_str tc) 0 ltac:(lia)) as [first Hfst].
  rewrite (array_get_nat _ 0%nat _ Hfst : array_get (time_str tc) 0 = Ok first).
  cbn [mbind outcome_bind fst snd].
  destruct (_ || _) eqn:E.
  - destruct (Now w1) as [w2 now2]. rewrite c_str_app by apply Hf. cbn [mbind outcome_bind].
    eexists w2, _. split; [done|]. split; [|split; [done|by right]].
    split; [apply strncpy_length|by right].
  - rewrite orb_false_iff, Z.ltb_ge, Z.eqb_neq in E. destruct E as [Hold Hna].
    exists w1, tc. split; [done|]. split; [done|]. split; [|left; by split_and!].
    destruct Hok as [Ha|Hok]; [|done]. rewrite Hfst in Ha. by injection Ha.
Qed.
End TimeFacts.

Lemma strcpy_time dst s :
  length dst = kTimestampSize -> time_text s ->
  strcpy dst (strncpy s 20) = Ok (s ++ NUL :: drop (S (length s)) dst).
Proof.
  intros Hd Hs. unfold strcpy. rewrite strncpy_c_str by done. cbn [mbind outcome_bind].
  destruct Hs as [Hl _]. unfold kTimestampSize in Hd.
  destruct (Nat.ltb_spec (length dst) (S (length s))); [lia|]. f_equal. unfold splice. simpl.
  rewrite <- app_assoc, length_app. simpl. do 3 f_equal. lia.
Qed.

(** ** Properties *)
Section HandlerTheorems.
Context {W : Type} `{Clock W}.

(** The time shown is fresh and its buffer terminated. If every formatted time
    is shorter than 20 bytes, [GetTime] always leaves in the buffer the text of a
    time which is either the present one or at most 30 seconds old. *)
Theorem GetTime_fresh tc (w : W) :
  (forall t, time_text (FormatTime t)) -> time_ok tc ->
  exists w' tc', GetTime tc w = Ok (w', tc') /\ time_ok tc'
    /\ c_str (time_str tc') = Ok (FormatTime (last_update tc'))
    /\ ((Now w).2 - last_update tc' <= kCalculateInterval
        \/ last_update tc' = (Now (Now w).1).2).
Proof.
  intros Hf Hok. destruct (GetTime_ok tc w Hf Hok) as (w' & tc' & Hg & Hok' & Hs & Hor).
  exists w', tc'. split; [done|]. split; [done|]. split; [by rewrite Hs, strncpy_c_str|].
  destruct Hor as [(_ & -> & Hle)|(_ & He)]; [by left|by right].
Qed.

Context {St : Type} `{StoreLaws St, Abseil}.

(** A transaction as it is stored: with the present time. *)
Definition stamped (t : Transaction) (time : list Z) : Transaction :=
  with_timestamp t (time ++ NUL :: drop (S (length time)) (timestamp t)).

Lemma handle_transaction f id t body cust (s : service St W) l h c v w tc :
  GetTime (sv_time s) (sv_world s) = Ok (w, tc) -> time_str tc = strncpy (FormatTime (last_update tc)) 20 ->
  time_text (FormatTime (last_update tc)) -> length (timestamp t) = kTimestampSize ->
  1 <= id <= 5 ->
  prepared id (stamped t (FormatTime (last_update tc))) (sv_locks s) (sv_store s) l h c v ->
  match spec_transaction l h (stamped t (FormatTime (last_update tc))) with
  | None => exists s', HandleRequest (S f) (mkRequest TRANSACTION id t) body cust s
                       = Ok (s', INVALID_REQUEST, body, Some c)
              /\ cell (sv_store s') = cell (sv_store s) /\ good (sv_store s')
              /\ sv_locks s' = sv_locks s /\ sv_world s' = w /\ sv_time s' = tc
  | Some h' => exists s' c', HandleRequest (S f) (mkRequest TRANSACTION id t) body cust s
                             = Ok (s', SUCCESS, body, Some c')
              /\ account l h' c'
              /\ cell (sv_store s') = <[id - 1 := (c', v + 1)]> (cell (sv_store s))
              /\ good (sv_store s') /\ sv_locks s' = sv_locks s /\ sv_world s' = w
              /\ sv_time s' = tc /\ fits (id - 1) c' (v + 1)
  end.
Proof.
  intros Ht Hts Hf Hl Hid Hp. unfold HandleRequest. rewrite Ht. cbn [mbind outcome_bind req_type].
  rewrite Hts. cbn [transaction req_id]. rewrite strcpy_time by done. cbn [mbind outcome_bind].
  fold (stamped t (FormatTime (last_update tc))).
  pose proof (execute_on_account f id (stamped t (FormatTime (last_update tc))) cust (sv_locks s)
                (sv_store s) l h c v Hid Hp) as He.
  destruct (spec_transaction l h _) as [h'|].
  - destruct He as (st' & c' & -> & Ha & Hc & Hg & Hft). cbn [mbind outcome_bind]. eauto 12.
  - destruct He as (st' & -> & Hc & Hg). cbn [mbind outcome_bind]. eauto 12.
Qed.

Lemma handle_balance f id t body cust (s : service St W) c v json w tc :
  GetTime (sv_time s) (sv_world s) = Ok (w, tc) -> time_str tc = strncpy (FormatTime (last_update tc)) 20 ->
  time_text (FormatTime (last_update tc)) -> 1 <= id <= 5 ->
  good (sv_store s) -> cell (sv_store s) !! (id - 1) = Some (c, v) -> fits (id - 1) c v ->
  CustomerToJson c (FormatTime (last_update tc)) = Ok json ->
  exists s', HandleRequest f (mkRequest BALANCE id t) body cust s = Ok (s', SUCCESS, json, cust)
    /\ cell (sv_store s') = cell (sv_store s) /\ sv_world s' = w.
Proof.
  intros Ht Hts Hf Hid Hg Hc Hfit Hj. unfold HandleRequest. rewrite Ht.
  cbn [mbind outcome_bind req_type req_id].
  destruct (get_customer_stored id None (sv_store s) c v Hid Hg Hc Hfit) as (st' & -> & Hcell & _).
  cbn [mbind outcome_bind negb of_option]. rewrite Hts, strncpy_c_str by done.
  cbn [mbind outcome_bind]. rewrite Hj. cbn [mbind outcome_bind]. eauto.
Qed.

Lemma handle_not_found f ty id t body cust (s : service St W) w tc :
  GetTime (sv_time s) (sv_world s) = Ok (w, tc) -> time_str tc = strncpy (FormatTime (last_update tc)) 20 ->
  time_text (FormatTime (last_update tc)) -> length (timestamp t) = kTimestampSize ->
  ~ 1 <= id <= 5 ->
  HandleRequest f (mkRequest ty id t) body cust s
  = Ok (mkService (sv_store s) (sv_locks s) w tc, NOT_FOUND, body, cust).
Proof.
  intros Ht Hts Hf Hl Hid. unfold HandleRequest. rewrite Ht. cbn [mbind outcome_bind req_type req_id].
  destruct ty.
  - cbn [transaction]. rewrite Hts, strcpy_time by done. cbn [mbind outcome_bind].
    by rewrite execute_not_found.
  - unfold MariaDbGetCustomer. destruct (Z.ltb_spec 5 id), (Z.ltb_spec id 1); done || lia.
Qed.
End HandlerTheorems.

(** ** The hypotheses at a concrete clock *)
Definition fixed_clock : Clock Z :=
  {| Now := fun w => (w + 20000000000, w + 20000000000); FormatTime := fun _ => bytes "2024-02-27 21:36" |}.

Lemma GetTime_fresh_witness :
  exists w' tc', @GetTime Z fixed_clock (time_cache_new 0) 5 = Ok (w', tc')
    /\ @time_ok Z fixed_clock tc'
    /\ c_str (time_str tc') = Ok (bytes "2024-02-27 21:36")
    /\ (5 + 20000000000 - last_update tc' <= kCalculateInterval
        \/ last_update tc' = 5 + 20000000000 + 20000000000).
Proof.
  apply (@GetTime_fresh Z fixed_clock).
  - intros t. split; by_decide.
  - split; [reflexivity|by left].
Defined.
