(* ===== verification/Processor.v ===== *)
(** * Processor: from the bytes of a request to the bytes of the response
    ([rinha/request_processor.cc])

    The prebuilt response of a transaction is a thread-local array of 140 bytes whose
    two number fields are rewritten in place.  Writing to a socket is the class [Conn]. *)
From S2P Require Import Prelude Text Structs Account FromHttp ToJson MariaDatabase Handler.
#[local] Open Scope Z_scope.

(** ** Literals *)
Definition kOkHeader : list Z :=
  bytesn "HTTP/1.1 200 OK|Content-Type: application/json|Content-Length: ".
Definition kBadRequestHeader : list Z :=
  bytesn "HTTP/1.1 422 Unprocessable Entity|Content-Length: 0||".
Definition kNotFoundHeader : list Z := bytesn "HTTP/1.1 404 NOT FOUND|Content-Length: 0||".

Definition kBufferSize : nat := 140.

Definition transaction_result_buffer : list Z :=
  let text := bytesn "HTTP/1.1 200 OK|Content-Type: "
                ++ bytesn "application/json|Content-Length: 62||"
                ++ bytesq "{'limite':                    , 'saldo':                     }" in
  text ++ replicate (kBufferSize - length text) 0.

Definition kLimiteBeginIdx : Z := 31 + 40 + 11 - 1.
Definition kLimiteEndIdx : Z := 31 + 40 + 30 - 1.
Definition kSaldoBeginIdx : Z := 31 + 40 + 41 - 1.
Definition kSaldoEndIdx : Z := 31 + 40 + 61 - 1.

(** ** Numbers in place *)

(** [while (number > 0)]; an [int] has at most ten digits. *)
Fixpoint write_digits (fuel : nat) (number : Z) (str : list Z) (i : Z) : outcome (list Z * Z) :=
  if number <=? 0 then Ok (str, i)
  else match fuel with
  | O => Fault OutOfFuel
  | S f =>
      str ← array_set str i (Z.rem number 10 + chr0);
      write_digits f (Z.quot number 10) str (i - 1)
  end.

Definition digits_fuel : nat := 10.

Definition WriteNumberToString (number : Z) (str : list Z) (end_idx : Z) : outcome (list Z) :=
  if number =? 0 then array_set str end_idx chr0
  else
    let is_negative := number <? 0 in
    number ← (if is_negative then int_op (- number) else Ok number);
    '(str, i) ← write_digits digits_fuel number str end_idx;
    if is_negative then array_set str i MINUS else Ok str.

(** [memset(buffer + from, c, n)]. *)
Definition memset (buffer : list Z) (from c n : Z) : outcome (list Z) :=
  if (from <? 0) || (Z.of_nat (length buffer) <? from + n) then Fault OutOfBounds
  else Ok (splice buffer (Z.to_nat from) (replicate (Z.to_nat n) c)).

Definition BuildTransactionResponse (prebuilt_buffer : list Z) (customer : Customer)
    : outcome (list Z) :=
  b ← memset prebuilt_buffer kLimiteBeginIdx SPACE (kLimiteEndIdx - kLimiteBeginIdx + 1);
  b ← memset b kSaldoBeginIdx SPACE (kSaldoEndIdx - kSaldoBeginIdx + 1);
  b ← WriteNumberToString (limit customer) b kLimiteEndIdx;
  WriteNumberToString (balance customer) b kSaldoEndIdx.

(** ** Writing *)

(** The result of [write] or [read]: a count, or -1 with [errno]. *)
Inductive io_result := IoCount (n : Z) | IoErr (errno : Z).

Definition EAGAIN : Z := 11.

Class Conn (W : Type) := {
  sys_write : Z -> list Z -> W -> W * io_result;
  conn_close : Z -> W -> W;
  sys_write_bound : forall fd s w n, (sys_write fd s w).2 = IoCount n -> 0 <= n <= Z.of_nat (length s)
}.

Section Write.
Context {W : Type} `{Conn W}.

(** [while (write_count < http_response_length)]: the world and whether to close. *)
Fixpoint write_loop (fuel : nat) (client_fd : Z) (response : list Z) (write_count : Z) (w : W)
    : outcome (W * bool) :=
  if Z.of_nat (length response) <=? write_count then Ok (w, false)
  else match fuel with
  | O => Fault OutOfFuel
  | S f =>
      let '(w, r) := sys_write client_fd (drop (Z.to_nat write_count) response) w in
      match r with
      | IoErr errno => Ok (w, negb (errno =? EAGAIN))
      | IoCount count =>
          if count =? 0 then Ok (w, true)
          else write_loop f client_fd response (write_count + count) w
      end
  end.

(** Every turn writes at least one byte. *)
Definition write_response (client_fd : Z) (response : list Z) (w : W) : outcome W :=
  '(w, close_connection) ← write_loop (length response) client_fd response 0 w;
  Ok (if close_connection : bool then conn_close client_fd w else w).
End Write.

(** ** [ProcessRequest] *)

(** The thread-local state of a worker. *)
Record worker (St W : Type) := mkWorker {
  wk_service : service St W;
  wk_buffer : list Z;
  wk_body : list Z
}.
Arguments mkWorker {_ _} _ _ _.
Arguments wk_service {_ _} _.
Arguments wk_buffer {_ _} _.
Arguments wk_body {_ _} _.

Definition with_world {St W} (s : service St W) (w : W) : service St W :=
  mkService (sv_store s) (sv_locks s) w (sv_time s).

Section Process.
Context {St W : Type} `{CustomerStore St, Clock W, Conn W, Abseil}.

(** [request] is the uninitialized local; the connection buffer comes back. *)
Definition ProcessRequest (fuel : nat) (request : Request) (buffer : list Z)
    (num_read client_fd : Z) (k : worker St W) : outcome (worker St W * list Z) :=
  buffer ← array_set buffer num_read NUL;
  '(success, request) ← FromHttp buffer request;
  '(s, result, body, customer) ←
    (if negb success then Ok (wk_service k, INVALID_REQUEST, wk_body k, None)
     else HandleRequest fuel request (wk_body k) None (wk_service k));
  '(tmpl, http_response) ←
    match result with
    | SUCCESS =>
        match req_type request with
        | TRANSACTION =>
            c ← of_option Uninitialized customer;
            tmpl ← BuildTransactionResponse (wk_buffer k) c;
            Ok (tmpl, tmpl)
        | BALANCE =>
            Ok (wk_buffer k,
                StrCat [ANstr kOkHeader; ANint (Z.of_nat (length body)); ANstr (bytesn "||");
                        ANstr body])
        end
    | INVALID_REQUEST => Ok (wk_buffer k, kBadRequestHeader)
    | NOT_FOUND => Ok (wk_buffer k, kNotFoundHeader)
    end;
  w ← write_response client_fd http_response (sv_world s);
  Ok (mkWorker (with_world s w) tmpl body, buffer).
End Process.

(** ** Facts: numbers *)

Lemma splice_app {A} (l : list A) i s t :
  (i + length s + length t <= length l)%nat ->
  splice (splice l (i + length s) t) i s = splice l i (s ++ t).
Proof.
  intros Hl. unfold splice.
  rewrite take_app_le by (rewrite length_take; lia).
  rewrite take_take, Nat.min_l by lia. rewrite drop_app_ge by (rewrite length_take; lia).
  rewrite length_take, Nat.min_l by lia.
  replace (i + length s - (i + length s))%nat with 0%nat by lia.
  rewrite drop_0, length_app, <- !app_assoc. do 4 f_equal. lia.
Qed.

Lemma insert_splice {A} (l : list A) i x : (i < length l)%nat -> <[i := x]> l = splice l i [x].
Proof.
  intros Hl. unfold splice. rewrite insert_take_drop by done. simpl. do 2 f_equal. f_equal. lia.
Qed.

Lemma write_digits_spec f n str (i : nat) :
  0 < n < 10 ^ Z.of_nat f -> (i < length str)%nat -> (length (dec_nat n) <= S i)%nat ->
  write_digits f n str (Z.of_nat i)
  = Ok (splice str (S i - length (dec_nat n)) (dec_nat n), Z.of_nat i - Z.of_nat (length (dec_nat n))).
Proof.
  revert n str i. induction f as [|f IH]; intros n str i Hn Hi Hd; [simpl in Hn; lia|].
  cbn [write_digits]. destruct (Z.leb_spec n 0); [lia|].
  rewrite array_set_Ok, Nat2Z.id by lia. cbn [mbind outcome_bind].
  rewrite Z.rem_mod_nonneg, Z.quot_div_nonneg by lia.
  rewrite (dec_nat_step n) in * by lia. rewrite length_app in *. cbn [length] in *.
  rewrite (Z.add_comm (n mod 10)). set (d := chr0 + n mod 10).
  destruct (Z.ltb_spec n 10).
  - replace (n / 10) with 0 by (symmetry; apply Z.div_small; lia). destruct f; cbn [write_digits Z.leb Z.compare];
      cbn [length app]; rewrite insert_splice by lia; do 2 f_equal; try lia; f_equal; lia.
  - rewrite Nat2Z.inj_succ, Z.pow_succ_r in Hn by lia.
    assert (Hq : 0 < n / 10 < 10 ^ Z.of_nat f).
    { split; [apply Z.div_str_pos; lia|apply Z.div_lt_upper_bound; lia]. }
    assert (Hpos : (0 < length (dec_nat (n / 10)))%nat).
    { pose proof (dec_nat_nonempty (n / 10)). destruct (dec_nat (n / 10)); [done|simpl; lia]. }
    replace (Z.of_nat i - 1) with (Z.of_nat (i - 1)) by lia.
    rewrite IH by (rewrite ?length_insert; lia). do 2 f_equal; [|lia].
    rewrite insert_splice by lia.
    replace (S (i - 1) - length (dec_nat (n / 10)))%nat with (S i - (length (dec_nat (n / 10)) + 1))%nat by lia.
    set (j := (S i - (length (dec_nat (n / 10)) + 1))%nat).
    replace i with (j + length (dec_nat (n / 10)))%nat by (unfold j; lia).
    apply splice_app. unfold j. simpl. lia.
Qed.

Lemma dec_nat_int_length n : 0 <= n <= INT_MAX -> (length (dec_nat n) <= 10)%nat.
Proof.
  intros Hn. apply dec_nat_length; [lia|]. change (10 ^ Z.of_nat 10) with 10000000000.
  unfold INT_MAX in Hn. lia.
Qed.

Lemma dec_int_length n : is_int n -> (length (dec_int n) <= 11)%nat.
Proof.
  unfold is_int, dec_int. intros Hn. destruct (Z.ltb_spec n 0).
  - cbn [length]. assert (length (dec_nat (- n)) <= 10)%nat; [|lia].
    apply dec_nat_length; [lia|]. change (10 ^ Z.of_nat 10) with 10000000000.
    unfold INT_MIN in Hn. lia.
  - pose proof (dec_nat_int_length n ltac:(lia)). lia.
Qed.

Lemma WriteNumberToString_spec n str (e : nat) :
  is_int n -> n <> INT_MIN -> (e < length str)%nat -> (11 <= S e)%nat ->
  WriteNumberToString n str (Z.of_nat e)
  = Ok (splice str (S e - length (dec_int n)) (dec_int n)).
Proof.
  intros Hn Hmin He Hlen. unfold WriteNumberToString.
  destruct (Z.eqb_spec n 0) as [->|Hz].
  { rewrite array_set_Ok, Nat2Z.id by lia. change (dec_int 0) with [chr0]. cbn [length].
    rewrite insert_splice by done. do 2 f_equal. lia. }
  unfold dec_int. destruct (Z.ltb_spec n 0).
  - assert (Hi : is_int (- n)) by (unfold is_int, INT_MAX, INT_MIN in *; lia).
    rewrite int_op_in_range by done. cbn [mbind outcome_bind].
    pose proof (dec_nat_int_length (- n) ltac:(unfold is_int in Hi; lia)) as Hl.
    unfold is_int, INT_MAX in Hi.
    rewrite write_digits_spec by (change (10 ^ Z.of_nat digits_fuel) with 10000000000; lia).
    cbn [mbind outcome_bind length].
    set (d := dec_nat (- n)) in *.
    replace (Z.of_nat e - Z.of_nat (length d)) with (Z.of_nat (e - length d)) by lia.
    rewrite array_set_Ok by (rewrite length_splice; lia). rewrite Nat2Z.id, insert_splice
      by (rewrite length_splice; lia).
    replace (S e - length d)%nat with (e - length d + length [MINUS])%nat by (simpl; lia).
    rewrite splice_app by (simpl; lia). done.
  - unfold is_int, INT_MAX in Hn. cbn [mbind outcome_bind].
    pose proof (dec_nat_int_length n ltac:(unfold INT_MAX; lia)).
    rewrite write_digits_spec by (change (10 ^ Z.of_nat digits_fuel) with 10000000000; lia). done.
Qed.

(** ** Facts: the prebuilt response *)
Definition kTemplateHead : list Z :=
  kOkHeader ++ bytesn "62||" ++ bytesq "{'limite':".
Definition kTemplateMid : list Z := bytesq ", 'saldo':".
Definition kTemplateTail : list Z := bytesq "}" ++ replicate 7 0.

(** The buffer with given contents of its two fields. *)
Definition template (limite saldo : list Z) : list Z :=
  kTemplateHead ++ limite ++ kTemplateMid ++ saldo ++ kTemplateTail.

(** A number at the right end of a field of spaces. *)
Definition right_aligned (n : nat) (s : list Z) : list Z := replicate (n - length s) SPACE ++ s.

Lemma right_aligned_length n s : (length s <= n)%nat -> length (right_aligned n s) = n.
Proof. intros Hl. unfold right_aligned. rewrite length_app, length_replicate. lia. Qed.

Lemma splice_right {A} (a x b s : list A) :
  (length s <= length x)%nat ->
  splice (a ++ x ++ b) (length a + (length x - length s)) s
  = a ++ (take (length x - length s) x ++ s) ++ b.
Proof.
  intros Hl. unfold splice. rewrite take_app_ge by lia.
  replace (length a + (length x - length s) - length a)%nat with (length x - length s)%nat by lia.
  rewrite take_app_le by lia. rewrite drop_app_ge by lia.
  rewrite drop_app_ge by lia. rewrite <- !app_assoc. do 3 f_equal.
  replace (_ - _ - _)%nat with 0%nat by lia. apply drop_0.
Qed.

Lemma splice_whole {A} (a x b s : list A) :
  length s = length x -> splice (a ++ x ++ b) (length a) s = a ++ s ++ b.
Proof.
  intros Hl. pose proof (splice_right a x b s ltac:(lia)) as H.
  rewrite Hl, Nat.sub_diag, Nat.add_0_r in H. exact H.
Qed.

(** A number written over a field of spaces. *)
Lemma write_field a n b x :
  is_int x -> x <> INT_MIN -> (11 <= n)%nat ->
  WriteNumberToString x (a ++ replicate n SPACE ++ b) (Z.of_nat (length a + n - 1))
  = Ok (a ++ right_aligned n (dec_int x) ++ b).
Proof.
  intros Hx Hm Hn. pose proof (dec_int_length x Hx).
  rewrite WriteNumberToString_spec by (rewrite ?length_app, ?length_replicate; done || lia).
  replace (S (length a + n - 1) - length (dec_int x))%nat
    with (length a + (length (replicate n SPACE) - length (dec_int x)))%nat
    by (rewrite length_replicate; lia).
  rewrite splice_right by (rewrite length_replicate; lia).
  unfold right_aligned. rewrite length_replicate, take_replicate.
  by rewrite Nat.min_l by lia.
Qed.

Lemma memset_field a x b c n :
  length x = n -> memset (a ++ x ++ b) (Z.of_nat (length a)) c (Z.of_nat n)
                  = Ok (a ++ replicate n c ++ b).
Proof.
  intros Hn. unfold memset. rewrite !length_app.
  destruct (Z.ltb_spec (Z.of_nat (length a)) 0),
    (Z.ltb_spec (Z.of_nat (length a + (length x + length b))) (Z.of_nat (length a) + Z.of_nat n));
    try lia. cbn [orb]. rewrite !Nat2Z.id.
  by rewrite splice_whole by (by rewrite length_replicate).
Qed.

Lemma template_assoc x y :
  template x y = (kTemplateHead ++ x ++ kTemplateMid) ++ y ++ kTemplateTail.
Proof. unfold template. by rewrite <- !app_assoc. Qed.

Lemma build_template x y c :
  length x = 20%nat -> length y = 21%nat ->
  is_int (limit c) -> limit c <> INT_MIN -> is_int (balance c) -> balance c <> INT_MIN ->
  BuildTransactionResponse (template x y) c
  = Ok (template (right_aligned 20 (dec_int (limit c))) (right_aligned 21 (dec_int (balance c)))).
Proof.
  intros Hx Hy Hl Hl' Hb Hb'. unfold BuildTransactionResponse.
  assert (H1 : memset (template x y) kLimiteBeginIdx SPACE (kLimiteEndIdx - kLimiteBeginIdx + 1)
               = Ok (template (replicate 20 SPACE) y))
    by exact (memset_field kTemplateHead x (kTemplateMid ++ y ++ kTemplateTail) SPACE 20 Hx).
  rewrite H1. cbn [mbind outcome_bind]. rewrite (template_assoc _ y).
  assert (H2 : memset ((kTemplateHead ++ replicate 20 SPACE ++ kTemplateMid) ++ y ++ kTemplateTail)
                 kSaldoBeginIdx SPACE (kSaldoEndIdx - kSaldoBeginIdx + 1)
               = Ok ((kTemplateHead ++ replicate 20 SPACE ++ kTemplateMid)
                       ++ replicate 21 SPACE ++ kTemplateTail))
    by exact (memset_field (kTemplateHead ++ replicate 20 SPACE ++ kTemplateMid) y kTemplateTail
                SPACE 21 Hy).
  rewrite H2. cbn [mbind outcome_bind]. rewrite <- template_assoc.
  assert (H3 : WriteNumberToString (limit c) (template (replicate 20 SPACE) (replicate 21 SPACE)) kLimiteEndIdx
               = Ok (template (right_aligned 20 (dec_int (limit c))) (replicate 21 SPACE)))
    by exact (write_field kTemplateHead 20 (kTemplateMid ++ replicate 21 SPACE ++ kTemplateTail)
                (limit c) Hl Hl' ltac:(lia)).
  rewrite H3. cbn [mbind outcome_bind]. rewrite !template_assoc.
  pose proof (dec_int_length (limit c) Hl).
  pose proof (write_field (kTemplateHead ++ right_aligned 20 (dec_int (limit c)) ++ kTemplateMid) 21
                kTemplateTail (balance c) Hb Hb' ltac:(lia)) as H4.
  rewrite !length_app, right_aligned_length in H4 by lia. exact H4.
Qed.

(** ** Facts: writing *)

(** What has been written to a descriptor, and peers that take whatever they are
    offered; the clock is unrelated. *)
Class ConnLaws (W : Type) `{Conn W} `{Clock W} := {
  sent : Z -> W -> list Z;
  willing : Z -> W -> Prop;
  write_sent : forall fd s w,
    sent fd (sys_write fd s w).1
    = sent fd w ++ match (sys_write fd s w).2 with IoCount n => take (Z.to_nat n) s | IoErr _ => [] end;
  write_willing : forall fd s w, willing fd w -> s <> [] ->
    exists n, (sys_write fd s w).2 = IoCount n /\ 0 < n /\ willing fd (sys_write fd s w).1;
  now_sent : forall fd w, sent fd (Now w).1 = sent fd w;
  now_willing : forall fd w, willing fd w -> willing fd (Now w).1
}.

Section WriteFacts.
Context {W : Type} `{ConnLaws W}.

Lemma write_loop_total fuel fd resp (k : nat) (w : W) :
  (k <= length resp)%nat -> (length resp <= k + fuel)%nat ->
  exists w' close n, write_loop fuel fd resp (Z.of_nat k) w = Ok (w', close)
    /\ (n <= length resp - k)%nat /\ sent fd w' = sent fd w ++ take n (drop k resp)
    /\ (willing fd w -> n = (length resp - k)%nat /\ close = false).
Proof.
  revert k w. induction fuel as [|f IH]; intros k w Hk Hf; cbn [write_loop];
    (destruct (Z.leb_spec (Z.of_nat (length resp)) (Z.of_nat k));
     [exists w, false, 0%nat; rewrite app_nil_r; split_and!; done || lia|]); [lia|].
  rewrite Nat2Z.id. pose proof (write_sent fd (drop k resp) w) as Hs.
  pose proof (sys_write_bound fd (drop k resp) w) as Hb.
  pose proof (write_willing fd (drop k resp) w) as Hw.
  assert (Hne : drop k resp <> []).
  { intros He%(f_equal length). rewrite length_drop in He. simpl in He. lia. }
  destruct (sys_write fd (drop k resp) w) as [w1 [n|e]]; cbn [fst snd] in *.
  - specialize (Hb n eq_refl). rewrite length_drop in Hb.
    destruct (Z.eqb_spec n 0) as [->|Hn].
    { exists w1, true, 0%nat. split; [done|]. split; [lia|]. rewrite app_nil_r in *. split; [done|].
      intros Hwl. destruct (Hw Hwl Hne) as (m & [= <-] & ? & _). lia. }
    replace (Z.of_nat k + n) with (Z.of_nat (k + Z.to_nat n)) by lia.
    destruct (IH (k + Z.to_nat n)%nat w1) as (w2 & cl & m & -> & Hm & Hs2 & Hwl); [lia..|].
    exists w2, cl, (Z.to_nat n + m)%nat. split; [done|]. split; [lia|]. split.
    + rewrite Hs2, Hs, <- app_assoc, <- drop_drop. f_equal. apply take_take_drop.
    + intros Hwi. destruct (Hw Hwi Hne) as (m' & [= <-] & _ & Hw1).
      destruct (Hwl Hw1) as [-> ->]. split; [lia|done].
  - exists w1, (negb (e =? EAGAIN)), 0%nat. split; [done|]. split; [lia|]. split; [done|].
    intros Hwl. by destruct (Hw Hwl Hne) as (m & ? & _).
Qed.
End WriteFacts.

Lemma write_response_sends {W} `{ConnLaws W} fd resp (w : W) :
  willing fd w ->
  exists w', write_response fd resp w = Ok w' /\ sent fd w' = sent fd w ++ resp.
Proof.
  intros Hw. unfold write_response.
  destruct (write_loop_total (length resp) fd resp 0 w) as (w' & cl & n & Hl & _ & Hs & Hfull); [lia..|].
  destruct (Hfull Hw) as [-> ->]. change (Z.of_nat 0) with 0 in Hl. rewrite Hl.
  cbn [mbind outcome_bind]. exists w'. split; [done|].
  by rewrite Hs, drop_0, Nat.sub_0_r, firstn_all.
Qed.

(** ** Properties *)

(** The response of a transaction is rebuilt completely. Whatever numbers the
    buffer held before, it becomes the fixed text with limit and balance right-aligned in
    their fields of 20 and 21 spaces.  The header announces 62 bytes, the body has
    62, and the 140 bytes that are sent go on with 7 NULs. *)
Theorem BuildTransactionResponse_template x y c :
  length x = 20%nat -> length y = 21%nat ->
  is_int (limit c) -> limit c <> INT_MIN -> is_int (balance c) -> balance c <> INT_MIN ->
  exists body,
    BuildTransactionResponse (template x y) c
    = Ok (kOkHeader ++ bytesn "62||" ++ body ++ replicate 7 0)
    /\ body = bytesq "{'limite':" ++ right_aligned 20 (dec_int (limit c)) ++ bytesq ", 'saldo':"
                ++ right_aligned 21 (dec_int (balance c)) ++ bytesq "}"
    /\ length body = 62%nat /\ length (kOkHeader ++ bytesn "62||" ++ body ++ replicate 7 0) = kBufferSize.
Proof.
  intros Hx Hy Hl Hl' Hb Hb'. rewrite build_template by done. eexists. split; [|split; [reflexivity|]].
  - unfold template, kTemplateHead, kTemplateMid, kTemplateTail. by rewrite <- !app_assoc.
  - pose proof (dec_int_length _ Hl). pose proof (dec_int_length _ Hb).
    rewrite !length_app, !right_aligned_length by lia. split; reflexivity.
Qed.

(** C36: writing a response always ends. At most one [write] per byte is made, what
    has been sent is a prefix of the response, and all of it when the peer
    takes something at every call. *)
Theorem write_response_total {W} `{ConnLaws W} fd resp (w : W) :
  exists w' close n, write_loop (length resp) fd resp 0 w = Ok (w', close)
    /\ sent fd w' = sent fd w ++ take n resp
    /\ (willing fd w -> n = length resp /\ close = false).
Proof.
  destruct (write_loop_total (length resp) fd resp 0 w) as (w' & cl & n & Hl & _ & Hs & Hfull); [lia..|].
  exists w', cl, n. rewrite drop_0, Nat.sub_0_r in *. done.
Qed.

Section ProcessTheorems.
Context {St W : Type} `{StoreLaws St, ConnLaws W, Abseil}.

(** The clock calls of a request do not touch the connection. *)
Lemma GetTime_conn fd tc (w : W) :
  (forall t, time_text (FormatTime t)) -> time_ok tc ->
  exists w' tc', GetTime tc w = Ok (w', tc')
    /\ time_str tc' = strncpy (FormatTime (last_update tc')) 20
    /\ time_ok tc' /\ sent fd w' = sent fd w /\ (willing fd w -> willing fd w')
    /\ present tc w (last_update tc').
Proof.
  intros Hf Hok. destruct (GetTime_ok tc w Hf Hok) as (w' & tc' & Hg & Hok' & Hs & Hor).
  exists w', tc'. split; [done|]. split; [done|].
  split; [done|].
  destruct Hor as [(-> & -> & Hle)|(-> & Hl)]; rewrite !now_sent; (split; [done|]);
    (split; [intros; by repeat apply now_willing|]); [by right|by left].
Qed.

(** A transaction keeps the worker ready for the next request. *)
Lemma process_transaction f request request' buffer buffer' num_read fd
    (k : worker St W) id t l h c v x y :
  array_set buffer num_read NUL = Ok buffer' ->
  FromHttp buffer' request = Ok (true, request') -> request' = mkRequest TRANSACTION id t ->
  length (timestamp t) = kTimestampSize ->
  (forall x, time_text (FormatTime x)) -> time_ok (sv_time (wk_service k)) ->
  1 <= id <= 5 -> is_int l ->
  (forall x, prepared id (stamped t (FormatTime x)) (sv_locks (wk_service k))
               (sv_store (wk_service k)) l h c v) ->
  wk_buffer k = template x y -> length x = 20%nat -> length y = 21%nat ->
  willing fd (sv_world (wk_service k)) ->
  exists time k', ProcessRequest (S f) request buffer num_read fd k = Ok (k', buffer')
    /\ sv_locks (wk_service k') = sv_locks (wk_service k)
    /\ good (sv_store (wk_service k')) /\ time_ok (sv_time (wk_service k'))
    /\ present (sv_time (wk_service k)) (sv_world (wk_service k)) time
    /\ (exists x' y', wk_buffer k' = template x' y' /\ length x' = 20%nat /\ length y' = 21%nat)
    /\ match spec_transaction l h (stamped t (FormatTime time)) with
       | Some h' =>
           sent fd (sv_world (wk_service k'))
           = sent fd (sv_world (wk_service k))
               ++ template (right_aligned 20 (dec_int l)) (right_aligned 21 (dec_int (total h')))
           /\ exists c', account l h' c' /\ cell (sv_store (wk_service k'))
                           = <[id - 1 := (c', v + 1)]> (cell (sv_store (wk_service k)))
                         /\ fits (id - 1) c' (v + 1)
       | None =>
           sent fd (sv_world (wk_service k'))
           = sent fd (sv_world (wk_service k)) ++ kBadRequestHeader
           /\ cell (sv_store (wk_service k')) = cell (sv_store (wk_service k))
       end.
Proof.
  intros Hset Hparse -> Hts Hf Hok Hid Hl Hp Htm Hx Hy Hw. unfold ProcessRequest.
  rewrite Hset. cbn [mbind outcome_bind]. rewrite Hparse. cbn [mbind outcome_bind negb].
  destruct (GetTime_conn fd (sv_time (wk_service k)) (sv_world (wk_service k)) Hf Hok)
    as (w & tc & Hg & Hstr & Htok & Hsent & Hwill & Hpres).
  specialize (Hwill Hw). set (t' := stamped t (FormatTime (last_update tc))).
  pose proof (handle_transaction f id t (wk_body k) None (wk_service k) l h c v w tc Hg Hstr (Hf _)
                Hts Hid (Hp _)) as Hh. fold t' in Hh.
  pose proof (Hp (last_update tc)) as Hpt. fold t' in Hpt.
  exists (last_update tc). fold t'. destruct (spec_transaction l h t') as [h'|] eqn:Esp.
  - destruct Hh as (s' & c' & -> & Ha & Hc & Hgd & Hlk & Hsw & Htm' & Hft). cbn [mbind outcome_bind req_type of_option].
    apply spec_transaction_floor in Esp as [-> Hfl].
    pose proof (pr_sum _ _ _ _ _ _ _ _ Hpt) as Hsum.
    rewrite (account_balance _ _ _ (pr_account _ _ _ _ _ _ _ _ Hpt)) in Hsum.
    pose proof (account_balance _ _ _ Ha) as Hbal. rewrite total_cons in *.
    rewrite Htm, build_template; rewrite ?(account_limit _ _ _ Ha), ?Hbal;
      try done; try (unfold is_int, INT_MIN, INT_MAX in *; lia).
    cbn [mbind outcome_bind]. rewrite Hsw.
    match goal with |- context [write_response fd ?r w] =>
      destruct (write_response_sends fd r w Hwill) as (w2 & -> & Hs2) end.
    cbn [mbind outcome_bind]. eexists. split; [done|]. split; [done|]. split; [done|].
    split; [cbn; by rewrite Htm'|]. split; [done|]. split.
    { pose proof (dec_int_length l Hl). rewrite Z.add_comm in Hsum. pose proof (dec_int_length _ Hsum).
      eexists _, _. split; [done|]. split; apply right_aligned_length; lia. }
    split; [cbn [wk_service with_world sv_world]; by rewrite Hs2, Hsent|eauto].
  - destruct Hh as (s' & -> & Hc & Hgd & Hlk & Hsw & Htm'). cbn [mbind outcome_bind]. rewrite Hsw.
    destruct (write_response_sends fd kBadRequestHeader w Hwill) as (w2 & -> & Hs2).
    cbn [mbind outcome_bind]. eexists. split; [done|]. split; [done|]. split; [done|].
    split; [cbn; by rewrite Htm'|]. split; [done|]. split; [by exists x, y|].
    split; [cbn [wk_service with_world sv_world]; by rewrite Hs2, Hsent|done].
Qed.

(** C8: a transaction from its bytes to its answer. Let the bytes received parse to a transaction
    of a known customer whose stored row is an account, with its mutex free, a balance that fits
    an [int] with the amount added, a version and a limit that leave room in an [int] ([prepared]),
    and let the peer take the bytes it is offered.  Then the transaction gets the present time,
    the clock's or one at most half a minute old; the client is sent the limit and the new
    balance and the account is stored with the transaction, or, when the limit forbids it, the
    client is sent 422 and nothing is stored; the mutexes are free again. *)
Theorem ProcessRequest_transaction f request request' buffer buffer' num_read fd
    (k : worker St W) id t l h c v x y :
  array_set buffer num_read NUL = Ok buffer' ->
  FromHttp buffer' request = Ok (true, request') -> request' = mkRequest TRANSACTION id t ->
  length (timestamp t) = kTimestampSize ->
  (forall x, time_text (FormatTime x)) -> time_ok (sv_time (wk_service k)) ->
  1 <= id <= 5 -> is_int l ->
  (forall x, prepared id (stamped t (FormatTime x)) (sv_locks (wk_service k))
               (sv_store (wk_service k)) l h c v) ->
  wk_buffer k = template x y -> length x = 20%nat -> length y = 21%nat ->
  willing fd (sv_world (wk_service k)) ->
  exists time k', ProcessRequest (S f) request buffer num_read fd k = Ok (k', buffer')
    /\ sv_locks (wk_service k') = sv_locks (wk_service k)
    /\ present (sv_time (wk_service k)) (sv_world (wk_service k)) time
    /\ match spec_transaction l h (stamped t (FormatTime time)) with
       | Some h' =>
           sent fd (sv_world (wk_service k'))
           = sent fd (sv_world (wk_service k))
               ++ template (right_aligned 20 (dec_int l)) (right_aligned 21 (dec_int (total h')))
           /\ exists c', account l h' c' /\ cell (sv_store (wk_service k'))
                           = <[id - 1 := (c', v + 1)]> (cell (sv_store (wk_service k)))
       | None =>
           sent fd (sv_world (wk_service k'))
           = sent fd (sv_world (wk_service k)) ++ kBadRequestHeader
           /\ cell (sv_store (wk_service k')) = cell (sv_store (wk_service k))
       end.
Proof.
  intros. destruct (process_transaction f request request' buffer buffer' num_read fd k id t l h c v x y)
    as (time & k' & Hrun & Hlk & _ & _ & Hpres & _ & Hcase); try done.
  exists time, k'. split; [done|]. split; [done|]. split; [done|].
  destruct (spec_transaction _ _ _); [|done]. destruct Hcase as (? & c' & ? & ? & _). eauto.
Qed.

(** C20: a statement from its bytes to its answer: header with the exact length,
    then the JSON of the stored account, its last ten transactions newest first. *)
Theorem ProcessRequest_statement f request buffer buffer' num_read fd
    (k : worker St W) id t l h c v js :
  array_set buffer num_read NUL = Ok buffer' ->
  FromHttp buffer' request = Ok (true, mkRequest BALANCE id t) ->
  (forall x, time_text (FormatTime x)) -> time_ok (sv_time (wk_service k)) ->
  1 <= id <= 5 -> good (sv_store (wk_service k)) ->
  cell (sv_store (wk_service k)) !! (id - 1) = Some (c, v) -> fits (id - 1) c v ->
  account l h c -> shown (take 10 h) js -> willing fd (sv_world (wk_service k)) ->
  exists time k', ProcessRequest f request buffer num_read fd k = Ok (k', buffer')
    /\ cell (sv_store (wk_service k')) = cell (sv_store (wk_service k))
    /\ let body := statement l h js (FormatTime time) in
       sent fd (sv_world (wk_service k'))
       = sent fd (sv_world (wk_service k))
           ++ kOkHeader ++ dec_nat (Z.of_nat (length body)) ++ bytesn "||" ++ body.
Proof.
  intros Hset Hparse Hf Hok Hid Hg Hcell Hfit Ha Hjs Hw. unfold ProcessRequest.
  rewrite Hset. cbn [mbind outcome_bind]. rewrite Hparse. cbn [mbind outcome_bind negb].
  destruct (GetTime_conn fd (sv_time (wk_service k)) (sv_world (wk_service k)) Hf Hok)
    as (w & tc & Hgt & Hstr & _ & Hsent & Hwill & _).
  specialize (Hwill Hw). exists (last_update tc).
  destruct (handle_balance f id t (wk_body k) None (wk_service k) c v
              (statement l h js (FormatTime (last_update tc))) w tc)
    as (s' & -> & Hcs & Hsw); try done; [by apply CustomerToJson_account|].
  cbn [mbind outcome_bind req_type]. rewrite Hsw, StrCat_spec.
  cbn [fmap list_fmap piece_bytes]. rewrite !mjoin_cons, dec_int_nonneg by lia.
  match goal with |- context [write_response fd ?r w] =>
    destruct (write_response_sends fd r w Hwill) as (w2 & -> & Hs2) end.
  cbn [mbind outcome_bind]. eexists. split; [done|]. split; [done|].
  cbn [wk_service with_world sv_world]. cbn [mjoin list_join] in Hs2. rewrite app_nil_r in Hs2.
  by rewrite Hs2, Hsent.
Qed.

(** C21: refusals. Bytes that do not parse are answered with 422, an id outside
    1..5 with 404; neither changes the store. *)
Theorem ProcessRequest_refused f request request' buffer buffer' num_read fd (k : worker St W) ok :
  array_set buffer num_read NUL = Ok buffer' ->
  FromHttp buffer' request = Ok (ok, request') ->
  (ok = true -> ~ 1 <= req_id request' <= 5
                /\ length (timestamp (transaction request')) = kTimestampSize) ->
  (forall x, time_text (FormatTime x)) -> time_ok (sv_time (wk_service k)) ->
  willing fd (sv_world (wk_service k)) ->
  exists k', ProcessRequest f request buffer num_read fd k = Ok (k', buffer')
    /\ sv_store (wk_service k') = sv_store (wk_service k)
    /\ sent fd (sv_world (wk_service k'))
       = sent fd (sv_world (wk_service k)) ++ (if ok then kNotFoundHeader else kBadRequestHeader).
Proof.
  intros Hset Hparse Hreq Hf Hok Hw. unfold ProcessRequest.
  rewrite Hset. cbn [mbind outcome_bind]. rewrite Hparse. cbn [mbind outcome_bind].
  destruct ok; cbn [negb].
  - destruct (Hreq eq_refl) as [Hid Hl].
    destruct (GetTime_conn fd (sv_time (wk_service k)) (sv_world (wk_service k)) Hf Hok)
      as (w & tc & Hgt & Hstr & _ & Hsent & Hwill & _).
    destruct request' as [ty id t]. cbn [req_id transaction] in *.
    rewrite (handle_not_found f ty id t (wk_body k) None (wk_service k) w tc) by done.
    cbn [mbind outcome_bind sv_world].
    destruct (write_response_sends fd kNotFoundHeader w (Hwill Hw)) as (w2 & -> & Hs2).
    cbn [mbind outcome_bind]. eexists. split; [done|]. split; [done|]. cbn [wk_service with_world sv_world]. by rewrite Hs2, Hsent.
  - cbn [mbind outcome_bind].
    destruct (write_response_sends fd kBadRequestHeader (sv_world (wk_service k)) Hw) as (w2 & -> & Hs2).
    cbn [mbind outcome_bind]. eexists. split; [done|]. split; [done|]. cbn [wk_service with_world sv_world]. by rewrite Hs2.
Qed.
End ProcessTheorems.

(** ** The hypotheses at concrete inputs *)

(** A peer that takes fifty bytes at a time; the world is what it has received. *)
Definition wire_clock : Clock (list Z) :=
  {| Now := fun w => (w, 0); FormatTime := fun _ => bytes "2024-02-27 21:36" |}.

Definition wire_conn : Conn (list Z).
Proof.
  refine {|
    sys_write := fun _ s w => (w ++ take 50 s, IoCount (Z.of_nat (length (take 50 s))));
    conn_close := fun _ w => w
  |}.
  intros fd s w n [= <-]. rewrite length_take. lia.
Defined.

Definition wire_laws : @ConnLaws (list Z) wire_conn wire_clock.
Proof.
  refine (@Build_ConnLaws (list Z) wire_conn wire_clock (fun _ w => w) (fun _ _ => True) _ _ _ _);
    cbn; try done.
  - intros _ s w. rewrite Nat2Z.id. f_equal. by rewrite length_take, <- take_take, firstn_all.
  - intros _ s w _ Hs. eexists. split; [done|]. split; [|done].
    destruct s; [done|]. rewrite length_take. simpl. lia.
Defined.

Definition sample_spaces (n : nat) : list Z := replicate n SPACE.

Lemma prebuilt_is_template :
  transaction_result_buffer = template (sample_spaces 20) (sample_spaces 21).
Proof. vm_compute. reflexivity. Qed.

Definition sample_worker : worker (gmap Z (Customer * Z)) (list Z) :=
  mkWorker (mkService sample_table free_locks [] (time_cache_new 0)) transaction_result_buffer [].

Lemma sample_time_ok : @time_ok (list Z) wire_clock (time_cache_new 0).
Proof. split; [reflexivity|by left]. Qed.

Lemma sample_time_text : forall t, time_text (@FormatTime _ wire_clock t).
Proof. intros t. split; by_decide. Qed.

Lemma BuildTransactionResponse_template_witness :
  exists body,
    BuildTransactionResponse (template (sample_spaces 20) (sample_spaces 21)) sample_customer
    = Ok (kOkHeader ++ bytesn "62||" ++ body ++ replicate 7 0)
    /\ body = bytesq "{'limite':" ++ right_aligned 20 (dec_int 1000) ++ bytesq ", 'saldo':"
                ++ right_aligned 21 (dec_int 56) ++ bytesq "}"
    /\ length body = 62%nat /\ length (kOkHeader ++ bytesn "62||" ++ body ++ replicate 7 0) = kBufferSize.
Proof. apply (BuildTransactionResponse_template _ _ sample_customer); by_decide. Defined.

Definition sample_post : list Z :=
  post_request 49 sample_head (json_body (bytes "700") 100 (bytes "pix")).

Definition sample_post_request : Request :=
  mkRequest TRANSACTION 1 (mkTransaction (-700) (bytes "pix" ++ replicate 8 0) (replicate 20 0)).

Lemma sample_prepared_any t :
  is_int (value t) ->
  @prepared _ memory_store memory_laws 1 t free_locks sample_table 1000 [] (initial_customer 1000) 1.
Proof.
  intros Ht. split; first [exact I | exact Ht | reflexivity | by apply account_initial | by_decide | done].
Qed.

Lemma ProcessRequest_transaction_witness :
  exists time k',
    @ProcessRequest _ _ memory_store wire_clock wire_conn abseil_ref 1 blank_request
      (sample_post ++ replicate 20 7) (Z.of_nat (length sample_post)) 5 sample_worker
    = Ok (k', sample_post ++ NUL :: replicate 19 7)
    /\ sv_locks (wk_service k') = free_locks
    /\ @present _ wire_clock (time_cache_new 0) [] time
    /\ match spec_transaction 1000 []
               (stamped (transaction sample_post_request) (@FormatTime _ wire_clock time)) with
       | Some h' =>
           sv_world (wk_service k')
           = template (right_aligned 20 (dec_int 1000)) (right_aligned 21 (dec_int (total h')))
           /\ exists c', account 1000 h' c' /\ sv_store (wk_service k') = <[0 := (c', 2)]> sample_table
       | None => sv_world (wk_service k') = kBadRequestHeader
                 /\ sv_store (wk_service k') = sample_table
       end.
Proof.
  apply (@ProcessRequest_transaction _ _ memory_store memory_laws wire_conn wire_clock wire_laws abseil_ref
           0 blank_request sample_post_request (sample_post ++ replicate 20 7)
           (sample_post ++ NUL :: replicate 19 7) (Z.of_nat (length sample_post)) 5 sample_worker
           1 (transaction sample_post_request) 1000 [] (initial_customer 1000) 1
           (sample_spaces 20) (sample_spaces 21)).
  - vm_compute. reflexivity.
  - vm_compute. reflexivity.
  - reflexivity.
  - reflexivity.
  - apply sample_time_text.
  - apply sample_time_ok.
  - lia.
  - by_decide.
  - intros x. apply sample_prepared_any. by_decide.
  - apply prebuilt_is_template.
  - reflexivity.
  - reflexivity.
  - exact I.
Defined.

Definition sample_get : list Z := get_request 49 (bytes "/extrato HTTP/1.1").

Lemma ProcessRequest_statement_witness :
  exists time k',
    @ProcessRequest _ _ memory_store wire_clock wire_conn abseil_ref 0 blank_request
      (sample_get ++ replicate 20 7) (Z.of_nat (length sample_get)) 5 sample_worker
    = Ok (k', sample_get ++ NUL :: replicate 19 7)
    /\ sv_store (wk_service k') = sample_table
    /\ let body := statement 1000 [] [] (@FormatTime _ wire_clock time) in
       sv_world (wk_service k')
       = kOkHeader ++ dec_nat (Z.of_nat (length body)) ++ bytesn "||" ++ body.
Proof.
  apply (@ProcessRequest_statement _ _ memory_store memory_laws wire_conn wire_clock wire_laws abseil_ref
           0 blank_request (sample_get ++ replicate 20 7) (sample_get ++ NUL :: replicate 19 7)
           (Z.of_nat (length sample_get)) 5 sample_worker 1 blank_transaction 1000 []
           (initial_customer 1000) 1 []).
  - vm_compute. reflexivity.
  - vm_compute. reflexivity.
  - apply sample_time_text.
  - apply sample_time_ok.
  - lia.
  - exact I.
  - reflexivity.
  - exact I.
  - by apply account_initial.
  - constructor.
  - exact I.
Defined.

Definition sample_unknown : list Z := get_request 57 (bytes "/extrato HTTP/1.1").

Lemma ProcessRequest_refused_witness :
  exists k',
    @ProcessRequest _ _ memory_store wire_clock wire_conn abseil_ref 0 blank_request
      (sample_unknown ++ replicate 20 7) (Z.of_nat (length sample_unknown)) 5 sample_worker
    = Ok (k', sample_unknown ++ NUL :: replicate 19 7)
    /\ sv_store (wk_service k') = sample_table
    /\ sv_world (wk_service k') = kNotFoundHeader.
Proof.
  apply (@ProcessRequest_refused _ _ memory_store wire_conn wire_clock wire_laws abseil_ref
           0 blank_request (mkRequest BALANCE 9 blank_transaction) (sample_unknown ++ replicate 20 7)
           (sample_unknown ++ NUL :: replicate 19 7)
           (Z.of_nat (length sample_unknown)) 5 sample_worker true).
  - vm_compute. reflexivity.
  - vm_compute. reflexivity.
  - intros _. split; [simpl; lia|reflexivity].
  - apply sample_time_text.
  - apply sample_time_ok.
  - exact I.
Defined.

(** Three writes send 120 bytes. *)
Lemma write_response_total_witness :
  @write_loop _ wire_conn 3 5 (replicate 120 65) 0 [1] = Ok (1 :: replicate 120 65, false)
  /\ exists w' close n, @write_loop _ wire_conn 120 5 (replicate 120 65) 0 [1] = Ok (w', close)
       /\ w' = [1] ++ take n (replicate 120 65) /\ (True -> n = 120%nat /\ close = false).
Proof.
  split; [reflexivity|].
  exact (@write_response_total (list Z) wire_conn wire_clock wire_laws 5 (replicate 120 65) [1]).
Defined.
