(* ===== verification/EventIo.v ===== *)
(** * EventIo: the calls of the event loops, and the loop that drains a descriptor

    [rinha/io_thread_pool.cc] and [rinha/thread_pool_router.cc] react to edge-triggered
    epoll events: they accept until nothing is left and read until the descriptor would
    block.  The system calls are the class [EventIo]. *)
From S2P Require Import Prelude.
#[local] Open Scope Z_scope.

(** What [read] gives: bytes (none at the end of the file) or an [errno]. *)
Inductive read_result := ReadBytes (l : list Z) | ReadErr (errno : Z).

Inductive epoll_op := EPOLL_CTL_ADD | EPOLL_CTL_MOD.

(** Flags of an event. *)
Record epoll_flags := mkFlags { ev_in : bool; ev_err : bool; ev_hup : bool }.

Definition kEAGAIN : Z := 11.

Class EventIo (W : Type) := {
  io_read : Z -> nat -> W -> W * read_result;
  io_write : Z -> list Z -> W -> W;
  io_close : Z -> W -> W;
  (** The descriptor, or -1 with an [errno]. *)
  io_accept : Z -> W -> W * (Z * Z);
  io_getfl : Z -> W -> W * Z;
  io_setfl : Z -> Z -> W -> W * Z;
  (** Whether the registration asks for one event only. *)
  io_epoll_ctl : Z -> epoll_op -> Z -> bool -> W -> W * Z;
  io_socket : Z -> W -> W * Z;
  io_connect : Z -> list Z -> W -> W * Z;
  io_setsockopt : Z -> Z -> W -> W * Z;
  io_inet_pton : list Z -> W -> W * Z;
  io_bind : Z -> Z -> W -> W * Z;
  io_listen : Z -> W -> W * Z;
  io_epoll_create : W -> W * Z;
  io_read_bound : forall fd n w l, (io_read fd n w).2 = ReadBytes l -> (length l <= n)%nat
}.

(** How a drain ended. *)
Inductive drained := WouldBlock | EndOfFile | ReadFailed (errno : Z).

#[export] Instance drained_eq_dec : EqDecision drained.
Proof. solve_decision. Defined.

Section Drain.
Context {W : Type} `{EventIo W}.

(** The [while (true)] around [read(fd, buf + total, size - total)]: the buffer, the
    bytes read and the way it ended.  Every turn but the last reads at least
    one byte, so [size + 1] turns suffice. *)
Fixpoint read_loop (fuel : nat) (fd : Z) (size : nat) (buf : list Z) (total : nat) (w : W)
    : outcome (W * list Z * nat * drained) :=
  match fuel with
  | O => Fault OutOfFuel
  | S f =>
      let '(w, r) := io_read fd (size - total) w in
      match r with
      | ReadErr errno => Ok (w, buf, total, if errno =? kEAGAIN then WouldBlock else ReadFailed errno)
      | ReadBytes [] => Ok (w, buf, total, EndOfFile)
      | ReadBytes l => read_loop f fd size (splice buf total l) (total + length l) w
      end
  end.

Definition drain (fd : Z) (size : nat) (buf : list Z) (w : W)
    : outcome (W * list Z * nat * drained) := read_loop (S size) fd size buf 0 w.

(** 0, or -1. *)
Definition make_socket_non_blocking (fd : Z) (w : W) : W * Z :=
  let '(w, flags) := io_getfl fd w in
  if flags =? -1 then (w, -1)
  else
    let '(w, s) := io_setfl fd (Z.lor flags 2048) w in
    if s =? -1 then (w, -1) else (w, 0).

(** [SetNonBlocking]: a failure exits the process. *)
Definition SetNonBlocking (fd : Z) (w : W) : outcome W :=
  let '(w, s) := make_socket_non_blocking fd w in
  _ ← checked FatalAbort (negb (s =? -1)); Ok w.
End Drain.

(** ** Facts *)

Lemma splice_splice {A} (l s t : list A) i :
  (i + length s + length t <= length l)%nat ->
  splice (splice l i s) (i + length s) t = splice l i (s ++ t).
Proof.
  intros Hl. unfold splice.
  rewrite (app_assoc (take i l) s), take_app_length'
    by (rewrite length_app, length_take; lia).
  rewrite drop_app_ge by (rewrite length_app, length_take; lia).
  rewrite length_app, length_take, drop_drop, length_app, Nat.min_l by lia.
  rewrite <- !app_assoc. do 4 f_equal. lia.
Qed.

Section DrainFacts.
Context {W : Type} `{EventIo W}.

(** A run of reads: the chunks they return and the result that ends it. *)
Inductive reads (fd : Z) (size : nat) : nat -> list (list Z) -> W -> W -> drained -> Prop :=
| reads_eof total w w' :
    io_read fd (size - total) w = (w', ReadBytes []) -> reads fd size total [] w w' EndOfFile
| reads_err total w w' errno :
    io_read fd (size - total) w = (w', ReadErr errno) ->
    reads fd size total [] w w' (if errno =? kEAGAIN then WouldBlock else ReadFailed errno)
| reads_more total l ls w w1 w' d :
    l <> [] -> io_read fd (size - total) w = (w1, ReadBytes l) ->
    reads fd size (total + length l) ls w1 w' d -> reads fd size total (l :: ls) w w' d.

(** The loop always ends, inside the buffer, with the bytes that were read in order. *)
Lemma read_loop_total fuel fd size buf total (w : W) :
  (total <= size)%nat -> (size < total + fuel)%nat -> (size <= length buf)%nat ->
  exists w' ls d, read_loop fuel fd size buf total w
                  = Ok (w', splice buf total (mjoin ls), (total + length (mjoin ls))%nat, d)
    /\ reads fd size total ls w w' d /\ (total + length (mjoin ls) <= size)%nat.
Proof.
  revert buf total w. induction fuel as [|f IH]; intros buf total w Ht Hf Hb; [lia|].
  cbn [read_loop]. pose proof (io_read_bound fd (size - total) w) as Hbd.
  destruct (io_read fd (size - total) w) as [w1 [l|e]] eqn:E; cbn [snd] in Hbd.
  - destruct l as [|b l].
    { exists w1, [], EndOfFile. cbn. rewrite splice_nil, Nat.add_0_r.
      split; [done|]. split; [by constructor|done]. }
    specialize (Hbd _ eq_refl). set (bl := b :: l) in *.
    destruct (IH (splice buf total bl) (total + length bl)%nat w1)
      as (w2 & ls & d & -> & Hr & Hle).
    { lia. } { unfold bl in *. simpl in *. lia. } { rewrite length_splice; lia. }
    exists w2, (bl :: ls), d. rewrite mjoin_cons, length_app.
    split; [|split; [by eapply reads_more|lia]].
    rewrite splice_splice by lia. do 3 f_equal. lia.
  - exists w1, [], (if e =? kEAGAIN then WouldBlock else ReadFailed e). cbn.
    rewrite splice_nil, Nat.add_0_r. split; [done|]. split; [by constructor|done].
Qed.

Lemma drain_total fd size buf (w : W) :
  (size <= length buf)%nat ->
  exists w' ls d, drain fd size buf w = Ok (w', splice buf 0 (mjoin ls), length (mjoin ls), d)
    /\ reads fd size 0 ls w w' d /\ (length (mjoin ls) <= size)%nat.
Proof. intros Hb. by apply read_loop_total; [lia|lia|]. Qed.

(** [read] of zero bytes returns zero (POSIX). *)
Definition zero_reads : Prop := forall fd (w : W), (io_read fd 0 w).2 = ReadBytes [].

(** A full buffer ends the run as if the peer had closed. *)
Lemma reads_full fd size total ls (w w' : W) d :
  zero_reads -> reads fd size total ls w w' d -> (total + length (mjoin ls) = size)%nat ->
  d = EndOfFile.
Proof.
  intros Hz Hr. induction Hr as [total w w' _|total w w' e E|total l ls w w1 w' d Hl E Hr IH]; intros Hs.
  - done.
  - simpl in Hs. specialize (Hz fd w). replace (size - total)%nat with 0%nat in E by lia.
    by rewrite E in Hz.
  - apply IH. rewrite mjoin_cons, length_app in Hs. lia.
Qed.
End DrainFacts.

(** ** A scripted descriptor *)

(** Chunks to read and what has been written. *)
Definition loop_world := (list (list Z) * list Z)%type.

Definition loop_read (n : nat) (w : loop_world) : loop_world * read_result :=
  match n, w.1 with
  | O, _ => (w, ReadBytes [])
  | _, [] => (w, ReadErr kEAGAIN)
  | _, ch :: chs =>
      if (length ch <=? n)%nat then ((chs, w.2), ReadBytes ch)
      else ((drop n ch :: chs, w.2), ReadBytes (take n ch))
  end.

Definition loop_io : EventIo loop_world.
Proof.
  refine {|
    io_read := fun _ n w => loop_read n w;
    io_write := fun _ s w => (w.1, w.2 ++ s);
    io_close := fun _ w => w;
    io_accept := fun _ w => (w, (-1, kEAGAIN));
    io_getfl := fun _ w => (w, 0);
    io_setfl := fun _ _ w => (w, 0);
    io_epoll_ctl := fun _ _ _ _ w => (w, 0);
    io_socket := fun _ w => (w, 3);
    io_connect := fun _ _ w => (w, 0);
    io_setsockopt := fun _ _ w => (w, 0);
    io_inet_pton := fun _ w => (w, 1);
    io_bind := fun _ _ w => (w, 0);
    io_listen := fun _ w => (w, 0);
    io_epoll_create := fun w => (w, 4)
  |}.
  intros fd n w l. unfold loop_read. destruct n as [|n], (w.1) as [|ch chs]; cbn [snd];
    try (by intros [= <-]).
  destruct (Nat.leb_spec (length ch) (S n)); cbn [snd]; intros [= <-]; [done|].
  rewrite length_take. lia.
Defined.
