(* ===== verification/IoThreadPool.v ===== *)
(** * IoThreadPool: a worker of the event-driven server ([rinha/io_thread_pool.cc])

    The thread owns 3000 buffers, one per request in turn.  An event is an error, a new
    connection or data; data is read until the descriptor would block and then
    processed as one request. *)
From S2P Require Import Prelude Text Structs Account FromHttp ToJson MariaDatabase Handler Processor EventIo.
#[local] Open Scope Z_scope.

Definition kBufferWrittableSize : nat := 1024.
Definition kBufferTotalSize : nat := kBufferWrittableSize + 1.
Definition kMaxConnections : Z := 3000.

(** The thread-local state. *)
Record io_worker (St W : Type) := mkIo {
  io_work : worker St W;
  io_buffers : list (list Z);
  io_index : Z
}.
Arguments mkIo {_ _} _ _ _.
Arguments io_work {_ _} _.
Arguments io_buffers {_ _} _.
Arguments io_index {_ _} _.

Definition io_buffers_new : list (list Z) :=
  replicate (Z.to_nat kMaxConnections) (replicate kBufferTotalSize 0).

Section Accept.
Context {W : Type} `{EventIo W}.

(** One turn of the accept loop: whether there was a connection. *)
Definition accept_one (epoll_fd server_fd : Z) (w : W) : outcome (W * bool) :=
  let '(w, (infd, errno)) := io_accept server_fd w in
  if infd =? -1 then Ok (w, false)
  else
    w ← SetNonBlocking infd w;
    let '(w, success) := io_epoll_ctl epoll_fd EPOLL_CTL_ADD infd false w in
    if success =? -1 then Fault FatalAbort else Ok (w, true).

(** The accept loop; [backlog] bounds the connections that wait.  Anything but a new
    connection ends it. *)
Fixpoint accept_loop (backlog : nat) (epoll_fd server_fd : Z) (w : W) : outcome W :=
  match backlog with
  | O => Fault OutOfFuel
  | S n =>
      '(w, more) ← accept_one epoll_fd server_fd w;
      if more : bool then accept_loop n epoll_fd server_fd w else Ok w
  end.

End Accept.

Section Worker.
Context {St W : Type} `{CustomerStore St, Clock W, Conn W, EventIo W, Abseil}.

Definition world_of (k : io_worker St W) : W := sv_world (wk_service (io_work k)).

Definition set_io_world (k : io_worker St W) (w : W) : io_worker St W :=
  mkIo (mkWorker (with_world (wk_service (io_work k)) w) (wk_buffer (io_work k)) (wk_body (io_work k)))
    (io_buffers k) (io_index k).

(** The data branch.  [request] is the uninitialized local of [ProcessRequest]. *)
Definition on_data (fuel : nat) (request : Request) (fd : Z) (k : io_worker St W)
    : outcome (io_worker St W) :=
  buf ← array_get (io_buffers k) (io_index k);
  '(w, buf, total_count, d) ← drain fd kBufferWrittableSize buf (world_of k);
  let done := negb (bool_decide (d = WouldBlock)) in
  let k := set_io_world k w in
  buffers ← array_set (io_buffers k) (io_index k) buf;
  k ← (if (0 <? total_count)%nat then
         '(work, buf) ← ProcessRequest fuel request buf (Z.of_nat total_count) fd (io_work k);
         buffers ← array_set buffers (io_index k) buf;
         Ok (mkIo work buffers (wrap_u32 (io_index k + 1) mod kMaxConnections))
       else Ok (mkIo (io_work k) buffers (io_index k)));
  Ok (if done : bool then set_io_world k (io_close fd (world_of k)) else k).

(** One event of [epoll_wait]. *)
Definition on_event (fuel backlog : nat) (request : Request) (epoll_fd server_fd : Z)
    (ev : Z * epoll_flags) (k : io_worker St W) : outcome (io_worker St W) :=
  let '(fd, flags) := ev in
  if ev_err flags || ev_hup flags || negb (ev_in flags)
  then Ok (set_io_world k (io_close fd (world_of k)))
  else if server_fd =? fd
  then w ← accept_loop backlog epoll_fd server_fd (world_of k); Ok (set_io_world k w)
  else on_data fuel request fd k.

(** The events of one [epoll_wait], in order. *)
Fixpoint on_events (fuel backlog : nat) (request : Request) (epoll_fd server_fd : Z)
    (evs : list (Z * epoll_flags)) (k : io_worker St W) : outcome (io_worker St W) :=
  match evs with
  | [] => Ok k
  | ev :: evs' =>
      k ← on_event fuel backlog request epoll_fd server_fd ev k;
      on_events fuel backlog request epoll_fd server_fd evs' k
  end.

(** The variables of a thread when it gets to its loop. *)
Definition io_worker_new (work : worker St W) : io_worker St W := mkIo work io_buffers_new 0.

(** The loop of the thread, with what each [epoll_wait] reports. *)
Fixpoint io_thread (fuel backlog : nat) (request : Request) (epoll_fd server_fd : Z)
    (waits : list (list (Z * epoll_flags))) (k : io_worker St W) : outcome (io_worker St W) :=
  match waits with
  | [] => Ok k
  | evs :: waits' =>
      k ← on_events fuel backlog request epoll_fd server_fd evs k;
      io_thread fuel backlog request epoll_fd server_fd waits' k
  end.
End Worker.

(** ** The buffers *)

Record io_inv {St W} (k : io_worker St W) : Prop := {
  io_count : length (io_buffers k) = Z.to_nat kMaxConnections;
  io_sizes : Forall (fun b => length b = kBufferTotalSize) (io_buffers k);
  io_range : 0 <= io_index k < kMaxConnections
}.

Section WorkerFacts.
Context {St W : Type} `{CustomerStore St, Clock W, Conn W, EventIo W, Abseil}.

Lemma ProcessRequest_buffer f request buf n fd (work work' : worker St W) buf' :
  ProcessRequest f request buf n fd work = Ok (work', buf') ->
  array_set buf n NUL = Ok buf'.
Proof.
  unfold ProcessRequest. intros Hp.
  apply bind_Ok_inv in Hp as (b & Hb & Hp). apply bind_Ok_inv in Hp as ([ok rq] & _ & Hp).
  apply bind_Ok_inv in Hp as ([[[s r] body] cu] & _ & Hp).
  apply bind_Ok_inv in Hp as ([tm resp] & _ & Hp). apply bind_Ok_inv in Hp as (w & _ & Hp).
  injection Hp as _ <-. done.
Qed.

(** The bytes a descriptor delivers are handed to [ProcessRequest] once, in order, in
    the buffer whose turn it is. *)
Lemma on_data_spec f request fd (k : io_worker St W) buf :
  io_inv k -> io_buffers k !! Z.to_nat (io_index k) = Some buf ->
  exists w ls d, reads fd kBufferWrittableSize 0 ls (world_of k) w d
    /\ (length (mjoin ls) <= kBufferWrittableSize)%nat
    /\ let text := mjoin ls in
       let buf' := splice buf 0 text in
       let close k := if bool_decide (d = WouldBlock) then k
                      else set_io_world k (io_close fd (world_of k)) in
       on_data f request fd k
       = if bool_decide (text = []) then
           Ok (close (mkIo (io_work (set_io_world k w))
                        (<[Z.to_nat (io_index k) := buf']> (io_buffers k)) (io_index k)))
         else
           '(work, buf'') ← ProcessRequest f request buf' (Z.of_nat (length text)) fd
                              (io_work (set_io_world k w));
           Ok (close (mkIo work (<[Z.to_nat (io_index k) := buf'']> (io_buffers k))
                        ((io_index k + 1) mod kMaxConnections))).
Proof.
  intros [Hc Hs Hr] Hbuf. unfold kMaxConnections in *.
  pose proof (proj1 (Forall_forall _ _) Hs buf ltac:(by eapply list_elem_of_lookup_2)) as Hlen.
  destruct (drain_total fd kBufferWrittableSize buf (world_of k)) as (w & ls & d & Hd & Hrd & Hle).
  { rewrite Hlen. unfold kBufferTotalSize. lia. }
  exists w, ls, d. split; [done|]. split; [done|]. cbv zeta. unfold on_data.
  rewrite (proj2 (array_get_Ok _ _ buf)) by (split; [lia|done]). cbn [mbind outcome_bind].
  rewrite Hd. cbn [mbind outcome_bind io_buffers set_io_world io_index].
  rewrite array_set_Ok by lia. cbn [mbind outcome_bind].
  destruct (decide (mjoin ls = [])) as [He|He];
    [rewrite (bool_decide_eq_true_2 (mjoin ls = [])) by done
    |rewrite (bool_decide_eq_false_2 (mjoin ls = [])) by done].
  - rewrite He. cbn [length Nat.ltb Nat.leb mbind outcome_bind io_work].
    by destruct (bool_decide (d = WouldBlock)).
  - assert (Hpos : (0 < length (mjoin ls))%nat) by (destruct (mjoin ls); [done|simpl; lia]).
    destruct (Nat.ltb_spec 0 (length (mjoin ls))); [|lia].
    destruct (ProcessRequest _ _ _ _ _ _) as [[work buf'']|flt] eqn:Ep; cbn [mbind outcome_bind]; [|done].
    rewrite array_set_Ok by (rewrite length_insert; lia). cbn [mbind outcome_bind].
    rewrite list_insert_insert_eq.
    unfold wrap_u32. rewrite (Z.mod_small (io_index k + 1) (2 ^ 32)) by lia.
    by destruct (bool_decide (d = WouldBlock)).
Qed.

Lemma on_data_inv f request fd (k k' : io_worker St W) :
  io_inv k -> on_data f request fd k = Ok k' -> io_inv k'.
Proof.
  intros Hk Hd. pose proof Hk as [Hc Hs Hr].
  destruct (lookup_lt_is_Some_2 (io_buffers k) (Z.to_nat (io_index k))) as [buf Hbuf]; [lia|].
  destruct (on_data_spec f request fd k buf Hk Hbuf) as (w & ls & d & _ & Hle & Hspec).
  cbv zeta in Hspec. rewrite Hspec in Hd. clear Hspec.
  pose proof (proj1 (Forall_forall _ _) Hs buf ltac:(by eapply list_elem_of_lookup_2)) as Hlen.
  assert (Hspl : length (splice buf 0 (mjoin ls)) = kBufferTotalSize).
  { rewrite length_splice by (rewrite Hlen; unfold kBufferTotalSize; lia). done. }
  assert (Hgoal : forall work buf'' i, length buf'' = kBufferTotalSize -> 0 <= i < kMaxConnections ->
    io_inv (mkIo work (<[Z.to_nat (io_index k) := buf'']> (io_buffers k)) i : io_worker St W)).
  { intros work buf'' i Hb Hi. split; cbn; [by rewrite length_insert|by apply Forall_insert|done]. }
  assert (Hworld : forall (k0 : io_worker St W) w0, io_inv k0 -> io_inv (set_io_world k0 w0))
    by (by intros k0 w0 []).
  case_bool_decide.
  - injection Hd as <-. case_bool_decide; [by apply Hgoal|by apply Hworld, Hgoal].
  - apply bind_Ok_inv in Hd as ([work buf''] & Hp & Hd). apply ProcessRequest_buffer in Hp.
    apply array_set_inv in Hp as [_ ->]. injection Hd as <-.
    assert (0 <= (io_index k + 1) mod kMaxConnections < kMaxConnections)
      by (apply Z.mod_pos_bound; done).
    case_bool_decide; [|apply Hworld]; by apply Hgoal; rewrite ?length_insert.
Qed.
End WorkerFacts.

(** ** Properties *)
Section WorkerTheorems.
Context {St W : Type} `{CustomerStore St, Clock W, Conn W, EventIo W, Abseil}.

(** C22: the data of an event is one request. The bytes that the descriptor delivers
    until it would block, closes or fails, at most 1024, are put at the start of the
    buffer whose turn it is and processed exactly once, and the next request
    uses the next buffer; without bytes nothing is processed.  The connection stays
    open only if the descriptor would block: in particular a request of
    1024 bytes fills the buffer, [read] then returns 0, and the connection
    is closed as if the peer had left. *)
Theorem on_data_processes_once f request fd (k : io_worker St W) buf :
  io_inv k -> io_buffers k !! Z.to_nat (io_index k) = Some buf -> zero_reads (W := W) ->
  exists w ls d, reads fd kBufferWrittableSize 0 ls (world_of k) w d
    /\ (length (mjoin ls) <= kBufferWrittableSize)%nat
    /\ (length (mjoin ls) = kBufferWrittableSize -> d = EndOfFile)
    /\ let text := mjoin ls in
       let buf' := splice buf 0 text in
       let close k := if bool_decide (d = WouldBlock) then k
                      else set_io_world k (io_close fd (world_of k)) in
       on_data f request fd k
       = if bool_decide (text = []) then
           Ok (close (mkIo (io_work (set_io_world k w))
                        (<[Z.to_nat (io_index k) := buf']> (io_buffers k)) (io_index k)))
         else
           '(work, buf'') ← ProcessRequest f request buf' (Z.of_nat (length text)) fd
                              (io_work (set_io_world k w));
           Ok (close (mkIo work (<[Z.to_nat (io_index k) := buf'']> (io_buffers k))
                        ((io_index k + 1) mod kMaxConnections))).
Proof.
  intros Hk Hb Hz. destruct (on_data_spec f request fd k buf Hk Hb) as (w & ls & d & Hr & Hle & Hs).
  exists w, ls, d. split; [done|]. split; [done|]. split; [|done].
  intros Hfull. by eapply reads_full.
Qed.

(** The buffers are never left. Whatever events arrive, the thread keeps its 3000
    buffers of 1025 bytes and an index inside them. *)
Theorem on_events_invariant fuel backlog request epoll_fd server_fd evs (k k' : io_worker St W) :
  io_inv k -> on_events fuel backlog request epoll_fd server_fd evs k = Ok k' -> io_inv k'.
Proof.
  revert k. induction evs as [|[fd fl] evs IH]; intros k Hk; cbn [on_events]; [by intros [= <-]|].
  intros Hev. apply bind_Ok_inv in Hev as (k1 & Hone & Hev). apply (IH k1); [|done].
  unfold on_event in Hone. destruct (_ || _); [injection Hone as <-; by destruct Hk|].
  destruct (server_fd =? fd); [|by eapply on_data_inv].
  apply bind_Ok_inv in Hone as (w & _ & Hone). injection Hone as <-. by destruct Hk.
Qed.

Lemma io_worker_new_inv (work : worker St W) : io_inv (io_worker_new work).
Proof.
  split; cbn [io_worker_new io_buffers io_index]; unfold io_buffers_new.
  - apply length_replicate.
  - apply Forall_replicate. apply length_replicate.
  - done.
Qed.

(** The same for the whole life of a thread. *)
Lemma io_thread_invariant fuel backlog request epoll_fd server_fd waits (work : worker St W) k' :
  io_thread fuel backlog request epoll_fd server_fd waits (io_worker_new work) = Ok k' -> io_inv k'.
Proof.
  generalize (io_worker_new_inv work). generalize (io_worker_new work).
  induction waits as [|evs waits IH]; intros k Hk; cbn [io_thread]; [by intros [= <-]|].
  intros (k1 & Hev & Hrun)%bind_Ok_inv. apply (IH k1); [|done].
  by apply (on_events_invariant fuel backlog request epoll_fd server_fd evs k).
Qed.
End WorkerTheorems.

(** ** The hypotheses at a concrete worker *)

Definition loop_clock : Clock loop_world :=
  {| Now := fun w => (w, 0); FormatTime := fun _ => bytes "2024-02-27 21:36" |}.

Definition loop_conn : Conn loop_world.
Proof.
  refine {|
    sys_write := fun _ s w => ((w.1, w.2 ++ s), IoCount (Z.of_nat (length s)));
    conn_close := fun _ w => w
  |}.
  intros fd s w n [= <-]. lia.
Defined.

Definition sample_io : io_worker (gmap Z (Customer * Z)) loop_world :=
  mkIo (mkWorker (mkService sample_table free_locks ([take 20 sample_get; drop 20 sample_get], [])
                    (time_cache_new 0)) transaction_result_buffer [])
    io_buffers_new 2999.

Lemma sample_io_inv : io_inv sample_io.
Proof.
  split; [|apply Forall_replicate; by rewrite length_replicate|unfold kMaxConnections; simpl; lia].
  unfold sample_io, io_buffers_new. cbn [io_buffers]. by rewrite length_replicate.
Qed.

Lemma on_data_processes_once_witness :
  exists w ls d, @reads _ loop_io 5 kBufferWrittableSize 0 ls (world_of sample_io) w d
    /\ (length (mjoin ls) <= kBufferWrittableSize)%nat
    /\ (length (mjoin ls) = kBufferWrittableSize -> d = EndOfFile)
    /\ let text := mjoin ls in
       let buf' := splice (replicate kBufferTotalSize 0) 0 text in
       let close k := if bool_decide (d = WouldBlock) then k
                      else set_io_world k (@io_close _ loop_io 5 (world_of k)) in
       @on_data _ _ memory_store loop_clock loop_conn loop_io abseil_ref 1 blank_request 5 sample_io
       = if bool_decide (text = []) then
           Ok (close (mkIo (io_work (set_io_world sample_io w))
                        (<[Z.to_nat 2999 := buf']> io_buffers_new) 2999))
         else
           '(work, buf'') ← @ProcessRequest _ _ memory_store loop_clock loop_conn abseil_ref
                              1 blank_request buf' (Z.of_nat (length text)) 5
                              (io_work (set_io_world sample_io w));
           Ok (close (mkIo work (<[Z.to_nat 2999 := buf'']> io_buffers_new)
                        ((2999 + 1) mod kMaxConnections))).
Proof.
  apply (@on_data_processes_once _ _ memory_store loop_clock loop_conn loop_io abseil_ref 1
           blank_request 5 sample_io (replicate kBufferTotalSize 0)).
  - apply sample_io_inv.
  - apply lookup_replicate_2. unfold kMaxConnections. cbn [io_index sample_io]. lia.
  - intros fd w. reflexivity.
Defined.

Lemma on_events_invariant_witness :
  exists k', @on_events _ _ memory_store loop_clock loop_conn loop_io abseil_ref 1 1 blank_request 4 3
               [(5, mkFlags false false true); (3, mkFlags true false false)] sample_io = Ok k'
    /\ io_inv k'.
Proof.
  eexists. split; [reflexivity|].
  apply (@on_events_invariant _ _ memory_store loop_clock loop_conn loop_io abseil_ref 1 1 blank_request 4 3
           [(5, mkFlags false false true); (3, mkFlags true false false)] sample_io).
  - apply sample_io_inv.
  - reflexivity.
Defined.
