(* ===== verification/Router.v ===== *)
(** * Router: the reverse proxy ([rinha/thread_pool_router.cc], [rinha/router.cc])

    Every TCP connection is paired with a connection to one of the two servers, taken in
    turn from two queues of idle connections.  The arrays indexed by descriptor and the
    two ring queues are the state; the atomic counters are taken and advanced as in
    the code. *)
From S2P Require Import Prelude EventIo.
#[local] Open Scope Z_scope.

Definition kSocketPath1 : list Z := bytes "/tmp/unix_socket_example.sock".
Definition kSocketPath2 : list Z := bytes "/tmp/unix_socket_example2.sock".
Definition kMaxConnections : Z := 1000.
Definition kInitialUnixConnections : nat := 50.
Definition kBufferSize : nat := 4096.

(** A ring of idle connections with its two atomic counters. *)
Record ring_queue := mkQueue { slots : list Z; start_idx : Z; end_idx : Z }.

Record router := mkRouter {
  tcp_to_unix : list Z;
  unix_to_tcp : list Z;
  connection_1_fds : list Z;
  available_1 : ring_queue;
  available_2 : ring_queue;
  round_robin_counter : Z
}.

Definition fill_n : list Z := replicate (Z.to_nat kMaxConnections) (-1).

Definition router_new : router :=
  mkRouter fill_n fill_n fill_n (mkQueue fill_n 0 0) (mkQueue fill_n 0 0) 0.

(** [end.fetch_add(1) % kMaxConnections], then the store. *)
Definition enqueue (q : ring_queue) (fd : Z) : outcome ring_queue :=
  let i := Z.rem (end_idx q) kMaxConnections in
  s ← array_set (slots q) i fd;
  Ok (mkQueue s (start_idx q) (wrap_int (end_idx q + 1))).

(** [start.fetch_add(1) % kMaxConnections], then the load.  Nothing compares the two
    counters and the slot keeps its value. *)
Definition dequeue (q : ring_queue) : outcome (ring_queue * Z) :=
  let i := Z.rem (start_idx q) kMaxConnections in
  fd ← array_get (slots q) i;
  Ok (mkQueue (slots q) (wrap_int (start_idx q + 1)) (end_idx q), fd).

(** [CHECK(b)]. *)
Definition CHECK (b : bool) : outcome unit := checked CheckFailed b.

Section Router.
Context {W : Type} `{EventIo W}.

Definition erase_from_maps (fd : Z) (r : router) (w : W) : outcome (router * W) :=
  unix_fd ← array_get (tcp_to_unix r) fd;
  if negb (unix_fd =? -1) then
    u2t ← array_set (unix_to_tcp r) unix_fd (-1);
    t2u ← array_set (tcp_to_unix r) fd (-1);
    side ← array_get (connection_1_fds r) unix_fd;
    if negb (side =? -1) then
      q ← enqueue (available_1 r) unix_fd;
      Ok (mkRouter t2u u2t (connection_1_fds r) q (available_2 r) (round_robin_counter r),
          io_close fd w)
    else
      q ← enqueue (available_2 r) unix_fd;
      Ok (mkRouter t2u u2t (connection_1_fds r) (available_1 r) q (round_robin_counter r),
          io_close fd w)
  else
    tcp_fd ← array_get (unix_to_tcp r) fd;
    if negb (tcp_fd =? -1) then
      _ ← array_set (tcp_to_unix r) tcp_fd (-1);
      _ ← array_set (unix_to_tcp r) fd (-1);
      Fault CheckFailed
    else Fault CheckFailed.

Definition create_unix_socket_connection (connection_1 : bool) (r : router) (w : W)
    : outcome (router * W * Z) :=
  let socket_path := if connection_1 then kSocketPath1 else kSocketPath2 in
  let '(w, sock_fd) := io_socket 1 w in
  _ ← CHECK (0 <=? sock_fd);
  let '(w, rc) := io_connect sock_fd (take 107 socket_path) w in
  _ ← CHECK (0 <=? rc);
  if connection_1 then
    c1 ← array_set (connection_1_fds r) sock_fd 1;
    Ok (mkRouter (tcp_to_unix r) (unix_to_tcp r) c1 (available_1 r) (available_2 r)
          (round_robin_counter r), w, sock_fd)
  else Ok (r, w, sock_fd).

Definition create_unix_connection_and_add_to_epoll (epoll_fd : Z) (connection_1 : bool)
    (r : router) (w : W) : outcome (router * W * Z) :=
  '(r, w, unix_fd) ← create_unix_socket_connection connection_1 r w;
  _ ← CHECK (negb (unix_fd =? -1));
  let '(w, success) := make_socket_non_blocking unix_fd w in
  _ ← CHECK (negb (success =? -1));
  let '(w, success) := io_epoll_ctl epoll_fd EPOLL_CTL_ADD unix_fd true w in
  _ ← CHECK (negb (success =? -1));
  Ok (r, w, unix_fd).

(** The listening socket of port 9999; the options are [TCP_NODELAY] (1) and
    [TCP_QUICKACK] (12), the length passed to [bind] that of a [sockaddr_un] (110). *)
Definition create_and_bind (w : W) : outcome (W * Z) :=
  let '(w, sfd) := io_socket 2 w in
  _ ← CHECK (negb (sfd =? -1));
  let '(w, result) := io_setsockopt sfd 1 w in
  if result <? 0 then Fault FatalAbort
  else
    let '(w, result) := io_setsockopt sfd 12 w in
    if result <? 0 then Fault FatalAbort
    else
      let '(w, rc) := io_inet_pton (bytes "0.0.0.0") w in
      _ ← CHECK (negb (rc <=? 0));
      let '(w, rc) := io_bind sfd 110 w in
      _ ← CHECK (negb (rc =? -1));
      Ok (w, sfd).

(** One turn of the loop that opens the first connections: the store at the end
    index itself, then the increment. *)
Definition push_initial (q : ring_queue) (fd : Z) : outcome ring_queue :=
  s ← array_set (slots q) (end_idx q) fd;
  Ok (mkQueue s (start_idx q) (wrap_int (end_idx q + 1))).

Fixpoint open_connections (n : nat) (epoll_fd : Z) (r : router) (w : W) : outcome (router * W) :=
  match n with
  | O => Ok (r, w)
  | S m =>
      '(r, w, fd1) ← create_unix_connection_and_add_to_epoll epoll_fd true r w;
      q1 ← push_initial (available_1 r) fd1;
      let r := mkRouter (tcp_to_unix r) (unix_to_tcp r) (connection_1_fds r) q1 (available_2 r)
                 (round_robin_counter r) in
      '(r, w, fd2) ← create_unix_connection_and_add_to_epoll epoll_fd false r w;
      q2 ← push_initial (available_2 r) fd2;
      let r := mkRouter (tcp_to_unix r) (unix_to_tcp r) (connection_1_fds r) (available_1 r) q2
                 (round_robin_counter r) in
      open_connections m epoll_fd r w
  end.

(** The part of [InitializeThreadPool] before the event loops: the router, the
    listening socket and the epoll descriptor. *)
Definition InitializeThreadPool (w : W) : outcome (router * W * Z * Z) :=
  let r := router_new in
  '(w, server_fd) ← create_and_bind w;
  if server_fd =? -1 then Fault FatalAbort
  else
    let '(w, success) := make_socket_non_blocking server_fd w in
    if success =? -1 then Fault FatalAbort
    else
      let '(w, success) := io_listen server_fd w in
      if success =? -1 then Fault FatalAbort
      else
        let '(w, epoll_fd) := io_epoll_create w in
        if epoll_fd =? -1 then Fault FatalAbort
        else
          let '(w, success) := io_epoll_ctl epoll_fd EPOLL_CTL_ADD server_fd false w in
          if success =? -1 then Fault FatalAbort
          else
            _ ← CHECK (end_idx (available_1 r) <? kMaxConnections);
            _ ← CHECK (end_idx (available_2 r) <? kMaxConnections);
            '(r, w) ← open_connections kInitialUnixConnections epoll_fd r w;
            Ok (r, w, server_fd, epoll_fd).

(** The pairing of a new TCP connection. *)
Definition pair_connection (infd : Z) (r : router) : outcome router :=
  let connection_1 := Z.rem (round_robin_counter r) 2 =? 0 in
  let rr := wrap_int (round_robin_counter r + 1) in
  '(q1, q2, unix_fd) ←
    (if connection_1 then
       '(q, fd) ← dequeue (available_1 r); _ ← CHECK (negb (fd =? -1)); Ok (q, available_2 r, fd)
     else
       '(q, fd) ← dequeue (available_2 r); _ ← CHECK (negb (fd =? -1)); Ok (available_1 r, q, fd));
  t2u ← array_set (tcp_to_unix r) infd unix_fd;
  u2t ← array_set (unix_to_tcp r) unix_fd infd;
  Ok (mkRouter t2u u2t (connection_1_fds r) q1 q2 rr).

(** [while (true)] around [accept]; [backlog] bounds the waiting connections. *)
Fixpoint accept_all (backlog : nat) (epoll_fd server_fd : Z) (r : router) (w : W)
    : outcome (router * W) :=
  match backlog with
  | O => Fault OutOfFuel
  | S n =>
      let '(w, (infd, errno)) := io_accept server_fd w in
      if infd =? -1 then
        if errno =? kEAGAIN then Ok (r, w) else Fault CheckFailed
      else
        let '(w, success) := make_socket_non_blocking infd w in
        if success =? -1 then Fault FatalAbort
        else
          r ← pair_connection infd r;
          let '(w, success) := io_epoll_ctl epoll_fd EPOLL_CTL_ADD infd true w in
          _ ← CHECK (negb (success =? -1));
          accept_all n epoll_fd server_fd r w
  end.

(** The destination of the data of a descriptor. *)
Definition route (r : router) (src_fd : Z) : outcome Z :=
  dst ← array_get (tcp_to_unix r) src_fd;
  dst ← (if dst =? -1 then array_get (unix_to_tcp r) src_fd else Ok dst);
  _ ← CHECK (negb (dst =? -1));
  Ok dst.

(** [HandleMessage]; [buf] is the buffer of the thread. *)
Definition HandleMessage (src dst : Z) (epoll_fd : Z) (buf : list Z) (r : router) (w : W)
    : outcome (router * W * list Z) :=
  '(w, buf, total_count, d) ← drain src kBufferSize buf w;
  closed ← (match d with
            | WouldBlock => Ok false
            | EndOfFile => Ok true
            | ReadFailed _ => Fault CheckFailed
            end);
  w ← (if (0 <? total_count)%nat then
         let w := io_write dst (take total_count buf) w in
         let '(w, success) := io_epoll_ctl epoll_fd EPOLL_CTL_MOD src true w in
         if success =? -1 then Fault CheckFailed else Ok w
       else Ok w);
  if closed : bool then
    _ ← CHECK (total_count =? 0)%nat;
    '(r, w) ← erase_from_maps src r w;
    Ok (r, w, buf)
  else Ok (r, w, buf).

(** One event of [epoll_wait]. *)
Definition on_router_event (backlog : nat) (epoll_fd server_fd : Z) (ev : Z * epoll_flags)
    (buf : list Z) (r : router) (w : W) : outcome (router * W * list Z) :=
  let '(fd, flags) := ev in
  if ev_err flags || ev_hup flags || negb (ev_in flags) then Fault CheckFailed
  else if server_fd =? fd
  then '(r, w) ← accept_all backlog epoll_fd server_fd r w; Ok (r, w, buf)
  else
    dst_fd ← route r fd;
    HandleMessage fd dst_fd epoll_fd buf r w.
End Router.

(** ** The ring queues *)

(** [queue_of q l]: the ring holds the descriptors [l], oldest first. *)
Record queue_of (q : ring_queue) (l : list Z) : Prop := {
  qo_slots : length (slots q) = Z.to_nat kMaxConnections;
  qo_start : 0 <= start_idx q;
  qo_end : end_idx q = start_idx q + Z.of_nat (length l);
  qo_int : end_idx q <= INT_MAX;
  qo_cap : Z.of_nat (length l) <= kMaxConnections;
  qo_items : forall k x, l !! k = Some x ->
    slots q !! Z.to_nat ((start_idx q + Z.of_nat k) mod kMaxConnections) = Some x
}.

Lemma mod_cap_inj a j k :
  0 <= j < kMaxConnections -> 0 <= k < kMaxConnections ->
  (a + j) mod kMaxConnections = (a + k) mod kMaxConnections -> j = k.
Proof. unfold kMaxConnections. lia. Qed.

Lemma enqueue_spec q l fd :
  queue_of q l -> Z.of_nat (length l) < kMaxConnections -> end_idx q < INT_MAX ->
  exists q', enqueue q fd = Ok q' /\ queue_of q' (l ++ [fd]) /\ end_idx q' = end_idx q + 1.
Proof.
  intros [Hs Hst He Hi Hc Hit] Hl Hint. unfold enqueue.
  assert (Hnn : 0 <= end_idx q) by lia.
  rewrite Z.rem_mod_nonneg by (unfold kMaxConnections; lia).
  assert (Hm : 0 <= end_idx q mod kMaxConnections < kMaxConnections) by (apply Z.mod_pos_bound; done).
  unfold kMaxConnections in Hs, Hm.
  rewrite array_set_Ok by (rewrite Hs; unfold kMaxConnections; lia). cbn [mbind outcome_bind].
  assert (Hw : wrap_int (end_idx q + 1) = end_idx q + 1).
  { apply wrap_int_id. unfold is_int, INT_MIN, INT_MAX in *. lia. }
  eexists. split; [done|]. rewrite Hw. split; [|done].
  split; cbn [slots start_idx end_idx]; rewrite ?length_app, ?length_insert; cbn [length]; try done; try lia.
  intros k x [Hk|[Hk Hx]]%lookup_app_Some.
  - pose proof (lookup_lt_Some _ _ _ Hk).
    rewrite list_lookup_insert_ne; [by apply Hit|].
    intros Heq. apply Z2Nat.inj in Heq; [|lia|apply Z.mod_pos_bound; done].
    rewrite He in Heq. apply mod_cap_inj in Heq; lia.
  - destruct (k - length l)%nat as [|?] eqn:E; [|done]. injection Hx as <-.
    replace (start_idx q + Z.of_nat k) with (end_idx q) by lia.
    apply list_lookup_insert_eq. rewrite Hs. unfold kMaxConnections in *. lia.
Qed.

Lemma dequeue_spec q x l :
  queue_of q (x :: l) -> exists q', dequeue q = Ok (q', x) /\ queue_of q' l /\ end_idx q' = end_idx q.
Proof.
  intros [Hs Hst He Hi Hc Hit]. unfold dequeue. cbn [length] in *.
  rewrite Z.rem_mod_nonneg by (unfold kMaxConnections; lia).
  pose proof (Hit 0%nat x eq_refl) as H0. rewrite Z.add_0_r in H0.
  rewrite (proj2 (array_get_Ok _ _ x)) by (split; [apply Z.mod_pos_bound; done|done]).
  cbn [mbind outcome_bind].
  assert (Hw : wrap_int (start_idx q + 1) = start_idx q + 1).
  { apply wrap_int_id. unfold is_int, INT_MIN, INT_MAX in *. lia. }
  eexists. split; [done|]. split; [|done]. rewrite Hw.
  split; cbn [slots start_idx end_idx]; try done; try lia.
  intros k y Hk. specialize (Hit (S k) y Hk).
  by replace (start_idx q + 1 + Z.of_nat k) with (start_idx q + Z.of_nat (S k)) by lia.
Qed.

(** ** Pairs of connections *)

(** A descriptor within the arrays. *)
Definition in_table (fd : Z) : Prop := 0 <= fd < kMaxConnections.

(** [router_ok r side free1 free2 pairs]: the arrays of [r] represent the pairs (TCP
    descriptor to unix descriptor), the queues hold the idle connections [free1] and
    [free2], and [side u] tells that [u] leads to the first server. *)
Record router_ok (r : router) (side : Z -> bool) (free1 free2 : list Z) (pairs : gmap Z Z) : Prop := {
  ok_lengths : length (tcp_to_unix r) = Z.to_nat kMaxConnections
    /\ length (unix_to_tcp r) = Z.to_nat kMaxConnections
    /\ length (connection_1_fds r) = Z.to_nat kMaxConnections;
  ok_range : forall t u, pairs !! t = Some u -> in_table t /\ in_table u;
  ok_t2u : forall t, in_table t ->
    tcp_to_unix r !! Z.to_nat t = Some (default (-1) (pairs !! t));
  ok_u2t : forall u t, pairs !! t = Some u -> unix_to_tcp r !! Z.to_nat u = Some t;
  ok_u2t_none : forall u, in_table u -> (forall t, pairs !! t <> Some u) ->
    unix_to_tcp r !! Z.to_nat u = Some (-1);
  ok_side : forall u, in_table u ->
    exists b, connection_1_fds r !! Z.to_nat u = Some b /\ side u = negb (b =? -1);
  ok_inj : forall t t' u, pairs !! t = Some u -> pairs !! t' = Some u -> t = t';
  ok_unix : forall t u, pairs !! t = Some u -> pairs !! u = None;
  ok_queue1 : queue_of (available_1 r) free1;
  ok_queue2 : queue_of (available_2 r) free2;
  ok_nodup1 : NoDup free1;
  ok_nodup2 : NoDup free2;
  ok_free1 : forall u, u ∈ free1 -> in_table u /\ side u = true
               /\ pairs !! u = None /\ forall t, pairs !! t <> Some u;
  ok_free2 : forall u, u ∈ free2 -> in_table u /\ side u = false
               /\ pairs !! u = None /\ forall t, pairs !! t <> Some u;
  ok_robin : 0 <= round_robin_counter r
}.

(** At most one thousand distinct descriptors. *)
Lemma NoDup_in_table l : NoDup l -> Forall in_table l -> Z.of_nat (length l) <= kMaxConnections.
Proof.
  intros Hnd Hl. assert (Hsub : l ⊆+ seqZ 0 kMaxConnections).
  { apply NoDup_submseteq; [done|]. intros x Hx. apply elem_of_seqZ.
    by eapply Forall_forall in Hl. }
  apply submseteq_length in Hsub. rewrite length_seqZ in Hsub. unfold kMaxConnections in *. lia.
Qed.

Lemma table_get (l : list Z) fd x :
  length l = Z.to_nat kMaxConnections -> in_table fd -> l !! Z.to_nat fd = Some x -> array_get l fd = Ok x.
Proof. intros Hl [Hf _] Hx. by apply array_get_Ok. Qed.

Lemma table_set (l : list Z) fd x :
  length l = Z.to_nat kMaxConnections -> in_table fd -> array_set l fd x = Ok (<[Z.to_nat fd := x]> l).
Proof. unfold in_table, kMaxConnections. intros Hl Hf. apply array_set_Ok. lia. Qed.

(** One more pair. *)
Lemma tables_add r side f1 f2 pairs t u :
  router_ok r side f1 f2 pairs -> in_table t -> in_table u ->
  let t2u := <[Z.to_nat t := u]> (tcp_to_unix r) in
  let u2t := <[Z.to_nat u := t]> (unix_to_tcp r) in
  (forall x, pairs !! x <> Some u) ->
  (forall x, in_table x -> t2u !! Z.to_nat x = Some (default (-1) (<[t := u]> pairs !! x)))
  /\ (forall v x, <[t := u]> pairs !! x = Some v -> pairs !! t = None -> u2t !! Z.to_nat v = Some x)
  /\ (forall v, in_table v -> (forall x, <[t := u]> pairs !! x <> Some v) -> pairs !! t = None ->
        u2t !! Z.to_nat v = Some (-1)).
Proof.
  intros Hr Ht Hu t2u u2t Hfresh. destruct (ok_lengths _ _ _ _ _ Hr) as (L1 & L2 & _).
  unfold in_table, kMaxConnections in *. split_and!.
  - intros x Hx. unfold t2u. destruct (decide (t = x)) as [<-|Hne].
    + rewrite list_lookup_insert_eq by (rewrite L1; lia). by rewrite lookup_insert_eq.
    + rewrite list_lookup_insert_ne, lookup_insert_ne by lia. by apply (ok_t2u _ _ _ _ _ Hr).
  - intros v x. unfold u2t. destruct (decide (t = x)) as [<-|Hne].
    + rewrite lookup_insert_eq. intros [= <-] _. apply list_lookup_insert_eq. lia.
    + rewrite lookup_insert_ne by done. intros Hv _.
      assert (u <> v) by (intros <-; by apply (Hfresh x)).
      destruct (ok_range _ _ _ _ _ Hr _ _ Hv) as [_ [? ?]].
      rewrite list_lookup_insert_ne by lia. by eapply (ok_u2t _ _ _ _ _ Hr).
  - intros v Hv Hnone Hpt. unfold u2t.
    assert (u <> v) by (intros <-; apply (Hnone t); by rewrite lookup_insert_eq).
    rewrite list_lookup_insert_ne by lia. apply (ok_u2t_none _ _ _ _ _ Hr); [done|].
    intros x Hx. apply (Hnone x). rewrite lookup_insert_ne; [done|]. intros <-. congruence.
Qed.

(** A TCP descriptor that the router does not know. *)
Definition fresh_fd (f1 f2 : list Z) (pairs : gmap Z Z) (t : Z) : Prop :=
  in_table t /\ pairs !! t = None /\ (forall x, pairs !! x <> Some t) /\ (t ∉ f1) /\ (t ∉ f2).

(** The rest of the invariant once a descriptor [u] has left its queue. *)
Lemma add_pair_ok r side f1 f2 pairs infd u rest1 rest2 q1 q2 :
  router_ok r side f1 f2 pairs -> fresh_fd f1 f2 pairs infd ->
  in_table u -> (forall x, pairs !! x <> Some u) -> u <> infd -> pairs !! u = None ->
  queue_of q1 rest1 -> queue_of q2 rest2 -> NoDup rest1 -> NoDup rest2 ->
  (u ∉ rest1) -> (u ∉ rest2) ->
  (forall x, x ∈ rest1 -> x ∈ f1) -> (forall x, x ∈ rest2 -> x ∈ f2) ->
  exists r', (t2u ← array_set (tcp_to_unix r) infd u; u2t ← array_set (unix_to_tcp r) u infd;
              Ok (mkRouter t2u u2t (connection_1_fds r) q1 q2 (round_robin_counter r + 1))) = Ok r'
    /\ router_ok r' side rest1 rest2 (<[infd := u]> pairs)
    /\ round_robin_counter r' = round_robin_counter r + 1
    /\ end_idx (available_1 r') = end_idx q1 /\ end_idx (available_2 r') = end_idx q2.
Proof.
  intros Hr (Ht & Hpt & Hnu & Hf1 & Hf2) Hu Hun Hne Hup Hq1 Hq2 Hn1 Hn2 Hu1 Hu2 Hs1 Hs2.
  destruct (ok_lengths _ _ _ _ _ Hr) as (L1 & L2 & L3).
  rewrite !table_set by done. cbn [mbind outcome_bind]. eexists. split; [done|]. split; [|done].
  destruct (tables_add r side f1 f2 pairs infd u Hr Ht Hu Hun) as (T1 & T2 & T3).
  assert (Hstill : forall x, x <> u -> x <> infd -> pairs !! x = None -> (forall y, pairs !! y <> Some x) ->
    <[infd := u]> pairs !! x = None /\ forall y, <[infd := u]> pairs !! y <> Some x).
  { intros x Hxu Hxi Hx Hy. split; [by rewrite lookup_insert_ne|]. intros y.
    destruct (decide (infd = y)) as [<-|]; [rewrite lookup_insert_eq; congruence|].
    rewrite lookup_insert_ne by done. apply Hy. }
  split; cbn [tcp_to_unix unix_to_tcp connection_1_fds available_1 available_2 round_robin_counter];
    rewrite ?length_insert; try done; try (by intros; apply T2); try (by intros; apply T3).
  - intros x v Hx. apply lookup_insert_Some in Hx as [[<- <-]|[_ Hx]];
      [done|by eapply (ok_range _ _ _ _ _ Hr)].
  - apply (ok_side _ _ _ _ _ Hr).
  - intros x y v Hx Hy. apply lookup_insert_Some in Hx as [[<- <-]|[_ Hx]];
      apply lookup_insert_Some in Hy as [[<- Hv]|[_ Hy]]; try done.
    + by destruct (Hun y).
    + destruct (Hun x). congruence.
    + by eapply (ok_inj _ _ _ _ _ Hr).
  - intros x v Hx. apply lookup_insert_Some in Hx as [[<- <-]|[_ Hx]];
      rewrite lookup_insert_ne; try done.
    + by eapply (ok_unix _ _ _ _ _ Hr).
    + intros <-. by apply (Hnu x).
  - intros x Hx. destruct (ok_free1 _ _ _ _ _ Hr x (Hs1 x Hx)) as (Hxt & Hxs & Hxp & Hxy).
    split; [done|]. split; [done|]. apply Hstill; [intros ->; done|intros ->; naive_solver|done|done].
  - intros x Hx. destruct (ok_free2 _ _ _ _ _ Hr x (Hs2 x Hx)) as (Hxt & Hxs & Hxp & Hxy).
    split; [done|]. split; [done|]. apply Hstill; [intros ->; done|intros ->; naive_solver|done|done].
  - pose proof (ok_robin _ _ _ _ _ Hr). lia.
Qed.

Lemma not_minus_one u : in_table u -> (u =? -1) = false.
Proof. intros [Hu _]. apply Z.eqb_neq. lia. Qed.

Lemma pair_connection_ok r side f1 f2 pairs infd :
  router_ok r side f1 f2 pairs -> fresh_fd f1 f2 pairs infd ->
  round_robin_counter r < INT_MAX ->
  match (if Z.rem (round_robin_counter r) 2 =? 0 then f1 else f2) with
  | [] => True
  | u :: rest =>
      exists r', pair_connection infd r = Ok r'
        /\ router_ok r' side (if Z.rem (round_robin_counter r) 2 =? 0 then rest else f1)
             (if Z.rem (round_robin_counter r) 2 =? 0 then f2 else rest) (<[infd := u]> pairs)
        /\ round_robin_counter r' = round_robin_counter r + 1
        /\ end_idx (available_1 r') = end_idx (available_1 r)
        /\ end_idx (available_2 r') = end_idx (available_2 r)
  end.
Proof.
  intros Hr Hfresh Hrr.
  assert (Hwrap : wrap_int (round_robin_counter r + 1) = round_robin_counter r + 1).
  { apply wrap_int_id. pose proof (ok_robin _ _ _ _ _ Hr). unfold is_int, INT_MIN, INT_MAX in *. lia. }
  pose proof Hfresh as (Ht & Hpt & Hnu & Hf1 & Hf2). unfold pair_connection. rewrite Hwrap.
  pose proof (ok_nodup1 _ _ _ _ _ Hr) as Hn1. pose proof (ok_nodup2 _ _ _ _ _ Hr) as Hn2.
  destruct (Z.rem _ _ =? 0).
  - destruct f1 as [|u rest]; [done|].
    destruct (dequeue_spec _ _ _ (ok_queue1 _ _ _ _ _ Hr)) as (q & -> & Hq & He).
    destruct (ok_free1 _ _ _ _ _ Hr u ltac:(by left)) as (Hu & Hside & Hup & Hun).
    apply NoDup_cons in Hn1 as [Hu1 Hn1]. cbn [mbind outcome_bind].
    rewrite not_minus_one by done. cbn [negb CHECK checked mbind outcome_bind]. rewrite <- He.
    apply (add_pair_ok r side (u :: rest) f2 pairs infd u rest f2 q (available_2 r));
      try done; try apply Hr.
    + intros ->. apply Hf1. by left.
    + intros Hu2. destruct (ok_free2 _ _ _ _ _ Hr u Hu2) as (_ & Hs2 & _). congruence.
    + intros x Hx. by right.
  - destruct f2 as [|u rest]; [done|].
    destruct (dequeue_spec _ _ _ (ok_queue2 _ _ _ _ _ Hr)) as (q & -> & Hq & He).
    destruct (ok_free2 _ _ _ _ _ Hr u ltac:(by left)) as (Hu & Hside & Hup & Hun).
    apply NoDup_cons in Hn2 as [Hu2 Hn2]. cbn [mbind outcome_bind].
    rewrite not_minus_one by done. cbn [negb CHECK checked mbind outcome_bind]. rewrite <- He.
    apply (add_pair_ok r side f1 (u :: rest) pairs infd u f1 rest (available_1 r) q);
      try done; try apply Hr.
    + intros ->. apply Hf2. by left.
    + intros Hu1. destruct (ok_free1 _ _ _ _ _ Hr u Hu1) as (_ & Hs1 & _). congruence.
    + intros x Hx. by right.
Qed.

(** One pair less. *)
Lemma tables_remove r side f1 f2 pairs t u :
  router_ok r side f1 f2 pairs -> pairs !! t = Some u ->
  let t2u := <[Z.to_nat t := -1]> (tcp_to_unix r) in
  let u2t := <[Z.to_nat u := -1]> (unix_to_tcp r) in
  (forall x, in_table x -> t2u !! Z.to_nat x = Some (default (-1) (delete t pairs !! x)))
  /\ (forall v x, delete t pairs !! x = Some v -> u2t !! Z.to_nat v = Some x)
  /\ (forall v, in_table v -> (forall x, delete t pairs !! x <> Some v) ->
        u2t !! Z.to_nat v = Some (-1)).
Proof.
  intros Hr Htu t2u u2t. destruct (ok_lengths _ _ _ _ _ Hr) as (L1 & L2 & _).
  destruct (ok_range _ _ _ _ _ Hr _ _ Htu) as [Ht Hu]. unfold in_table, kMaxConnections in *.
  split_and!.
  - intros x Hx. unfold t2u. destruct (decide (t = x)) as [<-|Hne].
    + rewrite list_lookup_insert_eq by (rewrite L1; lia). by rewrite lookup_delete_eq.
    + rewrite list_lookup_insert_ne, lookup_delete_ne by lia. by apply (ok_t2u _ _ _ _ _ Hr).
  - intros v x Hx. apply lookup_delete_Some in Hx as [Hne Hx]. unfold u2t.
    assert (u <> v) by (intros <-; apply Hne; by eapply (ok_inj _ _ _ _ _ Hr)).
    destruct (ok_range _ _ _ _ _ Hr _ _ Hx) as [_ [? ?]].
    rewrite list_lookup_insert_ne by lia. by eapply (ok_u2t _ _ _ _ _ Hr).
  - intros v Hv Hnone. unfold u2t. destruct (decide (u = v)) as [<-|Hne].
    + apply list_lookup_insert_eq. lia.
    + rewrite list_lookup_insert_ne by lia. apply (ok_u2t_none _ _ _ _ _ Hr); [done|].
      intros x Hx. apply (Hnone x). rewrite lookup_delete_ne; [done|]. intros <-. congruence.
Qed.

(** The rest of the invariant once [u] is back in a queue. *)
Lemma remove_pair_ok r side f1 f2 pairs t u g1 g2 q1 q2 :
  router_ok r side f1 f2 pairs -> pairs !! t = Some u ->
  queue_of q1 g1 -> queue_of q2 g2 -> NoDup g1 -> NoDup g2 ->
  (forall x, x ∈ g1 -> x ∈ f1 \/ x = u /\ side u = true) ->
  (forall x, x ∈ g2 -> x ∈ f2 \/ x = u /\ side u = false) ->
  router_ok (mkRouter (<[Z.to_nat t := -1]> (tcp_to_unix r)) (<[Z.to_nat u := -1]> (unix_to_tcp r))
               (connection_1_fds r) q1 q2 (round_robin_counter r)) side g1 g2 (delete t pairs).
Proof.
  intros Hr Htu Hq1 Hq2 Hn1 Hn2 Hg1 Hg2.
  destruct (ok_lengths _ _ _ _ _ Hr) as (L1 & L2 & L3).
  destruct (ok_range _ _ _ _ _ Hr _ _ Htu) as [Ht Hu].
  destruct (tables_remove r side f1 f2 pairs t u Hr Htu) as (T1 & T2 & T3).
  assert (Hstill : forall x, pairs !! x = None -> (forall y, pairs !! y <> Some x) ->
    delete t pairs !! x = None /\ forall y, delete t pairs !! y <> Some x).
  { intros x Hx Hy. split; [by apply lookup_delete_None; right|].
    intros y [_ Hyx]%lookup_delete_Some. by apply (Hy y). }
  assert (Hback : delete t pairs !! u = None /\ forall y, delete t pairs !! y <> Some u).
  { split; [apply lookup_delete_None; right; by eapply (ok_unix _ _ _ _ _ Hr)|].
    intros y Hy. apply lookup_delete_Some in Hy as [Hne Hy]. apply Hne.
    by eapply (ok_inj _ _ _ _ _ Hr). }
  split; cbn [tcp_to_unix unix_to_tcp connection_1_fds available_1 available_2 round_robin_counter];
    rewrite ?length_insert; try done.
  - intros x v [_ Hx]%lookup_delete_Some. by eapply (ok_range _ _ _ _ _ Hr).
  - apply (ok_side _ _ _ _ _ Hr).
  - intros x y v [_ Hx]%lookup_delete_Some [_ Hy]%lookup_delete_Some.
    by eapply (ok_inj _ _ _ _ _ Hr).
  - intros x v [_ Hx]%lookup_delete_Some. apply lookup_delete_None. right.
    by eapply (ok_unix _ _ _ _ _ Hr).
  - intros x Hx. destruct (Hg1 x Hx) as [Hf|[-> Hs]]; [|done].
    destruct (ok_free1 _ _ _ _ _ Hr x Hf) as (Hxt & Hxs & Hxp & Hxy). split; [done|].
    split; [done|]. by apply Hstill.
  - intros x Hx. destruct (Hg2 x Hx) as [Hf|[-> Hs]]; [|done].
    destruct (ok_free2 _ _ _ _ _ Hr x Hf) as (Hxt & Hxs & Hxp & Hxy). split; [done|].
    split; [done|]. by apply Hstill.
  - apply (ok_robin _ _ _ _ _ Hr).
Qed.

(** Putting an idle descriptor at the end of its queue. *)
Lemma enqueue_idle q l (u : Z) :
  queue_of q l -> NoDup l -> Forall in_table l -> in_table u -> (u ∉ l) -> end_idx q < INT_MAX ->
  exists q', enqueue q u = Ok q' /\ queue_of q' (l ++ [u]) /\ NoDup (l ++ [u])
    /\ end_idx q' = end_idx q + 1.
Proof.
  intros Hq Hn Hl Hu Hul He.
  assert (Hlen : Z.of_nat (length (u :: l)) <= kMaxConnections)
    by (apply NoDup_in_table; by constructor).
  cbn [length] in Hlen. destruct (enqueue_spec q l u Hq ltac:(lia) He) as (q' & Hq' & Hqo & He').
  exists q'. split; [done|]. split; [done|]. split; [|done].
  apply NoDup_app. split; [done|]. split; [|apply NoDup_singleton].
  intros x Hx ->%list_elem_of_singleton. done.
Qed.

Section Erase.
Context {W : Type} `{EventIo W}.

Lemma erase_ok r side f1 f2 pairs t u (w : W) :
  router_ok r side f1 f2 pairs -> pairs !! t = Some u ->
  end_idx (available_1 r) < INT_MAX -> end_idx (available_2 r) < INT_MAX ->
  exists r', erase_from_maps t r w = Ok (r', io_close t w)
    /\ router_ok r' side (if side u then f1 ++ [u] else f1) (if side u then f2 else f2 ++ [u])
         (delete t pairs)
    /\ round_robin_counter r' = round_robin_counter r
    /\ end_idx (available_1 r') <= end_idx (available_1 r) + 1
    /\ end_idx (available_2 r') <= end_idx (available_2 r) + 1.
Proof.
  intros Hr Htu He1 He2. destruct (ok_lengths _ _ _ _ _ Hr) as (L1 & L2 & L3).
  destruct (ok_range _ _ _ _ _ Hr _ _ Htu) as [Ht Hu].
  assert (Hnu : (u ∉ f1) /\ (u ∉ f2)).
  { split; intros Hin; [apply (ok_free1 _ _ _ _ _ Hr) in Hin|apply (ok_free2 _ _ _ _ _ Hr) in Hin];
      by destruct Hin as (_ & _ & _ & Hy); apply (Hy t). }
  unfold erase_from_maps. pose proof (ok_t2u _ _ _ _ _ Hr t Ht) as Hget. rewrite Htu in Hget. simpl in Hget.
  rewrite (table_get _ _ _ L1 Ht Hget). cbn [mbind outcome_bind].
  rewrite (not_minus_one u Hu). cbn [negb]. rewrite !table_set by done. cbn [mbind outcome_bind].
  destruct (ok_side _ _ _ _ _ Hr u Hu) as (b & Hb & Hside).
  rewrite (table_get _ _ _ L3 Hu Hb). cbn [mbind outcome_bind]. rewrite <- Hside.
  pose proof (ok_nodup1 _ _ _ _ _ Hr) as Hn1. pose proof (ok_nodup2 _ _ _ _ _ Hr) as Hn2.
  assert (Hin1 : Forall in_table f1)
    by (apply Forall_forall; intros x Hx; by apply (ok_free1 _ _ _ _ _ Hr)).
  assert (Hin2 : Forall in_table f2)
    by (apply Forall_forall; intros x Hx; by apply (ok_free2 _ _ _ _ _ Hr)).
  destruct (side u) eqn:Es.
  - destruct (enqueue_idle _ _ u (ok_queue1 _ _ _ _ _ Hr) Hn1 Hin1 Hu (proj1 Hnu) He1)
      as (q & -> & Hq & Hn & Hq').
    cbn [mbind outcome_bind]. eexists. split; [done|]. split; [|cbn; lia].
    eapply remove_pair_ok; try done; try apply Hr; [|by left].
    intros x [Hx|Hx%list_elem_of_singleton]%elem_of_app; [by left|by right].
  - destruct (enqueue_idle _ _ u (ok_queue2 _ _ _ _ _ Hr) Hn2 Hin2 Hu (proj2 Hnu) He2)
      as (q & -> & Hq & Hn & Hq').
    cbn [mbind outcome_bind]. eexists. split; [done|]. split; [|cbn; lia].
    eapply remove_pair_ok; try done; try apply Hr; [by left|].
    intros x [Hx|Hx%list_elem_of_singleton]%elem_of_app; [by left|by right].
Qed.
End Erase.

Lemma route_ok r side f1 f2 pairs t u :
  router_ok r side f1 f2 pairs -> pairs !! t = Some u -> route r t = Ok u /\ route r u = Ok t.
Proof.
  intros Hr Htu. destruct (ok_lengths _ _ _ _ _ Hr) as (L1 & L2 & _).
  destruct (ok_range _ _ _ _ _ Hr _ _ Htu) as [Ht Hu].
  pose proof (ok_t2u _ _ _ _ _ Hr t Ht) as H1. rewrite Htu in H1. simpl in H1.
  pose proof (ok_t2u _ _ _ _ _ Hr u Hu) as H2. rewrite (ok_unix _ _ _ _ _ Hr _ _ Htu) in H2. simpl in H2.
  pose proof (ok_u2t _ _ _ _ _ Hr _ _ Htu) as H3. unfold route. split.
  - rewrite (table_get _ _ _ L1 Ht H1). cbn [mbind outcome_bind default].
    rewrite (not_minus_one u Hu). cbn [mbind outcome_bind]. by rewrite (not_minus_one u Hu).
  - rewrite (table_get _ _ _ L1 Hu H2). cbn [mbind outcome_bind default].
    rewrite Z.eqb_refl, (table_get _ _ _ L2 Hu H3). cbn [mbind outcome_bind].
    by rewrite (not_minus_one t Ht).
Qed.

(** ** Connections that come and go *)
Inductive router_event := Connect (fd : Z) | Disconnect (fd : Z).

Section Events.
Context {W : Type} `{EventIo W}.

Definition router_step (ev : router_event) (r : router) (w : W) : outcome (router * W) :=
  match ev with
  | Connect fd => r ← pair_connection fd r; Ok (r, w)
  | Disconnect fd => erase_from_maps fd r w
  end.

Fixpoint router_run (evs : list router_event) (r : router) (w : W) : outcome (router * W) :=
  match evs with
  | [] => Ok (r, w)
  | ev :: evs' => '(r, w) ← router_step ev r w; router_run evs' r w
  end.

(** What the invariant lets happen: connections of fresh descriptors while the queue whose
    turn it is has an idle connection, and disconnections of paired ones. *)
Fixpoint admissible (side : Z -> bool) (evs : list router_event) (n : Z) (f1 f2 : list Z)
    (pairs : gmap Z Z) : Prop :=
  match evs with
  | [] => True
  | Connect fd :: evs' =>
      fresh_fd f1 f2 pairs fd
      /\ match (if Z.rem n 2 =? 0 then f1 else f2) with
         | [] => False
         | u :: rest => admissible side evs' (n + 1) (if Z.rem n 2 =? 0 then rest else f1)
                          (if Z.rem n 2 =? 0 then f2 else rest) (<[fd := u]> pairs)
         end
  | Disconnect fd :: evs' =>
      match pairs !! fd with
      | None => False
      | Some u => admissible side evs' n (if side u then f1 ++ [u] else f1)
                    (if side u then f2 else f2 ++ [u]) (delete fd pairs)
      end
  end.

Lemma router_run_ok side evs r f1 f2 pairs (w : W) :
  router_ok r side f1 f2 pairs ->
  round_robin_counter r + Z.of_nat (length evs) < INT_MAX ->
  end_idx (available_1 r) + Z.of_nat (length evs) < INT_MAX ->
  end_idx (available_2 r) + Z.of_nat (length evs) < INT_MAX ->
  admissible side evs (round_robin_counter r) f1 f2 pairs ->
  exists r' w' g1 g2 pairs', router_run evs r w = Ok (r', w') /\ router_ok r' side g1 g2 pairs'.
Proof.
  revert r f1 f2 pairs w. induction evs as [|ev evs IH]; intros r f1 f2 pairs w Hr Hn H1 H2 Ha.
  { by exists r, w, f1, f2, pairs. }
  cbn [length router_run admissible] in *. destruct ev as [fd|fd]; cbn [router_step].
  - destruct Ha as [Hf Ha].
    pose proof (pair_connection_ok r side f1 f2 pairs fd Hr Hf ltac:(lia)) as Hp.
    destruct (if Z.rem (round_robin_counter r) 2 =? 0 then f1 else f2) as [|u rest]; [done|].
    destruct Hp as (r' & -> & Hr' & Hrr & E1 & E2). cbn [mbind outcome_bind].
    apply (IH r' _ _ _ w Hr'); try lia. by rewrite Hrr.
  - destruct (pairs !! fd) as [u|] eqn:Eu; [|done].
    destruct (erase_ok r side f1 f2 pairs fd u w Hr Eu ltac:(lia) ltac:(lia))
      as (r' & -> & Hr' & Hrr & E1 & E2). cbn [mbind outcome_bind].
    apply (IH r' _ _ _ _ Hr'); try lia. by rewrite Hrr.
Qed.
End Events.

(** ** Forwarding *)
Section Forward.
Context {W : Type} `{EventIo W}.

Lemma take_splice_0 (buf text : list Z) :
  (length text <= length buf)%nat -> take (length text) (splice buf 0 text) = text.
Proof. intros Hl. apply (take_app_length text (drop (length text) buf)). Qed.

(** The run of reads decides everything. *)
Lemma HandleMessage_reads src dst epoll_fd buf r (w : W) :
  length buf = kBufferSize ->
  exists w1 ls d, reads src kBufferSize 0 ls w w1 d /\ (length (mjoin ls) <= kBufferSize)%nat
    /\ let buf' := splice buf 0 (mjoin ls) in
       HandleMessage src dst epoll_fd buf r w
       = match d with
         | ReadFailed _ => Fault CheckFailed
         | WouldBlock =>
             if bool_decide (mjoin ls = []) then Ok (r, w1, buf')
             else if (io_epoll_ctl epoll_fd EPOLL_CTL_MOD src true (io_write dst (mjoin ls) w1)).2 =? -1
                  then Fault CheckFailed
                  else Ok (r, (io_epoll_ctl epoll_fd EPOLL_CTL_MOD src true
                                 (io_write dst (mjoin ls) w1)).1, buf')
         | EndOfFile =>
             if bool_decide (mjoin ls = []) then
               '(r, w) ← erase_from_maps src r w1; Ok (r, w, buf')
             else Fault CheckFailed
         end.
Proof.
  intros Hb. destruct (drain_total src kBufferSize buf w) as (w1 & ls & d & Hd & Hr & Hle); [lia|].
  exists w1, ls, d. split; [done|]. split; [done|]. cbv zeta. unfold HandleMessage. rewrite Hd.
  cbn [mbind outcome_bind].
  destruct d; cbn [mbind outcome_bind]; [| |done];
    (destruct (decide (mjoin ls = [])) as [He|He];
     [rewrite He; done|rewrite (bool_decide_eq_false_2 _ He)]);
    (assert (Hpos : (0 < length (mjoin ls))%nat) by (destruct (mjoin ls); [done|simpl; lia]));
    (destruct (Nat.ltb_spec 0 (length (mjoin ls))); [|lia]);
    rewrite take_splice_0 by lia;
    destruct (io_epoll_ctl _ _ _ _ _) as [w2 s]; cbn [fst snd]; destruct (s =? -1);
    cbn [mbind outcome_bind]; try done.
  destruct (Nat.eqb_spec (length (mjoin ls)) 0); [lia|done].
Qed.
End Forward.

(** ** Properties *)
Section RouterTheorems.
Context {W : Type} `{EventIo W}.

(** C10: the pairing is a bijection and survives everything it is meant for. From a router
    whose arrays represent a set of pairs, any sequence of new connections (each
    while an idle connection of its server is left) and disconnections runs without a
    failed check or an access outside the arrays, and afterwards the data of every
    paired TCP descriptor goes to its unix descriptor and back.  The three counters must
    stay below [INT_MAX] over the sequence. *)
Theorem router_pairs side evs r f1 f2 pairs (w : W) :
  router_ok r side f1 f2 pairs ->
  round_robin_counter r + Z.of_nat (length evs) < INT_MAX ->
  end_idx (available_1 r) + Z.of_nat (length evs) < INT_MAX ->
  end_idx (available_2 r) + Z.of_nat (length evs) < INT_MAX ->
  admissible side evs (round_robin_counter r) f1 f2 pairs ->
  exists r' w' g1 g2 pairs', router_run evs r w = Ok (r', w')
    /\ router_ok r' side g1 g2 pairs'
    /\ forall t u, pairs' !! t = Some u -> route r' t = Ok u /\ route r' u = Ok t.
Proof.
  intros Hr H1 H2 H3 Ha.
  destruct (router_run_ok side evs r f1 f2 pairs w Hr H1 H2 H3 Ha)
    as (r' & w' & g1 & g2 & pairs' & Hrun & Hr').
  exists r', w', g1, g2, pairs'. split; [done|]. split; [done|]. intros t u Htu.
  by eapply route_ok.
Qed.

(** A message is forwarded whole or the process stops. What the source delivers until
    it would block is written to the destination; an end of file without data closes the
    pair; data that fills the buffer of 4096 bytes (where [read] returns 0), like
    data followed by the end of the file, fails the check [total_count == 0]. *)
Theorem HandleMessage_forwards src dst epoll_fd buf r (w : W) :
  length buf = kBufferSize -> zero_reads (W := W) ->
  (forall fd w, (io_epoll_ctl epoll_fd EPOLL_CTL_MOD fd true w).2 <> -1) ->
  exists w1 ls d, reads src kBufferSize 0 ls w w1 d
    /\ (length (mjoin ls) = kBufferSize -> HandleMessage src dst epoll_fd buf r w = Fault CheckFailed)
    /\ (d = WouldBlock -> mjoin ls <> [] ->
        exists buf', HandleMessage src dst epoll_fd buf r w
          = Ok (r, (io_epoll_ctl epoll_fd EPOLL_CTL_MOD src true (io_write dst (mjoin ls) w1)).1, buf'))
    /\ (d = EndOfFile -> mjoin ls <> [] -> HandleMessage src dst epoll_fd buf r w = Fault CheckFailed)
    /\ (d = EndOfFile -> mjoin ls = [] ->
        exists buf', HandleMessage src dst epoll_fd buf r w
          = ('(r, w) ← erase_from_maps src r w1; Ok (r, w, buf'))).
Proof.
  intros Hb Hz Hep. destruct (HandleMessage_reads src dst epoll_fd buf r w Hb)
    as (w1 & ls & d & Hr & Hle & Hm). cbv zeta in Hm.
  exists w1, ls, d. split; [done|].
  assert (Heof : d = EndOfFile -> mjoin ls <> [] ->
    HandleMessage src dst epoll_fd buf r w = Fault CheckFailed).
  { intros -> Hne. by rewrite Hm, bool_decide_eq_false_2. }
  split; [|split; [|split; [done|]]].
  - intros Hfull. apply Heof; [by eapply reads_full|]. intros He. rewrite He in Hfull. done.
  - intros -> Hne. rewrite Hm, bool_decide_eq_false_2 by done.
    rewrite (proj2 (Z.eqb_neq _ _) (Hep _ _)). eauto.
  - intros -> He. rewrite Hm, bool_decide_eq_true_2 by done. eauto.
Qed.
End RouterTheorems.

(** ** Initialization *)

(** A ring that was filled from index 0 up to [n] and has -1 in the other slots. *)
Definition empty_from (q : ring_queue) (n : nat) : Prop :=
  start_idx q = 0
  /\ forall k, (n <= k < Z.to_nat kMaxConnections)%nat -> slots q !! k = Some (-1).

(** The router while the first connections are opened. *)
Record opening (r : router) (l1 l2 : list Z) : Prop := {
  op_t2u : tcp_to_unix r = fill_n;
  op_u2t : unix_to_tcp r = fill_n;
  op_c1_length : length (connection_1_fds r) = Z.to_nat kMaxConnections;
  op_c1 : forall u, in_table u ->
    connection_1_fds r !! Z.to_nat u = Some (if bool_decide (u ∈ l1) then 1 else -1);
  op_table1 : Forall in_table l1;
  op_q1 : queue_of (available_1 r) l1;
  op_q2 : queue_of (available_2 r) l2;
  op_empty1 : empty_from (available_1 r) (length l1);
  op_empty2 : empty_from (available_2 r) (length l2);
  op_robin : round_robin_counter r = 0
}.

Lemma fill_n_get u : in_table u -> fill_n !! Z.to_nat u = Some (-1).
Proof. unfold in_table, fill_n. intros Hu. apply lookup_replicate_2. unfold kMaxConnections in *. lia. Qed.

Lemma length_fill_n : length fill_n = Z.to_nat kMaxConnections.
Proof. apply length_replicate. Qed.

Lemma queue_of_new : queue_of (mkQueue fill_n 0 0) [].
Proof. by split. Qed.

Lemma empty_from_new : empty_from (mkQueue fill_n 0 0) 0.
Proof. split; [done|]. intros k Hk. apply lookup_replicate_2. lia. Qed.

Lemma opening_new : opening router_new [] [].
Proof.
  split; try done; try apply queue_of_new; try apply empty_from_new.
  intros u Hu. by apply fill_n_get.
Qed.

Lemma push_initial_spec q l fd q' :
  queue_of q l -> empty_from q (length l) -> push_initial q fd = Ok q' ->
  queue_of q' (l ++ [fd]) /\ empty_from q' (length (l ++ [fd])).
Proof.
  intros [Hs Hst He Hi Hc Hit] [H0 Hm] Hp. unfold push_initial in Hp. inv_ok.
  apply array_set_inv in Hr as [Hr ->]. rewrite Hs in Hr. unfold kMaxConnections in *.
  assert (Hw : wrap_int (end_idx q + 1) = end_idx q + 1).
  { apply wrap_int_id. unfold is_int, INT_MIN, INT_MAX in *. lia. }
  rewrite Hw. split; [|split; [done|]].
  2:{ intros k. rewrite length_app. cbn [length slots]. intros Hk.
      rewrite list_lookup_insert_ne by lia. apply Hm. unfold kMaxConnections in *. lia. }
  split; cbn [slots start_idx end_idx]; rewrite ?length_app, ?length_insert; cbn [length];
    unfold kMaxConnections, INT_MAX in *; try done; try lia.
  intros k x [Hk|[Hk Hx]]%lookup_app_Some.
  - pose proof (lookup_lt_Some _ _ _ Hk). rewrite list_lookup_insert_ne; [by apply Hit|].
    rewrite Z.mod_small by lia. lia.
  - destruct (k - length l)%nat as [|?] eqn:E; [|done]. injection Hx as <-.
    rewrite Z.mod_small by lia. replace (Z.to_nat (start_idx q + Z.of_nat k)) with (Z.to_nat (end_idx q)) by lia.
    apply list_lookup_insert_eq. lia.
Qed.

Section Opening.
Context {W : Type} `{EventIo W}.

Lemma create_connection_spec ep side r (w : W) r' w' fd l1 l2 :
  opening r l1 l2 ->
  create_unix_connection_and_add_to_epoll ep side r w = Ok (r', w', fd) ->
  available_1 r' = available_1 r /\ available_2 r' = available_2 r
  /\ tcp_to_unix r' = fill_n /\ unix_to_tcp r' = fill_n /\ round_robin_counter r' = 0
  /\ length (connection_1_fds r') = Z.to_nat kMaxConnections
  /\ (if side then in_table fd else True)
  /\ (forall u, in_table u -> connection_1_fds r' !! Z.to_nat u
        = Some (if bool_decide (u ∈ if side then l1 ++ [fd] else l1) then 1 else -1)).
Proof.
  intros [H1 H2 Hl Hc Ht Hq1 Hq2 _ _ Hrr] Hcr.
  unfold create_unix_connection_and_add_to_epoll in Hcr.
  apply bind_Ok_inv in Hcr as ([[r1 w1] fd1] & Hs & Hcr).
  assert (Heq : r' = r1 /\ fd = fd1).
  { apply bind_Ok_inv in Hcr as (? & _ & Hcr). destruct (make_socket_non_blocking _ _) as [w2 s].
    apply bind_Ok_inv in Hcr as (? & _ & Hcr). destruct (io_epoll_ctl _ _ _ _ _) as [w3 s2].
    apply bind_Ok_inv in Hcr as (? & _ & Hcr). by injection Hcr as <- _ <-. }
  destruct Heq as [-> ->]. clear Hcr. unfold create_unix_socket_connection in Hs.
  destruct (io_socket 1 w) as [w2 fd2]. apply bind_Ok_inv in Hs as (? & _ & Hs).
  destruct (io_connect _ _ _) as [w3 rc]. apply bind_Ok_inv in Hs as (? & _ & Hs).
  destruct side; [|injection Hs as <- _ <-; by split_and!].
  apply bind_Ok_inv in Hs as (c1 & Hset & Hs). injection Hs as <- _ <-.
  apply array_set_inv in Hset as [Hr ->]. rewrite Hl in Hr.
  assert (Hin : in_table fd2) by (unfold in_table, kMaxConnections in *; lia).
  cbn [available_1 available_2 tcp_to_unix unix_to_tcp round_robin_counter connection_1_fds].
  rewrite length_insert. split_and!; try done. intros u Hu.
  destruct (decide (u = fd2)) as [->|Hne].
  - rewrite list_lookup_insert_eq by (rewrite Hl; unfold in_table, kMaxConnections in *; lia).
    by rewrite bool_decide_eq_true_2 by set_solver.
  - rewrite list_lookup_insert_ne, Hc by (unfold in_table in *; lia || done). f_equal.
    destruct (decide (u ∈ l1)) as [Hin1|Hin1].
    + by rewrite !bool_decide_eq_true_2 by set_solver.
    + by rewrite !bool_decide_eq_false_2 by set_solver.
Qed.

Lemma open_connections_spec n ep r (w : W) r' w' l1 l2 :
  opening r l1 l2 -> open_connections n ep r w = Ok (r', w') ->
  exists k1 k2, length k1 = n /\ length k2 = n /\ opening r' (l1 ++ k1) (l2 ++ k2).
Proof.
  revert r w l1 l2. induction n as [|n IH]; intros r w l1 l2 Ho; cbn [open_connections].
  { intros [= <- _]. exists [], []. by rewrite !app_nil_r. }
  intros Hop. apply bind_Ok_inv in Hop as ([[r1 w1] fd1] & Hc1 & Hop).
  apply bind_Ok_inv in Hop as (q1 & Hp1 & Hop).
  apply bind_Ok_inv in Hop as ([[r2 w2] fd2] & Hc2 & Hop).
  apply bind_Ok_inv in Hop as (q2 & Hp2 & Hop).
  destruct (create_connection_spec _ _ _ _ _ _ _ _ _ Ho Hc1) as (A1 & A2 & A3 & A4 & A5 & A6 & A7 & A8).
  rewrite A1 in Hp1. destruct Ho as [_ _ _ _ Ht Hq1 Hq2 Hs1 Hs2 _].
  destruct (push_initial_spec _ _ _ _ Hq1 Hs1 Hp1) as [Hq1' Hs1'].
  assert (Ho1 : opening (mkRouter (tcp_to_unix r1) (unix_to_tcp r1) (connection_1_fds r1) q1
                           (available_2 r1) (round_robin_counter r1)) (l1 ++ [fd1]) l2).
  { split; cbn [tcp_to_unix unix_to_tcp connection_1_fds available_1 available_2 round_robin_counter];
      rewrite ?A2; try done. apply Forall_app. split; [done|by constructor]. }
  destruct (create_connection_spec _ _ _ _ _ _ _ _ _ Ho1 Hc2) as (B1 & B2 & B3 & B4 & B5 & B6 & _ & B8).
  cbn [available_1 available_2] in B1, B2. rewrite B2, A2 in Hp2.
  destruct (push_initial_spec _ _ _ _ Hq2 Hs2 Hp2) as [Hq2' Hs2'].
  assert (Ho2 : opening (mkRouter (tcp_to_unix r2) (unix_to_tcp r2) (connection_1_fds r2)
                           (available_1 r2) q2 (round_robin_counter r2)) (l1 ++ [fd1]) (l2 ++ [fd2])).
  { split; cbn [tcp_to_unix unix_to_tcp connection_1_fds available_1 available_2 round_robin_counter];
      rewrite ?B1; try done. apply Ho1. }
  destruct (IH _ _ _ _ Ho2 Hop) as (k1 & k2 & L1 & L2 & Hfin).
  exists (fd1 :: k1), (fd2 :: k2). rewrite <- !app_assoc in Hfin. cbn [length]. naive_solver.
Qed.

Lemma InitializeThreadPool_opens (w : W) r w' server_fd epoll_fd :
  InitializeThreadPool w = Ok (r, w', server_fd, epoll_fd) ->
  exists l1 l2, length l1 = kInitialUnixConnections /\ length l2 = kInitialUnixConnections
    /\ opening r l1 l2.
Proof.
  intros Hi. unfold InitializeThreadPool in Hi. apply bind_Ok_inv in Hi as ([w1 sfd] & _ & Hi).
  repeat (case_match; try done).
  apply bind_Ok_inv in Hi as (? & _ & Hi). apply bind_Ok_inv in Hi as (? & _ & Hi).
  apply bind_Ok_inv in Hi as ([rr ww] & Ho & Hi). injection Hi as <- _ _ _.
  by apply (open_connections_spec _ _ _ _ _ _ _ _ opening_new) in Ho.
Qed.

(** Initialization. A successful [InitializeThreadPool] leaves fifty idle connections
    in each queue and no pair; since the descriptors the system hands out are
    distinct and (as the arrays require) below 1000, the invariant of the pairing
    holds, the first queue being exactly the connections to the first server. *)
Theorem router_initialized (w : W) r w' server_fd epoll_fd :
  InitializeThreadPool w = Ok (r, w', server_fd, epoll_fd) ->
  exists l1 l2, length l1 = kInitialUnixConnections /\ length l2 = kInitialUnixConnections
    /\ queue_of (available_1 r) l1 /\ queue_of (available_2 r) l2
    /\ (NoDup (l1 ++ l2) -> Forall in_table l2 ->
        router_ok r (fun u => bool_decide (u ∈ l1)) l1 l2 ∅).
Proof.
  intros (l1 & l2 & L1 & L2 & [H1 H2 Hl Hc Ht Hq1 Hq2 _ _ Hrr])%InitializeThreadPool_opens.
  exists l1, l2. split_and!; [done..|]. intros (Hn1 & Hdis & Hn2)%NoDup_app Ht2.
  assert (Hnone : forall t u : Z, (∅ : gmap Z Z) !! t = Some u -> False)
    by (intros t u; by rewrite lookup_empty).
  split; try done; try (by intros t u Htu; destruct (Hnone t u Htu)).
  - by rewrite H1, H2, length_fill_n.
  - intros t Hin. rewrite H1, lookup_empty. by apply fill_n_get.
  - intros u Hin _. rewrite H2. by apply fill_n_get.
  - intros u Hin. eexists. split; [by apply Hc|]. cbn [app].
    by destruct (bool_decide (u ∈ l1)).
  - intros u Hu. split_and!; [by eapply Forall_forall in Ht|by apply bool_decide_eq_true_2|done..].
  - intros u Hu. split_and!; [by eapply Forall_forall in Ht2| |done..].
    apply bool_decide_eq_false_2. intros Hu1. by apply (Hdis u).
  - by rewrite Hrr.
Qed.
End Opening.

(** ** A concrete system *)

(** The world is the next descriptor the system hands out; nothing is ever read. *)
Definition counter_io : EventIo Z.
Proof.
  refine {|
    io_read := fun _ _ w => (w, ReadBytes []);
    io_write := fun _ _ w => w;
    io_close := fun _ w => w;
    io_accept := fun _ w => (w, (-1, kEAGAIN));
    io_getfl := fun _ w => (w, 2);
    io_setfl := fun _ _ w => (w, 0);
    io_epoll_ctl := fun _ _ _ _ w => (w, 0);
    io_socket := fun _ w => (w + 1, w);
    io_connect := fun _ _ w => (w, 0);
    io_setsockopt := fun _ _ w => (w, 0);
    io_inet_pton := fun _ w => (w, 1);
    io_bind := fun _ _ w => (w, 0);
    io_listen := fun _ w => (w, 0);
    io_epoll_create := fun w => (w + 1, w)
  |}.
  intros fd n w l [= <-]. simpl. lia.
Defined.

(** The router right after its initialization: the connections to the two servers are
    7, 9, ..., 105 and 8, 10, ..., 106. *)
Definition initial_router : router :=
  match @InitializeThreadPool Z counter_io 5 with Ok (r, _, _, _) => r | Fault _ => router_new end.

Definition idle_1 : list Z := (fun n => 7 + 2 * Z.of_nat n) <$> seq 0 kInitialUnixConnections.
Definition idle_2 : list Z := (fun n => 8 + 2 * Z.of_nat n) <$> seq 0 kInitialUnixConnections.

(** 1900 connections that come and go one after the other, then 102 that stay. *)
Definition many_connections : list router_event :=
  mjoin (replicate 1900 [Connect 200; Disconnect 200])
    ++ ((fun n => Connect (200 + Z.of_nat n)) <$> seq 0 102).

(** An exhausted queue is not noticed once its counters have wrapped. After 1900
    short connections and 102 lasting ones the descriptors 200 and 300 are both paired
    with the same connection to the first server, and what it sends for one of them
    goes to the other. *)
Theorem router_shares_connection :
  match @router_run Z counter_io many_connections initial_router 107 with
  | Ok (r, _) => route r 200 = Ok 7 /\ route r 300 = Ok 7 /\ route r 7 = Ok 300
  | Fault _ => False
  end.
Proof. vm_compute. by split_and!. Qed.

Lemma queue_of_initial q l :
  slots q = l ++ replicate (Z.to_nat kMaxConnections - length l) (-1) -> start_idx q = 0 ->
  end_idx q = Z.of_nat (length l) -> (length l <= 1000)%nat -> queue_of q l.
Proof.
  intros Hs Hst He Hl. split; rewrite ?Hs, ?Hst, ?He; unfold kMaxConnections, INT_MAX in *; try lia.
  - rewrite length_app, length_replicate. lia.
  - intros k x Hk. pose proof (lookup_lt_Some _ _ _ Hk). rewrite Z.mod_small by lia.
    replace (Z.to_nat (0 + Z.of_nat k)) with k by lia. by apply lookup_app_l_Some.
Qed.

Lemma router_initialized_witness :
  exists l1 l2, length l1 = kInitialUnixConnections /\ length l2 = kInitialUnixConnections
    /\ queue_of (available_1 initial_router) l1 /\ queue_of (available_2 initial_router) l2
    /\ (NoDup (l1 ++ l2) -> Forall in_table l2 ->
        router_ok initial_router (fun u => bool_decide (u ∈ l1)) l1 l2 ∅).
Proof. apply (@router_initialized Z counter_io 5 initial_router 107 5 6). vm_compute. reflexivity. Defined.

(** A router with one connection to each server. *)
Definition small_router : router :=
  mkRouter fill_n fill_n (<[7%nat := 1]> fill_n) (mkQueue (<[0%nat := 7]> fill_n) 0 1)
    (mkQueue (<[0%nat := 8]> fill_n) 0 1) 0.

Lemma small_router_ok : router_ok small_router (fun u => u =? 7) [7] [8] ∅.
Proof.
  assert (Hnone : forall t u : Z, (∅ : gmap Z Z) !! t = Some u -> False)
    by (intros t u; by rewrite lookup_empty).
  assert (Hin : forall u, in_table u -> (Z.to_nat u < 1000)%nat)
    by (unfold in_table, kMaxConnections; lia).
  split; try done; try (by intros t u Htu; destruct (Hnone t u Htu)).
  - intros t Ht. rewrite lookup_empty. by apply fill_n_get.
  - intros u Hu _. by apply fill_n_get.
  - intros u Hu. destruct (Z.eqb_spec u 7) as [->|Hne]; [by exists 1|].
    exists (-1). split; [|done]. unfold small_router. cbn [connection_1_fds].
    rewrite list_lookup_insert_ne by (unfold in_table in Hu; lia). by apply fill_n_get.
  - apply queue_of_initial; [vm_compute; reflexivity|reflexivity..|simpl; lia].
  - apply queue_of_initial; [vm_compute; reflexivity|reflexivity..|simpl; lia].
  - apply NoDup_singleton.
  - apply NoDup_singleton.
  - intros u ->%list_elem_of_singleton. done.
  - intros u ->%list_elem_of_singleton. done.
Qed.

Lemma router_pairs_witness :
  exists r' w' g1 g2 pairs',
    @router_run Z counter_io [Connect 200; Connect 201; Disconnect 200; Connect 202] small_router 5
    = Ok (r', w')
    /\ router_ok r' (fun u => u =? 7) g1 g2 pairs'
    /\ forall t u, pairs' !! t = Some u -> route r' t = Ok u /\ route r' u = Ok t.
Proof.
  apply (@router_pairs Z counter_io (fun u => u =? 7)
           [Connect 200; Connect 201; Disconnect 200; Connect 202] small_router [7] [8] ∅ 5).
  - apply small_router_ok.
  - by_decide.
  - by_decide.
  - by_decide.
  - assert (Hf : forall fd f1 f2 pairs, in_table fd -> pairs !! fd = None ->
      map_Forall (fun _ u => u <> fd) pairs -> (fd ∉ f1) -> (fd ∉ f2) -> fresh_fd f1 f2 pairs fd).
    { intros fd f1 f2 pairs H1 H2 H3 H4 H5. split_and!; try done. intros x Hx. by destruct (H3 _ _ Hx). }
    cbn [admissible small_router round_robin_counter].
    change (Z.rem 0 2 =? 0) with true. cbv iota.
    split; [apply Hf; by_decide|]. split; [apply Hf; by_decide|].
    change (Z.rem (0 + 1) 2 =? 0) with false. cbv iota.
    rewrite lookup_insert_ne, lookup_insert_eq by done. cbn [Z.eqb Pos.eqb app].
    split; [apply Hf; by_decide|exact I].
Defined.

Lemma HandleMessage_forwards_witness :
  exists w1 ls d, @reads _ loop_io 200 kBufferSize 0 ls ([bytes "GET"; bytes " /"], []) w1 d
    /\ (length (mjoin ls) = kBufferSize ->
        @HandleMessage _ loop_io 200 7 4 (replicate kBufferSize 0) small_router ([bytes "GET"; bytes " /"], [])
        = Fault CheckFailed)
    /\ (d = WouldBlock -> mjoin ls <> [] ->
        exists buf', @HandleMessage _ loop_io 200 7 4 (replicate kBufferSize 0) small_router
                       ([bytes "GET"; bytes " /"], [])
          = Ok (small_router, (w1.1, w1.2 ++ mjoin ls), buf'))
    /\ (d = EndOfFile -> mjoin ls <> [] ->
        @HandleMessage _ loop_io 200 7 4 (replicate kBufferSize 0) small_router ([bytes "GET"; bytes " /"], [])
        = Fault CheckFailed)
    /\ (d = EndOfFile -> mjoin ls = [] ->
        exists buf', @HandleMessage _ loop_io 200 7 4 (replicate kBufferSize 0) small_router
                       ([bytes "GET"; bytes " /"], [])
          = ('(r, w) ← @erase_from_maps _ loop_io 200 small_router w1; Ok (r, w, buf'))).
Proof.
  apply (@HandleMessage_forwards _ loop_io 200 7 4 (replicate kBufferSize 0) small_router
           ([bytes "GET"; bytes " /"], [])).
  - apply length_replicate.
  - intros fd w. reflexivity.
  - intros fd w. discriminate.
Defined.
