(* ===== verification/RouterThreads.v ===== *)
(** * RouterThreads: the threads of the proxy on its shared tables
    ([rinha/thread_pool_router.cc])

    The threads of the proxy share the tables indexed by descriptor and the two rings of
    idle connections without a lock; only the counters are atomic.  A comment in the source
    hopes that this is "probably thread safe since the threads shouldn't access the same
    index at the same time".  Here every load, store and [fetch_add] of [InitializeThreadPool],
    [HandleMessage] and [erase_from_maps] is a step of one thread, and steps of any number of
    threads interleave with clients and servers.  [Router] has the same operations as
    functions, for one thread. *)
From S2P Require Import Prelude EventIo Router.
#[local] Open Scope Z_scope.

(** [upd f a b]: the array [f] after the store of [b] at [a]. *)
Definition upd {A B} `{EqDecision A} (f : A -> B) (a : A) (b : B) : A -> B :=
  fun x => if decide (x = a) then b else f x.

(** A client is quiet, has sent a request that the proxy has not read, waits for the
    answer, or has closed its connection. *)
Inductive phase := Quiet | Asking | Waiting | Closed.

#[export] Instance phase_eq_dec : EqDecision phase.
Proof. solve_decision. Defined.

(** Where a thread is; [t] and [f] are descriptors, [u] that of a connection to a server,
    [p] the value a counter had before a [fetch_add]. *)
Inductive tpc :=
| Idle
| Accepted (t : Z) (b : bool)
| Taking (t : Z) (b : bool) (p : Z)
| Linking (t u : Z)
| Linking2 (t u : Z)
| Watching (t : Z)
| Routing (f : Z)
| Routing2 (f : Z)
| Handling (f d : Z)
| Rearming (f : Z)
| Erasing (f : Z)
| Erasing1 (f u : Z)
| Erasing2 (f u : Z)
| Erasing3 (f u : Z)
| Storing (f u p : Z)
| Closing (f : Z)
| Aborted.

(** Ghost state, where a connection to a server is: stored at a position of its ring, that
    position taken by a thread, in the hands of a thread, paired with a client's, or with a
    thread that has reserved a position for it. *)
Inductive place :=
| Queued (p : Z)
| Taken (i : nat) (p : Z)
| Held (i : nat)
| Linked (t : Z)
| Promised (i : nat) (p : Z).

(** The registration of a descriptor with epoll ([EPOLLONESHOT]): none, enabled, or
    disabled since the thread [i] has it to work on. *)
Inductive watch := Unwatched | Armed | Owned (i : nat).

#[export] Instance watch_eq_dec : EqDecision watch.
Proof. solve_decision. Defined.

Record proxy := mkProxy {
  t2u : Z -> Z;
  u2t : Z -> Z;
  ring : bool -> Z -> Z;
  first_idx : bool -> Z;
  last_idx : bool -> Z;
  counter : Z;
  threads : nat -> tpc;
  events : Z -> watch;
  (** The open client connections, each with a number of its own. *)
  client : Z -> option nat;
  next_client : nat;
  phases : nat -> phase;
  (** What the server on a connection has received and answered: the clients that asked. *)
  requests : Z -> list nat;
  replies : Z -> list nat;
  places : Z -> place;
  (** Every answer so far: the client that asked and the one that got it. *)
  delivered : list (nat * nat)
}.

(** ** Steps *)
Definition at_pc (w : proxy) (i : nat) (p : tpc) : proxy :=
  mkProxy (t2u w) (u2t w) (ring w) (first_idx w) (last_idx w) (counter w) (upd (threads w) i p)
    (events w) (client w) (next_client w) (phases w) (requests w) (replies w) (places w)
    (delivered w).
Definition set_t2u (w : proxy) (t u : Z) : proxy :=
  mkProxy (upd (t2u w) t u) (u2t w) (ring w) (first_idx w) (last_idx w) (counter w) (threads w)
    (events w) (client w) (next_client w) (phases w) (requests w) (replies w) (places w)
    (delivered w).
Definition set_u2t (w : proxy) (u t : Z) : proxy :=
  mkProxy (t2u w) (upd (u2t w) u t) (ring w) (first_idx w) (last_idx w) (counter w) (threads w)
    (events w) (client w) (next_client w) (phases w) (requests w) (replies w) (places w)
    (delivered w).
Definition set_events (w : proxy) (f : Z) (x : watch) : proxy :=
  mkProxy (t2u w) (u2t w) (ring w) (first_idx w) (last_idx w) (counter w) (threads w)
    (upd (events w) f x) (client w) (next_client w) (phases w) (requests w) (replies w) (places w)
    (delivered w).
Definition set_phase (w : proxy) (c : nat) (ph : phase) : proxy :=
  mkProxy (t2u w) (u2t w) (ring w) (first_idx w) (last_idx w) (counter w) (threads w)
    (events w) (client w) (next_client w) (upd (phases w) c ph) (requests w) (replies w) (places w)
    (delivered w).
Definition set_wire (w : proxy) (u : Z) (qs rs : list nat) : proxy :=
  mkProxy (t2u w) (u2t w) (ring w) (first_idx w) (last_idx w) (counter w) (threads w)
    (events w) (client w) (next_client w) (phases w) (upd (requests w) u qs) (upd (replies w) u rs)
    (places w) (delivered w).
Definition set_place (w : proxy) (u : Z) (x : place) : proxy :=
  mkProxy (t2u w) (u2t w) (ring w) (first_idx w) (last_idx w) (counter w) (threads w)
    (events w) (client w) (next_client w) (phases w) (requests w) (replies w) (upd (places w) u x)
    (delivered w).
(** [accept] returned [t], and the counter of the round robin was advanced. *)
Definition open_client (w : proxy) (t : Z) : proxy :=
  mkProxy (t2u w) (u2t w) (ring w) (first_idx w) (last_idx w) (wrap_int (counter w + 1))
    (threads w) (events w) (upd (client w) t (Some (next_client w))) (S (next_client w))
    (upd (phases w) (next_client w) Quiet) (requests w) (replies w) (places w) (delivered w).
Definition close_client (w : proxy) (t : Z) : proxy :=
  mkProxy (t2u w) (u2t w) (ring w) (first_idx w) (last_idx w) (counter w) (threads w)
    (events w) (upd (client w) t None) (next_client w) (phases w) (requests w) (replies w)
    (places w) (delivered w).
Definition take_first (w : proxy) (b : bool) : proxy :=
  mkProxy (t2u w) (u2t w) (ring w) (upd (first_idx w) b (wrap_int (first_idx w b + 1)))
    (last_idx w) (counter w) (threads w) (events w) (client w) (next_client w) (phases w)
    (requests w) (replies w) (places w) (delivered w).
Definition take_last (w : proxy) (b : bool) : proxy :=
  mkProxy (t2u w) (u2t w) (ring w) (first_idx w) (upd (last_idx w) b (wrap_int (last_idx w b + 1)))
    (counter w) (threads w) (events w) (client w) (next_client w) (phases w)
    (requests w) (replies w) (places w) (delivered w).
Definition set_slot (w : proxy) (b : bool) (k u : Z) : proxy :=
  mkProxy (t2u w) (u2t w) (upd (ring w) b (upd (ring w b) k u)) (first_idx w) (last_idx w)
    (counter w) (threads w) (events w) (client w) (next_client w) (phases w) (requests w)
    (replies w) (places w) (delivered w).

(** The answers [cs] reach the client behind [d], if there is one. *)
Definition deliver (w : proxy) (d : Z) (cs : list nat) : proxy :=
  match client w d with
  | None => w
  | Some c =>
      mkProxy (t2u w) (u2t w) (ring w) (first_idx w) (last_idx w) (counter w) (threads w)
        (events w) (client w) (next_client w)
        (upd (phases w) c (if decide (phases w c = Waiting) then Quiet else phases w c))
        (requests w) (replies w) (places w) (((fun a => (a, c)) <$> cs) ++ delivered w)
  end.

(** The index of a counter in its ring. *)
Definition slot_of (p : Z) : Z := Z.rem p kMaxConnections.

Section Steps.
(** The connections opened at the start, and which of them [connection_1_fds] marks. *)
Variable unix_fds : list Z.
Variable side : Z -> bool.
(** Whether a client may close its connection while it waits for an answer. *)
Variable impatient : bool.

(** [epoll_wait] has something to report. *)
Definition ready (w : proxy) (f : Z) : Prop :=
  if decide (f ∈ unix_fds) then replies w f <> []
  else exists c, client w f = Some c /\ (phases w c = Asking \/ phases w c = Closed).

Inductive step : proxy -> proxy -> Prop :=
(** Clients and servers. *)
| step_ask w t c :
    client w t = Some c -> phases w c = Quiet -> step w (set_phase w c Asking)
| step_hang_up w t c :
    client w t = Some c -> (phases w c = Quiet \/ impatient = true /\ phases w c = Waiting) ->
    step w (set_phase w c Closed)
| step_serve w u c cs :
    u ∈ unix_fds -> requests w u = c :: cs -> step w (set_wire w u cs (replies w u ++ [c]))
(** A new connection: the branch of the listening socket.  The descriptor is an index of the
    tables: the process has at most 1000 ([Router] has the fault beyond them). *)
| step_accept w i t :
    threads w i = Idle -> in_table t -> client w t = None -> t ∉ unix_fds ->
    step w (at_pc (set_events (open_client w t) t (Owned i)) i (Accepted t (Z.rem (counter w) 2 =? 0)))
| step_take w i t b :
    threads w i = Accepted t b ->
    step w (at_pc (set_place (take_first w b) (ring w b (slot_of (first_idx w b)))
                     (Taken i (first_idx w b))) i (Taking t b (first_idx w b)))
| step_load w i t b p u :
    threads w i = Taking t b p -> u = ring w b (slot_of p) -> u <> -1 ->
    step w (at_pc (set_place w u (Held i)) i (Linking t u))
| step_load_none w i t b p :
    threads w i = Taking t b p -> ring w b (slot_of p) = -1 -> step w (at_pc w i Aborted)
| step_link w i t u :
    threads w i = Linking t u -> step w (at_pc (set_t2u w t u) i (Linking2 t u))
| step_link2 w i t u :
    threads w i = Linking2 t u ->
    step w (at_pc (set_place (set_u2t w u t) u (Linked t)) i (Watching t))
| step_watch w i t :
    threads w i = Watching t -> step w (at_pc (set_events w t Armed) i Idle)
(** Data: the last branch and [HandleMessage]. *)
| step_event w i f :
    threads w i = Idle -> events w f = Armed -> ready w f ->
    step w (at_pc (set_events w f (Owned i)) i (Routing f))
| step_route w i f :
    threads w i = Routing f ->
    step w (at_pc w i (if decide (t2u w f = -1) then Routing2 f else Handling f (t2u w f)))
| step_route2 w i f :
    threads w i = Routing2 f ->
    step w (at_pc w i (if decide (u2t w f = -1) then Aborted else Handling f (u2t w f)))
| step_forward_request w i f d c :
    threads w i = Handling f d -> f ∉ unix_fds -> client w f = Some c -> phases w c = Asking ->
    step w (at_pc (set_wire (set_phase w c Waiting) d (requests w d ++ [c]) (replies w d)) i
              (Rearming f))
| step_forward_reply w i f d :
    threads w i = Handling f d -> f ∈ unix_fds ->
    step w (at_pc (set_wire (deliver w d (replies w f)) f (requests w f) []) i (Rearming f))
| step_end_of_file w i f d c :
    threads w i = Handling f d -> f ∉ unix_fds -> client w f = Some c -> phases w c = Closed ->
    step w (at_pc w i (Erasing f))
| step_rearm w i f :
    threads w i = Rearming f -> step w (at_pc (set_events w f Armed) i Idle)
(** [erase_from_maps]. *)
| step_erase w i f :
    threads w i = Erasing f ->
    step w (at_pc w i (if decide (t2u w f = -1) then Aborted else Erasing1 f (t2u w f)))
| step_erase1 w i f u :
    threads w i = Erasing1 f u ->
    step w (at_pc (set_place (set_u2t w u (-1)) u (Held i)) i (Erasing2 f u))
| step_erase2 w i f u :
    threads w i = Erasing2 f u -> step w (at_pc (set_t2u w f (-1)) i (Erasing3 f u))
| step_reserve w i f u :
    threads w i = Erasing3 f u ->
    step w (at_pc (set_place (take_last w (side u)) u (Promised i (last_idx w (side u)))) i
              (Storing f u (last_idx w (side u))))
| step_store w i f u p :
    threads w i = Storing f u p ->
    step w (at_pc (set_place (set_slot w (side u) (slot_of p) u) u (Queued p)) i (Closing f))
| step_close w i f :
    threads w i = Closing f -> step w (at_pc (set_events (close_client w f) f Unwatched) i Idle).

(** The connections of a ring at the start, in the order in which they were opened. *)
Definition idle_fds (b : bool) : list Z := filter (fun u => side u = b) unix_fds.

Definition index_of (u : Z) (l : list Z) : Z :=
  match list_find (eq u) l with Some (k, _) => Z.of_nat k | None => 0 end.

(** After the initialization; the ring is filled from index 0. *)
Definition proxy_start : proxy :=
  mkProxy (fun _ => -1) (fun _ => -1)
    (fun b k => if decide (0 <= k) then default (-1) (idle_fds b !! Z.to_nat k) else -1)
    (fun _ => 0) (fun b => Z.of_nat (length (idle_fds b))) 0 (fun _ => Idle)
    (fun f => if decide (f ∈ unix_fds) then Armed else Unwatched) (fun _ => None) 0 (fun _ => Quiet)
    (fun _ => []) (fun _ => []) (fun u => Queued (index_of u (idle_fds (side u)))) [].

(** What the environment is assumed to keep to: a thread that takes a position finds an
    idle connection stored there, the ring is not lapped before it has loaded it, and the
    counters stay below [INT_MAX]. *)
Definition calm (w : proxy) : Prop :=
  (forall i t b p, threads w i = Taking t b p ->
     p < last_idx w b <= p + kMaxConnections
     /\ forall j f u, threads w j = Storing f u p -> side u <> b)
  /\ forall b, last_idx w b < INT_MAX.

Definition calm_step (w w' : proxy) : Prop := step w w' /\ calm w'.

Definition reachable (w : proxy) : Prop := rtc calm_step proxy_start w.
End Steps.

(** ** Accesses *)
(** The cells of memory that are not atomic. *)
Inductive cell := CellTcp (f : Z) | CellUnix (u : Z) | CellRing (b : bool) (k : Z).

#[export] Instance cell_eq_dec : EqDecision cell.
Proof. solve_decision. Defined.

(** The next access of a thread: the cell and whether it is a store. *)
Definition next_access (side : Z -> bool) (pc : tpc) : option (cell * bool) :=
  match pc with
  | Taking _ b p => Some (CellRing b (slot_of p), false)
  | Linking t _ => Some (CellTcp t, true)
  | Linking2 _ u => Some (CellUnix u, true)
  | Routing f => Some (CellTcp f, false)
  | Routing2 f => Some (CellUnix f, false)
  | Erasing f => Some (CellTcp f, false)
  | Erasing1 _ u => Some (CellUnix u, true)
  | Erasing2 f _ => Some (CellTcp f, true)
  | Storing _ u p => Some (CellRing (side u) (slot_of p), true)
  | _ => None
  end.

(** The cells that exist. *)
Definition in_bounds (x : cell) : Prop :=
  match x with CellTcp f | CellUnix f => in_table f | CellRing _ k => in_table k end.

(** Two threads are about to access one cell, and one of them stores: a data race. *)
Definition race (side : Z -> bool) (w : proxy) (i j : nat) : Prop :=
  i <> j /\ exists x wr1 wr2,
    next_access side (threads w i) = Some (x, wr1)
    /\ next_access side (threads w j) = Some (x, wr2) /\ (wr1 || wr2) = true.
