(* ===== verification/RouterThreadsInv.v ===== *)
(** * RouterThreadsInv: the invariant of the proxy's threads

    Every connection to a server is in one place: at a position of its ring, in the hands of
    one thread, or paired with one client; a descriptor with an event is in the hands of one
    thread ([EPOLLONESHOT]).  Every step of [RouterThreads] keeps it, with clients that wait
    for their answers. *)
From S2P Require Import Prelude Router RouterThreads.
#[local] Open Scope Z_scope.

(** ** The invariant *)
Section Invariant.
Variable unix_fds : list Z.
Variable side : Z -> bool.

Definition linked (w : proxy) (t u : Z) : Prop := u ∈ unix_fds /\ places w u = Linked t.

Definition unlinked (w : proxy) (t : Z) : Prop := forall u, ~ linked w t u.

(** [i] works on the descriptor [t] of a client. *)
Definition owns_client (w : proxy) (i : nat) (t : Z) : Prop :=
  events w t = Owned i /\ (t ∉ unix_fds) /\ is_Some (client w t).

Definition opening (w : proxy) (i : nat) (t : Z) : Prop := owns_client w i t /\ unlinked w t.

Definition phase_is (w : proxy) (t : Z) (P : phase -> Prop) : Prop :=
  exists c, client w t = Some c /\ P (phases w c).

Definition pending (ph : phase) : Prop := ph = Asking \/ ph = Closed.

Definition leaving (w : proxy) (i : nat) (t : Z) : Prop :=
  owns_client w i t /\ phase_is w t (eq Closed).

(** [i] works on an event of the client [t], paired with [u]. *)
Definition speaking (w : proxy) (i : nat) (t u : Z) : Prop :=
  owns_client w i t /\ phase_is w t pending /\ linked w t u.

(** [i] works on answers of the server on [u]. *)
Definition answering (w : proxy) (i : nat) (u : Z) : Prop :=
  u ∈ unix_fds /\ events w u = Owned i /\ replies w u <> [].

(** [i] moves the connection [u]. *)
Definition moving (w : proxy) (u : Z) (x : place) : Prop := u ∈ unix_fds /\ places w u = x.

Definition pc_ok (w : proxy) (i : nat) (pc : tpc) : Prop :=
  match pc with
  | Idle => True
  | Accepted t _ => opening w i t
  | Taking t b p => opening w i t /\ exists u, side u = b /\ moving w u (Taken i p)
  | Linking t u => opening w i t /\ moving w u (Held i)
  | Linking2 t u => opening w i t /\ moving w u (Held i) /\ t2u w t = u
  | Watching t => owns_client w i t /\ exists u, linked w t u
  | Routing f => answering w i f \/ exists u, speaking w i f u
  | Routing2 f => answering w i f
  | Handling f d => answering w i f /\ linked w d f \/ speaking w i f d
  | Rearming f => events w f = Owned i /\ (f ∈ unix_fds \/ exists u, linked w f u)
  | Erasing f => leaving w i f /\ exists u, linked w f u
  | Erasing1 f u => leaving w i f /\ linked w f u
  | Erasing2 f u | Erasing3 f u => leaving w i f /\ unlinked w f /\ moving w u (Held i)
  | Storing f u p => leaving w i f /\ unlinked w f /\ moving w u (Promised i p)
  | Closing f => leaving w i f /\ unlinked w f
  | Aborted => False
  end.

Definition place_ok (w : proxy) (u : Z) (x : place) : Prop :=
  match x with
  | Queued p =>
      first_idx w (side u) <= p < last_idx w (side u) /\ ring w (side u) (slot_of p) = u
  | Taken i p =>
      0 <= p < last_idx w (side u) /\ ring w (side u) (slot_of p) = u
      /\ exists t, threads w i = Taking t (side u) p
  | Held _ => True
  | Linked t => u2t w u = t /\ t2u w t = u /\ is_Some (client w t)
  | Promised i p =>
      first_idx w (side u) <= p < last_idx w (side u) /\ exists f, threads w i = Storing f u p
  end.

Definition position (x : place) : option Z :=
  match x with Queued p | Taken _ p | Promised _ p => Some p | Held _ | Linked _ => None end.

(** The position [p] of the ring [b] is that of [u], stored there or about to be. *)
Definition occupies (w : proxy) (b : bool) (p u : Z) : Prop :=
  u ∈ unix_fds /\ side u = b /\ (places w u = Queued p \/ exists i, places w u = Promised i p).

(** What is on its way on a connection was asked by the client it is paired with. *)
Definition wire_ok (w : proxy) (u : Z) : Prop :=
  requests w u ++ replies w u = []
  \/ exists t c, places w u = Linked t /\ client w t = Some c /\ phases w c = Waiting
       /\ requests w u ++ replies w u = [c].

Record inv (w : proxy) : Prop := {
  iv_pc : forall i, pc_ok w i (threads w i);
  iv_place : forall u, u ∈ unix_fds -> place_ok w u (places w u);
  iv_position : forall u u' p, u ∈ unix_fds -> u' ∈ unix_fds -> side u = side u' ->
    position (places w u) = Some p -> position (places w u') = Some p -> u = u';
  iv_window : forall b p, first_idx w b <= p < last_idx w b -> exists u, occupies w b p u;
  iv_first : forall b, 0 <= first_idx w b <= last_idx w b;
  iv_unix : forall u, u ∈ unix_fds -> t2u w u = -1;
  iv_client : forall t c, client w t = Some c ->
    in_table t /\ (t ∉ unix_fds) /\ (c < next_client w)%nat
    /\ forall t', client w t' = Some c -> t' = t;
  iv_armed : forall t, events w t = Armed -> t ∈ unix_fds \/ exists u, linked w t u;
  iv_unwatched : forall t, t ∉ unix_fds -> client w t = None -> events w t = Unwatched;
  iv_wire : forall u, u ∈ unix_fds -> wire_ok w u;
  iv_delivered : Forall (fun p => p.1 = p.2) (delivered w)
}.

Lemma upd_eq {A B} `{EqDecision A} (f : A -> B) a b : upd f a b a = b.
Proof. unfold upd. by rewrite decide_True. Qed.

Lemma upd_ne {A B} `{EqDecision A} (f : A -> B) a b x : x <> a -> upd f a b x = f x.
Proof. intros Hx. unfold upd. by rewrite decide_False. Qed.

(** What a thread knows depends on the descriptors and connections it owns. *)
Record kept (w w' : proxy) (i : nat) : Prop := {
  kp_events : forall f, events w f = Owned i -> events w' f = Owned i;
  kp_client : forall f, events w f = Owned i -> client w' f = client w f;
  kp_t2u : forall f, events w f = Owned i -> t2u w' f = t2u w f;
  kp_replies : forall f, events w f = Owned i -> f ∈ unix_fds -> replies w f <> [] ->
    replies w' f <> [];
  kp_phase : forall f c, events w f = Owned i -> client w f = Some c -> pending (phases w c) ->
    phases w' c = phases w c;
  kp_linked : forall f u, events w f = Owned i -> (linked w' f u <-> linked w f u);
  kp_answer : forall f d, answering w i f -> linked w d f -> linked w' d f;
  kp_place : forall u x, u ∈ unix_fds -> places w u = x ->
    x = Held i \/ (exists p, x = Taken i p) \/ (exists p, x = Promised i p) -> places w' u = x
}.

Lemma kept_pc w w' i pc : kept w w' i -> pc_ok w i pc -> pc_ok w' i pc.
Proof.
  intros [Ke Kc Kt Kr Kp Kl Ka Kx].
  assert (Ho : forall t, owns_client w i t -> owns_client w' i t).
  { intros t (He & Hu & Hs). split; [auto|]. by rewrite Kc. }
  assert (Hn : forall t, owns_client w i t -> unlinked w t -> unlinked w' t).
  { intros t (He & _) Hn u Hl. apply (Hn u). by apply Kl. }
  assert (Hph : forall t P, owns_client w i t -> phase_is w t P -> (forall x, P x -> pending x) ->
            phase_is w' t P).
  { intros t P (He & _) (c & Hc & HP) Himp. exists c. rewrite Kc by done. split; [done|].
    rewrite (Kp t c) by auto. done. }
  assert (Hlv : forall t, leaving w i t -> leaving w' i t).
  { intros t (H1 & H2). split; [auto|]. apply Hph; [done..|]. intros x <-. by right. }
  assert (Hm : forall u x, x = Held i \/ (exists p, x = Taken i p) \/ (exists p, x = Promised i p) ->
            moving w u x -> moving w' u x).
  { intros u x Hx (H1 & H2). split; [done|]. by apply Kx. }
  assert (Hsp : forall t u, speaking w i t u -> speaking w' i t u).
  { intros t u (H1 & H2 & H3). split_and!; [auto|by apply Hph|]. apply Kl; [apply H1|done]. }
  assert (Han : forall u, answering w i u -> answering w' i u).
  { intros u (H1 & H2 & H3). split_and!; auto. }
  assert (Hlk : forall f u, events w f = Owned i -> linked w f u -> linked w' f u).
  { intros f u He. by apply Kl. }
  assert (Hop : forall t, opening w i t -> opening w' i t).
  { intros t (H1 & H2). split; auto. }
  destruct pc as [|t b|t b p|t u|t u|t|f|f|f d|f|f|f u|f u|f u|f u p|f|]; cbn [pc_ok]; auto.
  - intros (H1 & u & <- & H2). split; [auto|]. exists u. split; [done|]. apply Hm; eauto.
  - intros (H1 & H2). split; [auto|]. apply Hm; auto.
  - intros (H1 & H2 & <-). split_and!; [auto| |apply Kt, H1]. apply Hm; auto.
  - intros (H1 & u & H2). split; [auto|]. exists u. apply Hlk; [apply H1|done].
  - intros [H1|(u & H1)]; [left|right; exists u]; auto.
  - intros [(H1 & H2)|H1]; [left; split|right]; eauto.
  - intros (H1 & [H2|(u & H2)]); (split; [auto|]); [by left|right]. exists u. by apply Hlk.
  - intros (H1 & u & H3). split; [auto|]. exists u. apply Hlk; [apply H1|done].
  - intros (H1 & H3). split; [auto|]. apply Hlk; [apply H1|done].
  - intros (H1 & H2 & H3). split_and!; [auto|apply Hn; [apply H1|done]|]. apply Hm; auto.
  - intros (H1 & H2 & H3). split_and!; [auto|apply Hn; [apply H1|done]|]. apply Hm; auto.
  - intros (H1 & H2 & H3). split_and!; [auto|apply Hn; [apply H1|done]|]. apply Hm; eauto.
  - intros (H1 & H2). split_and!; [auto|apply Hn; [apply H1|done]].
Qed.

(** ** Rings *)
Hypothesis fds_fit : Z.of_nat (length unix_fds) <= kMaxConnections.
Hypothesis fds_table : forall u, u ∈ unix_fds -> in_table u.

Lemma fds_nonneg u : u ∈ unix_fds -> 0 <= u.
Proof. intros Hu. by apply fds_table. Qed.

Lemma position_occupies w u p :
  inv w -> u ∈ unix_fds -> position (places w u) = Some p ->
  (0 <= p < last_idx w (side u)) /\ (first_idx w (side u) <= p \/ exists i, places w u = Taken i p).
Proof.
  intros Hw Hu Hp. pose proof (iv_place _ Hw u Hu) as Hx. pose proof (iv_first _ Hw (side u)).
  destruct (places w u) as [q|i q|i|t|i q]; simpl in Hp; try done; injection Hp as ->; simpl in Hx.
  - destruct Hx as [? _]. split; [lia|by left; lia].
  - destruct Hx as (? & _). split; [lia|right; eauto].
  - destruct Hx as [? _]. split; [lia|by left; lia].
Qed.

Lemma occupants w b (n : nat) :
  inv w -> Z.of_nat n <= last_idx w b - first_idx w b ->
  exists l, NoDup l /\ length l = n
    /\ forall u, u ∈ l -> exists p, first_idx w b <= p < first_idx w b + Z.of_nat n /\ occupies w b p u.
Proof.
  intros Hw. induction n as [|n IH]; intros Hn.
  { exists []. split_and!; [constructor|done|by intros u ?%elem_of_nil]. }
  destruct IH as (l & N & L & F); [lia|].
  destruct (iv_window _ Hw b (first_idx w b + Z.of_nat n)) as (u & Hu); [lia|].
  exists (u :: l). simpl. split_and!; [|lia|].
  - constructor; [|done]. intros Hin. destruct (F u Hin) as (p & Hp & _ & _ & Ho).
    destruct Hu as (_ & _ & Hu).
    assert (position (places w u) = Some p) by (destruct Ho as [->|[? ->]]; done).
    assert (position (places w u) = Some (first_idx w b + Z.of_nat n))
      by (destruct Hu as [->|[? ->]]; done).
    assert (p = first_idx w b + Z.of_nat n) by congruence. lia.
  - intros v [->|Hv]%elem_of_cons.
    + exists (first_idx w b + Z.of_nat n). split; [lia|done].
    + destruct (F v Hv) as (p & Hp & Ho). exists p. split; [lia|done].
Qed.

Lemma window_size w b : inv w -> last_idx w b - first_idx w b <= kMaxConnections.
Proof.
  intros Hw. pose proof (iv_first _ Hw b).
  destruct (occupants w b (Z.to_nat (last_idx w b - first_idx w b)) Hw) as (l & N & L & F); [lia|].
  assert (Hs : l ⊆+ unix_fds).
  { apply NoDup_submseteq; [done|]. intros u Hu. by destruct (F u Hu) as (p & _ & Ho & _). }
  apply submseteq_length in Hs. lia.
Qed.

Lemma position_range w u p :
  inv w -> calm side w -> u ∈ unix_fds -> position (places w u) = Some p ->
  0 <= p /\ last_idx w (side u) - kMaxConnections <= p < last_idx w (side u).
Proof.
  intros Hw Hc Hu Hp. destruct (position_occupies w u p Hw Hu Hp) as [Hr Ht].
  pose proof (window_size w (side u) Hw). split; [lia|].
  destruct Ht as [Hf|(i & Hi)]; [lia|].
  pose proof (iv_place _ Hw u Hu) as Hx. rewrite Hi in Hx. destruct Hx as (_ & _ & t & Hx).
  destruct Hc as [Hc _]. apply Hc in Hx. lia.
Qed.

(** Different positions in use have different slots. *)
Lemma slots_apart w u u' p p' :
  inv w -> calm side w -> u ∈ unix_fds -> u' ∈ unix_fds -> side u = side u' ->
  position (places w u) = Some p -> position (places w u') = Some p' -> p <> p' ->
  slot_of p <> slot_of p'.
Proof.
  intros Hw Hc Hu Hu' Hs Hp Hp' Hne.
  destruct (position_range w u p Hw Hc Hu Hp). destruct (position_range w u' p' Hw Hc Hu' Hp').
  rewrite Hs in *. unfold slot_of. rewrite !Z.rem_mod_nonneg by (unfold kMaxConnections; lia).
  unfold kMaxConnections in *. lia.
Qed.

(** ** Steps that leave the rings alone *)
Definition off_ring (pc : tpc) : Prop :=
  match pc with Taking _ _ _ | Storing _ _ _ => False | _ => True end.

(** The place of [u] after the step: as before and still true, or changed between two
    places off the ring. *)
Definition place_follows (w w' : proxy) (u : Z) : Prop :=
  places w' u = places w u
  /\ (forall t, places w u = Linked t ->
        u2t w' u = u2t w u /\ t2u w' t = t2u w t /\ is_Some (client w' t))
  \/ position (places w u) = None /\ position (places w' u) = None
     /\ place_ok w' u (places w' u).

Record same_rings (w w' : proxy) : Prop := {
  sr_ring : ring w' = ring w;
  sr_first : first_idx w' = first_idx w;
  sr_last : last_idx w' = last_idx w
}.

Definition clients_ok (w : proxy) : Prop :=
  forall t c, client w t = Some c ->
    in_table t /\ (t ∉ unix_fds) /\ (c < next_client w)%nat
    /\ forall t', client w t' = Some c -> t' = t.

Lemma inv_move w w' i :
  inv w -> same_rings w w' ->
  (forall j, j <> i -> threads w' j = threads w j) ->
  (threads w' i = threads w i \/ off_ring (threads w i)) ->
  (forall u, u ∈ unix_fds -> place_follows w w' u) ->
  (forall j, j <> i -> kept w w' j) -> pc_ok w' i (threads w' i) ->
  (forall u, u ∈ unix_fds -> t2u w' u = -1) -> clients_ok w' ->
  (forall t, events w' t = Armed -> t ∈ unix_fds \/ exists u, linked w' t u) ->
  (forall t, t ∉ unix_fds -> client w' t = None -> events w' t = Unwatched) ->
  (forall u, u ∈ unix_fds -> wire_ok w' u) ->
  Forall (fun p => p.1 = p.2) (delivered w') -> inv w'.
Proof.
  intros Hw [Er Ef El] Hth Hi Hpl Hk Hpc Hu2 Hcl Ha Hun Hwi Hd.
  assert (Hpos : forall u, u ∈ unix_fds -> position (places w' u) = position (places w u)).
  { intros u Hu. destruct (Hpl u Hu) as [[-> _]|(-> & -> & _)]; done. }
  assert (Hthi : forall j, off_ring (threads w j) \/ threads w' j = threads w j).
  { intros j. destruct (decide (j = i)) as [->|Hj]; [destruct Hi; auto|auto]. }
  split; try done.
  - intros j. destruct (decide (j = i)) as [->|Hj]; [done|]. rewrite Hth by done.
    apply (kept_pc w); [by apply Hk|apply Hw].
  - intros u Hu. destruct (Hpl u Hu) as [[Eq Hl]|(_ & _ & H)]; [|done]. rewrite Eq.
    pose proof (iv_place _ Hw u Hu) as Hx.
    destruct (places w u) as [p|j p|j|t|j p]; simpl in *; rewrite ?Er, ?Ef, ?El; try done.
    + destruct Hx as (H1 & H2 & t & H3). split_and!; [lia|lia|done|]. exists t.
      destruct (Hthi j) as [Ho| ->]; [by rewrite H3 in Ho|done].
    + destruct (Hl t eq_refl) as (-> & -> & ?). destruct Hx as (? & ? & ?). done.
    + destruct Hx as (H1 & f & H3). split; [lia|]. exists f.
      destruct (Hthi j) as [Ho| ->]; [by rewrite H3 in Ho|done].
  - intros u u' p Hu Hu' Hs. rewrite !Hpos by done. by apply Hw.
  - intros b p. rewrite Ef, El. intros Hp. destruct (iv_window _ Hw b p Hp) as (u & Hu & Hs & Hx).
    exists u. split_and!; [done|done|].
    destruct (Hpl u Hu) as [[-> _]|(Hn & _)]; [done|]. by destruct Hx as [Hx|[j Hx]]; rewrite Hx in Hn.
  - rewrite Ef, El. apply Hw.
Qed.

(** ** Clients and servers *)
Ltac cases := unfold upd in *; repeat case_decide; subst; simplify_eq/=.

Lemma kept_refl w w' i :
  events w' = events w -> client w' = client w -> t2u w' = t2u w -> replies w' = replies w ->
  places w' = places w ->
  (forall f c, events w f = Owned i -> client w f = Some c -> pending (phases w c) ->
     phases w' c = phases w c) -> kept w w' i.
Proof.
  intros He Hc Ht Hr Hp Hph. split; unfold linked; rewrite ?He, ?Hc, ?Ht, ?Hr, ?Hp; try done.
Qed.

Lemma follows_refl w w' :
  places w' = places w -> u2t w' = u2t w -> t2u w' = t2u w ->
  (forall t, is_Some (client w t) -> is_Some (client w' t)) -> inv w ->
  forall u, u ∈ unix_fds -> place_follows w w' u.
Proof.
  intros Hp Hu Ht Hc Hw u Hin. left. rewrite Hp, Hu, Ht. split; [done|]. intros t Hl.
  pose proof (iv_place _ Hw u Hin) as Hx. rewrite Hl in Hx. destruct Hx as (_ & _ & ?). auto.
Qed.

Lemma same_rings_refl w w' :
  ring w' = ring w -> first_idx w' = first_idx w -> last_idx w' = last_idx w -> same_rings w w'.
Proof. by split. Qed.

(** A client changes its phase; nobody is working on its events. *)
Lemma set_phase_inv w t c ph :
  inv w -> client w t = Some c -> ~ pending (phases w c) ->
  (phases w c <> Waiting) -> inv (set_phase w c ph).
Proof.
  intros Hw Ht Hp Hq. apply (inv_move w _ 0%nat); simpl; try exact (iv_client _ Hw); try apply Hw; auto.
  - by apply same_rings_refl.
  - by apply follows_refl.
  - intros j _. apply kept_refl; try done. simpl. intros f c' _ _ Hc'. apply upd_ne. by intros ->.
  - apply (kept_pc w); [|apply Hw]. apply kept_refl; try done. simpl. intros f c' _ _ Hc'.
    apply upd_ne. by intros ->.
  - intros u Hu. destruct (iv_wire _ Hw u Hu) as [?|(t' & c' & H1 & H2 & H3 & H4)]; [by left|right].
    exists t', c'. simpl. split_and!; try done. rewrite upd_ne; [done|]. by intros ->.
Qed.

Lemma serve_inv w u c cs :
  inv w -> u ∈ unix_fds -> requests w u = c :: cs ->
  inv (set_wire w u cs (replies w u ++ [c])).
Proof.
  intros Hw Hu Hr.
  assert (Hk : forall j, kept w (set_wire w u cs (replies w u ++ [c])) j).
  { intros j. split; unfold linked, answering; simpl; try done.
    intros f _ _ Hf. unfold upd. case_decide; [|done]. by destruct (replies w u). }
  apply (inv_move w _ 0%nat); simpl; try exact (iv_client _ Hw); try apply Hw; auto.
  - by apply same_rings_refl.
  - by apply follows_refl.
  - apply (kept_pc w); [apply Hk|apply Hw].
  - intros v Hv. destruct (iv_wire _ Hw v Hv) as [H|(t' & c' & H1 & H2 & H3 & H4)].
    + left. simpl. cases; [by rewrite Hr in H|done].
    + right. exists t', c'. simpl. split_and!; try done. cases; [|done]. rewrite Hr in H4.
      injection H4 as -> H4. by apply app_eq_nil in H4 as [-> ->].
Qed.

(** ** Threads: new connections *)
Lemma unlinked_closed w t : inv w -> client w t = None -> unlinked w t.
Proof.
  intros Hw Hc u (Hu & Hl). pose proof (iv_place _ Hw u Hu) as Hx. rewrite Hl in Hx.
  destruct Hx as (_ & _ & [c Hx]). congruence.
Qed.

Lemma pc_at w i pc : inv w -> threads w i = pc -> pc_ok w i pc.
Proof. intros Hw <-. apply Hw. Qed.

Lemma accept_inv w i t b :
  inv w -> threads w i = Idle -> in_table t -> client w t = None -> t ∉ unix_fds ->
  inv (at_pc (set_events (open_client w t) t (Owned i)) i (Accepted t b)).
Proof.
  intros Hw Hi Ht Hc Hu. pose proof (unlinked_closed w t Hw Hc) as Hn.
  assert (Hne : forall f c, client w f = Some c -> f <> t /\ c <> next_client w).
  { intros f c Hf. split; [congruence|]. apply (iv_client _ Hw) in Hf. lia. }
  assert (Hph : forall f c, client w f = Some c ->
            upd (phases w) (next_client w) Quiet c = phases w c).
  { intros f c Hf. apply upd_ne. by apply (Hne f). }
  assert (Hk : forall j f, events w f = Owned j -> f <> t).
  { intros j f Hf ->. rewrite (iv_unwatched _ Hw) in Hf by done. done. }
  apply (inv_move w _ i); simpl.
  - done.
  - by apply same_rings_refl.
  - intros j Hj. by apply upd_ne.
  - right. by rewrite Hi.
  - apply follows_refl; try done. simpl. intros f Hf. cases; [by eexists|done].
  - intros j Hj. split; unfold linked, answering; simpl; try done.
    + intros f Hf. rewrite upd_ne; [done|]. by apply (Hk j).
    + intros f Hf. apply upd_ne. by apply (Hk j).
    + intros f c _ Hf _. by eapply Hph.
  - rewrite upd_eq. split; [split_and!; simpl|exact Hn].
    + apply upd_eq.
    + done.
    + rewrite upd_eq. by eexists.
  - apply Hw.
  - intros f c. simpl. unfold upd at 1. case_decide as Hd.
    + subst f. intros [= <-]. split_and!; [done|done|lia|].
      intros f. unfold upd. case_decide; [done|]. intros Hf. by destruct (Hne _ _ Hf).
    + intros Hf. destruct (iv_client _ Hw _ _ Hf) as (? & ? & ? & Hin). split_and!; [done|done|lia|].
      intros f'. unfold upd. case_decide; [|apply Hin]. intros [= <-]. by destruct (Hne _ _ Hf).
  - intros f. unfold upd. case_decide; [done|]. apply Hw.
  - intros f Hf. unfold upd. case_decide; [done|]. by apply Hw.
  - intros u Hin. destruct (iv_wire _ Hw u Hin) as [?|(t' & c' & H1 & H2 & H3 & H4)]; [by left|right].
    exists t', c'. simpl. destruct (Hne _ _ H2). rewrite !upd_ne by done. done.
  - apply Hw.
Qed.

Lemma link_inv w i t u :
  inv w -> threads w i = Linking t u -> inv (at_pc (set_t2u w t u) i (Linking2 t u)).
Proof.
  intros Hw Hi. destruct (pc_at _ _ _ Hw Hi) as ((Ho & Hn) & Hm). destruct Ho as (He & Hu & Hc).
  apply (inv_move w _ i); simpl; try exact (iv_client _ Hw); try apply Hw.
  - by apply same_rings_refl.
  - intros j Hj. by apply upd_ne.
  - right. by rewrite Hi.
  - intros v Hv. left. split; [done|]. simpl. intros t' Hl. rewrite upd_ne.
    + split_and!; try done. pose proof (iv_place _ Hw v Hv) as Hx. rewrite Hl in Hx. by destruct Hx as (_ & _ & ?).
    + intros ->. by apply (Hn v).
  - intros j Hj. split; try done. simpl. intros f Hf. apply upd_ne. intros ->. congruence.
  - rewrite upd_eq. split_and!; try done. simpl. apply upd_eq.
  - intros v Hv. rewrite upd_ne; [by apply Hw|]. by intros ->.
Qed.

Lemma link2_inv w i t u :
  inv w -> threads w i = Linking2 t u ->
  inv (at_pc (set_place (set_u2t w u t) u (Linked t)) i (Watching t)).
Proof.
  intros Hw Hi. destruct (pc_at _ _ _ Hw Hi) as ((Ho & Hn) & (Hu & Hm) & Ht).
  destruct Ho as (He & Htu & Hc).
  assert (Hl : forall f v, f <> t ->
    linked (at_pc (set_place (set_u2t w u t) u (Linked t)) i (Watching t)) f v <-> linked w f v).
  { intros f v Hf. unfold linked. simpl. unfold upd. case_decide; [|done]. subst v. rewrite Hm.
    split; intros [_ [=]]; done. }
  apply (inv_move w _ i); simpl; try exact (iv_client _ Hw); try apply Hw.
  - by apply same_rings_refl.
  - intros j Hj. by apply upd_ne.
  - right. by rewrite Hi.
  - intros v Hv. destruct (decide (v = u)) as [->|Hv'].
    + right. rewrite Hm. simpl. rewrite upd_eq. simpl. by rewrite upd_eq.
    + left. simpl. rewrite !upd_ne by done. split; [done|]. intros t' Hl'. split_and!; try done.
      pose proof (iv_place _ Hw v Hv) as Hx. rewrite Hl' in Hx. by destruct Hx as (_ & _ & ?).
  - intros j Hj. split; try done; simpl.
    + intros f v Hf. apply Hl. intros ->. congruence.
    + intros f d _ Hd. unfold linked in *. simpl. unfold upd. case_decide; [|done]. subst f.
      destruct Hd as [_ Hd]. congruence.
    + intros v x Hv Hx Ho. unfold upd. case_decide; [|done]. subst v. rewrite Hm in Hx. subst x.
      destruct Ho as [[= ->]|[[? [=]]|[? [=]]]]. done.
  - rewrite upd_eq. split; [done|]. exists u. split; [done|]. simpl. apply upd_eq.
  - intros f Hf. destruct (iv_armed _ Hw f Hf) as [?|(v & Hv)]; [by left|right]. exists v.
    apply Hl; [|done]. intros ->. congruence.
  - intros v Hv. destruct (iv_wire _ Hw v Hv) as [?|(t' & c' & H1 & H2 & H3 & H4)]; [by left|right].
    exists t', c'. simpl. rewrite upd_ne; [done|]. intros ->. congruence.
Qed.

Lemma watch_inv w i t :
  inv w -> threads w i = Watching t -> inv (at_pc (set_events w t Armed) i Idle).
Proof.
  intros Hw Hi. destruct (pc_at _ _ _ Hw Hi) as ((He & Htu & Hc) & u & Hl).
  apply (inv_move w _ i); simpl; try exact (iv_client _ Hw); try apply Hw.
  - by apply same_rings_refl.
  - intros j Hj. by apply upd_ne.
  - right. by rewrite Hi.
  - by apply follows_refl.
  - intros j Hj. split; unfold answering; simpl; try done. intros f Hf. rewrite upd_ne; [done|].
    intros ->. congruence.
  - by rewrite upd_eq.
  - intros f. unfold upd. case_decide; [|by apply Hw]. subst f. intros _. right. by exists u.
  - intros f Hf. unfold upd. case_decide; [|by apply Hw]. subst f. destruct Hc as [c Hc]. congruence.
Qed.

(** ** Threads: data *)
Lemma pc_inv w i pc : inv w -> off_ring (threads w i) -> pc_ok w i pc -> inv (at_pc w i pc).
Proof.
  intros Hw Hi Hp.
  assert (Hk : forall j, kept w (at_pc w i pc) j) by (intros j; by apply kept_refl).
  apply (inv_move w _ i); simpl; try exact (iv_client _ Hw); try apply Hw; auto.
  - by apply same_rings_refl.
  - intros j Hj. by apply upd_ne.
  - by apply follows_refl.
  - rewrite upd_eq. by apply (kept_pc w).
Qed.

Lemma linked_client w t u :
  inv w -> linked w t u -> (t ∉ unix_fds) /\ is_Some (client w t) /\ u2t w u = t /\ t2u w t = u.
Proof.
  intros Hw (Hu & Hl). pose proof (iv_place _ Hw u Hu) as Hx. rewrite Hl in Hx.
  destruct Hx as (H1 & H2 & [c Hc]). split_and!; [|by eexists|done|done].
  by apply (iv_client _ Hw) in Hc as (_ & ? & _).
Qed.

(** Answers are under way only to a client that waits. *)
Lemma replies_linked w u :
  inv w -> u ∈ unix_fds -> replies w u <> [] ->
  exists t c, linked w t u /\ client w t = Some c /\ phases w c = Waiting
    /\ requests w u = [] /\ replies w u = [c].
Proof.
  intros Hw Hu Hr. destruct (iv_wire _ Hw u Hu) as [H|(t & c & H1 & H2 & H3 & H4)].
  - by apply app_eq_nil in H as [_ ?].
  - exists t, c. split; [done|]. split_and!; try done.
    + destruct (requests w u) as [|x l]; [done|]. injection H4 as _ H4. by apply app_eq_nil in H4 as [_ ?].
    + destruct (requests w u) as [|x l]; [done|]. injection H4 as _ H4. by apply app_eq_nil in H4 as [_ ?].
Qed.

Lemma idle_wire w t u :
  inv w -> linked w t u -> ~ phase_is w t (eq Waiting) ->
  requests w u = [] /\ replies w u = [].
Proof.
  intros Hw (Hu & Hl) Hp. destruct (iv_wire _ Hw u Hu) as [H|(t' & c & H1 & H2 & H3 & H4)].
  - by apply app_eq_nil in H.
  - destruct Hp. rewrite Hl in H1. injection H1 as ->. by exists c.
Qed.

Lemma phase_excl w t P Q : phase_is w t P -> phase_is w t Q -> (forall x, P x -> Q x -> False) -> False.
Proof. intros (c & Hc & H1) (c' & Hc' & H2) Hx. simplify_eq. eauto. Qed.

Lemma event_inv w i f :
  inv w -> threads w i = Idle -> events w f = Armed -> ready unix_fds w f ->
  inv (at_pc (set_events w f (Owned i)) i (Routing f)).
Proof.
  intros Hw Hi He Hr.
  assert (Hk : forall j, kept w (set_events w f (Owned i)) j).
  { intros j. split; unfold answering; simpl; try done. intros g Hg. rewrite upd_ne; [done|].
    intros ->. congruence. }
  apply (inv_move w _ i); simpl; try exact (iv_client _ Hw); try apply Hw; auto.
  - by apply same_rings_refl.
  - intros j Hj. by apply upd_ne.
  - right. by rewrite Hi.
  - by apply follows_refl.
  - intros j Hj. destruct (Hk j). by split.
  - rewrite upd_eq. unfold ready in Hr. case_decide as Hf.
    + left. split_and!; simpl; [done|apply upd_eq|done].
    + right. destruct Hr as (c & Hc & Hp). destruct (iv_armed _ Hw f He) as [|(u & Hu)]; [done|].
      exists u. split_and!; [|by exists c|done].
      split_and!; simpl; [apply upd_eq|done|by exists c].
  - intros g. unfold upd. case_decide; [done|]. apply Hw.
  - intros g Hg Hc. unfold upd. case_decide; [|by apply Hw]. subst g.
    rewrite (iv_unwatched _ Hw) in He by done. done.
Qed.

Lemma route_inv w i f :
  inv w -> threads w i = Routing f ->
  inv (at_pc w i (if decide (t2u w f = -1) then Routing2 f else Handling f (t2u w f))).
Proof.
  intros Hw Hi. apply pc_inv; [done|by rewrite Hi|].
  destruct (pc_at _ _ _ Hw Hi) as [Ha|(u & Ho & Hp & Hl)].
  - destruct Ha as (Hf & ? & ?). rewrite (iv_unix _ Hw f Hf). by rewrite decide_True.
  - destruct (linked_client _ _ _ Hw Hl) as (_ & _ & _ & Ht). rewrite Ht.
    pose proof (fds_nonneg u (proj1 Hl)). rewrite decide_False by lia. by right.
Qed.

Lemma route2_inv w i f :
  inv w -> threads w i = Routing2 f ->
  inv (at_pc w i (if decide (u2t w f = -1) then Aborted else Handling f (u2t w f))).
Proof.
  intros Hw Hi. apply pc_inv; [done|by rewrite Hi|].
  pose proof (pc_at _ _ _ Hw Hi) as Ha. destruct Ha as (Hf & He & Hr).
  destruct (replies_linked _ _ Hw Hf Hr) as (t & c & Hl & Hc & _).
  destruct (linked_client _ _ _ Hw Hl) as (_ & _ & Ht & _). rewrite Ht.
  apply (iv_client _ Hw) in Hc as ([? _] & _). rewrite decide_False by lia. by left.
Qed.

Lemma end_of_file_inv w i f d c :
  inv w -> threads w i = Handling f d -> f ∉ unix_fds -> client w f = Some c ->
  phases w c = Closed -> inv (at_pc w i (Erasing f)).
Proof.
  intros Hw Hi Hf Hc Hp. apply pc_inv; [done|by rewrite Hi|].
  destruct (pc_at _ _ _ Hw Hi) as [[[? _] _]|(Ho & _ & Hl)]; [done|].
  split; [|by exists d]. split; [done|]. exists c. by rewrite Hp.
Qed.

Lemma rearm_inv w i f :
  inv w -> threads w i = Rearming f -> inv (at_pc (set_events w f Armed) i Idle).
Proof.
  intros Hw Hi. destruct (pc_at _ _ _ Hw Hi) as (He & Hf).
  apply (inv_move w _ i); simpl; try exact (iv_client _ Hw); try apply Hw; auto.
  - by apply same_rings_refl.
  - intros j Hj. by apply upd_ne.
  - right. by rewrite Hi.
  - by apply follows_refl.
  - intros j Hj. split; unfold answering; simpl; try done. intros g Hg. rewrite upd_ne; [done|].
    intros ->. congruence.
  - by rewrite upd_eq.
  - intros g. unfold upd. case_decide; [|by apply Hw]. by subst g.
  - intros g Hg Hc. unfold upd. case_decide; [|by apply Hw]. subst g.
    destruct Hf as [|(u & Hl)]; [done|]. destruct (linked_client _ _ _ Hw Hl) as (_ & [? ?] & _). congruence.
Qed.

Lemma forward_request_inv w i f d c :
  inv w -> threads w i = Handling f d -> f ∉ unix_fds -> client w f = Some c ->
  phases w c = Asking ->
  inv (at_pc (set_wire (set_phase w c Waiting) d (requests w d ++ [c]) (replies w d)) i
         (Rearming f)).
Proof.
  intros Hw Hi Hf Hc Hp.
  destruct (pc_at _ _ _ Hw Hi) as [[[? _] _]|((He & _ & Hs) & _ & Hl)]; [done|].
  destruct (idle_wire w f d Hw Hl) as [Hq Hr].
  { intros (c' & Hc' & Hx). congruence. }
  assert (Hne : forall g c', client w g = Some c' -> g <> f -> c' <> c).
  { intros g c' Hg Hgf ->. by apply (iv_client _ Hw _ _ Hc) in Hg. }
  apply (inv_move w _ i); simpl; try exact (iv_client _ Hw); try apply Hw; auto.
  - by apply same_rings_refl.
  - intros j Hj. by apply upd_ne.
  - right. by rewrite Hi.
  - by apply follows_refl.
  - intros j Hj. split; unfold linked, answering; simpl; try done.
    + intros g _ _ Hg. unfold upd. case_decide; [by subst g|done].
    + intros g c' Hg Hgc _. apply upd_ne. apply (Hne g); [done|]. intros ->. congruence.
  - rewrite upd_eq. split; [done|]. right. by exists d.
  - intros u Hu. destruct (decide (u = d)) as [->|Hud].
    + right. exists f, c. simpl. rewrite !upd_eq, Hq, Hr. by split_and!; [apply Hl|..].
    + destruct (iv_wire _ Hw u Hu) as [H|(t' & c' & H1 & H2 & H3 & H4)].
      * left. simpl. by rewrite !upd_ne.
      * right. exists t', c'. simpl. rewrite !(upd_ne _ d) by done. rewrite upd_ne; [done|]. congruence.
Qed.

Lemma forward_reply_inv w i f d :
  inv w -> threads w i = Handling f d -> f ∈ unix_fds ->
  inv (at_pc (set_wire (deliver w d (replies w f)) f (requests w f) []) i (Rearming f)).
Proof.
  intros Hw Hi Hf.
  destruct (pc_at _ _ _ Hw Hi) as [((_ & He & Hr) & Hd)|((_ & Hn & _) & _)]; [|done].
  destruct (replies_linked _ _ Hw Hf Hr) as (t & c & Hl & Hc & Hp & Hq & Hrc).
  assert (t = d) as -> by (destruct Hl as [_ Hl], Hd as [_ Hd]; congruence).
  unfold deliver. rewrite Hc, Hrc, Hq.
  apply (inv_move w _ i); simpl; try exact (iv_client _ Hw); try apply Hw; auto.
  - by apply same_rings_refl.
  - intros j Hj. by apply upd_ne.
  - right. by rewrite Hi.
  - by apply follows_refl.
  - intros j Hj. split; unfold linked, answering; simpl; try done.
    + intros g Hg _ Hgr. rewrite upd_ne; [done|]. intros ->. congruence.
    + intros g c' _ _ Hpe. apply upd_ne. intros ->. rewrite Hp in Hpe. by destruct Hpe.
  - rewrite upd_eq. split; [done|by left].
  - intros u Hu. destruct (decide (u = f)) as [->|Huf].
    + left. simpl. by rewrite !upd_eq.
    + destruct (iv_wire _ Hw u Hu) as [H|(t' & c' & H1 & H2 & H3 & H4)].
      * left. simpl. by rewrite !upd_ne.
      * right. exists t', c'. simpl. rewrite !(upd_ne _ f) by done. rewrite upd_ne; [done|].
        intros ->. apply (iv_client _ Hw _ _ Hc) in H2. subst t'.
        destruct Hl as [_ Hl]. pose proof (iv_place _ Hw u Hu) as Hx. rewrite H1 in Hx.
        pose proof (iv_place _ Hw f Hf) as Hy. rewrite Hl in Hy. simpl in Hx, Hy.
        destruct Hx as (_ & Hx & _), Hy as (_ & Hy & _). congruence.
  - constructor; [done|apply Hw].
Qed.

(** ** Threads: the end of a connection *)
Lemma erase_inv w i f :
  inv w -> threads w i = Erasing f ->
  inv (at_pc w i (if decide (t2u w f = -1) then Aborted else Erasing1 f (t2u w f))).
Proof.
  intros Hw Hi. apply pc_inv; [done|by rewrite Hi|].
  destruct (pc_at _ _ _ Hw Hi) as (Hlv & u & Hl).
  destruct (linked_client _ _ _ Hw Hl) as (_ & _ & _ & Ht). rewrite Ht.
  pose proof (fds_nonneg u (proj1 Hl)). by rewrite decide_False by lia.
Qed.

Lemma erase1_inv w i f u :
  inv w -> threads w i = Erasing1 f u ->
  inv (at_pc (set_place (set_u2t w u (-1)) u (Held i)) i (Erasing2 f u)).
Proof.
  intros Hw Hi. destruct (pc_at _ _ _ Hw Hi) as (((He & Hn & Hs) & Hp) & Hl).
  destruct (linked_client _ _ _ Hw Hl) as (_ & _ & Hut & Htu). destruct Hl as [Hu Hl].
  assert (Hlk : forall g v, g <> f ->
    linked (at_pc (set_place (set_u2t w u (-1)) u (Held i)) i (Erasing2 f u)) g v <-> linked w g v).
  { intros g v Hg. unfold linked. simpl. unfold upd. case_decide; [|done]. subst v. rewrite Hl.
    split; intros [_ [=]]; by subst. }
  apply (inv_move w _ i); simpl; try exact (iv_client _ Hw); try apply Hw; auto.
  - by apply same_rings_refl.
  - intros j Hj. by apply upd_ne.
  - right. by rewrite Hi.
  - intros v Hv. destruct (decide (v = u)) as [->|Hv'].
    + right. rewrite Hl. simpl. by rewrite upd_eq.
    + left. simpl. rewrite !upd_ne by done. split; [done|]. intros t' Hl'. split_and!; try done.
      pose proof (iv_place _ Hw v Hv) as Hx. rewrite Hl' in Hx. by destruct Hx as (_ & _ & ?).
  - intros j Hj. split; try done; simpl.
    + intros g v Hg. apply Hlk. intros ->. congruence.
    + intros g d (Hgu & Hge & Hgr) Hd. unfold linked in *. simpl. unfold upd. case_decide; [|done].
      subst g. destruct (idle_wire w f u Hw (conj Hu Hl)) as [_ Hr]; [|done].
      intros Hw'. eapply phase_excl; [exact Hp|exact Hw'|]. by intros x <-.
    + intros v x Hv Hx Ho. unfold upd. case_decide; [|done]. subst v. rewrite Hl in Hx. subst x.
      by destruct Ho as [[=]|[[? [=]]|[? [=]]]].
  - rewrite upd_eq. split_and!; try done.
    + intros v [Hv Hvl]. simpl in Hvl. unfold upd in Hvl. case_decide as Hd; [done|].
      pose proof (iv_place _ Hw v Hv) as Hx. rewrite Hvl in Hx. destruct Hx as (_ & Hx & _). congruence.
    + split; [done|]. simpl. apply upd_eq.
  - intros g Hg. destruct (iv_armed _ Hw g Hg) as [?|(v & Hv)]; [by left|right]. exists v.
    apply Hlk; [|done]. intros ->. congruence.
  - intros v Hv. destruct (iv_wire _ Hw v Hv) as [?|(t' & c' & H1 & H2 & H3 & H4)]; [by left|].
    destruct (decide (v = u)) as [->|Hvu].
    + left. destruct (idle_wire w f u Hw (conj Hu Hl)) as [Hq Hr].
      { intros Hw'. eapply phase_excl; [exact Hp|exact Hw'|]. by intros x <-. }
      simpl. by rewrite Hq, Hr.
    + right. exists t', c'. simpl. by rewrite upd_ne.
Qed.

Lemma erase2_inv w i f u :
  inv w -> threads w i = Erasing2 f u -> inv (at_pc (set_t2u w f (-1)) i (Erasing3 f u)).
Proof.
  intros Hw Hi. destruct (pc_at _ _ _ Hw Hi) as (Hlv & Hn & Hm).
  assert (Hf : f ∉ unix_fds) by apply Hlv.
  apply (inv_move w _ i); simpl; try exact (iv_client _ Hw); try apply Hw; auto.
  - by apply same_rings_refl.
  - intros j Hj. by apply upd_ne.
  - right. by rewrite Hi.
  - intros v Hv. left. split; [done|]. simpl. intros t' Hl. rewrite upd_ne.
    + split_and!; try done. by apply (linked_client w t' v Hw).
    + intros ->. by apply (Hn v).
  - intros j Hj. split; try done. simpl. intros g Hg. apply upd_ne. intros ->.
    destruct Hlv as ((He & _) & _). congruence.
  - rewrite upd_eq. done.
  - intros v Hv. rewrite upd_ne; [by apply Hw|]. by intros ->.
Qed.

Lemma closing_inv w i f :
  inv w -> threads w i = Closing f -> inv (at_pc (set_events (close_client w f) f Unwatched) i Idle).
Proof.
  intros Hw Hi. destruct (pc_at _ _ _ Hw Hi) as (((He & Hf & [c0 Hc0]) & Hp) & Hn).
  apply (inv_move w _ i); simpl; try apply Hw; auto.
  - by apply same_rings_refl.
  - intros j Hj. by apply upd_ne.
  - right. by rewrite Hi.
  - intros v Hv. left. split; [done|]. simpl. intros t' Hl.
    destruct (linked_client w t' v Hw (conj Hv Hl)) as (_ & Hs & _).
    rewrite upd_ne; [done|]. intros ->. by apply (Hn v).
  - intros j Hj. split; unfold answering; simpl; try done.
    + intros g Hg. rewrite upd_ne; [done|]. intros ->. congruence.
    + intros g Hg. apply upd_ne. intros ->. congruence.
  - by rewrite upd_eq.
  - intros t c. simpl. unfold upd at 1. case_decide; [done|]. intros Hc.
    destruct (iv_client _ Hw _ _ Hc) as (? & ? & ? & Hin). split_and!; try done.
    intros t'. unfold upd. case_decide; [done|]. apply Hin.
  - intros t. unfold upd. case_decide; [done|]. apply Hw.
  - intros t Ht. unfold upd. case_decide; [done|]. by apply Hw.
  - intros u Hu. destruct (iv_wire _ Hw u Hu) as [?|(t' & c' & H1 & H2 & H3 & H4)]; [by left|right].
    exists t', c'. simpl. rewrite upd_ne; [done|]. intros ->. by apply (Hn u).
Qed.

(** ** Threads: the rings *)
(** The descriptors and clients are untouched; only the place of [u] changes, which belongs
    to [i] or to nobody. *)
Lemma kept_place w w' i u x :
  events w' = events w -> client w' = client w -> t2u w' = t2u w -> replies w' = replies w ->
  phases w' = phases w -> places w' = upd (places w) u x ->
  (forall t, x <> Linked t) -> (forall t, places w u <> Linked t) ->
  (forall j p, j <> i ->
     (places w u <> Held j) /\ (places w u <> Taken j p) /\ places w u <> Promised j p) ->
  forall j, j <> i -> kept w w' j.
Proof.
  intros He Hc Ht Hr Hph Hp Hx Hul Hno j Hj.
  assert (Hl : forall t v, linked w' t v <-> linked w t v).
  { intros t v. unfold linked. rewrite Hp. unfold upd. case_decide; [|done]. subst v.
    split; intros [_ H]; [by apply Hx in H|by apply Hul in H]. }
  split; rewrite ?He, ?Hc, ?Ht, ?Hr, ?Hph; try done.
  - intros f d _. by rewrite Hl.
  - intros v y Hv Hy Ho. rewrite Hp. unfold upd. case_decide; [|done]. subst v y.
    destruct (Hno j 0 Hj) as (H1 & _). destruct Ho as [Ho|[[p Ho]|[p Ho]]]; [done|..];
      destruct (Hno j p Hj) as (_ & ? & ?); done.
Qed.

Lemma place_threads w w' u x :
  place_ok w u x -> same_rings w w' -> u2t w' = u2t w -> t2u w' = t2u w -> client w' = client w ->
  (forall i p, x = Taken i p \/ x = Promised i p -> threads w' i = threads w i) ->
  place_ok w' u x.
Proof.
  intros Hx [Er Ef El] Hu Ht Hc Hth.
  destruct x as [p|i p|i|t|i p]; simpl in *; rewrite ?Er, ?Ef, ?El, ?Hu, ?Ht, ?Hc; try done.
  - rewrite (Hth i p) by auto. done.
  - rewrite (Hth i p) by auto. done.
Qed.

(** A step on a ring: only the place of [u] changes, and it stays unpaired. *)
Record same_clients (w w' : proxy) : Prop := {
  sc_events : events w' = events w;
  sc_client : client w' = client w;
  sc_next : next_client w' = next_client w;
  sc_t2u : t2u w' = t2u w;
  sc_u2t : u2t w' = u2t w;
  sc_phases : phases w' = phases w;
  sc_requests : requests w' = requests w;
  sc_replies : replies w' = replies w;
  sc_delivered : delivered w' = delivered w
}.

Lemma inv_ring w w' i u x :
  inv w -> same_clients w w' -> places w' = upd (places w) u x ->
  (forall t, x <> Linked t) -> (forall t, places w u <> Linked t) ->
  (forall j p, j <> i ->
     (places w u <> Held j) /\ (places w u <> Taken j p) /\ places w u <> Promised j p) ->
  (forall j, j <> i -> threads w' j = threads w j) -> pc_ok w' i (threads w' i) ->
  (forall v, v ∈ unix_fds -> place_ok w' v (places w' v)) ->
  (forall v v' p, v ∈ unix_fds -> v' ∈ unix_fds -> side v = side v' ->
     position (places w' v) = Some p -> position (places w' v') = Some p -> v = v') ->
  (forall b p, first_idx w' b <= p < last_idx w' b -> exists v, occupies w' b p v) ->
  (forall b, 0 <= first_idx w' b <= last_idx w' b) -> inv w'.
Proof.
  intros Hw [Ee Ec En Et Eu Ep Eq Er Ed] Hp Hx Hul Hno Hth Hpc Hpl Hpo Hwi Hf.
  split; try done.
  - intros j. destruct (decide (j = i)) as [->|Hj]; [done|]. rewrite Hth by done.
    apply (kept_pc w); [|apply Hw]. by apply (kept_place w w' i u x).
  - rewrite Et. apply Hw.
  - rewrite Ec, En. apply (iv_client _ Hw).
  - intros t. rewrite Ee. intros Ha. destruct (iv_armed _ Hw t Ha) as [?|(v & Hv & Hl)]; [by left|right].
    exists v. split; [done|]. rewrite Hp, upd_ne; [done|]. intros ->. by apply Hul in Hl.
  - intros t. rewrite Ee, Ec. apply Hw.
  - intros v Hv. unfold wire_ok. rewrite Ec, Ep, Eq, Er, Hp.
    destruct (iv_wire _ Hw v Hv) as [?|(t' & c' & H1 & H2)]; [by left|right].
    exists t', c'. rewrite upd_ne; [done|]. intros ->. by apply Hul in H1.
  - rewrite Ed. apply Hw.
Qed.

(** A connection that leaves its ring for the hands of [i], or that [i] holds, belongs to
    nobody else. *)
Lemma nobody_else w u i y :
  places w u = y -> (y = Held i \/ (exists p, y = Taken i p \/ y = Promised i p \/ y = Queued p)) ->
  (forall t, places w u <> Linked t)
  /\ forall j p, j <> i ->
       (places w u <> Held j) /\ (places w u <> Taken j p) /\ places w u <> Promised j p.
Proof.
  intros -> Hy. split; [|intros j p Hj; split_and!];
    destruct Hy as [->|(q & [->|[->| ->]])]; congruence.
Qed.

(** The oldest position holds an idle connection, unless a thread is about to store it. *)
Lemma oldest_queued w b :
  inv w -> first_idx w b < last_idx w b ->
  (forall j f u, threads w j = Storing f u (first_idx w b) -> side u <> b) ->
  exists u, u ∈ unix_fds /\ side u = b /\ places w u = Queued (first_idx w b)
    /\ ring w b (slot_of (first_idx w b)) = u.
Proof.
  intros Hw Hp Hst. destruct (iv_window _ Hw b (first_idx w b)) as (u & Hu & Hs & Hx); [lia|].
  exists u. split_and!; [done|done|..].
  - destruct Hx as [Hx|[j Hx]]; [done|]. pose proof (iv_place _ Hw u Hu) as Hy. rewrite Hx in Hy.
    destruct Hy as (_ & f & Hj). by destruct (Hst j f u Hj).
  - pose proof (iv_place _ Hw u Hu) as Hy. destruct Hx as [Hx|[j Hx]]; rewrite Hx in Hy; simpl in Hy.
    + rewrite Hs in Hy. apply Hy.
    + destruct Hy as (_ & f & Hj). by destruct (Hst j f u Hj).
Qed.

Lemma take_inv w i t b :
  inv w -> threads w i = Accepted t b ->
  let w' := at_pc (set_place (take_first w b) (ring w b (slot_of (first_idx w b)))
                     (Taken i (first_idx w b))) i (Taking t b (first_idx w b)) in
  calm side w' -> inv w'.
Proof.
  intros Hw Hi w' [Hc Hmax]. set (p := first_idx w b) in *.
  assert (Ht : threads w' i = Taking t b p) by (simpl; apply upd_eq).
  destruct (Hc i t b p Ht) as [Hp Hst]. simpl in Hp.
  pose proof (iv_first _ Hw b) as Hfb. pose proof (Hmax b) as Hmb. simpl in Hmb.
  assert (Hwrap : wrap_int (p + 1) = p + 1).
  { apply wrap_int_id. unfold is_int, INT_MIN, INT_MAX in *. fold p in Hfb. lia. }
  assert (Hth : forall j, j <> i -> threads w' j = threads w j) by (intros j Hj; simpl; by apply upd_ne).
  destruct (oldest_queued w b Hw) as (u & Hu & Hs & Hq & Hr); [fold p; lia|fold p..].
  { intros j f u Hj. destruct (decide (j = i)) as [->|Hji]; [congruence|].
    apply (Hst j f u). by rewrite Hth. }
  fold p in Hq, Hr.
  assert (Hpl : places w' = upd (places w) u (Taken i p)) by (subst w'; simpl; by rewrite Hr).
  assert (Hpos : forall v, position (places w' v) = position (places w v)).
  { intros v. rewrite Hpl. unfold upd. case_decide; [|done]. subst v. by rewrite Hq. }
  destruct (nobody_else w u i (Queued p) Hq) as [Hul Hno]; [right; eauto|].
  assert (Hnot : forall v q, v ∈ unix_fds -> v <> u -> position (places w v) = Some q ->
            side v = b -> q <> p).
  { intros v q Hv Hvu Hpv Hsv ->. apply Hvu. apply (iv_position _ Hw v u p); try done; [congruence|].
    by rewrite Hq. }
  assert (Hfirst : forall v q, v ∈ unix_fds -> v <> u -> position (places w v) = Some q ->
            first_idx w (side v) <= q -> first_idx w' (side v) <= q).
  { intros v q Hv Hvu Hpv Hle. simpl. unfold upd. case_decide as Hb; [|done].
    pose proof (Hnot v q Hv Hvu Hpv Hb). rewrite Hb in Hle. fold p in Hle |- *. rewrite Hwrap. lia. }
  apply (inv_ring w w' i u (Taken i p)); try done.
  - rewrite Ht. destruct (pc_at _ _ _ Hw Hi) as (Ho & Hn). split.
    + split; [exact Ho|]. intros v [Hv Hl]. rewrite Hpl in Hl. unfold upd in Hl. case_decide; [done|].
      by apply (Hn v).
    + exists u. split; [done|]. split; [done|]. rewrite Hpl. apply upd_eq.
  - intros v Hv. rewrite Hpl. unfold upd at 1. case_decide as Hvu.
    + subst v. simpl. rewrite Hs. split_and!; [lia|lia|done|]. exists t. apply upd_eq.
    + pose proof (iv_place _ Hw v Hv) as Hxv. pose proof (Hfirst v) as Hfv.
      destruct (places w v) as [q|j q|j|t'|j q] eqn:E; simpl in Hxv, Hfv; try done.
      * destruct Hxv as [H1 H2]. split; [|done]. split; [apply Hfv; try done; lia|simpl; lia].
      * destruct Hxv as (H1 & H2 & t' & H3). split; [exact H1|]. split; [done|]. exists t'. rewrite Hth; [done|].
        intros ->. congruence.
      * destruct Hxv as (H1 & f & H3). split; [split; [apply Hfv; try done; lia|simpl; lia]|].
        exists f. rewrite Hth; [done|]. intros ->. congruence.
  - intros v v' q. rewrite !Hpos. apply Hw.
  - intros b' q Hq'. destruct (iv_window _ Hw b' q) as (v & Hv & Hsv & Hxv).
    { simpl in Hq'. unfold upd in Hq'. case_decide; [|done]. subst b'. fold p in Hq'. rewrite Hwrap in Hq'.
      fold p. lia. }
    exists v. split_and!; [done|done|]. rewrite Hpl, upd_ne; [done|]. intros ->.
    assert (q = p) as -> by (destruct Hxv as [Hxv|[? Hxv]]; congruence).
    simpl in Hq'. unfold upd in Hq'. rewrite Hs in Hsv. subst b'. rewrite decide_True in Hq' by done.
    fold p in Hq'. rewrite Hwrap in Hq'. lia.
  - intros b'. simpl. unfold upd. case_decide; [|apply Hw]. subst b'. fold p. rewrite Hwrap. fold p in Hfb. lia.
Qed.

Lemma taken_slot w i t b p :
  inv w -> threads w i = Taking t b p ->
  exists u, u ∈ unix_fds /\ side u = b /\ places w u = Taken i p /\ ring w b (slot_of p) = u.
Proof.
  intros Hw Hi. destruct (pc_at _ _ _ Hw Hi) as (_ & u & Hs & Hu & Hx). exists u.
  pose proof (iv_place _ Hw u Hu) as Hy. rewrite Hx in Hy. destruct Hy as (_ & Hy & _).
  rewrite Hs in Hy. done.
Qed.

Lemma load_inv w i t b p u :
  inv w -> threads w i = Taking t b p -> u = ring w b (slot_of p) ->
  inv (at_pc (set_place w u (Held i)) i (Linking t u)).
Proof.
  intros Hw Hi ->. destruct (taken_slot _ _ _ _ _ Hw Hi) as (u & Hu & Hs & Hx & ->).
  destruct (nobody_else w u i (Taken i p) Hx) as [Hul Hno]; [right; eauto|].
  assert (Hth : forall j, j <> i -> upd (threads w) i (Linking t u) j = threads w j)
    by (intros j Hj; by apply upd_ne).
  apply (inv_ring w _ i u (Held i)); simpl; try done.
  - rewrite upd_eq. destruct (pc_at _ _ _ Hw Hi) as ((Ho & Hn) & _). split; [split|].
    + exact Ho.
    + intros v [Hv Hl]. simpl in Hl. unfold upd in Hl. case_decide; [done|]. by apply (Hn v).
    + split; [done|]. apply upd_eq.
  - intros v Hv. unfold upd at 1. case_decide as Hvu; [done|]. pose proof (iv_place _ Hw v Hv) as Hy.
    apply (place_threads w); try done. intros j q Hj. simpl. apply Hth. intros ->.
    destruct Hj as [Hj|Hj]; rewrite Hj in Hy; simpl in Hy.
    + destruct Hy as (_ & _ & t' & Ht). assert (q = p) as -> by congruence. apply Hvu.
      apply (iv_position _ Hw v u p); try done; [congruence|by rewrite Hj|by rewrite Hx].
    + destruct Hy as (_ & f & Hy). congruence.
  - intros v v' q Hv Hv' Hss. unfold upd. repeat case_decide; try done. by apply Hw.
  - intros b' q Hq. destruct (iv_window _ Hw b' q Hq) as (v & Hv & Hsv & Hxv).
    exists v. split_and!; [done|done|]. simpl. rewrite upd_ne; [done|]. intros ->.
    destruct Hxv as [Hxv|[? Hxv]]; congruence.
  - apply Hw.
Qed.

Lemma reserve_inv w i f u :
  inv w -> last_idx w (side u) < INT_MAX -> threads w i = Erasing3 f u ->
  inv (at_pc (set_place (take_last w (side u)) u (Promised i (last_idx w (side u)))) i
         (Storing f u (last_idx w (side u)))).
Proof.
  intros Hw Hmax Hi. destruct (pc_at _ _ _ Hw Hi) as (Hlv & Hn & Hu & Hx).
  set (p := last_idx w (side u)) in *. pose proof (iv_first _ Hw (side u)) as Hf. fold p in Hf.
  assert (Hwrap : wrap_int (p + 1) = p + 1).
  { apply wrap_int_id. unfold is_int, INT_MIN, INT_MAX in *. lia. }
  destruct (nobody_else w u i (Held i) Hx) as [Hul Hno]; [by left|].
  assert (Hth : forall j, j <> i -> upd (threads w) i (Storing f u p) j = threads w j)
    by (intros j Hj; by apply upd_ne).
  assert (Hl : forall b, last_idx w b <= upd (last_idx w) (side u) (wrap_int (p + 1)) b).
  { intros b. unfold upd. case_decide; [|lia]. subst b. fold p. lia. }
  assert (Hnew : forall v q, v ∈ unix_fds -> v <> u -> side v = side u ->
            position (places w v) = Some q -> q <> p).
  { intros v q Hv Hvu Hs Hq ->. destruct (position_occupies w v p Hw Hv Hq) as [? _].
    rewrite Hs in *. fold p in H. lia. }
  apply (inv_ring w _ i u (Promised i p)); simpl; fold p; try done.
  - rewrite upd_eq. split; [exact Hlv|]. split.
    + intros v [Hv Hvl]. simpl in Hvl. unfold upd in Hvl. case_decide; [done|]. by apply (Hn v).
    + split; [done|]. apply upd_eq.
  - intros v Hv. unfold upd at 1. case_decide as Hvu.
    + subst v. simpl. fold p. rewrite !upd_eq, Hwrap. split; [lia|]. by exists f.
    + pose proof (iv_place _ Hw v Hv) as Hy. pose proof (Hl (side v)).
      destruct (places w v) as [q|j q|j|t'|j q] eqn:E; simpl in Hy |- *; fold p; try done.
      * destruct Hy as [? ?]. split; [lia|done].
      * destruct Hy as (? & ? & t & Ht). split; [lia|]. split; [done|]. exists t.
        rewrite Hth; [done|]. intros ->. congruence.
      * destruct Hy as (? & g & Hg). split; [lia|]. exists g. rewrite Hth; [done|]. intros ->. congruence.
  - intros v v' q Hv Hv' Hs. unfold upd. repeat case_decide; subst; try done; simpl.
    + intros [= <-] Hq. by destruct (Hnew v' p).
    + intros Hq [= <-]. by destruct (Hnew v p).
    + by apply Hw.
  - intros b q Hq. destruct (decide (q < last_idx w b)) as [Hlt|Hge].
    + destruct (iv_window _ Hw b q) as (v & Hv & Hsv & Hxv); [lia|].
      exists v. split_and!; [done|done|]. simpl. rewrite upd_ne; [done|]. intros ->.
      destruct Hxv as [Hxv|[? Hxv]]; congruence.
    + unfold upd in Hq. case_decide as Hb; [|lia]. subst b. fold p in Hge. exists u.
      split_and!; [done|done|]. right. exists i. simpl. rewrite upd_eq. f_equal. lia.
  - intros b. pose proof (iv_first _ Hw b). pose proof (Hl b). lia.
Qed.

Lemma store_inv w i f u p :
  inv w -> calm side w -> threads w i = Storing f u p ->
  inv (at_pc (set_place (set_slot w (side u) (slot_of p) u) u (Queued p)) i (Closing f)).
Proof.
  intros Hw Hc Hi. destruct (pc_at _ _ _ Hw Hi) as (Hlv & Hn & Hu & Hx).
  destruct (nobody_else w u i (Promised i p) Hx) as [Hul Hno]; [right; eauto|].
  assert (Hth : forall j, j <> i -> upd (threads w) i (Closing f) j = threads w j)
    by (intros j Hj; by apply upd_ne).
  assert (Hr : forall v q, v ∈ unix_fds -> v <> u -> position (places w v) = Some q ->
            upd (ring w) (side u) (upd (ring w (side u)) (slot_of p) u) (side v) (slot_of q)
            = ring w (side v) (slot_of q)).
  { intros v q Hv Hvu Hq. unfold upd at 1. case_decide as Hs; [|done]. rewrite Hs. apply upd_ne.
    apply (slots_apart w v u q p); try done; [by rewrite Hx|]. intros ->. apply Hvu.
    apply (iv_position _ Hw v u p); try done. by rewrite Hx. }
  apply (inv_ring w _ i u (Queued p)); simpl; try done.
  - rewrite upd_eq. split; [exact Hlv|].
    intros v [Hv Hvl]. simpl in Hvl. unfold upd in Hvl. case_decide; [done|]. by apply (Hn v).
  - intros v Hv. unfold upd at 1. case_decide as Hvu.
    + subst v. simpl. rewrite !upd_eq. split; [|done]. pose proof (iv_place _ Hw u Hu) as Hy.
      rewrite Hx in Hy. apply Hy.
    + pose proof (iv_place _ Hw v Hv) as Hy. pose proof (Hr v) as Hrv.
      destruct (places w v) as [q|j q|j|t'|j q] eqn:E; simpl in Hy |- *; try done.
      * rewrite Hrv by done. done.
      * rewrite Hrv by done. destruct Hy as (? & ? & t & Ht). split; [lia|]. split; [done|]. exists t.
        rewrite Hth; [done|]. intros ->. congruence.
      * destruct Hy as (? & g & Hg). split; [lia|]. exists g. rewrite Hth; [done|]. intros ->.
        assert (q = p) as -> by congruence. apply Hvu. congruence.
  - intros v v' q Hv Hv' Hs.
    assert (E : forall v, position (upd (places w) u (Queued p) v) = position (places w v)).
    { intros z. unfold upd. case_decide; [|done]. subst z. by rewrite Hx. }
    rewrite !E. by apply Hw.
  - intros b q Hq. destruct (iv_window _ Hw b q Hq) as (v & Hv & Hsv & Hxv).
    exists v. split_and!; [done|done|]. simpl. unfold upd. case_decide as Hvu; [|done]. subst v.
    left. rewrite Hx in Hxv. destruct Hxv as [Hxv|[? Hxv]]; congruence.
  - apply Hw.
Qed.

(** ** Every step *)
Lemma proxy_step_inv w w' :
  inv w -> calm side w -> step unix_fds side false w w' -> calm side w' -> inv w'.
Proof.
  intros Hw Hc Hs Hc'. destruct Hs.
  - eapply set_phase_inv; [done..| |]; rewrite H0; [by intros [?|?]|done].
  - destruct H0 as [H0|[? _]]; [|done]. eapply set_phase_inv; [done..| |]; rewrite H0; [by intros [?|?]|done].
  - by apply serve_inv.
  - by apply accept_inv.
  - by apply take_inv.
  - eapply load_inv; eauto.
  - destruct (taken_slot _ _ _ _ _ Hw H) as (u & Hu & _ & _ & Hr). apply fds_nonneg in Hu. lia.
  - by apply link_inv.
  - by apply link2_inv.
  - by apply watch_inv.
  - by apply event_inv.
  - by apply route_inv.
  - by apply route2_inv.
  - by apply forward_request_inv.
  - by apply forward_reply_inv.
  - by eapply end_of_file_inv.
  - by apply rearm_inv.
  - by apply erase_inv.
  - by apply erase1_inv.
  - by apply erase2_inv.
  - apply reserve_inv; [done|apply Hc|done].
  - by apply store_inv.
  - by apply closing_inv.
Qed.

Hypothesis fds_distinct : NoDup unix_fds.

Lemma index_of_lookup u (l : list Z) :
  u ∈ l -> 0 <= index_of u l /\ l !! Z.to_nat (index_of u l) = Some u.
Proof.
  intros Hu. unfold index_of. destruct (list_find (eq u) l) as [[k v]|] eqn:E.
  - apply list_find_Some in E as (E & -> & _). by rewrite Nat2Z.id; split; [lia|].
  - apply list_find_None in E. rewrite Forall_forall in E. by destruct (E u Hu).
Qed.

Lemma idle_fds_in u : u ∈ unix_fds <-> u ∈ idle_fds unix_fds side (side u).
Proof. unfold idle_fds. rewrite list_elem_of_filter. naive_solver. Qed.

Lemma idle_fds_bound b : Z.of_nat (length (idle_fds unix_fds side b)) <= kMaxConnections.
Proof.
  pose proof (length_filter (fun u => side u = b) unix_fds). unfold idle_fds. lia.
Qed.

Lemma proxy_start_inv : inv (proxy_start unix_fds side).
Proof.
  assert (Hix : forall u, u ∈ unix_fds ->
    0 <= index_of u (idle_fds unix_fds side (side u))
       < Z.of_nat (length (idle_fds unix_fds side (side u)))
    /\ idle_fds unix_fds side (side u) !! Z.to_nat (index_of u (idle_fds unix_fds side (side u))) = Some u).
  { intros u Hu. apply idle_fds_in, index_of_lookup in Hu as [H1 H2]. split; [|done].
    apply lookup_lt_Some in H2. lia. }
  split; simpl; try done.
  - intros u Hu. destruct (Hix u Hu) as [H1 H2]. pose proof (idle_fds_bound (side u)). split; [lia|].
    unfold slot_of. rewrite Z.rem_small by lia. rewrite decide_True by lia. by rewrite H2.
  - intros u u' p Hu Hu' Hs [= H1] [= H2]. apply Hix in Hu as [_ Hu], Hu' as [_ Hu'].
    rewrite <- Hs, H1 in *. rewrite H2 in Hu'. congruence.
  - intros b p Hp. destruct (lookup_lt_is_Some_2 (idle_fds unix_fds side b) (Z.to_nat p)) as [u Hu]; [lia|].
    pose proof (list_elem_of_lookup_2 _ _ _ Hu) as Hin.
    pose proof Hin as Hin'. unfold idle_fds in Hin'. apply list_elem_of_filter in Hin' as [Hs Hfd].
    exists u. split_and!; [done|done|]. left. simpl. f_equal. destruct (Hix u Hfd) as [? Hj].
    rewrite Hs in *. assert (N : NoDup (idle_fds unix_fds side b)) by by apply NoDup_filter.
    pose proof (NoDup_lookup _ _ _ _ N Hu Hj). lia.
  - intros b. lia.
  - intros f. case_decide; [by left|done].
  - intros f Hf _. by rewrite decide_False.
  - intros u Hu. by left.
Qed.

Lemma start_calm : calm side (proxy_start unix_fds side).
Proof.
  split; [done|]. intros b. simpl. pose proof (idle_fds_bound b). unfold kMaxConnections, INT_MAX in *. lia.
Qed.

Lemma proxy_reachable_inv w : reachable unix_fds side false w -> inv w /\ calm side w.
Proof.
  assert (H : forall w1 w2, rtc (calm_step unix_fds side false) w1 w2 ->
            inv w1 /\ calm side w1 -> inv w2 /\ calm side w2).
  { induction 1 as [|w1 w2 w3 [Hs Hc] _ IH]; [done|]. intros [H1 H2]. apply IH. split; [|done].
    by apply (proxy_step_inv w1). }
  intros Hr. apply (H _ _ Hr). split; [apply proxy_start_inv|apply start_calm].
Qed.

(** ** Who accesses a cell *)
Lemma tcp_access w i f wr :
  inv w -> next_access side (threads w i) = Some (CellTcp f, wr) -> events w f = Owned i.
Proof.
  intros Hw Hx. pose proof (iv_pc _ Hw i) as Hp.
  destruct (threads w i); simplify_eq/=; firstorder.
Qed.

Lemma unix_access w i u wr :
  inv w -> next_access side (threads w i) = Some (CellUnix u, wr) ->
  u ∈ unix_fds /\
  (places w u = Held i
   \/ exists t c, places w u = Linked t /\ client w t = Some c
        /\ (phases w c = Closed /\ events w t = Owned i
            \/ wr = false /\ phases w c = Waiting /\ events w u = Owned i)).
Proof.
  intros Hw Hx. pose proof (iv_pc _ Hw i) as Hp.
  destruct (threads w i) as [| | | |t u'| | |u'| | | |f u'| | | | |]; simplify_eq/=.
  - destruct Hp as (_ & [Hu Hm] & _). split; [done|]. by left.
  - pose proof Hp as (Hu & He & Hr). split; [done|]. right.
    destruct (replies_linked _ _ Hw Hu Hr) as (t & c & [_ Hl] & Hc & Hph & _). eauto 10.
  - destruct Hp as (((He & _) & c & Hc & Hph) & Hu & Hl). split; [done|]. right. eauto 10.
Qed.

Lemma ring_access w i b k wr :
  inv w -> next_access side (threads w i) = Some (CellRing b k, wr) ->
  exists u p, u ∈ unix_fds /\ side u = b /\ k = slot_of p
    /\ places w u = (if wr then Promised i p else Taken i p).
Proof.
  intros Hw Hx. pose proof (iv_pc _ Hw i) as Hp.
  destruct (threads w i) as [| |t b' p| | | | | | | | | | | |f u p| |]; simplify_eq/=.
  - destruct Hp as (_ & u & Hs & Hu & Hm). by exists u, p.
  - destruct Hp as (_ & _ & Hu & Hm). by exists u, p.
Qed.

(** A descriptor of a client or server is an index of the tables. *)
Lemma access_in_bounds w i x wr :
  inv w -> next_access side (threads w i) = Some (x, wr) -> in_bounds x.
Proof.
  intros Hw Hx. destruct x as [f|u|b k]; simpl.
  - assert (Hf : f ∈ unix_fds \/ is_Some (client w f)).
    { pose proof (iv_pc _ Hw i) as Hp. destruct (threads w i); simplify_eq/=; firstorder. }
    destruct Hf as [Hf|[c Hc]]; [by apply fds_table|by apply (iv_client _ Hw f c)].
  - by apply fds_table; apply unix_access in Hx as [Hu _].
  - apply ring_access in Hx as (u & p & Hu & _ & -> & Hp); [|done].
    assert (0 <= p).
    { pose proof (iv_place _ Hw u Hu) as Ho. pose proof (iv_first _ Hw (side u)).
      rewrite Hp in Ho. destruct wr; destruct Ho; lia. }
    unfold in_table, slot_of. pose proof (Z.rem_bound_pos p kMaxConnections). unfold kMaxConnections in *. lia.
Qed.

Lemma never_races w i j : inv w -> calm side w -> ~ race side w i j.
Proof.
  intros Hw Hc (Hij & x & wr1 & wr2 & H1 & H2 & Hwr). destruct x as [f|u|b k].
  - apply tcp_access in H1, H2; [|done..]. congruence.
  - apply unix_access in H1 as (Hu & H1), H2 as (_ & H2); [|done..].
    destruct H1 as [H1|(t & c & H1 & H1c & H1p)], H2 as [H2|(t' & c' & H2 & H2c & H2p)]; try congruence.
    rewrite H1 in H2. injection H2 as <-. rewrite H1c in H2c. injection H2c as <-.
    destruct H1p as [[? ?]|(-> & ? & ?)], H2p as [[? ?]|(-> & ? & ?)]; congruence.
  - apply ring_access in H1 as (u & p & Hu & Hs & -> & H1), H2 as (u' & p' & Hu' & Hs' & Hk & H2); [|done..].
    assert (position (places w u) = Some p) as Hp by (rewrite H1; by destruct wr1).
    assert (position (places w u') = Some p') as Hp' by (rewrite H2; by destruct wr2).
    destruct (decide (p = p')) as [<-|Hne].
    + assert (u = u') as <- by (apply (iv_position _ Hw u u' p); congruence).
      destruct wr1, wr2; simplify_eq/=; congruence.
    + destruct (slots_apart w u u' p p' Hw Hc); congruence.
Qed.

(** ** Progress *)
(** How many steps a thread is from [epoll_wait]. *)
Definition steps_left (pc : tpc) : nat :=
  match pc with
  | Idle | Aborted => 0
  | Watching _ | Rearming _ | Closing _ => 1
  | Linking2 _ _ | Storing _ _ _ => 2
  | Linking _ _ | Erasing3 _ _ => 3
  | Taking _ _ _ | Erasing2 _ _ => 4
  | Accepted _ _ | Erasing1 _ _ => 5
  | Erasing _ => 6
  | Handling _ _ => 7
  | Routing2 _ => 8
  | Routing _ => 9
  end.

Ltac advance tac :=
  eexists; split; [tac|simpl; rewrite upd_eq; try case_decide; simpl; lia].

Lemma next_step w i :
  inv w -> threads w i <> Idle ->
  exists w', step unix_fds side false w w'
    /\ (steps_left (threads w' i) < steps_left (threads w i))%nat.
Proof.
  intros Hw Hi. pose proof (iv_pc _ Hw i) as Hp.
  destruct (threads w i) as [|t b|t b p|t u|t u|t|f|f|f d|f|f|f u|f u|f u|f u p|f|] eqn:E; try done.
  - advance ltac:(by apply step_take).
  - destruct (taken_slot _ _ _ _ _ Hw E) as (u & Hu & _ & _ & Hr). pose proof (fds_nonneg u Hu).
    advance ltac:(eapply step_load; [done..|lia]).
  - advance ltac:(by apply step_link).
  - advance ltac:(by apply step_link2).
  - advance ltac:(by apply step_watch).
  - advance ltac:(by apply step_route).
  - advance ltac:(by apply step_route2).
  - destruct Hp as [((Hf & _) & _)|((_ & Hf & _) & (c & Hc & [Hq|Hq]) & _)].
    + advance ltac:(by apply step_forward_reply).
    + advance ltac:(by eapply step_forward_request).
    + advance ltac:(by eapply step_end_of_file).
  - advance ltac:(by apply step_rearm).
  - advance ltac:(by apply step_erase).
  - advance ltac:(by apply step_erase1).
  - advance ltac:(by apply step_erase2).
  - advance ltac:(by apply step_reserve).
  - advance ltac:(by apply step_store).
  - advance ltac:(by apply step_close).
Qed.
End Invariant.
