(* ===== verification/RouterThreadsSpec.v ===== *)
(** * RouterThreadsSpec: what the threads of the proxy keep, and what breaks it

    With clients that wait for their answers the unlocked tables are free of races and
    answers reach the clients that asked; a client that does not wait breaks both. *)
From S2P Require Import Prelude Router RouterThreads RouterThreadsInv.
#[local] Open Scope Z_scope.

(** ** Patient clients *)
Record fds_ok (unix_fds : list Z) : Prop := {
  fo_fit : Z.of_nat (length unix_fds) <= kMaxConnections;
  fo_table : forall u, u ∈ unix_fds -> in_table u;
  fo_distinct : NoDup unix_fds
}.

Lemma patient_inv unix_fds side w :
  fds_ok unix_fds -> reachable unix_fds side false w -> inv unix_fds side w /\ calm side w.
Proof. intros [H1 H2 H3] Hr. by apply proxy_reachable_inv. Qed.

(** C4: The hope of the source's comment, for clients that wait for their answers: in every
    state that threads, clients and servers reach by interleaved steps, no two threads are
    about to access the same entry of [tcp_to_unix], of [unix_to_tcp] or of a ring with one
    of them storing, every entry a thread is about to access is one of the thousand of its
    table, and no [CHECK] has failed.  That a taken position is stored and not yet
    lapped is [calm], asked of every state on the way; the process has at most a thousand
    descriptors. *)
Theorem tables_race_free unix_fds side w :
  fds_ok unix_fds -> reachable unix_fds side false w ->
  forall i, threads w i <> Aborted /\ (forall j, ~ race side w i j)
    /\ forall x wr, next_access side (threads w i) = Some (x, wr) -> in_bounds x.
Proof.
  intros Hf Hr i. destruct (patient_inv _ _ _ Hf Hr) as [Hw Hc]. split; [|split].
  - intros Hi. pose proof (iv_pc _ _ _ Hw i) as Hp. by rewrite Hi in Hp.
  - intros j. destruct Hf. eapply never_races; eauto.
  - intros x wr Hx. destruct Hf. by eapply access_in_bounds.
Qed.

(** C5: Answers reach the client that asked: in every such state each answer delivered so
    far went to the connection whose request it answers, and what is still on its way on a
    connection to a server was asked by the client that both tables pair with it, which
    waits for it. *)
Theorem replies_reach_their_client unix_fds side w :
  fds_ok unix_fds -> reachable unix_fds side false w ->
  (forall asked got, (asked, got) ∈ delivered w -> got = asked)
  /\ forall u c, u ∈ unix_fds -> c ∈ requests w u ++ replies w u ->
       requests w u ++ replies w u = [c] /\ phases w c = Waiting
       /\ client w (u2t w u) = Some c /\ t2u w (u2t w u) = u.
Proof.
  intros Hf Hr. destruct (patient_inv _ _ _ Hf Hr) as [Hw _]. split.
  - intros a g Hin. pose proof (iv_delivered _ _ _ Hw) as Hd. rewrite Forall_forall in Hd.
    symmetry. apply (Hd _ Hin).
  - intros u c Hu Hin. destruct (iv_wire _ _ _ Hw u Hu) as [H|(t & c' & Hl & Hc & Hp & H)].
    + rewrite H in Hin. by apply elem_of_nil in Hin.
    + rewrite H in Hin. apply list_elem_of_singleton in Hin as ->.
      pose proof (iv_place _ _ _ Hw u Hu) as Hx. rewrite Hl in Hx. destruct Hx as (-> & -> & _). done.
Qed.

(** No thread is ever stuck: outside [epoll_wait] it has a step to take whatever the
    others do, at most nine in all before it waits for events again. *)
Theorem threads_progress unix_fds side w i :
  fds_ok unix_fds -> reachable unix_fds side false w -> threads w i <> Idle ->
  (steps_left (threads w i) <= 9)%nat
  /\ exists w', step unix_fds side false w w'
       /\ (steps_left (threads w' i) < steps_left (threads w i))%nat.
Proof.
  intros Hf Hr Hi. destruct (patient_inv _ _ _ Hf Hr) as [Hw _]. split.
  - destruct (threads w i); simpl; lia.
  - destruct Hf. by apply next_step.
Qed.

(** ** Runs of two threads *)
(** The connections 10 and 11, one to each server. *)
Definition two_fds : list Z := [10; 11].
Definition two_side (u : Z) : bool := u =? 10.

Definition others_idle (w : proxy) : Prop := forall i, (2 <= i)%nat -> threads w i = Idle.

Definition calm_thread (w : proxy) (i : nat) : bool :=
  match threads w i with
  | Taking _ b p =>
      (p <? last_idx w b) && (last_idx w b <=? p + kMaxConnections)
      && forallb (fun j => match threads w j with
                           | Storing _ u p' => negb ((p' =? p) && Bool.eqb (two_side u) b)
                           | _ => true
                           end) [0%nat; 1%nat]
  | _ => true
  end.

Definition calm_test (w : proxy) : bool :=
  calm_thread w 0 && calm_thread w 1
  && (last_idx w true <? INT_MAX) && (last_idx w false <? INT_MAX).

Lemma calm_test_ok w : others_idle w -> calm_test w = true -> calm two_side w.
Proof.
  intros Ho Hc. unfold calm_test in Hc. rewrite !andb_true_iff in Hc.
  destruct Hc as (((H0 & H1) & Ht) & Hf). split.
  - intros i t b p Hi.
    assert (Hx : calm_thread w i = true).
    { destruct i as [|[|i]]; [done..|]. rewrite Ho in Hi by lia. done. }
    unfold calm_thread in Hx. rewrite Hi in Hx. rewrite !andb_true_iff in Hx.
    destruct Hx as ((Ha & Hb) & Hx). split; [lia|].
    intros j f u Hj Hs. rewrite forallb_forall in Hx.
    assert (Hin : In j [0%nat; 1%nat]).
    { destruct j as [|[|j]]; simpl; auto. rewrite Ho in Hj by lia. done. }
    apply Hx in Hin. rewrite Hj, Z.eqb_refl, Hs, Bool.eqb_reflx in Hin. done.
  - intros b. destruct b; lia.
Qed.

Lemma run_step imp w w' w'' :
  others_idle w' -> calm_test w' = true -> step two_fds two_side imp w w' ->
  rtc (calm_step two_fds two_side imp) w' w'' -> rtc (calm_step two_fds two_side imp) w w''.
Proof. intros Ho Hc Hs. apply rtc_l. split; [done|]. by apply calm_test_ok. Qed.

Lemma others_idle_start : others_idle (proxy_start two_fds two_side).
Proof. done. Qed.

Lemma others_idle_pc w i p : others_idle w -> (i < 2)%nat -> others_idle (at_pc w i p).
Proof. intros Ho Hi j Hj. simpl. rewrite upd_ne by lia. by apply Ho. Qed.

Lemma others_idle_deliver w d cs : others_idle w -> others_idle (deliver w d cs).
Proof. intros Ho j Hj. unfold deliver. case_match; by apply Ho. Qed.

Ltac idle2 :=
  lazymatch goal with
  | |- others_idle (at_pc ?w ?i ?p) => apply (others_idle_pc w i p); [idle2|lia]
  | |- others_idle (deliver ?w ?d ?cs) => apply (others_idle_deliver w d cs); idle2
  | |- others_idle (?op ?w ?a ?b ?c) =>
      refine ((fun (v : proxy) (H : others_idle v) => H : others_idle (op v a b c)) w _); idle2
  | |- others_idle (?op ?w ?a ?b) =>
      refine ((fun (v : proxy) (H : others_idle v) => H : others_idle (op v a b)) w _); idle2
  | |- others_idle (?op ?w ?a) =>
      lazymatch type of w with
      | proxy => refine ((fun (v : proxy) (H : others_idle v) => H : others_idle (op v a)) w _); idle2
      | _ => exact others_idle_start
      end
  end.

(** The steps with what they read named, so that the states of a run stay small. *)
Section Named.
Variable imp : bool.

Lemma named_accept w i t b :
  threads w i = Idle -> in_table t -> client w t = None -> t ∉ two_fds ->
  (Z.rem (counter w) 2 =? 0) = b ->
  step two_fds two_side imp w (at_pc (set_events (open_client w t) t (Owned i)) i (Accepted t b)).
Proof. intros ? ? ? ? <-. by apply step_accept. Qed.

Lemma named_take w i t b p u :
  threads w i = Accepted t b -> first_idx w b = p -> ring w b (slot_of p) = u ->
  step two_fds two_side imp w (at_pc (set_place (take_first w b) u (Taken i p)) i (Taking t b p)).
Proof. intros ? <- <-. by apply step_take. Qed.

Lemma named_event_client w i f c ph :
  threads w i = Idle -> events w f = Armed -> f ∉ two_fds -> client w f = Some c ->
  phases w c = ph -> ph = Asking \/ ph = Closed ->
  step two_fds two_side imp w (at_pc (set_events w f (Owned i)) i (Routing f)).
Proof.
  intros ? ? ? ? <- ?. apply step_event; [done..|]. unfold ready. rewrite decide_False by done. eauto.
Qed.

Lemma named_event_server w i f rs :
  threads w i = Idle -> events w f = Armed -> f ∈ two_fds -> replies w f = rs -> rs <> [] ->
  step two_fds two_side imp w (at_pc (set_events w f (Owned i)) i (Routing f)).
Proof.
  intros ? ? ? <- ?. apply step_event; [done..|]. unfold ready. by rewrite decide_True.
Qed.

Lemma named_route w i f d :
  threads w i = Routing f -> t2u w f = d -> d <> -1 -> step two_fds two_side imp w (at_pc w i (Handling f d)).
Proof.
  intros ? Hd ?. pose proof (step_route two_fds two_side imp w i f) as Hs.
  rewrite decide_False in Hs by congruence. subst d. auto.
Qed.

Lemma named_route_none w i f :
  threads w i = Routing f -> t2u w f = -1 -> step two_fds two_side imp w (at_pc w i (Routing2 f)).
Proof.
  intros ? Hd. pose proof (step_route two_fds two_side imp w i f) as Hs.
  rewrite decide_True in Hs by done. auto.
Qed.

Lemma named_route2 w i f d :
  threads w i = Routing2 f -> u2t w f = d ->
  step two_fds two_side imp w (at_pc w i (if decide (d = -1) then Aborted else Handling f d)).
Proof. intros ? <-. by apply step_route2. Qed.

Lemma named_request w i f d c qs rs :
  threads w i = Handling f d -> f ∉ two_fds -> client w f = Some c -> phases w c = Asking ->
  requests w d ++ [c] = qs -> replies w d = rs ->
  step two_fds two_side imp w (at_pc (set_wire (set_phase w c Waiting) d qs rs) i (Rearming f)).
Proof. intros ? ? ? ? <- <-. by apply step_forward_request. Qed.

Lemma named_reply w i f d qs rs :
  threads w i = Handling f d -> f ∈ two_fds -> requests w f = qs -> replies w f = rs ->
  step two_fds two_side imp w (at_pc (set_wire (deliver w d rs) f qs []) i (Rearming f)).
Proof. intros ? ? <- <-. by apply step_forward_reply. Qed.

Lemma named_serve w u c rs :
  u ∈ two_fds -> requests w u = [c] -> replies w u ++ [c] = rs -> step two_fds two_side imp w (set_wire w u [] rs).
Proof. intros ? ? <-. by apply step_serve. Qed.

Lemma named_erase w i f u :
  threads w i = Erasing f -> t2u w f = u -> u <> -1 -> step two_fds two_side imp w (at_pc w i (Erasing1 f u)).
Proof.
  intros ? Hd ?. pose proof (step_erase two_fds two_side imp w i f) as Hs.
  rewrite decide_False in Hs by congruence. subst u. auto.
Qed.

Lemma named_reserve w i f u b p :
  threads w i = Erasing3 f u -> two_side u = b -> last_idx w b = p ->
  step two_fds two_side imp w (at_pc (set_place (take_last w b) u (Promised i p)) i (Storing f u p)).
Proof. intros ? <- <-. by apply step_reserve. Qed.
End Named.

(** One step of a run, its guards evaluated. *)
Ltac side_condition :=
  lazymatch goal with
  | |- _ ∈ _ => refine (bool_decide_unpack _ _); vm_compute; exact I
  | |- _ ∉ _ => refine (bool_decide_unpack _ _); vm_compute; exact I
  | |- in_table _ => split; reflexivity || discriminate
  | |- ?x = Asking \/ _ => first [left; reflexivity | right; reflexivity]
  | |- _ \/ _ => first [left; vm_compute; reflexivity | right; split; vm_compute; reflexivity]
  | |- _ <> _ => discriminate
  | |- _ => vm_compute; reflexivity
  end.
Ltac run c := eapply run_step; [| |c|]; [idle2|vm_compute; reflexivity|].

Ltac ask t c := run ltac:(apply (step_ask _ _ _ _ t c); side_condition).
Ltac serve u c := run ltac:(apply (named_serve _ _ u c [c]); side_condition).
Ltac hang_up t c := run ltac:(apply (step_hang_up _ _ _ _ t c); side_condition).
(** Thread [i] accepts [t], pairs it with [u] at position [p], and waits again. *)
Ltac connect i t u p b :=
  run ltac:(apply (named_accept _ _ i t b); side_condition);
  run ltac:(apply (named_take _ _ i t b p u); side_condition);
  run ltac:(apply (step_load _ _ _ _ i t b p u); side_condition);
  run ltac:(apply (step_link _ _ _ _ i t u); side_condition);
  run ltac:(apply (step_link2 _ _ _ _ i t u); side_condition);
  run ltac:(apply (step_watch _ _ _ _ i t); side_condition).
Ltac event i f c ph :=
  run ltac:(apply (named_event_client _ _ i f c ph); side_condition).
(** Thread [i] forwards what the client [c] sent on [t]. *)
Ltac forward i t u c :=
  event i t c Asking;
  run ltac:(apply (named_route _ _ i t u); side_condition);
  run ltac:(apply (named_request _ _ i t u c [c] []); side_condition);
  run ltac:(apply (step_rearm _ _ _ _ i t); side_condition).
(** Thread [i] finds that the client [c] closed [t], and takes it out of the tables. *)
Ltac notice i t u c :=
  event i t c Closed;
  run ltac:(apply (named_route _ _ i t u); side_condition);
  run ltac:(apply (step_end_of_file _ _ _ _ i t u c); side_condition);
  run ltac:(apply (named_erase _ _ i t u); side_condition).
Ltac retire i t u p b :=
  run ltac:(apply (step_erase1 _ _ _ _ i t u); side_condition);
  run ltac:(apply (step_erase2 _ _ _ _ i t u); side_condition);
  run ltac:(apply (named_reserve _ _ i t u b p); side_condition);
  run ltac:(apply (step_store _ _ _ _ i t u p); side_condition);
  run ltac:(apply (step_close _ _ _ _ i t); side_condition).
(** Thread [i] has the answer to the client [c] on [u] and looks up the first table. *)
Ltac route i u c :=
  run ltac:(apply (named_event_server _ _ i u [c]); side_condition);
  run ltac:(apply (named_route_none _ _ i u); side_condition).

(** C11: A client that closes its connection while it waits for an answer breaks the tables.
    With two threads and one connection to each server, the late answer (a) goes to the next
    client that is paired with the connection, (b) stops the proxy by a [CHECK] when there
    is none yet, and (c) is routed while another thread stores the same entry of
    [unix_to_tcp], a data race. *)
Theorem impatient_client_breaks_tables :
  (exists w, reachable two_fds two_side true w /\ delivered w = [(0, 2)]%nat)
  /\ (exists w, reachable two_fds two_side true w /\ threads w 0%nat = Aborted)
  /\ (exists w, reachable two_fds two_side true w /\ race two_side w 0 1).
Proof.
  split_and!.
  - eexists. split.
    + unfold reachable. connect 0%nat 20 10 0 true. connect 1%nat 21 11 0 false.
      ask 20 0%nat. forward 0%nat 20 10 0%nat. hang_up 20 0%nat. notice 1%nat 20 10 0%nat.
      retire 1%nat 20 10 1 true. connect 0%nat 20 10 1 true. serve 10 0%nat. route 1%nat 10 0%nat.
      run ltac:(apply (named_route2 _ _ 1%nat 10 20); side_condition).
      run ltac:(apply (named_reply _ _ 1%nat 10 20 [] [0%nat]); side_condition).
      apply rtc_refl.
    + vm_compute. reflexivity.
  - eexists. split.
    + unfold reachable. connect 0%nat 20 10 0 true.
      ask 20 0%nat. forward 0%nat 20 10 0%nat. hang_up 20 0%nat. notice 1%nat 20 10 0%nat.
      retire 1%nat 20 10 1 true. serve 10 0%nat. route 0%nat 10 0%nat.
      run ltac:(apply (named_route2 _ _ 0%nat 10 (-1)); side_condition).
      apply rtc_refl.
    + vm_compute. reflexivity.
  - eexists. split.
    + unfold reachable. connect 0%nat 20 10 0 true.
      ask 20 0%nat. forward 0%nat 20 10 0%nat. hang_up 20 0%nat. serve 10 0%nat.
      route 0%nat 10 0%nat. notice 1%nat 20 10 0%nat. apply rtc_refl.
    + split; [done|]. exists (CellUnix 10), false, true. split_and!; vm_compute; reflexivity.
Qed.

(** ** A run of patient clients *)
(** Two clients ask, one is answered and leaves while the other waits. *)
Lemma patient_run :
  exists w, reachable two_fds two_side false w
    /\ threads w 0%nat = Erasing1 20 10 /\ threads w 1%nat = Accepted 22 true
    /\ delivered w = [(0, 0)]%nat /\ requests w 11 = [1%nat]
    /\ client w 21 = Some 1%nat /\ phases w 1%nat = Waiting.
Proof.
  unfold reachable. eexists. split.
  - connect 0%nat 20 10 0 true. connect 1%nat 21 11 0 false. ask 20 0%nat. ask 21 1%nat.
    forward 0%nat 20 10 0%nat. serve 10 0%nat. route 0%nat 10 0%nat.
    run ltac:(apply (named_route2 _ _ 0%nat 10 20); side_condition).
    run ltac:(apply (named_reply _ _ 0%nat 10 20 [] [0%nat]); side_condition).
    run ltac:(apply (step_rearm _ _ _ _ 0%nat 10); side_condition).
    forward 1%nat 21 11 1%nat. hang_up 20 0%nat. notice 0%nat 20 10 0%nat.
    run ltac:(apply (named_accept _ _ 1%nat 22 true); side_condition).
    apply rtc_refl.
  - split_and!; vm_compute; reflexivity.
Qed.

Lemma two_fds_ok : fds_ok two_fds.
Proof.
  split; [done| |].
  - intros u Hu. apply elem_of_cons in Hu as [->|Hu]; [done|]. by apply list_elem_of_singleton in Hu as ->.
  - refine (bool_decide_unpack _ _). vm_compute. exact I.
Qed.

Lemma tables_race_free_witness :
  exists w, threads w 0%nat = Erasing1 20 10 /\ threads w 1%nat = Accepted 22 true
    /\ threads w 1%nat <> Aborted /\ (forall j, ~ race two_side w 1 j)
    /\ forall x wr, next_access two_side (threads w 1%nat) = Some (x, wr) -> in_bounds x.
Proof.
  destruct patient_run as (w & Hr & H0 & H1 & _). exists w. split; [exact H0|]. split; [exact H1|].
  apply (tables_race_free two_fds two_side w two_fds_ok Hr 1%nat).
Defined.

Lemma replies_reach_their_client_witness :
  exists w, delivered w = [(0, 0)]%nat /\ requests w 11 = [1%nat]
    /\ client w (u2t w 11) = Some 1%nat /\ phases w 1%nat = Waiting.
Proof.
  destruct patient_run as (w & Hr & _ & _ & Hd & Hq & _). exists w. split; [exact Hd|]. split; [exact Hq|].
  destruct (replies_reach_their_client two_fds two_side w two_fds_ok Hr) as [_ H].
  destruct (H 11 1%nat) as (_ & Hp & Hc & _).
  - by apply list_elem_of_further, list_elem_of_here.
  - rewrite Hq. by apply list_elem_of_here.
  - by split.
Defined.

Lemma threads_progress_witness :
  exists w w', threads w 0%nat = Erasing1 20 10 /\ step two_fds two_side false w w'
    /\ (steps_left (threads w' 0%nat) < 5)%nat.
Proof.
  destruct patient_run as (w & Hr & H0 & _). exists w.
  destruct (threads_progress two_fds two_side w 0%nat two_fds_ok Hr) as (_ & w' & Hs & Hl).
  - rewrite H0. discriminate.
  - exists w'. rewrite H0 in Hl. split; [exact H0|]. split; [exact Hs|exact Hl].
Defined.
