(* ===== verification/RouterThreadsSim.v ===== *)
(** * RouterThreadsSim: the steps of one thread are the functions of the code

    [Router] has [pair_connection], [route] and [erase_from_maps] as functions on the arrays;
    [RouterThreads] has their loads and stores as steps.  A thread that takes its steps
    without interruption does what the functions compute. *)
From S2P Require Import Prelude EventIo Router RouterThreads RouterThreadsInv RouterThreadsSpec.
#[local] Open Scope Z_scope.

(** The array [l] holds the values of [f]. *)
Definition cells (l : list Z) (f : Z -> Z) : Prop := forall k x, array_get l k = Ok x -> f k = x.

Lemma cells_ext l f g : cells l f -> (forall k, g k = f k) -> cells l g.
Proof. intros Hl Hf k x Hk. rewrite Hf. by apply Hl. Qed.

Lemma cells_set l f i x l' : cells l f -> array_set l i x = Ok l' -> cells l' (upd f i x).
Proof.
  intros Hl [Hi ->]%array_set_inv k y [Hk Hy]%array_get_Ok. unfold upd. case_decide as E.
  - subst k. rewrite list_lookup_insert_eq in Hy by lia. congruence.
  - rewrite list_lookup_insert_ne in Hy by lia. apply Hl. by apply array_get_Ok.
Qed.

Definition queue_at (r : router) (b : bool) : ring_queue := if b then available_1 r else available_2 r.

(** The router [r] of the functions and the state [w] of the steps hold the same data. *)
Record simulates (side : Z -> bool) (r : router) (w : proxy) : Prop := {
  sm_length : Z.of_nat (length (tcp_to_unix r)) = kMaxConnections;
  sm_t2u : cells (tcp_to_unix r) (t2u w);
  sm_u2t : cells (unix_to_tcp r) (u2t w);
  sm_ring : forall b, cells (slots (queue_at r b)) (ring w b);
  sm_first : forall b, start_idx (queue_at r b) = first_idx w b;
  sm_last : forall b, end_idx (queue_at r b) = last_idx w b;
  sm_counter : round_robin_counter r = counter w;
  sm_side : forall u x, array_get (connection_1_fds r) u = Ok x -> side u = negb (x =? -1)
}.

(** [pair_connection] and [erase_from_maps] with the queue a function of the side. *)
Lemma pair_connection_eq infd r :
  pair_connection infd r
  = let b := Z.rem (round_robin_counter r) 2 =? 0 in
    '(q, u) ← dequeue (queue_at r b);
    _ ← CHECK (negb (u =? -1));
    t2u ← array_set (tcp_to_unix r) infd u;
    u2t ← array_set (unix_to_tcp r) u infd;
    Ok (mkRouter t2u u2t (connection_1_fds r) (if b then q else available_1 r)
          (if b then available_2 r else q) (wrap_int (round_robin_counter r + 1))).
Proof.
  unfold pair_connection. cbv zeta. unfold queue_at.
  destruct (Z.rem (round_robin_counter r) 2 =? 0).
  - destruct (dequeue (available_1 r)) as [[q u]|e]; [|done]. cbn [mbind outcome_bind].
    by destruct (CHECK (negb (u =? -1))).
  - destruct (dequeue (available_2 r)) as [[q u]|e]; [|done]. cbn [mbind outcome_bind].
    by destruct (CHECK (negb (u =? -1))).
Qed.

Lemma dequeue_inv q q' u :
  dequeue q = Ok (q', u) ->
  array_get (slots q) (slot_of (start_idx q)) = Ok u
  /\ q' = mkQueue (slots q) (wrap_int (start_idx q + 1)) (end_idx q).
Proof. unfold dequeue. intros H. inv_ok. done. Qed.

Lemma enqueue_inv q q' u :
  enqueue q u = Ok q' ->
  exists s, array_set (slots q) (slot_of (end_idx q)) u = Ok s
    /\ q' = mkQueue s (start_idx q) (wrap_int (end_idx q + 1)).
Proof. unfold enqueue. intros H. inv_ok. eauto. Qed.

Lemma erase_from_maps_inv {W} `{EventIo W} f r (w : W) r' w' :
  erase_from_maps f r w = Ok (r', w') ->
  exists u t2u' u2t' x q,
    let b := negb (x =? -1) in
    array_get (tcp_to_unix r) f = Ok u /\ u <> -1
    /\ array_set (unix_to_tcp r) u (-1) = Ok u2t' /\ array_set (tcp_to_unix r) f (-1) = Ok t2u'
    /\ array_get (connection_1_fds r) u = Ok x /\ enqueue (queue_at r b) u = Ok q
    /\ r' = mkRouter t2u' u2t' (connection_1_fds r) (if b then q else available_1 r)
              (if b then available_2 r else q) (round_robin_counter r).
Proof.
  unfold erase_from_maps. intros He. apply bind_Ok_inv in He as (u & Hu & He).
  destruct (Z.eqb_spec u (-1)) as [->|Hne]; cbn [negb] in He.
  - apply bind_Ok_inv in He as (t & _ & He). destruct (negb (t =? -1)); [|done].
    by inv_ok.
  - apply bind_Ok_inv in He as (u2t' & H1 & He). apply bind_Ok_inv in He as (t2u' & H2 & He).
    apply bind_Ok_inv in He as (x & H3 & He). exists u, t2u', u2t', x.
    destruct (negb (x =? -1)) eqn:Ex; apply bind_Ok_inv in He as (q & H4 & [= <- _]);
      exists q; split_and!; try done; lia.
Qed.

Lemma array_get_fault {A} (l : list A) i e : array_get l i = Fault e -> e = OutOfBounds.
Proof.
  unfold array_get. destruct (i <? 0); [by intros [= <-]|].
  destruct (l !! Z.to_nat i); [done|by intros [= <-]].
Qed.

(** One step of a run of thread [i] on abstract states. *)
Ltac take_step c := eapply rtc_l; [c; simpl; rewrite ?upd_eq; try done|].

Section Sim.
Variable unix_fds : list Z.
Variable side : Z -> bool.
Variable impatient : bool.

(** Thread [i] is at [pc], the others are where they were. *)
Definition only_thread (w w' : proxy) (i : nat) (pc : tpc) : Prop :=
  threads w' i = pc /\ forall j, j <> i -> threads w' j = threads w j.

Lemma pair_sim r w r' i t :
  simulates side r w -> pair_connection t r = Ok r' -> 
  threads w i = Idle -> client w t = None -> t ∉ unix_fds ->
  exists w', rtc (step unix_fds side impatient) w w' /\ simulates side r' w' /\ only_thread w w' i Idle
    /\ events w' t = Armed /\ client w' t = Some (next_client w).
Proof.
  intros [H0 H1 H2 H3 H4 H5 H6 H7] Hp Hi Hc Hu. rewrite pair_connection_eq in Hp. cbv zeta in Hp.
  rewrite H6 in Hp. remember (Z.rem (counter w) 2 =? 0) as b eqn:Eb.
  apply bind_Ok_inv in Hp as ([q u] & Hq & Hp). apply dequeue_inv in Hq as [Hg ->].
  rewrite H4, H5 in *. apply (H3 b) in Hg.
  apply bind_Ok_inv in Hp as (? & Hne%checked_Ok & Hp).
  apply bind_Ok_inv in Hp as (t2u' & Ht & Hp). apply bind_Ok_inv in Hp as (u2t' & Hut & [= <-]).
  destruct (array_set_inv _ _ _ _ Ht) as [Hrange ->]. rewrite H0 in Hrange.
  eexists. split.
  - take_step ltac:(apply (step_accept _ _ _ w i t)).
    take_step ltac:(apply (step_take _ _ _ _ i t b)); [by rewrite Eb|].
    take_step ltac:(apply (step_load _ _ _ _ i t b (first_idx w b) u)); [lia|].
    take_step ltac:(apply (step_link _ _ _ _ i t u)).
    take_step ltac:(apply (step_link2 _ _ _ _ i t u)).
    take_step ltac:(apply (step_watch _ _ _ _ i t)).
    apply rtc_refl.
  - split_and!; simpl.
    + split; simpl; try done.
      * by rewrite length_insert.
      * by eapply cells_set.
      * by eapply cells_set.
      * intros c. unfold queue_at in *. pose proof (H3 c). by destruct b, c.
      * intros c. unfold queue_at in *. unfold upd. pose proof (H4 c). by destruct b, c.
      * intros c. unfold queue_at in *. pose proof (H5 c). by destruct b, c.
    + split; simpl; [apply upd_eq|]. intros j Hj. by rewrite !upd_ne.
    + apply upd_eq.
    + apply upd_eq.
Qed.

Lemma simulates_pc r w i pc : simulates side r w -> simulates side r (at_pc w i pc).
Proof. by intros []. Qed.

Lemma only_thread_pc w i pc : only_thread w (at_pc w i pc) i pc.
Proof. split; simpl; [apply upd_eq|]. intros j Hj. by apply upd_ne. Qed.

Lemma route_sim r w i f d :
  simulates side r w -> route r f = Ok d -> threads w i = Routing f ->
  exists w', rtc (step unix_fds side impatient) w w' /\ simulates side r w' /\ only_thread w w' i (Handling f d).
Proof.
  intros Hs Hr Hi. unfold route in Hr. apply bind_Ok_inv in Hr as (x & Hx & Hr).
  apply (sm_t2u _ _ _ Hs) in Hx. apply bind_Ok_inv in Hr as (y & Hy & Hr).
  apply bind_Ok_inv in Hr as (? & Hd%checked_Ok & [= ->]).
  pose proof (step_route unix_fds side impatient w i f Hi) as H1. rewrite Hx in H1.
  destruct (Z.eqb_spec x (-1)) as [->|Hne].
  - rewrite decide_True in H1 by done. apply (sm_u2t _ _ _ Hs) in Hy.
    pose proof (step_route2 unix_fds side impatient (at_pc w i (Routing2 f)) i f) as H2.
    simpl in H2. rewrite upd_eq, Hy, decide_False in H2 by lia.
    eexists. split; [eapply rtc_l, rtc_once; [exact H1|by apply H2]|].
    split; [by apply simulates_pc, simulates_pc|]. split; simpl; [apply upd_eq|].
    intros j Hj. by rewrite !upd_ne.
  - rewrite decide_False in H1 by done. injection Hy as ->.
    eexists. split; [by apply rtc_once|]. split; [by apply simulates_pc|apply only_thread_pc].
Qed.

Lemma route_fault_sim r w i f :
  simulates side r w -> route r f = Fault CheckFailed -> threads w i = Routing f ->
  exists w', rtc (step unix_fds side impatient) w w' /\ threads w' i = Aborted.
Proof.
  intros Hs Hr Hi. unfold route in Hr.
  destruct (array_get (tcp_to_unix r) f) as [x|e] eqn:Hx; [|by apply array_get_fault in Hx as ->].
  apply (sm_t2u _ _ _ Hs) in Hx. cbn [mbind outcome_bind] in Hr.
  pose proof (step_route unix_fds side impatient w i f Hi) as H1. rewrite Hx in H1.
  destruct (Z.eqb_spec x (-1)) as [->|Hne].
  - rewrite decide_True in H1 by done.
    destruct (array_get (unix_to_tcp r) f) as [y|e] eqn:Hy; [|by apply array_get_fault in Hy as ->].
    apply (sm_u2t _ _ _ Hs) in Hy. cbn [mbind outcome_bind] in Hr.
    destruct (Z.eqb_spec y (-1)) as [->|]; [|done].
    pose proof (step_route2 unix_fds side impatient (at_pc w i (Routing2 f)) i f) as H2.
    simpl in H2. rewrite upd_eq, Hy, decide_True in H2 by done.
    eexists. split; [eapply rtc_l, rtc_once; [exact H1|by apply H2]|]. simpl. apply upd_eq.
  - cbn [mbind outcome_bind] in Hr. by destruct (Z.eqb_spec x (-1)).
Qed.

Lemma erase_sim {W} `{EventIo W} (io io' : W) r w r' i f :
  simulates side r w -> erase_from_maps f r io = Ok (r', io') -> threads w i = Erasing f ->
  exists w', rtc (step unix_fds side impatient) w w' /\ simulates side r' w' /\ only_thread w w' i Idle
    /\ client w' f = None /\ events w' f = Unwatched.
Proof.
  intros [H0 H1 H2 H3 H4 H5 H6 H7] He Hi.
  apply erase_from_maps_inv in He as (u & t2u' & u2t' & x & q & Hu & Hne & Hut & Ht & Hx & Hq & ->).
  apply H1 in Hu. apply H7 in Hx. apply enqueue_inv in Hq as (l & Hl & ->).
  rewrite <- Hx, H4, H5 in *.
  eexists. split.
  - take_step ltac:(apply (step_erase _ _ _ w i f)). rewrite Hu, decide_False by done.
    take_step ltac:(apply (step_erase1 _ _ _ _ i f u)).
    take_step ltac:(apply (step_erase2 _ _ _ _ i f u)).
    take_step ltac:(apply (step_reserve _ _ _ _ i f u)).
    take_step ltac:(apply (step_store _ _ _ _ i f u (last_idx w (side u)))).
    take_step ltac:(apply (step_close _ _ _ _ i f)).
    apply rtc_refl.
  - split_and!; simpl.
    + split; simpl; try done.
      * apply array_set_inv in Ht as [_ ->]. by rewrite length_insert.
      * by eapply cells_set.
      * by eapply cells_set.
      * intros c. unfold queue_at in *. unfold upd at 1. pose proof (H3 c).
        destruct (side u), c; simpl in *; try done; by eapply cells_set.
      * intros c. unfold queue_at in *. pose proof (H4 c). by destruct (side u), c.
      * intros c. unfold queue_at in *. unfold upd. pose proof (H5 c). by destruct (side u), c.
    + split; simpl; [apply upd_eq|]. intros j Hj. by rewrite !upd_ne.
    + apply upd_eq.
    + apply upd_eq.
Qed.
End Sim.

(** ** From the initialization *)
Lemma cells_fill : cells fill_n (fun _ => -1).
Proof.
  intros k x [_ Hx]%array_get_Ok. unfold fill_n in Hx. by apply lookup_replicate in Hx as [-> _].
Qed.

(** A ring as the initialization leaves it. *)
Lemma cells_ring q l :
  queue_of q l -> empty_from q (length l) ->
  cells (slots q) (fun k => if decide (0 <= k) then default (-1) (l !! Z.to_nat k) else -1).
Proof.
  intros [Hs Hst _ _ Hc Hit] [H0 Hm] k x [Hk Hx]%array_get_Ok. rewrite decide_True by done.
  pose proof (lookup_lt_Some _ _ _ Hx) as Hlt. rewrite Hs in Hlt.
  destruct (l !! Z.to_nat k) as [u|] eqn:E; simpl.
  - apply Hit in E. rewrite H0, Z.add_0_l, Z2Nat.id, Z.mod_small in E by lia. congruence.
  - apply lookup_ge_None in E. rewrite Hm in Hx by lia. congruence.
Qed.

Lemma filter_every {A} (P : A -> Prop) `{forall x, Decision (P x)} (l : list A) :
  (forall x, x ∈ l -> P x) -> filter P l = l.
Proof.
  induction l as [|x l IH]; [done|]. intros Hl.
  rewrite filter_cons_True by (apply Hl, list_elem_of_here).
  f_equal. apply IH. intros y Hy. by apply Hl, list_elem_of_further.
Qed.

Lemma filter_nothing {A} (P : A -> Prop) `{forall x, Decision (P x)} (l : list A) :
  (forall x, x ∈ l -> ~ P x) -> filter P l = [].
Proof.
  induction l as [|x l IH]; [done|]. intros Hl.
  rewrite filter_cons_False by (apply Hl, list_elem_of_here).
  apply IH. intros y Hy. by apply Hl, list_elem_of_further.
Qed.

Lemma idle_fds_app l1 l2 :
  NoDup (l1 ++ l2) ->
  let side u := bool_decide (u ∈ l1) in
  idle_fds (l1 ++ l2) side true = l1 /\ idle_fds (l1 ++ l2) side false = l2.
Proof.
  intros (_ & Hd & _)%NoDup_app side. unfold idle_fds. rewrite !filter_app.
  assert (E1 : forall u, u ∈ l1 -> side u = true) by (intros u Hu; by apply bool_decide_eq_true_2).
  assert (E2 : forall u, u ∈ l2 -> side u = false).
  { intros u Hu. apply bool_decide_eq_false_2. intros Hu1. by apply (Hd u). }
  split.
  - rewrite (filter_every _ l1), (filter_nothing _ l2), app_nil_r; [done| |done].
    intros u Hu. by rewrite E2.
  - rewrite (filter_nothing _ l1), (filter_every _ l2); [done|done|].
    intros u Hu. by rewrite E1.
Qed.

(** C7: The steps of one thread refine the functions of [Router]: from states with the same
    data, the thread's uninterrupted steps from the return of [accept] on compute
    [pair_connection] and leave the client armed; those from an event on compute [route], or
    end in the failed [CHECK] where it faults; and those after an end of file compute
    [erase_from_maps] and leave the descriptor closed.  The data stays the same and no other
    thread moves. *)
Theorem threads_run_the_code {W} `{EventIo W} unix_fds side impatient r w i :
  simulates side r w ->
  (forall t r', threads w i = Idle -> client w t = None -> t ∉ unix_fds ->
     pair_connection t r = Ok r' ->
     exists w', rtc (step unix_fds side impatient) w w' /\ simulates side r' w'
       /\ only_thread w w' i Idle /\ events w' t = Armed /\ client w' t = Some (next_client w))
  /\ (forall f d, threads w i = Routing f -> route r f = Ok d ->
        exists w', rtc (step unix_fds side impatient) w w' /\ simulates side r w'
          /\ only_thread w w' i (Handling f d))
  /\ (forall f, threads w i = Routing f -> route r f = Fault CheckFailed ->
        exists w', rtc (step unix_fds side impatient) w w' /\ threads w' i = Aborted)
  /\ (forall f r' (io io' : W), threads w i = Erasing f ->
        erase_from_maps f r io = Ok (r', io') ->
        exists w', rtc (step unix_fds side impatient) w w' /\ simulates side r' w'
          /\ only_thread w w' i Idle /\ client w' f = None /\ events w' f = Unwatched).
Proof.
  intros Hs. split_and!; intros.
  - by eapply (pair_sim unix_fds side impatient r).
  - by eapply (route_sim unix_fds side impatient r).
  - by eapply (route_fault_sim unix_fds side impatient r).
  - by eapply (erase_sim unix_fds side impatient io io' r).
Qed.

(** The connections in a ring that nobody has taken from yet. *)
Definition stored_fds (q : ring_queue) : list Z := take (Z.to_nat (end_idx q)) (slots q).

Lemma stored_fds_queue q l : queue_of q l -> empty_from q (length l) -> stored_fds q = l.
Proof.
  intros [Hs _ He _ Hc Hit] [H0 _]. unfold stored_fds. rewrite H0, Z.add_0_l in He.
  rewrite He, Nat2Z.id. apply list_eq_same_length with (n := length l); [done| |].
  - rewrite length_take, Hs. lia.
  - intros k x y Hk Hx Hy. rewrite lookup_take_lt in Hx by done. apply Hit in Hy.
    rewrite H0, Z.add_0_l, Z.mod_small, Nat2Z.id in Hy by lia. congruence.
Qed.

(** C12: The initialization establishes what the threads need. A successful
    [InitializeThreadPool] leaves fifty connections in each ring.  If the system has handed out
    distinct descriptors and those of the second server fit the tables (those of the first are
    checked by the accesses), the connections in the rings meet the conditions of the theorems
    on threads, and the router is the start of the threads' steps with them: empty tables,
    the rings in the order of the connections, [connection_1_fds] marking those of the first
    ring. *)
Theorem threads_start_initialized {W} `{EventIo W} (w : W) r w' server_fd epoll_fd :
  InitializeThreadPool w = Ok (r, w', server_fd, epoll_fd) ->
  let l1 := stored_fds (available_1 r) in
  let l2 := stored_fds (available_2 r) in
  let side u := bool_decide (u ∈ l1) in
  length l1 = kInitialUnixConnections /\ length l2 = kInitialUnixConnections
  /\ (NoDup (l1 ++ l2) -> Forall in_table l2 ->
      fds_ok (l1 ++ l2) /\ simulates side r (proxy_start (l1 ++ l2) side)).
Proof.
  intros (l1 & l2 & L1 & L2 & [H1 H2 Hl Hc Ht Hq1 Hq2 He1 He2 Hrr])%InitializeThreadPool_opens.
  rewrite (stored_fds_queue _ l1 Hq1 He1), (stored_fds_queue _ l2 Hq2 He2). intros k1 k2 side.
  subst k1 k2. split; [done|]. split; [done|]. intros Hn Ht2.
  destruct (idle_fds_app l1 l2 Hn) as [E1 E2]. fold side in E1, E2. split.
  { split; [by rewrite length_app, L1, L2| |done].
    rewrite Forall_forall in Ht, Ht2.
    intros u [Hu|Hu]%elem_of_app; [by apply Ht in Hu as []|by apply Ht2 in Hu as []]. }
  split; simpl.
  - by rewrite H1.
  - rewrite H1. apply cells_fill.
  - rewrite H2. apply cells_fill.
  - intros []; [rewrite E1; by apply cells_ring|rewrite E2; by apply cells_ring].
  - intros []; [apply He1|apply He2].
  - intros []; [rewrite E1|rewrite E2]; simpl;
      [rewrite (qo_end _ _ Hq1), (proj1 He1)|rewrite (qo_end _ _ Hq2), (proj1 He2)]; done.
  - done.
  - intros u x [Hu Hx]%array_get_Ok. pose proof (lookup_lt_Some _ _ _ Hx) as Hlt.
    rewrite Hc in Hx by (unfold in_table, kMaxConnections in *; lia). injection Hx as <-.
    unfold side. by case_bool_decide.
Qed.

(** The connections of the two servers are 7, 9, ..., 105 and 8, 10, ..., 106. *)
Lemma threads_start_initialized_witness :
  exists l1 l2, head l1 = Some 7 /\ last l2 = Some 106
    /\ let side u := bool_decide (u ∈ l1) in
       fds_ok (l1 ++ l2) /\ simulates side initial_router (proxy_start (l1 ++ l2) side).
Proof.
  exists (stored_fds (available_1 initial_router)), (stored_fds (available_2 initial_router)).
  split; [vm_compute; reflexivity|]. split; [vm_compute; reflexivity|].
  apply (@threads_start_initialized Z counter_io 5 initial_router 107 5 6).
  - vm_compute. reflexivity.
  - by_decide.
  - by_decide.
Defined.

Lemma small_router_simulated :
  simulates (fun u => u =? 7) small_router (proxy_start [7; 8] (fun u => u =? 7)).
Proof.
  assert (Hone : forall u, cells (<[0%nat := u]> fill_n) (upd (fun _ => -1) 0 u)).
  { intros u. by apply (cells_set fill_n _ 0 u); [apply cells_fill|]. }
  split; try (intros []; reflexivity); try exact cells_fill; try done.
  - intros b. apply (cells_ext _ (upd (fun _ => -1) 0 (if b then 7 else 8))).
    + destruct b; apply Hone.
    + intros k. unfold upd. destruct (decide (k = 0)) as [->|Hk]; [by destruct b|].
      cbn [ring proxy_start]. case_decide; [|done].
      destruct (Z.to_nat k) as [|n] eqn:E; [lia|].
      destruct b; [change (idle_fds [7; 8] (fun u => u =? 7) true) with [7]
                  |change (idle_fds [7; 8] (fun u => u =? 7) false) with [8]]; done.
  - intros u x Hx.
    assert (Hc : cells (connection_1_fds small_router) (upd (fun _ => -1) 7 1)).
    { by apply (cells_set fill_n _ 7 1); [apply cells_fill|]. }
    apply Hc in Hx as <-. unfold upd. case_decide as Hu; [by subst u|]. by apply Z.eqb_neq.
Qed.

Lemma threads_run_the_code_witness :
  exists r' w', pair_connection 200 small_router = Ok r'
    /\ rtc (step [7; 8] (fun u => u =? 7) false) (proxy_start [7; 8] (fun u => u =? 7)) w'
    /\ simulates (fun u => u =? 7) r' w' /\ events w' 200 = Armed.
Proof.
  destruct (@threads_run_the_code Z counter_io [7; 8] (fun u => u =? 7) false small_router _ 0%nat
              small_router_simulated) as (Hpair & _).
  destruct (Hpair 200 (mkRouter (<[200%nat := 7]> fill_n) (<[7%nat := 200]> fill_n)
                         (connection_1_fds small_router) (mkQueue (<[0%nat := 7]> fill_n) 1 1)
                         (available_2 small_router) 1)) as (w' & H1 & H2 & _ & H3 & _).
  - reflexivity.
  - reflexivity.
  - by_decide.
  - vm_compute. reflexivity.
  - do 2 eexists. split; [vm_compute; reflexivity|]. split; [exact H1|]. split; [|exact H3].
    vm_compute in H2 |- *. exact H2.
Defined.
