(* ===== verification/RouterThreadsLive.v ===== *)
(** * RouterThreadsLive: every request that reached the proxy is answered

    Between two things that clients do, the threads of the proxy and the servers have only
    finitely many steps to take, in whatever order they take them, and when none is left
    every client that asked has its answer.  No fairness is assumed: a measure, summed over
    the descriptors in use, falls with every step. *)
From S2P Require Import Prelude Router RouterThreads RouterThreadsInv RouterThreadsSpec.
#[local] Open Scope Z_scope.

(** The descriptor a thread works for. *)
Definition desc (pc : tpc) : option Z :=
  match pc with
  | Idle | Aborted => None
  | Accepted t _ | Taking t _ _ | Linking t _ | Linking2 t _ | Watching t => Some t
  | Routing f | Routing2 f | Handling f _ | Rearming f | Erasing f | Erasing1 f _ | Erasing2 f _
  | Erasing3 f _ | Storing f _ _ | Closing f => Some f
  end.

(** The thread deals with what [epoll_wait] reported on its descriptor. *)
Definition claims (pc : tpc) : bool :=
  match pc with
  | Routing _ | Routing2 _ | Handling _ _ | Erasing _ | Erasing1 _ _ | Erasing2 _ _
  | Erasing3 _ _ | Storing _ _ _ | Closing _ => true
  | _ => false
  end.

Section Live.
Variable unix_fds : list Z.
Variable side : Z -> bool.

(** A step of a thread or a server that no client takes part in: nobody connects, asks or
    leaves. *)
Definition serving (w w' : proxy) : Prop :=
  step unix_fds side false w w' /\ next_client w' = next_client w
  /\ forall c, phases w c = Quiet -> phases w' c = Quiet.

Definition work_step (w w' : proxy) : Prop := serving w w' /\ calm side w'.

Definition in_use (w : proxy) (f : Z) : Prop := f ∈ unix_fds \/ is_Some (client w f).

(** Nothing is forgotten: a descriptor in use is watched or some thread works for it, and
    what a waiting client asked for is on its way. *)
Record live (w : proxy) : Prop := {
  lv_watched : forall f, in_use w f ->
    events w f = Armed \/ exists i, events w f = Owned i /\ desc (threads w i) = Some f;
  lv_waiting : forall t c, client w t = Some c -> phases w c = Waiting ->
    exists u, u ∈ unix_fds /\ c ∈ requests w u ++ replies w u
}.

(** ** Nothing is forgotten *)
Lemma deliver_client w d cs : client (deliver w d cs) = client w.
Proof. unfold deliver. by case_match. Qed.

Lemma deliver_threads w d cs : threads (deliver w d cs) = threads w.
Proof. unfold deliver. by case_match. Qed.

Lemma deliver_events w d cs : events (deliver w d cs) = events w.
Proof. unfold deliver. by case_match. Qed.

Lemma deliver_requests w d cs : requests (deliver w d cs) = requests w.
Proof. unfold deliver. by case_match. Qed.

Lemma deliver_replies w d cs : replies (deliver w d cs) = replies w.
Proof. unfold deliver. by case_match. Qed.

Lemma deliver_next w d cs : next_client (deliver w d cs) = next_client w.
Proof. unfold deliver. by case_match. Qed.

Lemma deliver_phases w d cs c :
  phases (deliver w d cs) c
  = if decide (client w d = Some c /\ phases w c = Waiting) then Quiet else phases w c.
Proof.
  unfold deliver. destruct (client w d) as [c'|]; [|case_decide; naive_solver]. simpl. unfold upd.
  repeat case_decide; naive_solver.
Qed.

Lemma never_aborted w : inv unix_fds side w -> forall i, threads w i <> Aborted.
Proof. intros Hw i Hi. by apply (pc_at _ _ _ _ _ Hw) in Hi. Qed.

Lemma watched_step w w' :
  inv unix_fds side w -> inv unix_fds side w' -> step unix_fds side false w w' -> live w ->
  forall f, in_use w' f ->
    events w' f = Armed \/ exists i, events w' f = Owned i /\ desc (threads w' i) = Some f.
Proof.
  intros Hw Hw' Hs [Hl _] f Hf. pose proof (never_aborted w' Hw') as Hna. unfold in_use in *.
  set (used := f ∈ unix_fds \/ is_Some (client w f)) in *.
  assert (Hkeep : forall i pc, desc pc = desc (threads w i) -> used ->
    events w f = Armed \/ exists j, events w f = Owned j /\ desc (upd (threads w) i pc j) = Some f).
  { intros i pc Hp Hu. destruct (Hl f Hu) as [?|(j & He & Hd)]; [by left|]. right. exists j.
    split; [done|]. unfold upd. case_decide; [|done]. subst. congruence. }
  assert (Hmove : forall i g x pc, desc (threads w i) = Some g \/ desc (threads w i) = None ->
    (f <> g -> used) -> (f = g -> x = Armed \/ x = Owned i /\ desc pc = Some g) ->
    upd (events w) g x f = Armed
    \/ exists j, upd (events w) g x f = Owned j /\ desc (upd (threads w) i pc j) = Some f).
  { intros i g x pc Hp Hu Hg. destruct (decide (f = g)) as [->|Hne].
    - rewrite upd_eq. destruct (Hg eq_refl) as [?|[? ?]]; [by left|]. right. exists i. by rewrite upd_eq.
    - rewrite upd_ne by done. destruct (Hl f (Hu Hne)) as [?|(j & He & Hd)]; [by left|].
      right. exists j. split; [done|]. rewrite upd_ne; [done|]. intros ->. destruct Hp; congruence. }
  assert (Hpc : forall i pc, threads w i = pc -> pc_ok unix_fds side w i pc) by (intros i pc; by apply pc_at).
  destruct Hs; simpl in *; rewrite ?deliver_client, ?deliver_events, ?deliver_threads in *;
    try (apply Hl; exact Hf);
    try (match goal with H : threads w ?i = _ |- _ =>
           apply Hkeep; [|exact Hf]; rewrite H;
           specialize (Hna i); rewrite upd_eq in Hna; repeat case_decide; done end).
  - apply Hmove; [rewrite H; by right| |by auto]. intros Hne. by rewrite upd_ne in Hf.
  - apply Hmove; [by rewrite H; left|by auto|by left].
  - apply Hmove; [by rewrite H; right|by auto|]. by right.
  - apply Hmove; [by rewrite H; left|by auto|by left].
  - apply Hmove; [by rewrite H; left| |].
    + intros Hne. by rewrite upd_ne in Hf.
    + intros ->. rewrite upd_eq in Hf. destruct Hf as [Hf|[? ?]]; [|done].
      by destruct (Hpc _ _ H) as (((_ & Hn & _) & _) & _).
Qed.
Lemma waiting_step w w' :
  inv unix_fds side w -> step unix_fds side false w w' -> live w ->
  forall t c, client w' t = Some c -> phases w' c = Waiting ->
    exists u, u ∈ unix_fds /\ c ∈ requests w' u ++ replies w' u.
Proof.
  intros Hw Hs [_ Hl] t c Hc Hp.
  assert (Hpc : forall i pc, threads w i = pc -> pc_ok unix_fds side w i pc) by (intros i pc; by apply pc_at).
  destruct Hs; simpl in *; rewrite ?deliver_client, ?deliver_phases, ?deliver_requests, ?deliver_replies in *;
    try (by eapply Hl).
  - unfold upd in Hp. case_decide; [done|]. by eapply Hl.
  - unfold upd in Hp. case_decide; [done|]. by eapply Hl.
  - destruct (Hl t c Hc Hp) as (v & Hv & Hin). exists v. split; [done|]. unfold upd.
    repeat case_decide; try done. subst. rewrite H0 in Hin. set_solver.
  - unfold upd in Hc, Hp. repeat case_decide; simplify_eq. by eapply Hl.
  - unfold upd in Hp |- *. destruct (decide (c = c0)) as [->|Hne].
    + destruct (Hpc _ _ H) as [[(Hf & _) _]|(_ & _ & Hd & _)]; [done|]. exists d. split; [done|].
      rewrite decide_True by done. set_solver.
    + destruct (Hl t c Hc Hp) as (v & Hv & Hin). exists v. split; [done|].
      repeat case_decide; try done. subst. set_solver.
  - case_decide as Hd; [done|]. destruct (Hl t c Hc Hp) as (v & Hv & Hin). exists v. split; [done|].
    unfold upd. repeat case_decide; try done. subst. destruct Hd.
    destruct (Hpc _ _ H) as [[(_ & _ & Hr) [_ Hk]]|((_ & Hn & _) & _)]; [|done].
    destruct (replies_linked _ _ _ _ Hw Hv Hr) as (t' & c' & [_ Hk'] & Hc' & Hph & Hq & Hrs).
    rewrite Hq, Hrs in Hin. apply list_elem_of_singleton in Hin as ->.
    rewrite Hk in Hk'. by injection Hk' as ->.
  - unfold upd in Hc. case_decide; [done|]. by eapply Hl.
Qed.

Lemma live_step w w' :
  inv unix_fds side w -> inv unix_fds side w' -> step unix_fds side false w w' -> live w -> live w'.
Proof. intros Hw Hw' Hs Hl. split; [by apply (watched_step w)|by apply (waiting_step w)]. Qed.

Lemma live_start : live (proxy_start unix_fds side).
Proof.
  split; [|done]. intros f [Hf|[? Hf]]; [|done]. left. simpl. by rewrite decide_True.
Qed.

(** ** The measure *)
(** Something is to be reported on [f]. *)
Definition signalled (w : proxy) (f : Z) : bool :=
  match client w f with
  | Some c => match phases w c with Asking | Closed => true | _ => false end
  | None => bool_decide (f ∈ unix_fds) && match replies w f with [] => false | _ => true end
  end.

Definition owner (w : proxy) (f : Z) : tpc :=
  match events w f with Owned i => threads w i | _ => Idle end.

(** The steps that [f] still calls for: those of the thread that works for it, a turn for
    what is not yet claimed, the answer to a request that is not yet forwarded, and those on
    their way. *)
Definition load (w : proxy) (f : Z) : nat :=
  steps_left (owner w f) + (if signalled w f && negb (claims (owner w f)) then 10 else 0)
  + match client w f with Some c => if decide (phases w c = Asking) then 11 else 0 | None => 0 end
  + 11 * length (requests w f).

#[local] Arguments load : simpl never.

Definition total (w : proxy) (l : list Z) : nat := sum_list (load w <$> l).

Record covers (w : proxy) (l : list Z) : Prop := {
  cv_distinct : NoDup l;
  cv_unix : forall u, u ∈ unix_fds -> u ∈ l;
  cv_client : forall t, is_Some (client w t) -> t ∈ l
}.

Lemma total_same w w' l : (forall f, f ∈ l -> (load w' f <= load w f)%nat) -> (total w' l <= total w l)%nat.
Proof.
  unfold total. induction l as [|f l IH]; intros H; [done|]. csimpl.
  pose proof (H f ltac:(set_solver)). pose proof (IH ltac:(set_solver)). lia.
Qed.

Lemma total_permutation w l k : l ≡ₚ k -> total w l = total w k.
Proof. unfold total. intros H. induction H; csimpl; lia. Qed.

Lemma total_one w w' l f :
  NoDup l -> f ∈ l -> (forall g, g <> f -> (load w' g <= load w g)%nat) ->
  (load w' f < load w f)%nat -> (total w' l < total w l)%nat.
Proof.
  intros N Hf Hg Hlt. apply elem_of_Permutation in Hf as (k & Hk). rewrite Hk in N.
  apply NoDup_cons in N as [Hn _]. rewrite !(total_permutation _ _ _ Hk). unfold total. csimpl.
  pose proof (total_same w w' k) as Ht. unfold total in Ht.
  assert (forall g, g ∈ k -> (load w' g <= load w g)%nat) by (intros g ?; apply Hg; congruence).
  specialize (Ht ltac:(done)). lia.
Qed.

Lemma total_two w w' l f d :
  NoDup l -> f ∈ l -> d ∈ l -> f <> d ->
  (forall g, g <> f -> g <> d -> (load w' g <= load w g)%nat) ->
  (load w' f + load w' d < load w f + load w d)%nat -> (total w' l < total w l)%nat.
Proof.
  intros N Hf Hd Hne Hg Hlt. apply elem_of_Permutation in Hf as (k & Hk). rewrite Hk in N, Hd.
  apply elem_of_cons in Hd as [?|Hd]; [congruence|].
  apply elem_of_Permutation in Hd as (m & Hm). rewrite Hm in N, Hk.
  apply NoDup_cons in N as [Hf N]. apply NoDup_cons in N as [Hd _].
  rewrite !(total_permutation _ _ _ Hk). unfold total. csimpl.
  pose proof (total_same w w' m) as Ht. unfold total in Ht.
  assert (forall g, g ∈ m -> (load w' g <= load w g)%nat).
  { intros g Hin. apply Hg; [|congruence]. intros ->. set_solver. }
  specialize (Ht ltac:(done)). lia.
Qed.
(** ** The measure falls *)
Lemma worker w i f :
  inv unix_fds side w -> desc (threads w i) = Some f -> events w f = Owned i /\ in_use w f.
Proof.
  intros Hw Hd. pose proof (iv_pc _ _ _ Hw i) as Hp. unfold in_use.
  unfold pc_ok, opening, leaving, speaking, answering, owns_client in Hp.
  destruct (threads w i); simplify_eq/=;
    try (destruct_or?; destruct_and?; try (destruct Hp as [u Hp]; destruct_and?); by auto).
  destruct Hp as (He & [Hf|(u & Hl)]); (split; [done|]); [by left|right].
  by destruct (linked_client _ _ _ _ _ Hw Hl) as (_ & ? & _).
Qed.

Lemma owner_desc w i f :
  inv unix_fds side w -> live w -> events w f = Owned i -> desc (threads w i) = Some f.
Proof.
  intros Hw [Hl _] He.
  assert (Hu : in_use w f).
  { destruct (decide (f ∈ unix_fds)) as [?|Hn]; [by left|right].
    destruct (client w f) eqn:E; [by eexists|]. pose proof (iv_unwatched _ _ _ Hw f Hn E). congruence. }
  destruct (Hl f Hu) as [?|(j & Hj & Hd)]; congruence.
Qed.

Lemma owner_worker w i f :
  inv unix_fds side w -> desc (threads w i) = Some f -> owner w f = threads w i.
Proof. intros Hw Hd. unfold owner. by destruct (worker w i f Hw Hd) as [-> _]. Qed.

Lemma owner_other w w' i f g pc :
  inv unix_fds side w -> live w -> threads w' = upd (threads w) i pc -> events w' g = events w g ->
  (forall h, desc (threads w i) = Some h -> h = f) -> g <> f -> owner w' g = owner w g.
Proof.
  intros Hw Hl Ht He Hd Hg. unfold owner. rewrite He, Ht. destruct (events w g) eqn:E; [done..|].
  apply upd_ne. intros ->. apply Hg, Hd, owner_desc; done.
Qed.

Lemma load_same w w' f :
  owner w' f = owner w f -> phases w' <$> client w' f = phases w <$> client w f ->
  replies w' f = replies w f -> requests w' f = requests w f -> load w' f = load w f.
Proof.
  intros Ho Hc Hr Hq. unfold load, signalled. rewrite Ho, Hr, Hq.
  destruct (client w' f), (client w f); simplify_eq/=; try done. by rewrite Hc.
Qed.

(** A thread that takes one step and leaves clients and servers alone. *)
Lemma total_move w w' l i f pc :
  inv unix_fds side w -> live w -> covers w l -> desc (threads w i) = Some f ->
  client w' = client w -> phases w' = phases w -> replies w' = replies w ->
  requests w' = requests w -> threads w' = upd (threads w) i pc ->
  (forall g, g <> f -> events w' g = events w g) -> owner w' f = pc ->
  (claims (threads w i) = true -> claims pc = true) ->
  (steps_left pc < steps_left (threads w i))%nat -> (total w' l < total w l)%nat.
Proof.
  intros Hw Hl [N Cu Cc] Hd Hc Hp Hr Hq Ht He Ho Hcl Hs.
  destruct (worker w i f Hw Hd) as [_ Hu].
  apply (total_one w w' l f); [done|destruct Hu; auto| |].
  - intros g Hg. rewrite (load_same w w' g); [done| |by rewrite Hc, Hp|by rewrite Hr|by rewrite Hq].
    eapply owner_other; [done..|by apply He| |done]. intros h Hh. congruence.
  - assert (Hsig : signalled w' f = signalled w f) by (unfold signalled; by rewrite Hc, Hp, Hr).
    unfold load. rewrite Ho, (owner_worker w i f), Hsig, Hc, Hp, Hq by done.
    apply Nat.add_lt_mono_r, Nat.add_lt_mono_r.
    destruct (signalled w f), (claims (threads w i)); try rewrite Hcl by done;
      try destruct (claims pc); simpl; lia.
Qed.
Lemma total_pc w l i f pc w1 :
  inv unix_fds side w -> live w -> covers w l -> desc (threads w i) = Some f ->
  client w1 = client w -> phases w1 = phases w -> replies w1 = replies w ->
  requests w1 = requests w -> threads w1 = threads w -> events w1 = events w ->
  (claims (threads w i) = true -> claims pc = true) ->
  (steps_left pc < steps_left (threads w i))%nat -> (total (at_pc w1 i pc) l < total w l)%nat.
Proof.
  intros Hw Hl Hcv Hd Hc Hp Hr Hq Ht He Hcl Hs.
  apply (total_move w _ l i f pc); simpl; rewrite ?Ht, ?He; try done.
  unfold owner. simpl. rewrite He, Ht. destruct (worker w i f Hw Hd) as [-> _]. apply upd_eq.
Qed.

(** A thread that goes back to [epoll_wait]. *)
Lemma total_armed w l i f :
  inv unix_fds side w -> live w -> covers w l -> desc (threads w i) = Some f ->
  claims (threads w i) = false -> (0 < steps_left (threads w i))%nat ->
  (total (at_pc (set_events w f Armed) i Idle) l < total w l)%nat.
Proof.
  intros Hw Hl Hcv Hd Hcl Hs. apply (total_move w _ l i f Idle); simpl; try done.
  - intros g Hg. by apply upd_ne.
  - unfold owner. simpl. by rewrite upd_eq.
  - congruence.
Qed.

Lemma total_event w l i f :
  inv unix_fds side w -> live w -> covers w l -> threads w i = Idle -> events w f = Armed ->
  ready unix_fds w f -> (total (at_pc (set_events w f (Owned i)) i (Routing f)) l < total w l)%nat.
Proof.
  intros Hw Hl [N Cu Cc] Hi He Hr.
  assert (Hs : f ∈ l /\ signalled w f = true).
  { unfold ready in Hr. unfold signalled. case_decide.
    - split; [auto|]. destruct (client w f) eqn:E.
      { by apply (iv_client _ _ _ Hw) in E as (_ & ? & _). }
      rewrite bool_decide_true by done. by destruct (replies w f).
    - destruct Hr as (c & Hc & Hp). rewrite Hc. split; [eauto|]. by destruct Hp as [-> | ->]. }
  destruct Hs as [Hf Hs]. apply (total_one w _ l f); [done|done| |].
  - intros g Hg. rewrite (load_same w); try done.
    eapply owner_other; [done|done|reflexivity|by apply upd_ne| |done]. rewrite Hi. done.
  - unfold load. set (w' := at_pc _ _ _).
    assert (owner w' f = Routing f) as -> by (unfold owner; simpl; by rewrite !upd_eq).
    assert (owner w f = Idle) as -> by (unfold owner; by rewrite He).
    change (signalled w' f) with (signalled w f). rewrite Hs. simpl. case_match; lia.
Qed.
Lemma total_serve w l u c cs :
  inv unix_fds side w -> covers w l -> u ∈ unix_fds -> requests w u = c :: cs ->
  (total (set_wire w u cs (replies w u ++ [c])) l < total w l)%nat.
Proof.
  intros Hw [N Cu Cc] Hu Hq. apply (total_one w _ l u); [done|auto| |].
  - intros g Hg. rewrite (load_same w); simpl; rewrite ?upd_ne; done.
  - unfold load, signalled. set (w' := set_wire _ _ _ _). change (owner w' u) with (owner w u).
    simpl. rewrite !upd_eq, Hq. destruct (client w u) eqn:E.
    { by apply (iv_client _ _ _ Hw) in E as (_ & ? & _). }
    simpl. repeat case_match; lia.
Qed.

Lemma total_close w l i f :
  inv unix_fds side w -> live w -> covers w l -> threads w i = Closing f ->
  (total (at_pc (set_events (close_client w f) f Unwatched) i Idle) l < total w l)%nat.
Proof.
  intros Hw Hl [N Cu Cc] Hi. pose proof (pc_at _ _ _ _ _ Hw Hi) as (((_ & Hf & Hc) & _) & _).
  apply (total_one w _ l f); [done|auto| |].
  - intros g Hg. rewrite (load_same w); simpl; rewrite ?upd_ne; try done.
    eapply owner_other; [done|done|reflexivity|by apply upd_ne| |done].
    rewrite Hi. intros h [= ->]. done.
  - unfold load, signalled. rewrite (owner_worker w i f) by (done || by rewrite Hi). rewrite Hi.
    unfold owner. simpl. rewrite !upd_eq, bool_decide_false by done. simpl. lia.
Qed.

Lemma total_forward_request w l i f d c :
  inv unix_fds side w -> live w -> covers w l -> threads w i = Handling f d -> f ∉ unix_fds ->
  client w f = Some c -> phases w c = Asking ->
  (total (at_pc (set_wire (set_phase w c Waiting) d (requests w d ++ [c]) (replies w d)) i
            (Rearming f)) l < total w l)%nat.
Proof.
  intros Hw Hl [N Cu Cc] Hi Hf Hc Hp.
  destruct (pc_at _ _ _ _ _ Hw Hi) as [[(? & _) _]|((He & _) & _ & Hd & _)]; [done|].
  assert (Hfd : f <> d) by congruence. set (w' := at_pc _ _ _).
  assert (Ho : forall g, g <> f -> owner w' g = owner w g).
  { intros g Hg. apply (owner_other w w' i f g (Rearming f)); try done. rewrite Hi. by intros h [= ->]. }
  assert (Hph : forall g, g <> f -> phases w' <$> client w' g = phases w <$> client w g).
  { intros g Hg. simpl. destruct (client w g) as [c'|] eqn:E; [|done]. simpl. f_equal.
    apply upd_ne. intros ->. apply Hg. apply (iv_client _ _ _ Hw) in Hc as (_ & _ & _ & Hc). by apply Hc. }
  apply (total_two w w' l f d); [done|eauto|auto|done| |].
  - intros g Hgf Hgd. rewrite (load_same w); auto; simpl; by rewrite upd_ne.
  - assert (load w' d = load w d + 11)%nat as ->.
    { assert (client w d = None) as E.
      { destruct (client w d) eqn:E; [|done]. by apply (iv_client _ _ _ Hw) in E as (_ & ? & _). }
      unfold load, signalled. rewrite Ho by done. simpl. rewrite !upd_eq, E, length_app. simpl. lia. }
    unfold load, signalled. rewrite (owner_worker w i f) by (done || by rewrite Hi). rewrite Hi.
    unfold owner. simpl. rewrite He, Hc, !upd_eq, Hp, (upd_ne (requests w)) by done. simpl. lia.
Qed.

Lemma total_forward_reply w l i f d :
  inv unix_fds side w -> live w -> covers w l -> threads w i = Handling f d -> f ∈ unix_fds ->
  (total (at_pc (set_wire (deliver w d (replies w f)) f (requests w f) []) i (Rearming f)) l
   < total w l)%nat.
Proof.
  intros Hw Hl [N Cu Cc] Hi Hf.
  destruct (worker w i f Hw) as [He _]; [by rewrite Hi|]. set (w' := at_pc _ _ _).
  assert (Ho : forall g, g <> f -> owner w' g = owner w g).
  { intros g Hg. apply (owner_other w w' i f g (Rearming f)); try done; simpl.
    - by rewrite deliver_threads.
    - by rewrite deliver_events.
    - rewrite Hi. by intros h [= ->]. }
  apply (total_one w w' l f); [done|auto| |].
  - intros g Hg. unfold load, signalled. rewrite Ho by done. simpl.
    rewrite deliver_client, deliver_replies, deliver_requests, !upd_ne by done.
    destruct (client w g) as [c|]; [|done]. rewrite deliver_phases. case_decide as Hd; [|done].
    by destruct Hd as [_ ->].
  - assert (client w f = None) as E.
    { destruct (client w f) eqn:E; [|done]. by apply (iv_client _ _ _ Hw) in E as (_ & ? & _). }
    unfold load, signalled. rewrite (owner_worker w i f) by (done || by rewrite Hi). rewrite Hi.
    unfold owner. simpl. rewrite deliver_client, deliver_events, deliver_threads, He, E, !upd_eq.
    rewrite andb_false_r. simpl. lia.
Qed.

Lemma serving_decreases w w' l :
  inv unix_fds side w -> inv unix_fds side w' -> live w -> covers w l -> serving w w' ->
  (total w' l < total w l)%nat.
Proof.
  intros Hw Hw' Hl Hcv (Hs & Hn & Hq). pose proof (never_aborted w' Hw') as Hna.
  destruct Hs; simpl in Hn, Hq;
    try (match goal with H : threads w ?i = _ |- _ =>
      eapply (total_pc w l i); try reflexivity; try done; rewrite H; try reflexivity; try done; simpl; lia end).
  - specialize (Hq c). rewrite upd_eq in Hq. naive_solver.
  - destruct H0 as [H0|[? _]]; [|done]. specialize (Hq c). rewrite upd_eq in Hq. naive_solver.
  - by apply total_serve.
  - lia.
  - by apply total_armed; rewrite ?H; auto; simpl; lia.
  - by apply total_event.
  - eapply (total_pc w l i); try reflexivity; try done; rewrite H; try reflexivity;
      repeat case_decide; simpl; try done; lia.
  - specialize (Hna i). simpl in Hna. rewrite upd_eq in Hna. case_decide; [congruence|].
    eapply (total_pc w l i); try reflexivity; try done; rewrite H; try reflexivity; simpl; lia.
  - by apply total_forward_request.
  - by apply total_forward_reply.
  - by apply total_armed; rewrite ?H; auto; simpl; lia.
  - specialize (Hna i). simpl in Hna. rewrite upd_eq in Hna. case_decide; [congruence|].
    eapply (total_pc w l i); try reflexivity; try done; rewrite H; try reflexivity; simpl; lia.
  - by apply total_close.
Qed.

(** Serving opens no connection. *)
Lemma covers_serving w w' l : serving w w' -> covers w l -> covers w' l.
Proof.
  intros (Hs & Hn & _) [N Cu Cc]. split; [done..|]. intros t.
  destruct Hs; simpl in *; rewrite ?deliver_client; auto; [lia|].
  unfold upd. case_decide; [|auto]. by intros [? ?].
Qed.

Lemma covers_step w w' l :
  step unix_fds side false w w' -> covers w l -> exists l', covers w' l'.
Proof.
  intros Hs [N Cu Cc]. destruct (decide (next_client w' = next_client w)) as [Hn|Hn].
  - exists l. split; [done..|]. intros t.
    destruct Hs; simpl in *; rewrite ?deliver_client; auto; [lia|].
    unfold upd. case_decide; [|auto]. by intros [? ?].
  - destruct Hs; simpl in Hn; rewrite ?deliver_next in Hn; try done.
    exists (remove_dups (t :: l)). split; [apply NoDup_remove_dups|..].
    + intros u Hu. apply elem_of_remove_dups. right. auto.
    + intros t' Ht. apply elem_of_remove_dups, elem_of_cons. simpl in Ht. unfold upd in Ht.
      case_decide; auto.
Qed.

Hypothesis fds : fds_ok unix_fds.

(** What holds of every state of a run with patient clients. *)
Definition sound (w : proxy) : Prop := inv unix_fds side w /\ calm side w /\ live w.

Lemma sound_step w w' : sound w -> calm_step unix_fds side false w w' -> sound w'.
Proof.
  intros (Hw & Hc & Hl) [Hs Hc']. destruct fds as [F1 F2 F3].
  assert (inv unix_fds side w') by by apply (proxy_step_inv unix_fds side F1 F2 w).
  split; [done|]. split; [done|]. by apply (live_step w).
Qed.

Lemma reachable_sound w :
  reachable unix_fds side false w -> sound w /\ exists l, covers w l.
Proof.
  assert (H : forall w1 w2, rtc (calm_step unix_fds side false) w1 w2 ->
            sound w1 /\ (exists l, covers w1 l) -> sound w2 /\ exists l, covers w2 l).
  { induction 1 as [|w1 w2 w3 Hs _ IH]; [done|]. intros [H1 [l H2]]. apply IH. split.
    - by apply (sound_step w1).
    - destruct Hs as [Hs _]. by apply (covers_step w1 w2 l). }
  intros Hr. apply (H _ _ Hr). destruct fds as [F1 F2 F3]. split.
  - split; [by apply proxy_start_inv|]. split; [by apply start_calm|apply live_start].
  - exists unix_fds. split; [done|done|]. by intros t [? ?].
Qed.

Lemma sound_work w w' : sound w -> work_step w w' -> sound w'.
Proof. intros H [(Hs & _) Hc]. by apply (sound_step w). Qed.

Lemma sound_works w w' : rtc work_step w w' -> sound w -> sound w'.
Proof. induction 1; [done|]. eauto using sound_work. Qed.

Lemma work_bounded n w w' l :
  nsteps work_step n w w' -> sound w -> covers w l -> (n + total w' l <= total w l)%nat.
Proof.
  induction 1 as [|n w1 w2 w3 Hs _ IH]; intros Hw Hcv; [lia|].
  pose proof (sound_work _ _ Hw Hs) as Hw2. destruct Hs as [Hs _].
  pose proof (covers_serving _ _ _ Hs Hcv) as Hcv2.
  pose proof (serving_decreases w1 w2 l ltac:(apply Hw) ltac:(apply Hw2) ltac:(apply Hw) Hcv Hs).
  specialize (IH Hw2 Hcv2). lia.
Qed.

(** ** When nothing is left to do *)
Lemma thread_step_serves w w' i :
  step unix_fds side false w w' -> (steps_left (threads w' i) < steps_left (threads w i))%nat ->
  serving w w'.
Proof.
  intros Hs Hlt. split; [done|].
  destruct Hs; simpl in *; rewrite ?deliver_next; try lia; try (split; [done|]; auto; fail).
  - unfold upd in Hlt. case_decide; subst; rewrite ?H in Hlt; simpl in Hlt; lia.
  - split; [done|]. intros c' Hc'. rewrite upd_ne; [done|]. intros ->. congruence.
  - split; [done|]. intros c Hc. rewrite deliver_phases. by case_decide.
Qed.

Lemma thread_serves w i : sound w -> threads w i <> Idle -> exists w', serving w w'.
Proof.
  intros (Hw & _ & _) Hi. destruct fds as [F1 F2 F3].
  destruct (next_step unix_fds side F2 w i Hw Hi) as (w' & Hs & Hlt).
  exists w'. by apply (thread_step_serves w w' i).
Qed.

Lemma ready_serves w f :
  sound w -> in_use w f -> ready unix_fds w f -> exists w', serving w w'.
Proof.
  intros Hs Hu Hr. pose proof Hs as (_ & _ & Hl).
  assert (Hi : forall i, threads w i = Idle \/ threads w i <> Idle)
    by (intros i; destruct (threads w i); (by left) || (by right)).
  destruct (lv_watched _ Hl f Hu) as [Ha|(i & _ & Hd)].
  - destruct (Hi 0%nat) as [H0|H0]; [|by eapply thread_serves].
    eexists. split; [by apply (step_event unix_fds side false w 0%nat f)|]. by split.
  - apply (thread_serves w i Hs). intros H. by rewrite H in Hd.
Qed.

Lemma client_serves w t c :
  sound w -> client w t = Some c -> phases w c <> Quiet -> exists w', serving w w'.
Proof.
  intros Hs Hc Hp. pose proof Hs as (Hw & _ & Hl).
  assert (Hn : t ∉ unix_fds) by (by apply (iv_client _ _ _ Hw) in Hc as (_ & ? & _)).
  assert (Ht : phases w c = Asking \/ phases w c = Closed -> exists w', serving w w').
  { intros H. apply (ready_serves w t Hs); [right; by eexists|].
    unfold ready. rewrite decide_False by done. eauto. }
  destruct (phases w c) eqn:E; [done|auto| |auto].
  destruct (lv_waiting _ Hl t c Hc E) as (u & Hu & Hin).
  destruct (requests w u) as [|a q] eqn:Hq.
  - apply (ready_serves w u Hs); [by left|]. unfold ready. rewrite decide_True by done.
    intros Hr. rewrite Hr in Hin. by apply elem_of_nil in Hin.
  - exists (set_wire w u q (replies w u ++ [a])). split; [by apply step_serve|]. by split.
Qed.

(** The client [c] that asked on [t] is still waiting, or has its answer. *)
Definition served_since (w w' : proxy) (t : Z) (c : nat) : Prop :=
  client w' t = Some c
  /\ exists new, delivered w' = new ++ delivered w
       /\ (phases w' c = Asking \/ phases w' c = Waiting \/ phases w' c = Quiet /\ (c, c) ∈ new).

Lemma served_step w0 w w' t c :
  sound w -> serving w w' -> served_since w0 w t c -> served_since w0 w' t c.
Proof.
  intros (Hw & _ & _) (Hs & Hn & Hq) (Hc & new & Hd & Hp).
  assert (Hpc : forall i pc, threads w i = pc -> pc_ok unix_fds side w i pc) by (intros i pc; by apply pc_at).
  destruct Hs; simpl in *; try (split; [done|]; exists new; split; [done|]; exact Hp).
  - specialize (Hq c0). rewrite upd_eq in Hq. naive_solver.
  - destruct H0 as [H0|[? _]]; [|done]. specialize (Hq c0). rewrite upd_eq in Hq. naive_solver.
  - lia.
  - split; [done|]. exists new. split; [done|]. simpl. unfold upd. case_decide as E; [|exact Hp].
    right. by left.
  - destruct (Hpc _ _ H) as [[Ha Hk]|((_ & Hf & _) & _)]; [|done].
    pose proof Ha as (Hu & _ & Hr).
    destruct (replies_linked _ _ _ _ Hw Hu Hr) as (t' & c' & [_ Hk'] & Hc' & Hph & _ & Hrs).
    destruct Hk as [_ Hk]. rewrite Hk in Hk'. injection Hk' as <-.
    split; simpl; [by rewrite deliver_client|]. exists ((c', c') :: new). split.
    + unfold deliver. rewrite Hc', Hrs, Hd. done.
    + rewrite deliver_phases. case_decide as E.
      * destruct E as [E _]. assert (c' = c) as -> by congruence. right; right. split; [done|]. left.
      * destruct Hp as [?|[?|[? ?]]]; [by left|by right; left|right; right]. split; [done|by right].
  - split; [|exists new; split; [done|exact Hp]]. simpl. rewrite upd_ne; [done|]. intros ->.
    destruct (Hpc _ _ H) as ((_ & c' & Hc' & Hx) & _). assert (c' = c) as -> by congruence.
    destruct Hp as [?|[?|[? ?]]]; congruence.
Qed.

Lemma served_works w0 w w' t c :
  rtc work_step w w' -> sound w -> served_since w0 w t c -> served_since w0 w' t c.
Proof.
  induction 1 as [|w1 w2 w3 Hs _ IH]; [done|]. intros Hw H. apply IH; [by apply (sound_work w1)|].
  destruct Hs as [Hs _]. by apply (served_step w0 w1).
Qed.
End Live.

(** C6: Every request that reaches the proxy is answered, in whatever order threads and
    servers take their steps.  From any reachable state of patient clients, (1) the steps
    that threads and servers can take before a client does something new are bounded in
    number; (2) as long as a thread is not back in [epoll_wait], or a client has asked, waits or has
    closed its connection, one of them has such a step; (3) on the way a client that asked
    keeps its connection, and stops waiting only when its own answer is delivered. *)
Theorem requests_are_answered unix_fds side w :
  fds_ok unix_fds -> reachable unix_fds side false w ->
  (exists bound, forall n w', nsteps (work_step unix_fds side) n w w' -> (n <= bound)%nat)
  /\ forall w', rtc (work_step unix_fds side) w w' ->
       (forall i, threads w' i <> Idle -> exists w'', serving unix_fds side w' w'')
       /\ (forall t c, client w' t = Some c -> phases w' c <> Quiet ->
            exists w'', serving unix_fds side w' w'')
       /\ forall t c, client w t = Some c -> phases w c = Asking \/ phases w c = Waiting ->
            client w' t = Some c
            /\ exists new, delivered w' = new ++ delivered w
                 /\ (phases w' c = Asking \/ phases w' c = Waiting
                     \/ phases w' c = Quiet /\ (c, c) ∈ new).
Proof.
  intros Hf Hr. destruct (reachable_sound _ _ Hf w Hr) as [Hs [l Hl]]. split.
  - exists (total unix_fds w l). intros n w' Hn. pose proof (work_bounded _ _ Hf n w w' l Hn Hs Hl). lia.
  - intros w' Hw'. pose proof (sound_works _ _ Hf w w' Hw' Hs) as Hs'. split_and!.
    + intros i. by apply thread_serves.
    + intros t c. by apply client_serves.
    + intros t c Hc Hp. apply (served_works unix_fds side Hf w w w' t c Hw' Hs). split; [done|].
      exists []. split; [done|]. destruct Hp; auto.
Qed.

Lemma requests_are_answered_witness :
  exists w, client w 21 = Some 1%nat /\ phases w 1%nat = Waiting /\ delivered w = [(0, 0)]%nat
    /\ (exists bound, forall n w', nsteps (work_step two_fds two_side) n w w' -> (n <= bound)%nat)
    /\ (exists w', serving two_fds two_side w w')
    /\ forall w', rtc (work_step two_fds two_side) w w' -> phases w' 1%nat = Quiet ->
         exists new, delivered w' = new ++ [(0, 0)]%nat /\ (1, 1)%nat ∈ new.
Proof.
  destruct patient_run as (w & Hr & H0 & H1 & Hd & Hq & Hc & Hp). exists w.
  destruct (requests_are_answered two_fds two_side w two_fds_ok Hr) as [Hb Hw].
  split; [exact Hc|]. split; [exact Hp|]. split; [exact Hd|]. split; [exact Hb|]. split.
  - destruct (Hw w (rtc_refl _ w)) as (_ & H & _). apply (H 21 1%nat Hc). rewrite Hp. discriminate.
  - intros w' Hw' Hph. destruct (Hw w' Hw') as (_ & _ & H). destruct (H 21 1%nat Hc) as (_ & new & Hn & Hs).
    + right. exact Hp.
    + exists new. rewrite <- Hd. split; [exact Hn|]. rewrite Hph in Hs.
      destruct Hs as [?|[?|[_ ?]]]; [discriminate|discriminate|assumption].
Defined.
