(* ===== verification/ThreadPool.v ===== *)
(** * ThreadPool: queues of requests served by worker threads
    ([rinha/thread_pool.cc], [rinha/thread_pool_200.cc])

    Both pools are the same monitor: a queue and a condition variable under one mutex,
    workers that wait for a task and then process it outside the mutex, each with its
    thread-local state.  The sections under the mutex are single steps; the notification of
    an enqueue is a step of its own, and a thread may also wake up without one.  Processing
    is not one step: it is a sequence of actions on what the threads share, and between two
    of them the other workers, the enqueuers and the rest of the program take theirs.  The
    pools differ in the type of a task and in these actions. *)
From S2P Require Import Prelude Text Structs Socket Hstcpcli HandlerSocket MariaDatabase FromHttp ToJson Handler Processor.
#[local] Open Scope Z_scope.

(** What a worker still has to do for its task: a next access to the shared state [S], which
    changes it or fails, and what the worker does then, which depends on the state that the
    access found; or nothing, with the thread-local state [L] that it leaves. *)
Inductive activity (L S : Type) :=
| Over (l : L)
| Act (access : S -> outcome S) (next : S -> activity L S).
Arguments Over {L S} l.
Arguments Act {L S} access next.

(** A worker is about to test the predicate of [condition.wait], blocked in it, in
    [ProcessRequest], or has returned. *)
Inductive worker_state (T L S : Type) :=
| Testing | Blocked_in_wait | Processing (t : T) (a : activity L S) | Returned.
Arguments Testing {T L S}.
Arguments Blocked_in_wait {T L S}.
Arguments Processing {T L S} t a.
Arguments Returned {T L S}.

(** [notifies] counts the enqueues that have released the mutex but not yet called
    [notify_one].  [locals] are the thread-local variables, [shared] is what processing
    changes.  The last three fields record the history. *)
Record pool (T L S : Type) := mkPool {
  tasks : list T;
  stop : bool;
  workers : list (worker_state T L S);
  locals : list L;
  notifies : nat;
  shared : S;
  enqueued : list T;
  started : list T;
  finished : list T
}.
Arguments mkPool {_ _ _} _ _ _ _ _ _ _ _ _.
Arguments tasks {_ _ _} _.
Arguments stop {_ _ _} _.
Arguments workers {_ _ _} _.
Arguments locals {_ _ _} _.
Arguments notifies {_ _ _} _.
Arguments shared {_ _ _} _.
Arguments enqueued {_ _ _} _.
Arguments started {_ _ _} _.
Arguments finished {_ _ _} _.

Section Pool.
Context {T L S : Type}.
(** What a worker does for a task, from its thread-local state. *)
Variable process : T -> L -> activity L S.
(** What the threads outside the pool do to the shared state. *)
Variable others : S -> S -> Prop.

(** [InitializeThreadPool], with the thread-local variables as they start: [stop] is a global
    and starts as false. *)
Definition pool_new (ls : list L) (s : S) : pool T L S :=
  mkPool [] false (replicate (length ls) Testing) ls 0 s [] [] [].

Definition set_worker (p : pool T L S) (i : nat) (x : worker_state T L S) : pool T L S :=
  mkPool (tasks p) (stop p) (<[i := x]> (workers p)) (locals p) (notifies p) (shared p)
    (enqueued p) (started p) (finished p).

Definition set_shared (p : pool T L S) (s : S) : pool T L S :=
  mkPool (tasks p) (stop p) (workers p) (locals p) (notifies p) s
    (enqueued p) (started p) (finished p).

(** [EnqueueProcessRequest], up to the release of the mutex. *)
Definition EnqueueProcessRequest (f : T) (p : pool T L S) : pool T L S :=
  mkPool (tasks p ++ [f]) (stop p) (workers p) (locals p) (notifies p + 1) (shared p)
    (enqueued p ++ [f]) (started p) (finished p).

(** [condition.notify_one()] with the thread it wakes, if one is blocked. *)
Definition notify_one (i : option nat) (p : pool T L S) : pool T L S :=
  let p := match i with Some i => set_worker p i Testing | None => p end in
  mkPool (tasks p) (stop p) (workers p) (locals p) (notifies p - 1) (shared p)
    (enqueued p) (started p) (finished p).

(** One pass through the predicate: block, return, or take the first task and start with it
    from the worker's own variables. *)
Definition test_predicate (i : nat) (l : L) (p : pool T L S) : pool T L S :=
  match tasks p with
  | [] => if stop p then set_worker p i Returned else set_worker p i Blocked_in_wait
  | task :: rest =>
      mkPool rest (stop p) (<[i := Processing task (process task l)]> (workers p)) (locals p)
        (notifies p) (shared p) (enqueued p) (started p ++ [task]) (finished p)
  end.

(** One access of [ProcessRequest] to the shared state. *)
Definition process_action (i : nat) (task : T) (s : S) (a : activity L S) (p : pool T L S)
    : pool T L S := set_shared (set_worker p i (Processing task a)) s.

(** The return of [ProcessRequest], and back to the top of the loop. *)
Definition finish_task (i : nat) (task : T) (l : L) (p : pool T L S) : pool T L S :=
  mkPool (tasks p) (stop p) (<[i := Testing]> (workers p)) (<[i := l]> (locals p)) (notifies p)
    (shared p) (enqueued p) (started p) (finished p ++ [task]).

(** The steps of the workers, with those of the condition variable. *)
Inductive worker_step : pool T L S -> pool T L S -> Prop :=
| ws_notify p i : (0 < notifies p)%nat -> workers p !! i = Some Blocked_in_wait ->
    worker_step p (notify_one (Some i) p)
| ws_notify_nobody p : (0 < notifies p)%nat -> (forall i, workers p !! i <> Some Blocked_in_wait) ->
    worker_step p (notify_one None p)
| ws_spurious p i : workers p !! i = Some Blocked_in_wait -> worker_step p (set_worker p i Testing)
| ws_test p i l : workers p !! i = Some Testing -> locals p !! i = Some l ->
    worker_step p (test_predicate i l p)
| ws_action p i task access next s : workers p !! i = Some (Processing task (Act access next)) ->
    access (shared p) = Ok s -> worker_step p (process_action i task s (next (shared p)) p)
| ws_finish p i task l : workers p !! i = Some (Processing task (Over l)) ->
    worker_step p (finish_task i task l p).

Inductive pool_step : pool T L S -> pool T L S -> Prop :=
| ps_worker p p' : worker_step p p' -> pool_step p p'
| ps_enqueue p f : pool_step p (EnqueueProcessRequest f p)
| ps_others p s : others (shared p) s -> pool_step p (set_shared p s).

(** What may remain of [a] after some of its actions. *)
Inductive remains (a : activity L S) : activity L S -> Prop :=
| rm_all : remains a a
| rm_action access next s s' : remains a (Act access next) -> access s = Ok s' -> remains a (next s).
End Pool.

(** ** The two pools *)

(** [rinha/thread_pool_200.cc]: a task is a descriptor, kept in a thread-local variable; after
    a pause of 50 ms it is sent a fixed response.  The result of [write] is not looked at. *)
Definition response_200 : list Z :=
  bytesn "HTTP/1.1 200 OK|Content-Length: 0|Connection: keep-alive||".

Definition respond_200 {W} `{Conn W} (client_fd _ : Z) : activity Z W :=
  Act Ok (fun _ =>
    Act (fun w => Ok (sys_write client_fd response_200 w).1) (fun _ => Over client_fd)).

(** [rinha/thread_pool.cc]: [ProcessRequestParams] with the index of its buffer for the
    pointer. *)
Record ProcessRequestParams := mkParams {
  buffer_p : nat;
  num_read : Z;
  client_fd : Z
}.

(** The call [ProcessRequest(std::move(task))] as a whole, on the worker's own state and what it
    finds in the shared one. *)
Definition process_params {St W} `{CustomerStore St, Clock W, Conn W, Abseil} (fuel : nat)
    (request : Request) (params : ProcessRequestParams) (s : worker St W * list (list Z))
    : outcome (worker St W * list (list Z)) :=
  let '(k, buffers) := s in
  buf ← of_option OutOfBounds (buffers !! buffer_p params);
  '(k, buf) ← ProcessRequest fuel request buf (num_read params) (client_fd params) k;
  Ok (k, <[buffer_p params := buf]> buffers).

(** ** Invariants *)

(** Occurrences of a kind of worker. *)
Definition count_workers {A} (P : A -> bool) (ws : list A) : nat :=
  foldr (fun x n => (if P x then 1 else 0) + n)%nat 0%nat ws.

Definition is_testing {T L S} (x : worker_state T L S) : bool :=
  match x with Testing => true | _ => false end.

(** The tasks in the hands of the workers. *)
Definition running_task {T L S} (x : worker_state T L S) : option T :=
  match x with Processing t _ => Some t | _ => None end.
Definition running {T L S} (ws : list (worker_state T L S)) : list T := omap running_task ws.

Lemma count_workers_insert {A} (P : A -> bool) ws i x y :
  ws !! i = Some x ->
  (count_workers P (<[i := y]> ws) + (if P x then 1 else 0)
   = count_workers P ws + (if P y then 1 else 0))%nat.
Proof.
  revert i. induction ws as [|z ws IH]; intros [|i] Hi; try done.
  - injection Hi as ->. simpl. lia.
  - simpl in Hi. specialize (IH i Hi). simpl. rewrite <- !Nat.add_assoc. f_equal. exact IH.
Qed.

Lemma omap_insert_permutation {A B} (f : A -> option B) (l : list A) i x y :
  l !! i = Some x -> omap f [x] ++ omap f (<[i := y]> l) ≡ₚ omap f [y] ++ omap f l.
Proof.
  revert i. induction l as [|z l IH]; intros [|i] Hi; try done.
  - injection Hi as ->. simpl. destruct (f x), (f y); simpl; try done. apply Permutation_swap.
  - simpl in Hi. specialize (IH i Hi).
    change (omap f [x] ++ omap f ([z] ++ <[i := y]> l) ≡ₚ omap f [y] ++ omap f ([z] ++ l)).
    rewrite !omap_app, !(Permutation_app_swap_app _ (omap f [z])). by f_equiv.
Qed.

(** A change that does not matter to [f]. *)
Lemma omap_insert_same {A B} (f : A -> option B) (l : list A) i x y :
  l !! i = Some x -> f x = f y -> omap f (<[i := y]> l) ≡ₚ omap f l.
Proof.
  intros Hi Hf. pose proof (omap_insert_permutation f l i x y Hi) as H. simpl in H.
  rewrite Hf in H. by apply Permutation_app_inv_l in H.
Qed.

Lemma insert_elem_of {A} (l : list A) i x z : z ∈ <[i := x]> l -> z = x \/ z ∈ l.
Proof.
  intros [j Hj]%list_elem_of_lookup. apply list_lookup_insert_Some in Hj as [(_ & <- & _)|[_ Hj]];
    [by left|right; by eapply list_elem_of_lookup_2].
Qed.

Section PoolFacts.
Context {T L S : Type}.
Variable process : T -> L -> activity L S.

(** Project out of a pool that is given field by field. *)
Ltac pool_simpl :=
  cbn [pool_new set_worker set_shared notify_one EnqueueProcessRequest process_action finish_task
       tasks stop workers locals notifies shared enqueued started finished length].

Record pool_inv (n : nat) (p : pool T L S) : Prop := {
  pi_fifo : enqueued p = started p ++ tasks p;
  pi_once : started p ≡ₚ finished p ++ running (workers p);
  pi_number : length (workers p) = n /\ length (locals p) = n;
  pi_own : forall i t a, workers p !! i = Some (Processing t a) ->
    exists l, locals p !! i = Some l /\ remains (process t l) a;
  pi_stop : stop p = false;
  pi_returned : Returned ∉ workers p;
  pi_wakeup : Blocked_in_wait ∈ workers p ->
    (length (tasks p) <= notifies p + count_workers is_testing (workers p))%nat
}.

Lemma pool_new_inv ls s0 : pool_inv (length ls) (pool_new ls s0).
Proof.
  assert (Hr : forall n, running (replicate n (@Testing T L S)) = []) by (by induction n).
  split; pool_simpl; try done.
  - by rewrite Hr.
  - by rewrite length_replicate.
  - intros i t a [? _]%lookup_replicate. done.
  - intros [? _]%elem_of_replicate. done.
  - lia.
Qed.

(** A worker that is not in [ProcessRequest] changes. *)
Lemma own_insert (p : pool T L S) i x :
  (forall j t a, workers p !! j = Some (Processing t a) ->
     exists l, locals p !! j = Some l /\ remains (process t l) a) ->
  (forall t a, x = Processing t a -> exists l, locals p !! i = Some l /\ remains (process t l) a) ->
  forall j t a, <[i := x]> (workers p) !! j = Some (Processing t a) ->
    exists l, locals p !! j = Some l /\ remains (process t l) a.
Proof.
  intros Hp Hx j t a [(<- & Hj & _)|[_ Hj]]%list_lookup_insert_Some; [by apply Hx|by apply Hp].
Qed.

(** Waking a thread. *)
Lemma wake_inv n p i m :
  pool_inv n p -> workers p !! i = Some Blocked_in_wait -> (notifies p <= m + 1)%nat ->
  pool_inv n (mkPool (tasks p) (stop p) (<[i := Testing]> (workers p)) (locals p) m (shared p)
                (enqueued p) (started p) (finished p)).
Proof.
  intros [Hf Ho Hn Hown Hst Hr Hw] Hi Hm.
  pose proof (count_workers_insert is_testing _ _ _ Testing Hi) as Hc. simpl in Hc.
  assert (Hb : Blocked_in_wait ∈ workers p) by (by eapply list_elem_of_lookup_2).
  split; pool_simpl; try done.
  - rewrite Ho. by unfold running; rewrite (omap_insert_same _ _ _ _ _ Hi).
  - by rewrite length_insert.
  - by apply own_insert.
  - by intros [?|?]%insert_elem_of.
  - intros _. specialize (Hw Hb). lia.
Qed.

Lemma test_predicate_inv n p i l :
  pool_inv n p -> workers p !! i = Some Testing -> locals p !! i = Some l ->
  pool_inv n (test_predicate process i l p).
Proof.
  intros [Hf Ho Hn Hown Hst Hr Hw] Hi Hl. unfold test_predicate.
  destruct (tasks p) as [|task rest] eqn:Et.
  - rewrite Hst. split; pool_simpl; rewrite ?Et, ?length_insert; try done.
    + rewrite Ho. by unfold running; rewrite (omap_insert_same _ _ _ _ _ Hi).
    + by apply own_insert.
    + by intros [?|?]%insert_elem_of.
    + simpl. lia.
  - pose proof (omap_insert_permutation running_task _ _ _ (Processing task (process task l)) Hi) as Hrun.
    pose proof (count_workers_insert is_testing _ _ _ (Processing task (process task l)) Hi) as Hc.
    simpl in Hrun, Hc. split; pool_simpl; rewrite ?length_insert; try done.
    + by rewrite Hf, <- app_assoc.
    + unfold running. rewrite Hrun, <- !Permutation_middle, app_nil_r. by rewrite Ho.
    + apply own_insert; [done|]. intros t a [= <- <-]. exists l. split; [done|constructor].
    + by intros [?|?]%insert_elem_of.
    + intros [?|Hb]%insert_elem_of; [done|]. specialize (Hw Hb). simpl in Hw. lia.
Qed.

Lemma process_action_inv n p i task access next s :
  pool_inv n p -> workers p !! i = Some (Processing task (Act access next)) ->
  access (shared p) = Ok s -> pool_inv n (process_action i task s (next (shared p)) p).
Proof.
  intros [Hf Ho Hn Hown Hst Hr Hw] Hi Hs.
  pose proof (count_workers_insert is_testing _ _ _ (Processing task (next (shared p))) Hi) as Hc.
  simpl in Hc. split; pool_simpl; rewrite ?length_insert; try done.
  - rewrite Ho. by unfold running; rewrite (omap_insert_same _ _ _ _ _ Hi).
  - apply own_insert; [done|]. intros t b [= <- <-].
    destruct (Hown _ _ _ Hi) as (l & Hl & Hrem). exists l. split; [done|by eapply rm_action].
  - by intros [?|?]%insert_elem_of.
  - intros [?|Hb]%insert_elem_of; [done|]. specialize (Hw Hb). lia.
Qed.

Lemma finish_task_inv n p i task l :
  pool_inv n p -> workers p !! i = Some (Processing task (Over l)) ->
  pool_inv n (finish_task i task l p).
Proof.
  intros [Hf Ho Hn Hown Hst Hr Hw] Hi.
  pose proof (omap_insert_permutation running_task _ _ _ Testing Hi) as Hrun.
  pose proof (count_workers_insert is_testing _ _ _ Testing Hi) as Hc. simpl in Hrun, Hc.
  split; pool_simpl; rewrite ?length_insert; try done.
  - unfold running. by rewrite Ho, <- app_assoc, <- Hrun.
  - intros j t a [(<- & Hj & _)|[Hne Hj]]%list_lookup_insert_Some; [done|].
    rewrite list_lookup_insert_ne by done. by apply Hown.
  - by intros [?|?]%insert_elem_of.
  - intros [?|Hb]%insert_elem_of; [done|]. specialize (Hw Hb). lia.
Qed.

Lemma set_shared_inv n p s : pool_inv n p -> pool_inv n (set_shared p s).
Proof. intros []. by split. Qed.

Lemma enqueue_task_inv n p f : pool_inv n p -> pool_inv n (EnqueueProcessRequest f p).
Proof.
  intros [Hf Ho Hn Hown Hst Hr Hw]. split; pool_simpl; try done; [by rewrite Hf, app_assoc|].
  intros Hb. specialize (Hw Hb). rewrite length_app. simpl. lia.
Qed.

Lemma worker_step_inv n p p' : pool_inv n p -> worker_step process p p' -> pool_inv n p'.
Proof.
  intros Hp Hs. destruct Hs as [p i Hn Hi|p Hn Hb|p i Hi|p i l Hi Hl|p i task access next s Hi Hs|p i task l Hi].
  - refine (wake_inv n p i (notifies p - 1) Hp Hi _). lia.
  - destruct Hp as [Hf Ho Hm Hown Hst Hr Hw]. split; pool_simpl; try done.
    intros [i Hi]%list_elem_of_lookup. by apply Hb in Hi.
  - refine (wake_inv n p i (notifies p) Hp Hi _). lia.
  - by apply test_predicate_inv.
  - by eapply process_action_inv.
  - by apply finish_task_inv.
Qed.

(** A queued task is looked after. *)
Definition looked_after (p : pool T L S) : Prop :=
  (0 < notifies p)%nat \/ Testing ∈ workers p
  \/ Forall (fun x => exists t a, x = Processing t a) (workers p).

Lemma waiting_task n p : pool_inv n p -> tasks p <> [] -> looked_after p.
Proof.
  intros [_ _ _ _ _ Hr Hw] Ht. unfold looked_after.
  destruct (decide (0 < notifies p)%nat) as [|Hn]; [by left|right].
  assert (Hd : Testing ∈ workers p \/ Testing ∉ workers p).
  { clear. induction (workers p) as [|x l IH]; [right; by apply not_elem_of_nil|].
    destruct x; [left; by left|..]; (destruct IH as [IH|IH]; [left; by right|right; by intros [|]%elem_of_cons]). }
  destruct Hd as [|Hnt]; [by left|right].
  assert (Hc : count_workers is_testing (workers p) = 0%nat).
  { clear -Hnt. induction (workers p) as [|x l IH]; [done|].
    apply not_elem_of_cons in Hnt as [Hx Hl]. simpl. rewrite (IH Hl). by destruct x. }
  apply Forall_forall. intros x Hx. destruct x as [| |t a|]; [done| |by do 2 eexists|done].
  specialize (Hw Hx). destruct (tasks p); [done|]. simpl in Hw. lia.
Qed.

(** What the threads outside the pool do. *)
Variable others : S -> S -> Prop.

Lemma pool_step_inv n p p' : pool_inv n p -> pool_step process others p p' -> pool_inv n p'.
Proof.
  intros Hp Hs. destruct Hs as [p1 p2 Hs|p1 f|p1 s Hs];
    [by eapply worker_step_inv|by apply enqueue_task_inv|by apply set_shared_inv].
Qed.

Lemma pool_reachable_inv ls s0 p :
  rtc (pool_step process others) (pool_new ls s0) p -> pool_inv (length ls) p.
Proof.
  intros Hr. pose proof (pool_new_inv ls s0) as H0. induction Hr as [|p1 p2 p3 Hs Hr IH]; [done|].
  apply IH. by eapply pool_step_inv.
Qed.

(** C26: The pool processes every request exactly once, in the order of arrival, whatever
    processing consists of. However enqueuers, workers, the accesses of their calls of
    [ProcessRequest] and the rest of the program interleave, the tasks started are the first
    ones enqueued, each is either finished or in the hands of exactly one of the workers, and
    what a worker still has to do for its task is what is left of the call that began with
    that worker's own thread-local state, untouched by the other workers. *)
Theorem pool_serves_in_order ls s0 p :
  rtc (pool_step process others) (pool_new ls s0) p ->
  enqueued p = started p ++ tasks p
  /\ started p ≡ₚ finished p ++ running (workers p)
  /\ length (workers p) = length ls
  /\ forall i t a, workers p !! i = Some (Processing t a) ->
       exists l, locals p !! i = Some l /\ remains (process t l) a.
Proof. intros Hr%pool_reachable_inv. destruct Hr. naive_solver. Qed.

(** C27: no wakeup is lost. While a task is queued, an enqueuer is about to notify, or a
    worker is about to test the predicate, or every worker is busy with a task; so a
    task never waits for workers that are all asleep. *)
Theorem pool_no_lost_wakeup ls s0 p :
  rtc (pool_step process others) (pool_new ls s0) p -> tasks p <> [] ->
  (0 < notifies p)%nat \/ Testing ∈ workers p
  \/ Forall (fun x => exists t a, x = Processing t a) (workers p).
Proof. intros Hr%pool_reachable_inv. by eapply waiting_task. Qed.
End PoolFacts.

(** ** The hypotheses on concrete runs *)

(** The pools of [thread_pool_200] whose responses go to a list. *)
Definition wire_step : pool Z Z (list Z) -> pool Z Z (list Z) -> Prop :=
  pool_step (@respond_200 (list Z) wire_conn) (fun _ _ => False).

(** Two workers, the first of which blocks, is woken and answers the descriptor 7; before it
    writes the other one has taken 8. *)
Lemma sample_pool_run :
  exists p, rtc wire_step (pool_new [0; 0] []) p
    /\ finished p = [7] /\ running (workers p) = [8] /\ locals p = [7; 0].
Proof.
  eexists. split.
  - eapply rtc_l; [apply ps_worker, (ws_test _ _ 0%nat 0); reflexivity|].
    eapply rtc_l; [apply (ps_enqueue _ _ _ 7)|].
    eapply rtc_l; [apply ps_worker, (ws_notify _ _ 0%nat); [simpl; lia|reflexivity]|].
    eapply rtc_l; [apply ps_worker, (ws_test _ _ 0%nat 0); reflexivity|].
    eapply rtc_l; [apply ps_worker; eapply (ws_action _ _ 0%nat 7); reflexivity|].
    eapply rtc_l; [apply (ps_enqueue _ _ _ 8)|].
    eapply rtc_l; [apply ps_worker, (ws_test _ _ 1%nat 0); reflexivity|].
    eapply rtc_l; [apply ps_worker; eapply (ws_action _ _ 0%nat 7); reflexivity|].
    eapply rtc_l; [apply ps_worker; eapply (ws_finish _ _ 0%nat 7); reflexivity|]. apply rtc_refl.
  - split_and!; reflexivity.
Defined.

Lemma pool_serves_in_order_witness :
  exists p, rtc wire_step (pool_new [0; 0] []) p
    /\ finished p = [7] /\ enqueued p = started p ++ tasks p
    /\ started p ≡ₚ [7; 8] /\ length (workers p) = 2%nat.
Proof.
  destruct sample_pool_run as (p & Hr & Hf & Hw & _). exists p. split; [exact Hr|]. split; [exact Hf|].
  destruct (pool_serves_in_order (@respond_200 (list Z) wire_conn) (fun _ _ => False) [0; 0] [] p Hr)
    as (H1 & H2 & H3 & _).
  rewrite Hf, Hw in H2. split; [exact H1|]. split; [exact H2|exact H3].
Defined.

Lemma pool_no_lost_wakeup_witness :
  exists p : pool Z Z (list Z), tasks p = [7] /\ Blocked_in_wait ∈ workers p
    /\ ((0 < notifies p)%nat \/ Testing ∈ workers p
        \/ Forall (fun x => exists t a, x = Processing t a) (workers p)).
Proof.
  eexists (EnqueueProcessRequest 7 (test_predicate (@respond_200 (list Z) wire_conn) 0 0 (pool_new [0] []))).
  split; [reflexivity|]. split; [by left|].
  apply (pool_no_lost_wakeup (@respond_200 (list Z) wire_conn) (fun _ _ => False) [0] []); [|done].
  eapply rtc_l; [apply ps_worker, (ws_test _ _ 0%nat 0); reflexivity|].
  eapply rtc_l; [apply (ps_enqueue _ _ _ 7)|]. apply rtc_refl.
Defined.
