(* ===== verification/Servers.v ===== *)
(** * Servers: the main programs ([rinha/main.cc], [rinha/epoll.cc])

    [main.cc] opens the listening socket, initializes the database and starts the
    threads of [ThreadPool] and [IoThreadPool].  [epoll.cc] is the smallest server, which
    answers every piece of data it reads with 200 through [thread_pool_200].  The socket path
    is an argument; flags and threads are in [Programs]. *)
From S2P Require Import Prelude Text Structs Account Socket Hstcpcli HandlerSocket MariaDatabase FromHttp ToJson Handler Processor EventIo IoThreadPool ThreadPool.
#[local] Open Scope Z_scope.

(** [bind] of a unix socket and [unlink]. *)
Class UnixSocket (W : Type) := {
  us_bind : Z -> list Z -> W -> W * Z;
  us_unlink : list Z -> W -> W
}.

(** [strncpy(addr.sun_path, path, sizeof(addr.sun_path) - 1)]. *)
Definition sun_path (path : list Z) : list Z := take kSunPath path.

Section Setup.
Context {W : Type} `{EventIo W, UnixSocket W}.

(** [epoll.cc] has a copy of the proxy's function: 0, or -1. *)
Definition make_socket_non_blocking (fd : Z) (w : W) : W * Z :=
  let '(w, flags) := io_getfl fd w in
  if flags =? -1 then (w, -1)
  else
    let flags := Z.lor flags 2048 in
    let '(w, s) := io_setfl fd flags w in
    if s =? -1 then (w, -1) else (w, 0).

(** [main.cc] has one of that of [io_thread_pool.cc]: a failure exits the process. *)
Definition SetNonBlocking (socket_fd : Z) (w : W) : outcome W :=
  let '(w, flags) := io_getfl socket_fd w in
  _ ← checked FatalAbort (negb (flags =? -1));
  let '(w, rc) := io_setfl socket_fd (Z.lor flags 2048) w in
  _ ← checked FatalAbort (negb (rc =? -1));
  Ok w.

(** [epoll.cc]; the socket is not closed when [bind] fails. *)
Definition create_and_bind (path : list Z) (w : W) : W * Z :=
  let '(w, sfd) := io_socket AF_UNIX w in
  if sfd =? -1 then (w, -1)
  else
    let '(w, rc) := us_bind sfd (sun_path path) w in
    if rc =? -1 then (w, -1) else (w, sfd).

(** [main.cc]: the same after removing an old socket. *)
Definition CreateAndBind (path : list Z) (w : W) : W * Z :=
  let '(w, sfd) := io_socket AF_UNIX w in
  if sfd =? -1 then (w, -1)
  else
    let w := us_unlink path w in
    let '(w, rc) := us_bind sfd (sun_path path) w in
    if rc =? -1 then (w, -1) else (w, sfd).

(** The start of [main] in [epoll.cc]: the listening and the epoll descriptor. *)
Definition epoll_setup (path : list Z) (w : W) : outcome (W * Z * Z) :=
  let '(w, server_fd) := create_and_bind path w in
  _ ← checked FatalAbort (negb (server_fd =? -1));
  let '(w, success) := make_socket_non_blocking server_fd w in
  _ ← checked FatalAbort (negb (success =? -1));
  let '(w, success) := io_listen server_fd w in
  _ ← checked FatalAbort (negb (success =? -1));
  let '(w, epoll_fd) := io_epoll_create w in
  _ ← checked FatalAbort (negb (epoll_fd =? -1));
  let '(w, success) := io_epoll_ctl epoll_fd EPOLL_CTL_ADD server_fd false w in
  _ ← checked FatalAbort (negb (success =? -1));
  Ok (w, server_fd, epoll_fd).

(** [main] of [main.cc] up to the threads: [None] when it returns 1. *)
Definition main_sockets (path : list Z) (w : W) : outcome (W * option (Z * Z)) :=
  let '(w, server_fd) := CreateAndBind path w in
  w ← SetNonBlocking server_fd w;
  let '(w, rc) := io_listen server_fd w in
  if rc =? -1 then Ok (io_close server_fd w, None)
  else
    let '(w, epoll_fd) := io_epoll_create w in
    if epoll_fd =? -1 then Ok (w, None)
    else
      let '(w, rc) := io_epoll_ctl epoll_fd EPOLL_CTL_ADD server_fd false w in
      if rc =? -1 then Ok (io_close server_fd w, None) else Ok (w, Some (server_fd, epoll_fd)).

(** The database is initialized after the sockets and before any thread starts. *)
Definition main_start `{MySql W} (padding : nat -> Z) (sql_fuel : nat) (path : list Z) (w : W)
    : outcome (W * option (Z * Z)) :=
  '(w, fds) ← main_sockets path w;
  match fds with
  | None => Ok (w, None)
  | Some fds =>
      '(w, ok) ← MariaInitializeDb padding sql_fuel w;
      _ ← checked CheckFailed ok;
      Ok (w, Some fds)
  end.
End Setup.

(** ** The event loop of [epoll.cc] *)
Section Epoll.
Context {L W : Type} `{EventIo W}.

Definition BUFFER_SIZE : nat := 4096.

(** One [read] of a descriptor with data: [None] when it gave some. *)
Definition read_event (fd : Z) (w : W) : W * option drained :=
  let '(w, r) := io_read fd BUFFER_SIZE w in
  match r with
  | ReadErr errno => (w, Some (if errno =? kEAGAIN then WouldBlock else ReadFailed errno))
  | ReadBytes [] => (w, Some EndOfFile)
  | ReadBytes (_ :: _) => (w, None)
  end.

(** Every successful read of an event enqueues the descriptor once.  [fuel] bounds the
    reads; the peer decides how many there are. *)
Fixpoint read_and_enqueue (fuel : nat) (fd : Z) (p : pool Z L W) : outcome (pool Z L W * drained) :=
  match fuel with
  | O => Fault OutOfFuel
  | Datatypes.S f =>
      let '(w, d) := read_event fd (shared p) in
      match d with
      | Some d => Ok (set_shared p w, d)
      | None => read_and_enqueue f fd (EnqueueProcessRequest fd (set_shared p w))
      end
  end.

(** [if (done) close(fd)]. *)
Definition close_when_done (fd : Z) (d : drained) (w : W) : W :=
  if bool_decide (d = WouldBlock) then w else io_close fd w.

(** The test of the first branch. *)
Definition epoll_error (flags : epoll_flags) : bool :=
  ev_err flags || ev_hup flags || negb (ev_in flags).

Definition on_epoll_event (fuel backlog : nat) (epoll_fd server_fd : Z) (ev : Z * epoll_flags)
    (p : pool Z L W) : outcome (pool Z L W) :=
  let '(fd, flags) := ev in
  if epoll_error flags then Ok (set_shared p (io_close fd (shared p)))
  else if server_fd =? fd
  then w ← accept_loop backlog epoll_fd server_fd (shared p); Ok (set_shared p w)
  else
    '(p, d) ← read_and_enqueue fuel fd p;
    Ok (set_shared p (close_when_done fd d (shared p))).

(** Successive reads of an event: the number that return data and how the last ends. *)
Inductive data_reads (fd : Z) : nat -> W -> W -> drained -> Prop :=
| dr_end w w' d : read_event fd w = (w', Some d) -> data_reads fd 0 w w' d
| dr_more n w w1 w' d : read_event fd w = (w1, None) -> data_reads fd n w1 w' d ->
    data_reads fd (n + 1) w w' d.

Lemma read_and_enqueue_spec fuel fd n d (p : pool Z L W) w' :
  data_reads fd n (shared p) w' d -> (n < fuel)%nat ->
  exists p', read_and_enqueue fuel fd p = Ok (p', d) /\ shared p' = w'
    /\ tasks p' = tasks p ++ replicate n fd /\ enqueued p' = enqueued p ++ replicate n fd
    /\ notifies p' = (notifies p + n)%nat /\ workers p' = workers p.
Proof.
  intros Hr. remember (shared p) as w eqn:Ew. revert fuel p Ew.
  induction Hr as [w w' d E|n w w1 w' d E Hr IH];
    intros [|fuel] p -> Hf; try lia; cbn [read_and_enqueue]; rewrite E.
  - eexists. split; [reflexivity|]. cbn [set_shared shared tasks enqueued notifies workers].
    by rewrite !app_nil_r, Nat.add_0_r.
  - destruct (IH fuel (EnqueueProcessRequest fd (set_shared p w1)) eq_refl ltac:(lia))
      as (p' & -> & Hw & Ht & He & Hn & H1).
    exists p'. split; [done|]. split; [done|]. rewrite Nat.add_1_r. cbn [replicate].
    rewrite Ht, He, Hn. cbn [tasks enqueued notifies EnqueueProcessRequest set_shared].
    rewrite <- !app_assoc. split_and!; try done. lia.
Qed.

(** The smallest server answers reads, not requests. The data of an event that is read in
    [n] pieces puts the descriptor into the queue [n] times, with one notification each,
    and closes the connection exactly when the reads did not end in [EAGAIN]; a request
    that arrives in two pieces gets two responses. *)
Theorem epoll_event_enqueues fuel backlog epoll_fd server_fd fd n d (p : pool Z L W) w' :
  fd <> server_fd -> data_reads fd n (shared p) w' d -> (n < fuel)%nat ->
  exists p',
    on_epoll_event fuel backlog epoll_fd server_fd (fd, mkFlags true false false) p = Ok p'
    /\ shared p' = (if bool_decide (d = WouldBlock) then w' else io_close fd w')
    /\ tasks p' = tasks p ++ replicate n fd /\ enqueued p' = enqueued p ++ replicate n fd
    /\ notifies p' = (notifies p + n)%nat /\ workers p' = workers p.
Proof.
  intros Hfd Hr Hf. unfold on_epoll_event, epoll_error. cbn [ev_err ev_hup ev_in orb negb].
  destruct (Z.eqb_spec server_fd fd); [congruence|].
  destruct (read_and_enqueue_spec fuel fd n d p w' Hr Hf) as (p' & -> & <- & Ht & He & Hn & Hw).
  eexists. split; [reflexivity|]. by split_and!.
Qed.
End Epoll.

Section SetupTheorems.
Context {W : Type} `{EventIo W, UnixSocket W, MySqlLaws W}.

(** [main] starts threads only when everything is in place. If [fcntl] rejects the
    descriptor -1, then [main] goes on only with a valid socket and a valid epoll
    descriptor, after the socket has been registered, and with the rows of all five
    customers stored; a socket that could not be created or bound exits the process. *)
Theorem main_start_ready padding fuel path (w w' : W) server_fd epoll_fd :
  (forall w, (io_getfl (-1) w).2 = -1) ->
  main_start padding fuel path w = Ok (w', Some (server_fd, epoll_fd)) ->
  server_fd <> -1 /\ epoll_fd <> -1
  /\ (exists w1, (io_epoll_ctl epoll_fd EPOLL_CTL_ADD server_fd false w1).2 <> -1)
  /\ forall k l, [100000; 80000; 1000000; 10000000; 500000] !! k = Some l ->
       rows w' !! Z.of_nat k = Some (encode_customer padding (initial_customer l)).
Proof.
  intros Hbad. unfold main_start. intros ([wa fds] & Hs & Hdb)%bind_Ok_inv.
  destruct fds as [[sf ef]|]; [|done].
  apply bind_Ok_inv in Hdb as ([wb ok] & Hdb & Hc). apply bind_Ok_inv in Hc as ([] & Hok & [= -> -> ->]).
  apply checked_Ok in Hok. subst ok. unfold main_sockets in Hs.
  destruct (CreateAndBind path w) as [w1 sfd]. apply bind_Ok_inv in Hs as (w2 & Hnb & Hs).
  destruct (io_listen sfd w2) as [w3 rl]. destruct (Z.eqb_spec rl (-1)); [done|].
  destruct (io_epoll_create w3) as [w4 efd]. destruct (Z.eqb_spec efd (-1)); [done|].
  destruct (io_epoll_ctl efd EPOLL_CTL_ADD sfd false w4) as [w5 rc] eqn:Ec.
  destruct (Z.eqb_spec rc (-1)); [done|]. injection Hs as -> -> ->. split.
  { intros ->. unfold SetNonBlocking, make_socket_non_blocking in Hnb. specialize (Hbad w1).
    destruct (io_getfl (-1) w1) as [w6 fl]. simpl in Hbad. subst fl. done. }
  split; [done|]. split; [exists w4; by rewrite Ec|]. intros k l. by eapply initialized_rows.
Qed.
End SetupTheorems.

(** ** The hypotheses at concrete inputs *)

(** A request that arrives in two pieces is queued twice. *)
Lemma epoll_event_enqueues_witness :
  exists p',
    @on_epoll_event Z loop_world loop_io 3 1 4 3 (7, mkFlags true false false)
      (pool_new [0] ([bytes "GET /"; bytes "x"], [])) = Ok p'
    /\ shared p' = ([], []) /\ tasks p' = [7; 7] /\ enqueued p' = [7; 7]
    /\ notifies p' = 2%nat /\ workers p' = [Testing].
Proof.
  apply (@epoll_event_enqueues Z loop_world loop_io 3 1 4 3 7 2 WouldBlock
           (pool_new [0] ([bytes "GET /"; bytes "x"], [])) ([], [])); [lia| |lia].
  eapply (dr_more 7 1); [reflexivity|]. eapply (dr_more 7 0); [reflexivity|].
  apply dr_end. reflexivity.
Defined.

(** A system in which every call succeeds, except on the descriptor -1. *)
Definition server_io : EventIo sql_world.
Proof.
  refine {|
    io_read := fun _ _ w => (w, ReadErr kEAGAIN);
    io_write := fun _ _ w => w;
    io_close := fun _ w => w;
    io_accept := fun _ w => (w, (-1, kEAGAIN));
    io_getfl := fun fd w => (w, if fd =? -1 then -1 else 0);
    io_setfl := fun _ _ w => (w, 0);
    io_epoll_ctl := fun _ _ _ _ w => (w, 0);
    io_socket := fun _ w => (w, 3);
    io_connect := fun _ _ w => (w, 0);
    io_setsockopt := fun _ _ w => (w, 0);
    io_inet_pton := fun _ w => (w, 1);
    io_bind := fun _ _ w => (w, 0);
    io_listen := fun _ w => (w, 0);
    io_epoll_create := fun w => (w, 4)
  |}.
  done.
Defined.

Definition server_unix : UnixSocket sql_world := {|
  us_bind _ _ w := (w, 0);
  us_unlink _ w := w
|}.

Lemma main_start_ready_witness :
  exists w', @main_start sql_world server_io server_unix memory_sql no_padding 3
               (bytes "/tmp/unix_socket_example.sock") (2%nat, ∅, None) = Ok (w', Some (3, 4))
    /\ w'.1.2 !! 1 = Some (encode_customer no_padding (initial_customer 80000)).
Proof.
  eexists. split; [vm_compute; reflexivity|].
  apply (@main_start_ready sql_world server_io server_unix memory_sql memory_sql_laws no_padding 3
           (bytes "/tmp/unix_socket_example.sock") (2%nat, ∅, None) _ 3 4)
    with (k := 1%nat) (l := 80000).
  - reflexivity.
  - vm_compute. reflexivity.
  - reflexivity.
Defined.
