(* ===== verification/Programs.v ===== *)
(** * Programs: the three programs as a whole ([rinha/main.cc], [rinha/router.cc],
    [rinha/epoll.cc] with [rinha/thread_pool_200.cc])

    [Servers] has how the programs set up their sockets and react to one event.  Here are
    [main] from the flags to the threads it creates, the concurrent start of the threads
    with their HandlerSocket connections, and the smallest server running: its event loop,
    call by call, and its pool of threads, interleaved on one world. *)
From S2P Require Import Prelude Text Structs Account Socket Hstcpcli HstcpcliSpec HandlerSocket MariaDatabase FromHttp ToJson Handler Processor EventIo IoThreadPool ThreadPool Servers.
From S2P Require Router.
#[local] Open Scope Z_scope.

(** The conversion of an [int] to the [size_t] of [InitializeThreadPool]. *)
Definition to_size_t (n : Z) : nat := Z.to_nat (n mod 2 ^ 64).

(** ** [main.cc] *)
Record main_flags := mkFlagValues {
  socket_path : list Z;
  handler_socket_hostname : list Z;
  num_process_threads : Z;
  num_connection_threads : Z
}.

Definition default_flags : main_flags :=
  mkFlagValues (bytes "/tmp/unix_socket_example.sock") (bytes "/") 0 15.


(** The two clients of a thread. *)
Inductive handler := ReadHandler | WriteHandler.

Definition handler_port (h : handler) : list Z :=
  match h with
  | ReadHandler => bytes "/tmp/handler_socket_read"
  | WriteHandler => bytes "/tmp/handler_socket_write"
  end.
Definition handler_index (h : handler) : list Z :=
  match h with ReadHandler => bytes "handlers_index" | WriteHandler => bytes "writers_index" end.

Definition client_of (h : handler) (t : hs_thread) : option hstcpcli :=
  match h with ReadHandler => read_ptr t | WriteHandler => write_ptr t end.
Definition id_of (h : handler) (t : hs_thread) : Z :=
  match h with ReadHandler => read_ptr_id t | WriteHandler => write_ptr_id t end.
Definition set_client (h : handler) (t : hs_thread) (c : hstcpcli) : hs_thread :=
  match h with ReadHandler => with_read t c | WriteHandler => with_write t c end.
Definition set_id (h : handler) (t : hs_thread) (id : Z) : hs_thread :=
  match h with
  | ReadHandler => mkHs (read_ptr t) id (write_ptr t) (write_ptr_id t)
  | WriteHandler => mkHs (read_ptr t) (read_ptr_id t) (write_ptr t) id
  end.

(** Where a new thread is: before [MariaInitializeThread], before one of the three parts of a
    block of [InitializeHs] (the client, the number from [id_count], the index), or in the
    loop that serves. *)
Inductive start_pc :=
| ToInitialize | ToCreate (h : handler) | ToNumber (h : handler) | ToOpen (h : handler) | InLoop.

Record start_thread := mkThread { th_host : list Z; th_pc : start_pc; th_hs : hs_thread }.

(** The program after the initialization of the database: the world, the counter that the
    threads share, the threads that [main] still has to create and those it has created. *)
Record startup (W : Type) := mkStartup {
  su_world : W;
  su_count : Z;
  su_hosts : list (list Z);
  su_threads : list start_thread
}.
Arguments mkStartup {_} _ _ _ _.
Arguments su_world {_} _.
Arguments su_count {_} _.
Arguments su_hosts {_} _.
Arguments su_threads {_} _.

Section Start.
Context {W : Type} `{Net W, MySql W}.
Variables sql_fuel recv_fuel : nat.

(** The next thing a thread does; a failed [CHECK] ends the process. *)
Definition thread_step (t : start_thread) (id_count : Z) (w : W)
    : outcome (start_thread * Z * W) :=
  let go pc hs := mkThread (th_host t) pc hs in
  match th_pc t with
  | ToInitialize =>
      '(w, ok) ← MariaInitializeThread sql_fuel w;
      _ ← checked CheckFailed ok;
      Ok (go (ToCreate ReadHandler) (th_hs t), id_count, w)
  | ToCreate h =>
      '(w, c) ← create_client (client_of h (th_hs t)) (th_host t) (handler_port h) w;
      Ok (go (ToNumber h) (set_client h (th_hs t) c), id_count, w)
  | ToNumber h => Ok (go (ToOpen h) (set_id h (th_hs t) id_count), wrap_int (id_count + 1), w)
  | ToOpen h =>
      c ← of_option NullDeref (client_of h (th_hs t));
      '(w, c, ok) ← open_index recv_fuel c (handler_index h) (id_of h (th_hs t)) w;
      _ ← checked CheckFailed ok;
      Ok (go (match h with ReadHandler => ToCreate WriteHandler | WriteHandler => InLoop end)
            (set_client h (th_hs t) c), id_count, w)
  | InLoop => Ok (t, id_count, w)
  end.
End Start.

(** [main] creates the next thread, a thread that starts does its next step, or one that serves
    does something to the world.  Nobody waits for anybody. *)
Inductive start_step {W} `{Net W, MySql W} : startup W -> startup W -> Prop :=
| su_create w n host hosts ts :
    start_step (mkStartup w n (host :: hosts) ts)
      (mkStartup w n hosts (ts ++ [mkThread host ToInitialize hs_thread_new]))
| su_thread sql recv w n hosts ts i t t' n' w' :
    ts !! i = Some t -> th_pc t <> InLoop -> thread_step sql recv t n w = Ok (t', n', w') ->
    start_step (mkStartup w n hosts ts) (mkStartup w' n' hosts (<[i := t']> ts))
| su_serve w n hosts ts i t w' :
    ts !! i = Some t -> th_pc t = InLoop ->
    start_step (mkStartup w n hosts ts) (mkStartup w' n hosts ts).

(** What [main] ends in: an exit code, or the start of the threads, after which it sleeps. *)
Inductive main_result (W : Type) :=
| Exited (code : Z)
| Started (server_fd epoll_fd : Z) (s : startup W).
Arguments Exited {W} code.
Arguments Started {W} server_fd epoll_fd s.

(** [signalHandler]. *)
Definition on_signal {W} (signum : Z) : main_result W := Exited signum.

Section Main.
Context {W : Type} `{EventIo W, UnixSocket W, MySql W}.

End Main.

(** ** [router.cc] *)
Definition router_default_threads : Z := 10.

(** The router, the listening and the epoll descriptor, and the number of threads. *)
Definition router_program {W} `{EventIo W} (num_threads : Z) (w : W)
    : outcome (W * Router.router * Z * Z * nat) :=
  '(r, w, server_fd, epoll_fd) ← Router.InitializeThreadPool w;
  Ok (w, r, server_fd, epoll_fd, to_size_t num_threads).

(** ** [epoll.cc] *)
(** The pool of [thread_pool_200.cc]: ten threads, whose thread-local variable starts as 0. *)
Definition pool_200 {W} (w : W) : pool Z Z W := pool_new (replicate 10 0) w.

(** Where the main thread is: in [epoll_wait], at the next of its events, in the accept loop,
    or in the read loop of a descriptor, before a [read] or before [EnqueueProcessRequest]. *)
Inductive epoll_pc :=
| AtWait
| AtEvents (evs : list (Z * epoll_flags))
| Accepting (evs : list (Z * epoll_flags))
| Reading (fd : Z) (evs : list (Z * epoll_flags))
| Enqueueing (fd : Z) (evs : list (Z * epoll_flags)).

Section Epoll200.
Context {W : Type} `{EventIo W, Conn W}.

(** The main thread takes its next step, or the pool does; both act on one world. *)
Inductive epoll_step (epoll_fd server_fd : Z) : epoll_pc * pool Z Z W -> epoll_pc * pool Z Z W -> Prop :=
| es_wait p evs : epoll_step epoll_fd server_fd (AtWait, p) (AtEvents evs, p)
| es_no_more p : epoll_step epoll_fd server_fd (AtEvents [], p) (AtWait, p)
| es_error fd flags evs p : epoll_error flags = true ->
    epoll_step epoll_fd server_fd (AtEvents ((fd, flags) :: evs), p)
      (AtEvents evs, set_shared p (io_close fd (shared p)))
| es_connection flags evs p : epoll_error flags = false ->
    epoll_step epoll_fd server_fd (AtEvents ((server_fd, flags) :: evs), p) (Accepting evs, p)
| es_accept evs p w more : accept_one epoll_fd server_fd (shared p) = Ok (w, more) ->
    epoll_step epoll_fd server_fd (Accepting evs, p)
      (if more : bool then Accepting evs else AtEvents evs, set_shared p w)
| es_data fd flags evs p : epoll_error flags = false -> fd <> server_fd ->
    epoll_step epoll_fd server_fd (AtEvents ((fd, flags) :: evs), p) (Reading fd evs, p)
| es_read fd evs p w : read_event fd (shared p) = (w, None) ->
    epoll_step epoll_fd server_fd (Reading fd evs, p) (Enqueueing fd evs, set_shared p w)
| es_enqueue fd evs p :
    epoll_step epoll_fd server_fd (Enqueueing fd evs, p) (Reading fd evs, EnqueueProcessRequest fd p)
| es_read_end fd evs p w d : read_event fd (shared p) = (w, Some d) ->
    epoll_step epoll_fd server_fd (Reading fd evs, p)
      (AtEvents evs, set_shared p (close_when_done fd d w))
| es_pool pc p p' : worker_step respond_200 p p' -> epoll_step epoll_fd server_fd (pc, p) (pc, p').

(** The events of one [epoll_wait], when nobody interferes. *)
Fixpoint on_epoll_events (fuel backlog : nat) (epoll_fd server_fd : Z)
    (evs : list (Z * epoll_flags)) (p : pool Z Z W) : outcome (pool Z Z W) :=
  match evs with
  | [] => Ok p
  | ev :: evs' =>
      p ← on_epoll_event fuel backlog epoll_fd server_fd ev p;
      on_epoll_events fuel backlog epoll_fd server_fd evs' p
  end.

(** [main]: the descriptors and the start of the loop. *)
Definition epoll_program `{UnixSocket W} (path : list Z) (w : W)
    : outcome (Z * Z * (epoll_pc * pool Z Z W)) :=
  '(w, server_fd, epoll_fd) ← epoll_setup path w;
  Ok (epoll_fd, server_fd, (AtWait, pool_200 w)).
End Epoll200.

(** ** A world that keeps a log *)
(** Reads that gave data, and what was written where. *)
Inductive io_event := GotData (fd : Z) | Wrote (fd : Z) (s : list Z).

Definition logged (W : Type) : Type := W * list io_event.

Definition unlogged {W A} (f : W -> W * A) (w : logged W) : logged W * A :=
  let '(w', a) := f w.1 in ((w', w.2), a).

(** The calls of a world, with the log of the reads that gave data... *)
Definition logged_io {W} `{EventIo W} : EventIo (logged W).
Proof.
  refine {|
    io_read := fun fd n w =>
      let '(w', r) := io_read fd n w.1 in
      ((w', match r with ReadBytes (_ :: _) => w.2 ++ [GotData fd] | _ => w.2 end), r);
    io_write := fun fd s w => (io_write fd s w.1, w.2 ++ [Wrote fd s]);
    io_close := fun fd w => (io_close fd w.1, w.2);
    io_accept := fun fd => unlogged (io_accept fd);
    io_getfl := fun fd => unlogged (io_getfl fd);
    io_setfl := fun fd n => unlogged (io_setfl fd n);
    io_epoll_ctl := fun e op fd b => unlogged (io_epoll_ctl e op fd b);
    io_socket := fun d => unlogged (io_socket d);
    io_connect := fun fd s => unlogged (io_connect fd s);
    io_setsockopt := fun fd o => unlogged (io_setsockopt fd o);
    io_inet_pton := fun s => unlogged (io_inet_pton s);
    io_bind := fun fd n => unlogged (io_bind fd n);
    io_listen := fun fd => unlogged (io_listen fd);
    io_epoll_create := unlogged io_epoll_create
  |}.
  intros fd n w l. pose proof (io_read_bound fd n w.1) as Hb.
  destruct (io_read fd n w.1) as [w' r]. intros [= ->]. by apply Hb.
Defined.

(** ... and of the responses. *)
Definition logged_conn {W} `{Conn W} : Conn (logged W).
Proof.
  refine {|
    sys_write := fun fd s w => let '(w', r) := sys_write fd s w.1 in ((w', w.2 ++ [Wrote fd s]), r);
    conn_close := fun fd w => (conn_close fd w.1, w.2)
  |}.
  intros fd s w n. pose proof (sys_write_bound fd s w.1) as Hb.
  destruct (sys_write fd s w.1) as [w' r]. intros [= ->]. by apply Hb.
Defined.

Definition logged_unix {W} `{UnixSocket W} : UnixSocket (logged W) := {|
  us_bind fd s := unlogged (us_bind fd s);
  us_unlink s w := (us_unlink s w.1, w.2)
|}.

(** The descriptors of the reads that gave data, and the writes. *)
Definition data_read (log : list io_event) : list Z :=
  omap (fun e => match e with GotData fd => Some fd | Wrote _ _ => None end) log.
Definition writes (log : list io_event) : list (Z * list Z) :=
  omap (fun e => match e with GotData _ => None | Wrote fd s => Some (fd, s) end) log.

(** Read, and not enqueued yet. *)
Definition in_hand (pc : epoll_pc) : list Z := match pc with Enqueueing fd _ => [fd] | _ => [] end.

(** Written by a worker that is not yet back at the top of its loop. *)
Definition answered_task {T L S} (x : worker_state T L S) : option T :=
  match x with Processing t (Over _) => Some t | _ => None end.
Definition answered {T L S} (ws : list (worker_state T L S)) : list T := omap answered_task ws.





Section StartFacts.
Context {W : Type} `{Net W, MySql W}.








(** The part of a block whose call gives what [E] says. *)
Ltac next_part E :=
  cbn [thread_step th_pc th_hs th_host client_of id_of set_client set_id with_read with_write
       read_ptr write_ptr read_ptr_id write_ptr_id of_option mbind outcome_bind];
  refine (eq_trans (f_equal (fun m => outcome_bind _ _ _ m) E) _); reflexivity.

(** One thread that is not interrupted does what [InitializeHs] computes. *)
Lemma start_runs_InitializeHs recv host n (w w' : W) t n' :
  InitializeHs recv host hs_thread_new n w = Ok (w', t, n', true) ->
  forall ts i hosts, ts !! i = Some (mkThread host (ToCreate ReadHandler) hs_thread_new) ->
    rtc start_step (mkStartup w n hosts ts) (mkStartup w' n' hosts (<[i := mkThread host InLoop t]> ts)).
Proof.
  unfold InitializeHs, open_handler. intros Hi.
  apply bind_Ok_inv in Hi as ([[[w2 c1] n1] ok] & H1 & Hi).
  apply bind_Ok_inv in H1 as ([wa ca] & Ha & H1). apply bind_Ok_inv in H1 as ([[wb cb] okb] & Hb & [= -> -> <- ->]).
  destruct ok; [|done]. cbn [negb] in Hi.
  apply bind_Ok_inv in Hi as ([[[w3 c2] n2] ok] & H2 & Hi).
  apply bind_Ok_inv in H2 as ([wc cc] & Hcc & H2). apply bind_Ok_inv in H2 as ([[wd cd] okd] & Hd & [= -> -> <- ->]).
  destruct ok; [|done]. injection Hi as <- <- <-.
  intros ts i hosts Hi. pose proof (lookup_lt_Some _ _ _ Hi) as Hlt.
  assert (Hstep : forall w n pc hs w1 n1 pc1 hs1,
    pc <> InLoop -> thread_step 0 recv (mkThread host pc hs) n w = Ok (mkThread host pc1 hs1, n1, w1) ->
    start_step (mkStartup w n hosts (<[i := mkThread host pc hs]> ts))
      (mkStartup w1 n1 hosts (<[i := mkThread host pc1 hs1]> ts))).
  { intros w0 n0 pc hs w1 n1 pc1 hs1 Hne Hs.
    rewrite <- (list_insert_insert_eq ts i (mkThread host pc1 hs1) (mkThread host pc hs)).
    eapply su_thread; [by apply list_lookup_insert_eq|done|exact Hs]. }
  rewrite <- (list_insert_id ts i _ Hi) at 1.
  eapply rtc_l; [eapply Hstep; [done|]; next_part Ha|].
  eapply rtc_l; [eapply Hstep; [done|]; reflexivity|].
  eapply rtc_l; [eapply Hstep; [done|]; next_part Hb|].
  eapply rtc_l; [eapply Hstep; [done|]; next_part Hcc|].
  eapply rtc_l; [eapply Hstep; [done|]; reflexivity|].
  eapply rtc_l; [eapply Hstep; [done|]; next_part Hd|].
  apply rtc_refl.
Qed.
End StartFacts.


(** ** The smallest server at work *)
Section EpollFacts.
Context {W : Type} `{EventIo W, Conn W}.

(** The main thread alone does what the functions of [Servers] compute. *)
Lemma reading_run ep sv fuel fd evs (p p' : pool Z Z W) d :
  read_and_enqueue fuel fd p = Ok (p', d) ->
  rtc (epoll_step ep sv) (Reading fd evs, p) (AtEvents evs, set_shared p' (close_when_done fd d (shared p'))).
Proof.
  revert p. induction fuel as [|f IH]; intros p; [done|]. cbn [read_and_enqueue].
  destruct (read_event fd (shared p)) as [w [d'|]] eqn:E.
  - intros [= <- <-]. apply rtc_once. exact (es_read_end ep sv fd evs p w d' E).
  - intros Hr. eapply rtc_l; [by apply es_read|]. eapply rtc_l; [apply es_enqueue|]. by apply IH.
Qed.

Lemma accepting_run ep sv backlog evs (p : pool Z Z W) w :
  accept_loop backlog ep sv (shared p) = Ok w ->
  rtc (epoll_step ep sv) (Accepting evs, p) (AtEvents evs, set_shared p w).
Proof.
  revert p. induction backlog as [|n IH]; intros p; [done|]. cbn [accept_loop].
  intros ([w1 more] & Ha & Hr)%bind_Ok_inv. pose proof (es_accept ep sv evs p w1 more Ha) as Hs.
  destruct more; [|injection Hr as <-; by apply rtc_once].
  eapply rtc_l; [exact Hs|]. exact (IH (set_shared p w1) Hr).
Qed.

Lemma epoll_steps_run_the_code ep sv fuel backlog evs (p p' : pool Z Z W) :
  on_epoll_events fuel backlog ep sv evs p = Ok p' ->
  rtc (epoll_step ep sv) (AtEvents evs, p) (AtWait, p').
Proof.
  revert p. induction evs as [|[fd flags] evs IH]; intros p; cbn [on_epoll_events].
  { intros [= <-]. apply rtc_once, es_no_more. }
  intros (p1 & Hone & Hr%IH)%bind_Ok_inv. etransitivity; [|exact Hr]. clear Hr IH.
  unfold on_epoll_event in Hone. destruct (epoll_error flags) eqn:Ef.
  { injection Hone as <-. by apply rtc_once, es_error. }
  destruct (Z.eqb_spec sv fd) as [->|Hne].
  - apply bind_Ok_inv in Hone as (w & Ha & [= <-]). eapply rtc_l; [by apply es_connection|].
    by eapply accepting_run.
  - apply bind_Ok_inv in Hone as ([p2 d] & Ha & [= <-]). eapply rtc_l; [by apply es_data|].
    by eapply reading_run.
Qed.
End EpollFacts.

Section LogFacts.
Context {W : Type} `{EventIo W, Conn W, UnixSocket W}.
#[local] Existing Instances logged_io logged_conn logged_unix.

Lemma unlogged_log {A} (f : W -> W * A) (w : logged W) : (unlogged f w).1.2 = w.2.
Proof. unfold unlogged. by destruct (f w.1). Qed.

(** The calls that are not logged. *)
Lemma accept_one_log ep sv (w w' : logged W) more : accept_one ep sv w = Ok (w', more) -> w'.2 = w.2.
Proof.
  unfold accept_one, EventIo.SetNonBlocking, EventIo.make_socket_non_blocking.
  cbn [io_accept logged_io].
  pose proof (unlogged_log (io_accept sv) w) as L1. destruct (unlogged (io_accept sv) w) as [w1 [infd e]].
  destruct (infd =? -1); [by intros [= <- _]|]. cbn [io_getfl io_setfl io_epoll_ctl logged_io].
  intros (w4 & Hn & He)%bind_Ok_inv.
  pose proof (unlogged_log (io_epoll_ctl ep EPOLL_CTL_ADD infd false) w4) as L5.
  destruct (unlogged (io_epoll_ctl ep EPOLL_CTL_ADD infd false) w4) as [w5 r].
  destruct (r =? -1); [done|]. injection He as <- _.
  pose proof (unlogged_log (io_getfl infd) w1) as L2. destruct (unlogged (io_getfl infd) w1) as [w2 fl].
  destruct (fl =? -1); [by apply bind_Ok_inv in Hn as (? & ? & ?)|].
  pose proof (unlogged_log (io_setfl infd (Z.lor fl 2048)) w2) as L3.
  destruct (unlogged (io_setfl infd (Z.lor fl 2048)) w2) as [w3 s].
  assert (w4.2 = w3.2) by (destruct (s =? -1); by apply bind_Ok_inv in Hn as (? & ? & [= <-])).
  simpl in *. congruence.
Qed.

Lemma epoll_setup_log path (w w' : logged W) sv ep : epoll_setup path w = Ok (w', sv, ep) -> w'.2 = w.2.
Proof.
  unfold epoll_setup, create_and_bind, Servers.make_socket_non_blocking.
  cbn [io_socket us_bind io_getfl io_setfl io_listen io_epoll_create io_epoll_ctl logged_io logged_unix].
  repeat lazymatch goal with
  | |- context [unlogged ?f ?w] =>
      let Hl := fresh in
      pose proof (unlogged_log f w) as Hl; destruct (unlogged f w) as [? ?]; cbn [fst snd] in Hl
  | |- context [if ?b =? -1 then _ else _] => destruct (b =? -1)
  | |- (_ ← checked _ _; _) = _ -> _ =>
      let Hk := fresh in intros (? & _ & Hk)%bind_Ok_inv; revert Hk
  end.
  all: intros; simplify_eq/=; congruence.
Qed.

Lemma read_event_log fd (w w' : logged W) d :
  read_event fd w = (w', d) -> w'.2 = w.2 ++ match d with None => [GotData fd] | Some _ => [] end.
Proof.
  unfold read_event. cbn [io_read logged_io]. destruct (io_read fd BUFFER_SIZE w.1) as [w1 [[|b l]|e]];
    intros [= <- <-]; simpl; by rewrite ?app_nil_r.
Qed.

(** What is left of a call that answers [fd]. *)
Lemma remains_respond fd l (a : activity Z (logged W)) :
  remains (respond_200 fd l) a ->
  a = respond_200 fd l
  \/ a = Act (fun w => Ok (sys_write fd response_200 w).1) (fun _ => Over fd)
  \/ a = Over fd.
Proof.
  induction 1 as [|access next s s' _ IH Hs]; [by left|].
  destruct IH as [E|[E|E]]; [| |done]; injection E as -> ->; auto.
Qed.

(** The log, the queue and the workers of the smallest server. *)
Record server_inv (pc : epoll_pc) (p : pool Z Z (logged W)) : Prop := {
  ei_pool : pool_inv respond_200 10 p;
  ei_reads : data_read (shared p).2 = enqueued p ++ in_hand pc;
  ei_writes : exists ws, writes (shared p).2 = (fun fd => (fd, response_200)) <$> ws
                /\ ws ≡ₚ finished p ++ answered (workers p)
}.

Lemma server_shared pc pc' p w :
  server_inv pc p -> data_read w.2 = enqueued p ++ in_hand pc' -> writes w.2 = writes (shared p).2 ->
  server_inv pc' (set_shared p w).
Proof.
  intros [Hp Hr Hw] Hd Hx. split; [by apply set_shared_inv|done|]. cbn [set_shared shared finished workers].
  by rewrite Hx.
Qed.

(** A call that is not logged. *)
Lemma server_quiet pc pc' p w :
  server_inv pc p -> in_hand pc' = in_hand pc -> w.2 = (shared p).2 -> server_inv pc' (set_shared p w).
Proof. intros Hp Hi Hw. eapply server_shared; [done| |by rewrite Hw]. rewrite Hw, Hi. apply Hp. Qed.

Lemma server_main pc pc' p : server_inv pc p -> in_hand pc' = in_hand pc -> server_inv pc' p.
Proof. intros [Hp Hr Hw] Hi. split; [done| |done]. by rewrite Hi. Qed.

(** A step of the pool that neither writes nor finishes a task. *)
Lemma server_worker pc p p' :
  server_inv pc p -> worker_step respond_200 p p' -> enqueued p' = enqueued p ->
  shared p' = shared p -> finished p' = finished p -> answered (workers p') ≡ₚ answered (workers p) ->
  server_inv pc p'.
Proof.
  intros [Hp Hr Hw] Hs He Hsh Hf Ha. split; [exact (worker_step_inv _ _ _ _ Hp Hs)| |].
  - by rewrite Hsh, He.
  - destruct Hw as (ws & Hw & Hws). exists ws. by rewrite Hsh, Hf, Ha.
Qed.

Lemma worker_step_server pc (p p' : pool Z Z (logged W)) :
  server_inv pc p -> worker_step respond_200 p p' -> server_inv pc p'.
Proof.
  intros Hp Hs.
  destruct Hs as [p i Hn Hi|p Hn Hb|p i Hi|p i l Hi Hl|p i fd access next s Hi Hs|p i fd l Hi].
  - eapply server_worker; [done|by apply ws_notify|done..|]. by apply (omap_insert_same _ _ _ _ _ Hi).
  - by eapply server_worker; [|apply ws_notify_nobody|..].
  - eapply server_worker; [done|by apply ws_spurious|done..|]. by apply (omap_insert_same _ _ _ _ _ Hi).
  - eapply server_worker; [done|by apply ws_test|..]; unfold test_predicate;
      destruct (tasks p); try destruct (stop p); try done; by apply (omap_insert_same _ _ _ _ _ Hi).
  - pose proof (ws_action respond_200 p i fd access next s Hi Hs) as Hstep.
    destruct Hp as [Hp Hr (ws & Hw & Hws)].
    destruct (pi_own _ _ _ Hp _ _ _ Hi) as (l & _ & [E|[E|E]]%remains_respond); [| |done];
      injection E as -> ->.
    + injection Hs as <-. eapply server_worker; [by split; [| |exists ws]|exact Hstep|done..|].
      by apply (omap_insert_same _ _ _ _ _ Hi).
    + cbn [sys_write logged_conn] in Hs. destruct (sys_write fd response_200 (shared p).1) as [w1 r].
      injection Hs as <-. split; [exact (worker_step_inv _ _ _ _ Hp Hstep)| |].
      * cbn [process_action set_shared shared enqueued set_worker snd]. unfold data_read in *.
        by rewrite omap_app, Hr, app_nil_r.
      * exists (ws ++ [fd]). cbn [process_action set_shared shared finished workers set_worker fst snd].
        unfold writes in *. rewrite omap_app, Hw, fmap_app. split; [done|].
        rewrite Hws, <- app_assoc. f_equiv. unfold answered.
        pose proof (omap_insert_permutation answered_task _ _ _ (Processing fd (Over fd)) Hi) as Ha.
        simpl in Ha. rewrite Ha. by rewrite Permutation_app_comm.
  - pose proof (ws_finish respond_200 p i fd l Hi) as Hstep. destruct Hp as [Hp Hr (ws & Hw & Hws)].
    split; [exact (worker_step_inv _ _ _ _ Hp Hstep)|done|]. exists ws. split; [done|].
    cbn [finish_task finished workers]. rewrite Hws, <- app_assoc. f_equiv.
    pose proof (omap_insert_permutation answered_task _ _ _ Testing Hi) as Ha. simpl in Ha.
    unfold answered. by rewrite <- Ha.
Qed.

Lemma epoll_step_server ep sv x y :
  server_inv x.1 x.2 -> epoll_step (W := logged W) ep sv x y -> server_inv y.1 y.2.
Proof.
  intros Hx Hs. destruct Hs as [p evs|p|fd fl evs p Hf|fl evs p Hf|evs p w more Ha|fd fl evs p Hf Hn
    |fd evs p w Hr|fd evs p|fd evs p w d Hr|pc p p' Hp]; cbn [fst snd] in *;
    try (by eapply server_main).
  - by eapply server_quiet.
  - apply accept_one_log in Ha. by destruct more; eapply server_quiet.
  - apply read_event_log in Hr. eapply server_shared; [done|..]; rewrite Hr.
    + unfold data_read. rewrite omap_app. pose proof (ei_reads _ _ Hx) as Hd. unfold data_read in Hd.
      rewrite Hd. simpl. by rewrite app_nil_r.
    + unfold writes. rewrite omap_app. simpl. by rewrite app_nil_r.
  - destruct Hx as [Hp Hr Hw]. split; [by apply enqueue_task_inv| |done].
    cbn [EnqueueProcessRequest shared enqueued in_hand] in *. by rewrite app_nil_r.
  - apply read_event_log in Hr. eapply server_quiet; [done..|].
    unfold close_when_done. case_bool_decide; cbn [io_close logged_io snd]; by rewrite Hr, app_nil_r.
  - by eapply worker_step_server.
Qed.
End LogFacts.

(** C28: The smallest server answers every piece of data exactly once. Its event loop and
    its ten threads interleave, the loop at each [accept], [read] and
    [EnqueueProcessRequest], a thread before its pause, its [write] and its return to the
    queue.  Against the log of what is read and written, at every moment: each [read] that gave
    data has put its descriptor into the queue once, in the order of the reads, but for the
    one the loop is about to put in; the threads take them in that order; each one taken is
    finished or in the hands of exactly one thread; the writes are one fixed response for
    each finished one and each one whose thread is about to return; and while a descriptor
    waits, a notification is due, a thread is about to look, or all ten are at work. *)
Theorem epoll_server_answers {W} `{EventIo W, Conn W, UnixSocket W} path (w0 : W) ep sv st pc p :
  @epoll_program (logged W) logged_io logged_unix path (w0, []) = Ok (ep, sv, st) ->
  rtc (@epoll_step (logged W) logged_io logged_conn ep sv) st (pc, p) ->
  let log := (shared p).2 in
  data_read log = enqueued p ++ in_hand pc
  /\ enqueued p = started p ++ tasks p
  /\ started p ≡ₚ finished p ++ running (workers p)
  /\ (exists ws, writes log = (fun fd => (fd, response_200)) <$> ws
                 /\ ws ≡ₚ finished p ++ answered (workers p))
  /\ length (workers p) = 10%nat
  /\ (tasks p <> [] -> (0 < notifies p)%nat \/ Testing ∈ workers p
                       \/ Forall (fun x => exists t a, x = Processing t a) (workers p)).
Proof.
  unfold epoll_program. intros ([[w1 sfd] efd] & Hset & [= _ _ <-])%bind_Ok_inv Hr.
  apply epoll_setup_log in Hset. simpl in Hset.
  assert (Hinv : server_inv pc p).
  { assert (Hnew : server_inv AtWait (pool_200 w1)).
    { split; [apply (pool_new_inv _ (replicate 10 0))| |]; cbn [pool_200 pool_new shared]; rewrite Hset; [done|].
      by exists []. }
    change (server_inv (AtWait, pool_200 w1).1 (AtWait, pool_200 w1).2) in Hnew.
    change (server_inv (pc, p).1 (pc, p).2).
    remember (AtWait, pool_200 w1) as x eqn:Ex. clear Ex. remember (pc, p) as y eqn:Ey. clear Ey.
    induction Hr as [|x y z Hs _ IH]; [done|]. apply IH. by eapply epoll_step_server. }
  destruct Hinv as [Hp Hreads Hw]. pose proof Hp as [Hf Ho [Hl _] _ _ _ _].
  split_and!; try done. by eapply waiting_task.
Qed.








Definition loop_unix : UnixSocket loop_world := {| us_bind _ _ w := (w, 0); us_unlink _ w := w |}.

(** A request arrives in two pieces; one of the threads has answered the first when the
    main thread has read the second and not put it into the queue yet. *)
Lemma sample_epoll_run :
  exists pc p ep sv st,
    @epoll_program (logged loop_world) (@logged_io _ loop_io) (@logged_unix _ loop_unix) (bytes "/tmp/s.sock")
      (([bytes "GET /"; bytes "x"], []), []) = Ok (ep, sv, st)
    /\ rtc (@epoll_step (logged loop_world) (@logged_io _ loop_io) (@logged_conn _ loop_conn) ep sv)
         st (pc, p)
    /\ enqueued p = [77] /\ finished p = [77] /\ in_hand pc = [77].
Proof.
  do 5 eexists. split; [vm_compute; reflexivity|]. split.
  - eapply rtc_l; [apply (es_wait _ _ _ [(77, mkFlags true false false)])|].
    eapply rtc_l; [apply es_data; [reflexivity|discriminate]|].
    eapply rtc_l; [apply es_read; vm_compute; reflexivity|].
    eapply rtc_l; [apply es_enqueue|].
    eapply rtc_l; [apply es_pool, (ws_test _ _ 4%nat 0); vm_compute; reflexivity|].
    eapply rtc_l; [apply es_read; vm_compute; reflexivity|].
    eapply rtc_l; [apply es_pool; eapply (ws_action _ _ 4%nat 77); [vm_compute; reflexivity|reflexivity]|].
    eapply rtc_l; [apply es_pool; eapply (ws_action _ _ 4%nat 77); [reflexivity|vm_compute; reflexivity]|].
    eapply rtc_l; [apply es_pool; eapply (ws_finish _ _ 4%nat 77); reflexivity|]. apply rtc_refl.
  - split_and!; reflexivity.
Qed.

Lemma epoll_server_answers_witness :
  exists pc p ep sv st,
    @epoll_program (logged loop_world) (@logged_io _ loop_io) (@logged_unix _ loop_unix) (bytes "/tmp/s.sock")
      (([bytes "GET /"; bytes "x"], []), []) = Ok (ep, sv, st)
    /\ rtc (@epoll_step (logged loop_world) (@logged_io _ loop_io) (@logged_conn _ loop_conn) ep sv)
         st (pc, p)
    /\ data_read (shared p).2 = [77; 77] /\ length (workers p) = 10%nat.
Proof.
  destruct sample_epoll_run as (pc & p & ep & sv & st & Hst & Hr & He & _ & Hh).
  exists pc, p, ep, sv, st. split; [exact Hst|]. split; [exact Hr|].
  destruct (@epoll_server_answers loop_world loop_io loop_conn loop_unix (bytes "/tmp/s.sock")
              ([bytes "GET /"; bytes "x"], []) ep sv st pc p Hst Hr) as (Hd & _ & _ & _ & Hl & _).
  rewrite He, Hh in Hd. split; [exact Hd|exact Hl].
Defined.
