(* ===== verification/SharedLock.v ===== *)
(** * SharedLock: mutexes shared between processes ([rinha/shared_lock.cc])

    Five mutexes live in named shared-memory objects; every process that calls
    [InitializeSharedLocks] maps the five objects and initializes the mutexes.  The calls of
    the system are the class [SharedMemory], indexed by the process that makes them. *)
From S2P Require Import Prelude.
#[local] Open Scope Z_scope.

(** [shm_open] with [O_CREAT | O_RDWR], [ftruncate], [mmap] of a shared mapping,
    [pthread_mutex_init] with the attribute [PTHREAD_PROCESS_SHARED], [pthread_mutex_lock]
    (the fault [Blocked] when the caller has to wait) and [pthread_mutex_unlock]. *)
Class SharedMemory (W : Type) := {
  shm_open : Z -> list Z -> W -> W * option Z;
  ftruncate : Z -> Z -> Z -> W -> W * bool;
  mmap_shared : Z -> Z -> Z -> W -> W * option Z;
  mutex_init : Z -> Z -> W -> W;
  mutex_lock : Z -> Z -> W -> outcome W;
  mutex_unlock : Z -> Z -> W -> W
}.

(** [object_of pid p w] is the name of the object that process [pid] sees at its address
    [p], [holder n w] the process that holds the mutex in the object [n]. *)
Class SharedMemoryLaws (W : Type) `{SharedMemory W} := {
  object_of : Z -> Z -> W -> option (list Z);
  file_of : Z -> Z -> W -> option (list Z);
  holder : list Z -> W -> option Z;
  shm_open_file pid name w w' fd :
    shm_open pid name w = (w', Some fd) -> file_of pid fd w' = Some name;
  shm_open_view pid name w q p : object_of q p (shm_open pid name w).1 = object_of q p w;
  shm_open_holder pid name w n : holder n (shm_open pid name w).1 = holder n w;
  ftruncate_file pid fd sz w q f : file_of q f (ftruncate pid fd sz w).1 = file_of q f w;
  ftruncate_view pid fd sz w q p : object_of q p (ftruncate pid fd sz w).1 = object_of q p w;
  ftruncate_holder pid fd sz w n : holder n (ftruncate pid fd sz w).1 = holder n w;
  mmap_object pid sz fd w w' p :
    mmap_shared pid sz fd w = (w', Some p) ->
    0 < p /\ object_of pid p w = None /\ object_of pid p w' = file_of pid fd w;
  mmap_view pid sz fd w q p n :
    object_of q p w = Some n -> object_of q p (mmap_shared pid sz fd w).1 = Some n;
  mmap_holder pid sz fd w n : holder n (mmap_shared pid sz fd w).1 = holder n w;
  mutex_init_view pid p w q a : object_of q a (mutex_init pid p w) = object_of q a w;
  mutex_init_holder pid p w n m :
    object_of pid p w = Some n ->
    holder m (mutex_init pid p w) = if decide (m = n) then None else holder m w;
  mutex_lock_free pid p w n :
    object_of pid p w = Some n -> holder n w = None ->
    exists w', mutex_lock pid p w = Ok w'
      /\ (forall m, holder m w' = if decide (m = n) then Some pid else holder m w)
      /\ (forall q a, object_of q a w' = object_of q a w);
  mutex_lock_held pid p w n q :
    object_of pid p w = Some n -> holder n w = Some q -> mutex_lock pid p w = Fault Blocked;
  mutex_unlock_held pid p w n m :
    object_of pid p w = Some n -> holder n w = Some pid ->
    holder m (mutex_unlock pid p w) = if decide (m = n) then None else holder m w;
  mutex_unlock_view pid p w q a : object_of q a (mutex_unlock pid p w) = object_of q a w
}.

Definition kSharedMemoryName : list (list Z) :=
  bytes <$> ["shared_memory_1"; "shared_memory_2"; "shared_memory_3"; "shared_memory_4";
             "shared_memory_5"]%string.

(** [sizeof(pthread_mutex_t)] on the 64-bit platform. *)
Definition kSharedMemorySize : Z := 40.

(** [MAP_FAILED]. *)
Definition kMapFailed : Z := -1.

(** A process and its array [shared_locks], at first null pointers. *)
Record process := mkProcess { pr_pid : Z; shared_locks : list Z }.

Definition process_new (pid : Z) : process := mkProcess pid (replicate 5 0).

Section Operations.
Context {W : Type} `{SharedMemory W}.

(** One turn of the loop of [InitializeSharedLocks]. *)
Definition initialize_lock (i : nat) (name : list Z) (p : process) (w : W) : W * process * bool :=
  match shm_open (pr_pid p) name w with
  | (w, None) => (w, p, false)
  | (w, Some shm_fd) =>
      let '(w, ok) := ftruncate (pr_pid p) shm_fd kSharedMemorySize w in
      if negb ok then (w, p, false)
      else
        let store q := mkProcess (pr_pid p) (<[i := q]> (shared_locks p)) in
        match mmap_shared (pr_pid p) kSharedMemorySize shm_fd w with
        | (w, None) => (w, store kMapFailed, false)
        | (w, Some q) => (mutex_init (pr_pid p) q w, store q, true)
        end
  end.

Fixpoint initialize_locks (i : nat) (names : list (list Z)) (p : process) (w : W)
    : W * process * bool :=
  match names with
  | [] => (w, p, true)
  | name :: names =>
      let '(w, p, ok) := initialize_lock i name p w in
      if ok then initialize_locks (S i) names p w else (w, p, false)
  end.

Definition InitializeSharedLocks (p : process) (w : W) : W * process * bool :=
  initialize_locks 0 kSharedMemoryName p w.

(** The mutex [shared_locks[i]] as the argument of a pthread call. *)
Definition lock_pointer (i : Z) (p : process) : outcome Z :=
  q ← array_get (shared_locks p) i;
  _ ← checked NullDeref (negb (q =? 0));
  _ ← checked OutOfBounds (negb (q =? kMapFailed));
  Ok q.

Definition GetSharedLock (i : Z) (p : process) (w : W) : outcome W :=
  q ← lock_pointer i p; mutex_lock (pr_pid p) q w.

Definition ReleaseSharedLock (i : Z) (p : process) (w : W) : outcome W :=
  q ← lock_pointer i p; Ok (mutex_unlock (pr_pid p) q w).
End Operations.

(** ** What the locks promise *)
Section Laws.
Context {W : Type} `{SharedMemoryLaws W}.

(** [pr] sees the object of each name at its pointer of the same index. *)
Definition mapped (pr : process) (w : W) : Prop :=
  Forall2 (fun name p => 0 < p /\ object_of (pr_pid pr) p w = Some name)
    kSharedMemoryName (shared_locks pr).

(** Mappings stay, and the mutexes named in [freed] are free, the others as before. *)
Definition initialized_since (freed : list (list Z)) (w w' : W) : Prop :=
  (forall q a n, object_of q a w = Some n -> object_of q a w' = Some n)
  /\ (forall m, holder m w' = if decide (m ∈ freed) then None else holder m w).

Lemma initialize_lock_mapped i name p w w' p' :
  (i < length (shared_locks p))%nat ->
  initialize_lock i name p w = (w', p', true) ->
  exists q, p' = mkProcess (pr_pid p) (<[i := q]> (shared_locks p)) /\ 0 < q
    /\ object_of (pr_pid p) q w' = Some name /\ initialized_since [name] w w'.
Proof.
  intros Hi. unfold initialize_lock.
  pose proof (shm_open_view (pr_pid p) name w) as V1.
  pose proof (shm_open_holder (pr_pid p) name w) as H1.
  destruct (shm_open _ _ w) as [w1 [fd|]] eqn:E1; [|done]. apply shm_open_file in E1.
  pose proof (ftruncate_view (pr_pid p) fd kSharedMemorySize w1) as V2.
  pose proof (ftruncate_holder (pr_pid p) fd kSharedMemorySize w1) as H2.
  pose proof (ftruncate_file (pr_pid p) fd kSharedMemorySize w1 (pr_pid p) fd) as F2.
  destruct (ftruncate _ _ _ w1) as [w2 [|]]; [|done]. simpl in *.
  pose proof (mmap_view (pr_pid p) kSharedMemorySize fd w2) as V3.
  pose proof (mmap_holder (pr_pid p) kSharedMemorySize fd w2) as H3.
  destruct (mmap_shared _ _ fd w2) as [w3 [q|]] eqn:E3; [|done].
  destruct (mmap_object _ _ _ _ _ _ E3) as (Hq & _ & O3). simpl in *.
  intros [= <- <-]. exists q. rewrite F2, E1 in O3. split_and!; [done|done| |].
  - by rewrite mutex_init_view.
  - split.
    + intros r a n Hn. rewrite mutex_init_view. apply V3. by rewrite V2, V1.
    + intros m. rewrite (mutex_init_holder _ _ _ name) by done. rewrite H3, H2, H1.
      repeat case_decide; set_solver.
Qed.

Lemma initialize_locks_mapped names i p w w' p' :
  length (shared_locks p) = (i + length names)%nat ->
  initialize_locks i names p w = (w', p', true) ->
  pr_pid p' = pr_pid p
  /\ take i (shared_locks p') = take i (shared_locks p)
  /\ Forall2 (fun name q => 0 < q /\ object_of (pr_pid p) q w' = Some name)
       names (drop i (shared_locks p'))
  /\ initialized_since names w w'.
Proof.
  revert i p w. induction names as [|name names IH]; intros i p w L E; simpl in E, L.
  - injection E as <- <-. rewrite drop_ge by lia. split_and!; [done|done|constructor|].
    split; [done|]. intros m. by rewrite decide_False by set_solver.
  - destruct (initialize_lock i name p w) as [[w1 p1] [|]] eqn:E1; [|done].
    destruct (initialize_lock_mapped i name p w w1 p1 ltac:(lia) E1) as (q & -> & Hq & Oq & V1 & H1).
    apply IH in E as (Hp & T & F & V & Hh); simpl in *; [|rewrite length_insert; lia].
    assert (Hi : shared_locks p' !! i = Some q).
    { rewrite <- (lookup_take_lt _ (S i)) by lia. rewrite T, lookup_take_lt by lia.
      apply list_lookup_insert_eq. lia. }
    split_and!; [done| | |].
    + apply (f_equal (take i)) in T. rewrite !take_take, !Nat.min_l in T by lia.
      by rewrite T, take_insert_ge by lia.
    + rewrite (drop_S _ q) by done. constructor; [|done]. split; [done|]. by apply V.
    + split; [auto|]. intros m. rewrite Hh, H1. repeat case_decide; set_solver.
Qed.

(** The result of a successful initialization. *)
Lemma InitializeSharedLocks_mapped p w w' p' :
  length (shared_locks p) = 5%nat -> InitializeSharedLocks p w = (w', p', true) ->
  pr_pid p' = pr_pid p /\ mapped p' w' /\ initialized_since kSharedMemoryName w w'.
Proof.
  intros L E. destruct (initialize_locks_mapped kSharedMemoryName 0 p w w' p' L E) as (Hp & _ & F & I).
  unfold mapped. by rewrite Hp.
Qed.

Lemma mapped_pointer p w i name :
  mapped p w -> kSharedMemoryName !! i = Some name ->
  exists q, lock_pointer (Z.of_nat i) p = Ok q /\ object_of (pr_pid p) q w = Some name.
Proof.
  intros M Hi. destruct (Forall2_lookup_l _ _ _ _ _ M Hi) as (q & Hq & Hpos & O).
  exists q. split; [|done]. unfold lock_pointer, array_get.
  rewrite (proj2 (Z.ltb_ge _ _)), Nat2Z.id, Hq by lia. simpl.
  unfold kMapFailed. rewrite (proj2 (Z.eqb_neq q 0)), (proj2 (Z.eqb_neq q (-1))) by lia. done.
Qed.

Lemma GetSharedLock_free p w i name :
  mapped p w -> kSharedMemoryName !! i = Some name -> holder name w = None ->
  exists w', GetSharedLock (Z.of_nat i) p w = Ok w'
    /\ (forall m, holder m w' = if decide (m = name) then Some (pr_pid p) else holder m w)
    /\ (forall q a, object_of q a w' = object_of q a w).
Proof.
  intros M Hi Hf. destruct (mapped_pointer _ _ _ _ M Hi) as (q & Hq & O).
  unfold GetSharedLock. rewrite Hq. simpl. by apply mutex_lock_free.
Qed.

Lemma GetSharedLock_held p w i name q :
  mapped p w -> kSharedMemoryName !! i = Some name -> holder name w = Some q ->
  GetSharedLock (Z.of_nat i) p w = Fault Blocked.
Proof.
  intros M Hi Hf. destruct (mapped_pointer _ _ _ _ M Hi) as (a & Ha & O).
  unfold GetSharedLock. rewrite Ha. simpl. by apply (mutex_lock_held _ _ _ name q).
Qed.

Lemma mapped_view p w w' :
  (forall q a n, object_of q a w = Some n -> object_of q a w' = Some n) ->
  mapped p w -> mapped p w'.
Proof. intros V M. eapply Forall2_impl; [exact M|]. intros name q [? ?]. auto. Qed.

(** a shared lock excludes other processes. When two processes have mapped the locks and
    lock i is free, [GetSharedLock] gives it to the first; the second then waits, for this
    lock but for no other free one; and once the first has called [ReleaseSharedLock], the
    second gets it. *)
Theorem shared_lock_exclusive p q (w : W) i name :
  mapped p w -> mapped q w -> kSharedMemoryName !! i = Some name -> holder name w = None ->
  exists w1 w2 w3,
    GetSharedLock (Z.of_nat i) p w = Ok w1
    /\ GetSharedLock (Z.of_nat i) q w1 = Fault Blocked
    /\ (forall j other, kSharedMemoryName !! j = Some other -> other <> name ->
          holder other w = None -> exists w', GetSharedLock (Z.of_nat j) q w1 = Ok w')
    /\ ReleaseSharedLock (Z.of_nat i) p w1 = Ok w2
    /\ GetSharedLock (Z.of_nat i) q w2 = Ok w3 /\ holder name w3 = Some (pr_pid q).
Proof.
  intros Mp Mq Hi Hf. destruct (GetSharedLock_free _ _ _ _ Mp Hi Hf) as (w1 & E1 & H1 & V1).
  assert (Mp1 : mapped p w1) by (apply (mapped_view p w); [intros; by rewrite V1|done]).
  assert (Mq1 : mapped q w1) by (apply (mapped_view q w); [intros; by rewrite V1|done]).
  destruct (mapped_pointer _ _ _ _ Mp1 Hi) as (a & Ha & Oa).
  pose proof (H1 name) as Hn. rewrite decide_True in Hn by done.
  assert (Hr : holder name (mutex_unlock (pr_pid p) a w1) = None).
  { rewrite (mutex_unlock_held _ _ _ name) by done. by rewrite decide_True. }
  destruct (GetSharedLock_free q (mutex_unlock (pr_pid p) a w1) i name) as (w3 & E3 & H3 & _);
    [apply (mapped_view q w1); [intros; by rewrite mutex_unlock_view|done]|done|done|].
  exists w1, (mutex_unlock (pr_pid p) a w1), w3. split_and!.
  - done.
  - by apply (GetSharedLock_held q w1 i name (pr_pid p)).
  - intros j other Hj Ho Hfree.
    destruct (GetSharedLock_free q w1 j other) as (w' & E' & _); [done|done| |by exists w'].
    rewrite H1. by rewrite decide_False.
  - unfold ReleaseSharedLock. by rewrite Ha.
  - done.
  - rewrite H3. by rewrite decide_True.
Qed.

(** A second initialization breaks the lock. A process p that calls
    [InitializeSharedLocks] while another process q holds lock i initializes the mutex anew:
    the call succeeds, [GetSharedLock] then gives p the lock at once, although q has not
    released it and believes that it holds it. *)
Theorem initialize_frees_held_lock p p' q (w w' : W) i name :
  length (shared_locks p) = 5%nat -> kSharedMemoryName !! i = Some name ->
  holder name w = Some q -> q <> pr_pid p ->
  InitializeSharedLocks p w = (w', p', true) ->
  exists w2, GetSharedLock (Z.of_nat i) p' w' = Ok w2 /\ holder name w2 = Some (pr_pid p).
Proof.
  intros L Hi _ _ E. destruct (InitializeSharedLocks_mapped _ _ _ _ L E) as (Hp & M & _ & Hh).
  destruct (GetSharedLock_free p' w' i name) as (w2 & E2 & H2 & _); [done|done| |].
  - rewrite Hh. rewrite decide_True; [done|]. by apply list_elem_of_lookup_2 in Hi.
  - exists w2. split; [done|]. rewrite H2, decide_True by done. by rewrite Hp.
Qed.
End Laws.

(** ** A system with named objects *)

(** The number of mappings and of open files that the system still allows is [ds_room]; a
    process maps an object at an address of its own. *)
Record demo_system := mkSystem {
  ds_room : nat;
  ds_files : gmap (Z * Z) (list Z);
  ds_views : gmap (Z * Z) (list Z);
  ds_holders : gmap (list Z) Z
}.

Definition next_of (m : gmap (Z * Z) (list Z)) : Z :=
  1 + foldr (fun p acc => Z.max p.1.2 acc) 0 (map_to_list m).

Lemma next_of_fresh m q p : next_of m <= p -> m !! (q, p) = None.
Proof.
  intros Hp. destruct (m !! (q, p)) as [n|] eqn:E; [|done].
  apply elem_of_map_to_list in E. exfalso. revert Hp E. unfold next_of.
  induction (map_to_list m) as [|[[q' p'] n'] l IH]; simpl; [set_solver|].
  intros Hp [[= -> -> ->]|E]%elem_of_cons; [lia|]. apply IH; [lia|done].
Qed.

Lemma next_of_pos m : 0 < next_of m.
Proof. unfold next_of. induction (map_to_list m); simpl; lia. Qed.

#[export] Instance demo_memory : SharedMemory demo_system := {|
  shm_open pid name w :=
    match ds_room w with
    | O => (w, None)
    | S n => let fd := next_of (ds_files w) in
        (mkSystem n (<[(pid, fd) := name]> (ds_files w)) (ds_views w) (ds_holders w), Some fd)
    end;
  ftruncate _ _ _ w := (w, true);
  mmap_shared pid _ fd w :=
    match ds_files w !! (pid, fd) with
    | None => (w, None)
    | Some name => let p := next_of (ds_views w) in
        (mkSystem (ds_room w) (ds_files w) (<[(pid, p) := name]> (ds_views w)) (ds_holders w), Some p)
    end;
  mutex_init pid p w :=
    match ds_views w !! (pid, p) with
    | None => w
    | Some n => mkSystem (ds_room w) (ds_files w) (ds_views w) (delete n (ds_holders w))
    end;
  mutex_lock pid p w :=
    n ← of_option OutOfBounds (ds_views w !! (pid, p));
    match ds_holders w !! n with
    | Some _ => Fault Blocked
    | None => Ok (mkSystem (ds_room w) (ds_files w) (ds_views w) (<[n := pid]> (ds_holders w)))
    end;
  mutex_unlock pid p w :=
    match ds_views w !! (pid, p) with
    | None => w
    | Some n => mkSystem (ds_room w) (ds_files w) (ds_views w) (delete n (ds_holders w))
    end
|}.

Lemma delete_holder (h : gmap (list Z) Z) n m :
  delete n h !! m = if decide (m = n) then None else h !! m.
Proof. case_decide; subst; [apply lookup_delete_eq|by apply lookup_delete_ne]. Qed.

#[export, refine] Instance demo_memory_laws : SharedMemoryLaws demo_system := {|
  object_of pid p w := ds_views w !! (pid, p);
  file_of pid fd w := ds_files w !! (pid, fd);
  holder n w := ds_holders w !! n
|}.
Proof.
  - intros pid name w w' fd. simpl. destruct (ds_room w); [done|]. intros [= <- <-]. simpl.
    apply lookup_insert_eq.
  - intros. simpl. by destruct (ds_room w).
  - intros. simpl. by destruct (ds_room w).
  - done.
  - done.
  - done.
  - intros pid sz fd w w' p. simpl. destruct (ds_files w !! _); [|done]. intros [= <- <-]. simpl.
    split_and!; [apply next_of_pos|by apply next_of_fresh|by rewrite lookup_insert_eq].
  - intros pid sz fd w q p n Hn. simpl. destruct (ds_files w !! _); [|done]. simpl.
    rewrite lookup_insert_ne; [done|]. intros [= <- E].
    rewrite next_of_fresh in Hn by lia. done.
  - intros. simpl. by destruct (ds_files w !! _).
  - intros. simpl. by destruct (ds_views w !! (pid, p)).
  - intros pid p w n m Hn. simpl. rewrite Hn. simpl. apply delete_holder.
  - intros pid p w n Hn Hf. simpl. rewrite Hn. simpl. rewrite Hf. eexists. split; [done|].
    split; [|done]. intros m. simpl. case_decide; subst;
      [apply lookup_insert_eq|by apply lookup_insert_ne].
  - intros pid p w n q Hn Hh. simpl. rewrite Hn. simpl. by rewrite Hh.
  - intros pid p w n m Hn _. simpl. rewrite Hn. simpl. apply delete_holder.
  - intros. simpl. by destruct (ds_views w !! (pid, p)).
Defined.

(** Processes 7 and 8 start one after the other. *)
Definition system0 : demo_system := mkSystem 20 ∅ ∅ ∅.
Definition process7 : process := mkProcess 7 [1; 2; 3; 4; 5].
Definition process8 : process := mkProcess 8 [6; 7; 8; 9; 10].
Definition system7 : demo_system := (InitializeSharedLocks (process_new 7) system0).1.1.
Definition system78 : demo_system := (InitializeSharedLocks (process_new 8) system7).1.1.

Lemma mapped_sample p w :
  bool_decide (Forall2 (fun name a => 0 < a /\ object_of (pr_pid p) a w = Some name)
                 kSharedMemoryName (shared_locks p)) = true -> mapped p w.
Proof. apply bool_decide_eq_true_1. Qed.

Lemma shared_lock_exclusive_witness :
  exists w1, GetSharedLock 2 process7 system78 = Ok w1
    /\ GetSharedLock 2 process8 w1 = Fault Blocked.
Proof.
  destruct (shared_lock_exclusive process7 process8 system78 2 (bytes "shared_memory_3"))
    as (w1 & w2 & w3 & E1 & E2 & _).
  - apply mapped_sample. vm_compute. reflexivity.
  - apply mapped_sample. vm_compute. reflexivity.
  - reflexivity.
  - vm_compute. reflexivity.
  - exists w1. split; [exact E1|exact E2].
Defined.

(** Process 8 starts while process 7 holds lock 0. *)
Definition system7_locked : demo_system :=
  match GetSharedLock 0 process7 system7 with Ok w => w | Fault _ => system7 end.
Definition system78_broken : demo_system :=
  (InitializeSharedLocks (process_new 8) system7_locked).1.1.

Lemma initialize_frees_held_lock_witness :
  holder (bytes "shared_memory_1") system7_locked = Some 7
  /\ exists w2, GetSharedLock 0 process8 system78_broken = Ok w2
       /\ holder (bytes "shared_memory_1") w2 = Some 8.
Proof.
  split; [vm_compute; reflexivity|].
  apply (initialize_frees_held_lock (process_new 8) process8 7 system7_locked system78_broken 0
           (bytes "shared_memory_1")).
  - reflexivity.
  - reflexivity.
  - vm_compute. reflexivity.
  - discriminate.
  - vm_compute. reflexivity.
Defined.
