(* ===== verification/PtrContainer.v ===== *)
(** * PtrContainer: containers that own their elements ([libhsclient/auto_ptrcontainer.hpp])

    [auto_ptrcontainer<std::vector<T *>>] holds pointers and deletes what they point to when
    it is destroyed.  The heap is the set of objects that exist; deleting one that does not
    exist is the fault [OutOfBounds], deleting a null pointer does nothing. *)
From S2P Require Import Prelude.
#[local] Open Scope Z_scope.

(** The objects that exist and the vector [cnt]. *)
Record auto_ptrcontainer := mkContainer { heap : gset Z; cnt : list Z }.

Definition delete_object (p : Z) (h : gset Z) : outcome (gset Z) :=
  if p =? 0 then Ok h
  else _ ← checked OutOfBounds (bool_decide (p ∈ h)); Ok (h ∖ {[p]}).

(** [push_back_ptr(ap)]: the vector takes the pointer, and the [auto_ptr] is left null. *)
Definition push_back_ptr (ap : Z) (c : auto_ptrcontainer) : auto_ptrcontainer * Z :=
  (mkContainer (heap c) (cnt c ++ [ap]), 0).

(** [erase_ptr(begin() + i)]. *)
Definition erase_ptr (i : Z) (c : auto_ptrcontainer) : outcome auto_ptrcontainer :=
  p ← array_get (cnt c) i;
  h ← delete_object p (heap c);
  Ok (mkContainer h (delete (Z.to_nat i) (cnt c))).

(** [clear()] empties the vector; nothing is deleted. *)
Definition clear (c : auto_ptrcontainer) : auto_ptrcontainer := mkContainer (heap c) [].

Definition swap (c x : auto_ptrcontainer) : auto_ptrcontainer * auto_ptrcontainer :=
  (mkContainer (heap c) (cnt x), mkContainer (heap c) (cnt c)).

Definition size (c : auto_ptrcontainer) : Z := Z.of_nat (length (cnt c)).

Definition at_index (i : Z) (c : auto_ptrcontainer) : outcome Z := array_get (cnt c) i.

(** [~auto_ptrcontainer]. *)
Fixpoint delete_objects (ps : list Z) (h : gset Z) : outcome (gset Z) :=
  match ps with [] => Ok h | p :: ps => h ← delete_object p h; delete_objects ps h end.

Definition destroy (c : auto_ptrcontainer) : outcome (gset Z) := delete_objects (cnt c) (heap c).

(** ** A caller that allocates every element it pushes *)
Inductive container_call := CallPush | CallErase (i : nat) | CallClear.

(** [new T] returns an address at which no object exists. *)
Definition new_object (h : gset Z) : Z := fresh ({[0]} ∪ h).

Definition container_step (call : container_call) (c : auto_ptrcontainer)
    : outcome auto_ptrcontainer :=
  match call with
  | CallPush =>
      let p := new_object (heap c) in
      Ok (push_back_ptr p (mkContainer ({[p]} ∪ heap c) (cnt c))).1
  | CallErase i => erase_ptr (Z.of_nat i) c
  | CallClear => Ok (clear c)
  end.

Fixpoint container_run (calls : list container_call) (c : auto_ptrcontainer)
    : outcome auto_ptrcontainer :=
  match calls with
  | [] => Ok c
  | call :: calls => c ← container_step call c; container_run calls c
  end.

(** The elements are different objects that exist, apart from the objects [rest] of others. *)
Record owning (rest : gset Z) (c : auto_ptrcontainer) : Prop := {
  ow_nodup : NoDup (cnt c);
  ow_heap : heap c = list_to_set (cnt c) ∪ rest;
  ow_rest : list_to_set (cnt c) ## rest;
  ow_null : 0 ∉ cnt c
}.

(** What the calls leave to nobody: the elements that [clear] drops. *)
Definition leaked (call : container_call) (c : auto_ptrcontainer) : gset Z :=
  match call with CallClear => list_to_set (cnt c) | _ => ∅ end.

Fixpoint leaked_run (calls : list container_call) (c : auto_ptrcontainer) : gset Z :=
  match calls with
  | [] => ∅
  | call :: calls =>
      leaked call c
      ∪ match container_step call c with Ok c => leaked_run calls c | Fault _ => ∅ end
  end.

Definition in_range (call : container_call) (n : nat) : Prop :=
  match call with CallErase i => (i < n)%nat | _ => True end.

(** Every erase of the sequence is at an index of the vector at that time. *)
Fixpoint all_in_range (calls : list container_call) (n : nat) : Prop :=
  match calls with
  | [] => True
  | call :: calls =>
      in_range call n
      /\ all_in_range calls
           (match call with CallPush => S n | CallErase _ => pred n | CallClear => O end)
  end.

Lemma delete_object_owned p h : p <> 0 -> p ∈ h -> delete_object p h = Ok (h ∖ {[p]}).
Proof.
  intros Hp Hin. unfold delete_object. rewrite (proj2 (Z.eqb_neq p 0)) by done.
  by rewrite bool_decide_eq_true_2.
Qed.

Lemma delete_objects_owned ps rest :
  NoDup ps -> 0 ∉ ps -> list_to_set ps ## rest ->
  delete_objects ps (list_to_set ps ∪ rest) = Ok rest.
Proof.
  intros N. induction N as [|p ps Hp N IH]; intros Hz Hd; simpl; [f_equal; set_solver|].
  rewrite delete_object_owned by set_solver. simpl.
  replace (({[p]} ∪ list_to_set ps ∪ rest) ∖ {[p]}) with (list_to_set ps ∪ rest : gset Z)
    by set_solver.
  apply IH; set_solver.
Qed.

Lemma destroy_owning rest c : owning rest c -> destroy c = Ok rest.
Proof. intros [N Hh Hd Hz]. unfold destroy. rewrite Hh. by apply delete_objects_owned. Qed.

Lemma step_owning rest call c :
  owning rest c -> in_range call (length (cnt c)) ->
  exists c', container_step call c = Ok c' /\ owning (leaked call c ∪ rest) c'
    /\ length (cnt c') = match call with
                         | CallPush => S (length (cnt c))
                         | CallErase _ => pred (length (cnt c))
                         | CallClear => O end.
Proof.
  intros [N Hh Hd Hz] Hr. destruct call as [|i|]; simpl in *.
  - eexists. split; [done|]. split; [|simpl; rewrite length_app; simpl; lia].
    pose proof (is_fresh ({[0]} ∪ heap c)) as Hf. fold (new_object (heap c)) in Hf.
    rewrite Hh in Hf. split; simpl.
    + apply NoDup_app. split; [done|]. split; [|apply NoDup_singleton].
      rewrite Hh. set_solver.
    + rewrite Hh at 2. rewrite list_to_set_app_L. set_solver.
    + rewrite list_to_set_app_L. rewrite Hh. set_solver.
    + rewrite Hh. set_solver.
  - destruct (lookup_lt_is_Some_2 (cnt c) i Hr) as [p Hp].
    pose proof (delete_Permutation _ _ _ Hp) as P.
    assert (Hin : p ∈ cnt c) by by apply list_elem_of_lookup_2 in Hp.
    unfold erase_ptr, array_get. rewrite (proj2 (Z.ltb_ge _ _)), Nat2Z.id, Hp by lia. simpl.
    rewrite delete_object_owned by set_solver. simpl. eexists. split; [done|].
    rewrite P in N. apply NoDup_cons in N as [Hnp N].
    assert (L : list_to_set (cnt c) = {[p]} ∪ list_to_set (delete i (cnt c)) :> gset Z)
      by (rewrite P at 1; done).
    split; [|simpl; rewrite length_delete by done; lia].
    split; simpl; [done| | |].
    + rewrite Hh, L. set_solver.
    + set_solver.
    + intros Hz'. apply Hz. rewrite P. set_solver.
  - eexists. split; [done|]. split; [|done]. split; simpl; [constructor|set_solver|set_solver|set_solver].
Qed.

Lemma run_owning calls rest c :
  owning rest c -> all_in_range calls (length (cnt c)) ->
  exists c', container_run calls c = Ok c' /\ owning (leaked_run calls c ∪ rest) c'.
Proof.
  revert rest c. induction calls as [|call calls IH]; intros rest c O Hr; simpl.
  - exists c. split; [done|]. by rewrite (left_id_L ∅ (∪)).
  - destruct Hr as [Hr Hrs]. destruct (step_owning rest call c O Hr) as (c1 & E1 & O1 & L1).
    rewrite E1. simpl. rewrite <- L1 in Hrs. destruct (IH _ c1 O1 Hrs) as (c' & E' & O').
    exists c'. split; [done|].
    replace (leaked call c ∪ leaked_run calls c1 ∪ rest)
      with (leaked_run calls c1 ∪ (leaked call c ∪ rest)) by set_solver.
    done.
Qed.

(** A container deletes each element once, except those it is told to forget. For every
    sequence of pushes of new objects, erasures inside the vector and clears, no operation
    faults, and the destructor at the end succeeds too: no object is deleted twice. It leaves
    the objects that existed before and those in the vector at the time of a [clear], which
    nobody deletes any more; without [clear] nothing leaks. *)
Theorem container_deletes_once calls (h : gset Z) :
  all_in_range calls 0 ->
  exists c, container_run calls (mkContainer h []) = Ok c
    /\ destroy c = Ok (leaked_run calls (mkContainer h []) ∪ h)
    /\ (CallClear ∉ calls -> destroy c = Ok h).
Proof.
  intros Hr. destruct (run_owning calls h (mkContainer h [])) as (c & E & O); [|done|].
  { split; simpl; [constructor|set_solver|set_solver|set_solver]. }
  exists c. split; [done|]. apply destroy_owning in O. split; [done|].
  intros Hc. rewrite O. f_equal.
  enough (forall calls c, CallClear ∉ calls -> leaked_run calls c = ∅) as -> by (done || set_solver).
  clear. induction calls as [|call calls IH]; intros c Hc; simpl; [done|].
  destruct (container_step call c); [rewrite IH by set_solver|];
    destruct call; simpl; set_solver.
Qed.

(** Three pushes, an erasure, a clear, a push. *)
Lemma container_deletes_once_witness :
  let calls := [CallPush; CallPush; CallPush; CallErase 1; CallClear; CallPush] in
  Datatypes.length (elements (leaked_run calls (mkContainer {[100]} []))) = 2%nat
  /\ exists c, container_run calls (mkContainer {[100]} []) = Ok c
       /\ destroy c = Ok (leaked_run calls (mkContainer {[100]} []) ∪ {[100]}).
Proof.
  intros calls. split; [vm_compute; reflexivity|].
  destruct (container_deletes_once calls {[100]}) as (c & E & D & _).
  - simpl. repeat split; lia.
  - exists c. split; [exact E|exact D].
Defined.
