(* ===== verification/MyGlobal.v ===== *)
(** * MyGlobal: integers in a machine independent format ([libhsclient/my_global.h])

    The header is MySQL's.  No file of the repository includes it any more, so nothing else
    depends on this file.  Most of it selects includes and names for old platforms; what computes
    are the macros that read and store integers low byte first, in a version for the i386
    and one for every other machine, those for floating point numbers on big-endian
    machines, a few helpers and [rint].

    An argument that is a pointer to [uchar] is the list of the bytes from there on; reading
    or storing past its end is the fault [OutOfBounds].  A stored value is a 64-bit integer, so
    that every shift is less than its width. *)
From S2P Require Import Prelude.
#[local] Open Scope Z_scope.

(** ** Casts and memory *)
Definition u8 (z : Z) : Z := z mod 2 ^ 8.
Definition u16 (z : Z) : Z := z mod 2 ^ 16.
Definition s16 (z : Z) : Z := (z + 2 ^ 15) mod 2 ^ 16 - 2 ^ 15.
Definition s64 (z : Z) : Z := (z + 2 ^ 63) mod 2 ^ 64 - 2 ^ 63.

Definition byte_at (A : list Z) (i : nat) : outcome Z := of_option OutOfBounds (A !! i).

Definition put (T : list Z) (i : nat) (v : Z) : outcome (list Z) :=
  if (i <? length T)%nat then Ok (<[i := u8 v]> T) else Fault OutOfBounds.

Definition le_value (l : list Z) : Z := foldr (fun b v => b + 2 ^ 8 * v) 0 l.

Fixpoint le_bytes (n : nat) (v : Z) : list Z :=
  match n with O => [] | S n => u8 v :: le_bytes n (v / 2 ^ 8) end.

(** Access to a word of [n] bytes on a little-endian machine. *)
Definition load (n : nat) (A : list Z) : outcome Z :=
  if (n <=? length A)%nat then Ok (le_value (take n A)) else Fault OutOfBounds.

Definition store (n : nat) (T : list Z) (v : Z) : outcome (list Z) :=
  if (n <=? length T)%nat then Ok (le_bytes n v ++ drop n T) else Fault OutOfBounds.

(** ** i386, where [long] has 32 bits *)
Definition i386_sint2korr (A : list Z) : outcome Z := v ← load 2 A; Ok (s16 v).

Definition sint3korr (A : list Z) : outcome Z :=
  a2 ← byte_at A 2; a1 ← byte_at A 1; a0 ← byte_at A 0;
  Ok (wrap_int
        (if negb (Z.land a2 128 =? 0)
         then Z.lor (Z.lor (Z.lor (wrap_u32 (Z.shiftl 255 24)) (wrap_u32 (Z.shiftl a2 16)))
                       (wrap_u32 (Z.shiftl a1 8))) a0
         else Z.lor (Z.lor (wrap_u32 (Z.shiftl a2 16)) (wrap_u32 (Z.shiftl a1 8))) a0)).

Definition i386_sint4korr (A : list Z) : outcome Z := v ← load 4 A; Ok (wrap_int v).

Definition i386_uint2korr (A : list Z) : outcome Z := load 2 A.

(** ** Every other machine *)
Definition sint2korr (A : list Z) : outcome Z :=
  a0 ← byte_at A 0; a1 ← byte_at A 1;
  Ok (s16 (s16 a0 + Z.shiftl (s16 (s16 a1)) 8)).

Definition sint4korr (A : list Z) : outcome Z :=
  a0 ← byte_at A 0; a1 ← byte_at A 1; a2 ← byte_at A 2; a3 ← byte_at A 3;
  Ok (wrap_int (a0 + Z.shiftl a1 8 + Z.shiftl a2 16 + wrap_int (Z.shiftl (s16 a3) 24))).

Definition uint2korr (A : list Z) : outcome Z :=
  a0 ← byte_at A 0; a1 ← byte_at A 1; Ok (u16 (u16 a0 + Z.shiftl (u16 a1) 8)).

Definition uint3korr (A : list Z) : outcome Z :=
  a0 ← byte_at A 0; a1 ← byte_at A 1; a2 ← byte_at A 2;
  Ok (wrap_u32 (a0 + wrap_u32 (Z.shiftl a1 8) + wrap_u32 (Z.shiftl a2 16))).

(** The sum of four bytes as an [uint32], which three macros share. *)
Definition uint32_at (A : list Z) (i : nat) : outcome Z :=
  a0 ← byte_at A i; a1 ← byte_at A (i + 1); a2 ← byte_at A (i + 2); a3 ← byte_at A (i + 3);
  Ok (wrap_u32 (a0 + wrap_u32 (Z.shiftl a1 8) + wrap_u32 (Z.shiftl a2 16) + wrap_u32 (Z.shiftl a3 24))).

Definition uint4korr (A : list Z) : outcome Z := uint32_at A 0.

Definition uint5korr (A : list Z) : outcome Z :=
  v ← uint32_at A 0; a4 ← byte_at A 4; Ok (wrap_u64 (v + wrap_u64 (Z.shiftl a4 32))).

Definition uint6korr (A : list Z) : outcome Z :=
  v ← uint32_at A 0; a4 ← byte_at A 4; a5 ← byte_at A 5;
  Ok (wrap_u64 (v + wrap_u64 (Z.shiftl a4 32) + wrap_u64 (Z.shiftl a5 40))).

Definition uint8korr (A : list Z) : outcome Z :=
  v ← uint32_at A 0; w ← uint32_at A 4; Ok (wrap_u64 (v + wrap_u64 (Z.shiftl w 32))).

Definition sint8korr (A : list Z) : outcome Z := v ← uint8korr A; Ok (s64 v).

(** [uint3korr] of the i386 reads four bytes, unless valgrind is looking. *)
Definition i386_uint3korr (valgrind : bool) (A : list Z) : outcome Z :=
  if valgrind then uint3korr A else v ← load 4 A; Ok (wrap_int (Z.land v 16777215)).

Definition i386_uint4korr (A : list Z) : outcome Z := load 4 A.
Definition i386_uint8korr (A : list Z) : outcome Z := load 8 A.
Definition i386_sint8korr (A : list Z) : outcome Z := v ← load 8 A; Ok (s64 v).

(** ** Stores *)
Definition i386_int2store (T : list Z) (A : Z) : outcome (list Z) := store 2 T (u16 A).

Definition i386_int3store (T : list Z) (A : Z) : outcome (list Z) :=
  T ← put T 0 A; T ← put T 1 (Z.shiftr (wrap_u32 A) 8); put T 2 (Z.shiftr A 16).

Definition i386_int4store (T : list Z) (A : Z) : outcome (list Z) := store 4 T (wrap_int A).
Definition i386_int8store (T : list Z) (A : Z) : outcome (list Z) := store 8 T (wrap_u64 A).

Definition int2store (T : list Z) (A : Z) : outcome (list Z) :=
  let def_temp := wrap_u32 A in T ← put T 0 def_temp; put T 1 (Z.shiftr def_temp 8).

Definition int3store (T : list Z) (A : Z) : outcome (list Z) :=
  T ← put T 0 A; T ← put T 1 (Z.shiftr A 8); put T 2 (Z.shiftr A 16).

(** [int4store(T + i, A)]. *)
Definition int4store_at (T : list Z) (i : nat) (A : Z) : outcome (list Z) :=
  T ← put T i A; T ← put T (i + 1) (Z.shiftr A 8); T ← put T (i + 2) (Z.shiftr A 16);
  put T (i + 3) (Z.shiftr A 24).

Definition int4store (T : list Z) (A : Z) : outcome (list Z) := int4store_at T 0 A.

Definition int5store (T : list Z) (A : Z) : outcome (list Z) :=
  T ← int4store_at T 0 A; put T 4 (Z.shiftr A 32).

Definition int6store (T : list Z) (A : Z) : outcome (list Z) :=
  T ← int4store_at T 0 A; T ← put T 4 (Z.shiftr A 32); put T 5 (Z.shiftr A 40).

Definition int8store (T : list Z) (A : Z) : outcome (list Z) :=
  let def_temp := wrap_u32 A in let def_temp2 := wrap_u32 (Z.shiftr A 32) in
  T ← int4store_at T 0 def_temp; int4store_at T 4 def_temp2.

(** The i386 has macros of its own with the same text for what is not one word. *)
Definition i386_sint3korr : list Z -> outcome Z := sint3korr.
Definition i386_uint5korr : list Z -> outcome Z := uint5korr.
Definition i386_uint6korr : list Z -> outcome Z := uint6korr.
Definition i386_int5store : list Z -> Z -> outcome (list Z) := int5store.
Definition i386_int6store : list Z -> Z -> outcome (list Z) := int6store.

(** ** Big-endian machines *)
Definition be_value (l : list Z) : Z := le_value (rev l).

(** A variable of four bytes filled byte by byte. *)
Definition four_bytes (M : list Z) : outcome (list Z) :=
  m0 ← byte_at M 0; m1 ← byte_at M 1; m2 ← byte_at M 2; m3 ← byte_at M 3; Ok [m0; m1; m2; m3].

Definition ushortget (M : list Z) : outcome Z :=
  m1 ← byte_at M 1; m0 ← byte_at M 0; Ok (u16 (u16 m1 + Z.shiftl (u16 (u16 m0)) 8)).

Definition shortget (M : list Z) : outcome Z :=
  m1 ← byte_at M 1; m0 ← byte_at M 0; Ok (s16 (s16 m1 + Z.shiftl (s16 (s16 m0)) 8)).

Definition longget (M : list Z) : outcome Z :=
  def_temp ← four_bytes M; Ok (wrap_int (be_value def_temp)).

Definition ulongget (M : list Z) : outcome Z := def_temp ← four_bytes M; Ok (be_value def_temp).

Definition shortstore (T : list Z) (A : Z) : outcome (list Z) :=
  let def_temp := wrap_u32 A in T ← put T 1 def_temp; put T 0 (Z.shiftr def_temp 8).

Definition longstore (T : list Z) (A : Z) : outcome (list Z) :=
  T ← put T 3 A; T ← put T 2 (Z.shiftr A 8); T ← put T 1 (Z.shiftr A 16); put T 0 (Z.shiftr A 24).

(** Network byte order, on every machine. *)
Definition int4net (A : list Z) : outcome Z :=
  a3 ← byte_at A 3; a2 ← byte_at A 2; a1 ← byte_at A 1; a0 ← byte_at A 0;
  Ok (wrap_int (Z.lor (Z.lor (Z.lor a3 (wrap_u32 (Z.shiftl a2 8))) (wrap_u32 (Z.shiftl a1 16)))
                  (wrap_u32 (Z.shiftl a0 24)))).

(** Bytes of a [float] or [double], as they lie in memory, copied in the order [js]. *)
Fixpoint copy_bytes (V : list Z) (js : list nat) (i : nat) (T : list Z) : outcome (list Z) :=
  match js with
  | [] => Ok T
  | j :: js => v ← byte_at V j; T ← put T i v; copy_bytes V js (S i) T
  end.

Definition float4store (T V : list Z) : outcome (list Z) := copy_bytes V [3; 2; 1; 0]%nat 0 T.
Definition float4get (M : list Z) : outcome (list Z) :=
  copy_bytes M [3; 2; 1; 0]%nat 0 (replicate 4 0).
Definition float8store (T V : list Z) : outcome (list Z) :=
  copy_bytes V [7; 6; 5; 4; 3; 2; 1; 0]%nat 0 T.
Definition float8get (M : list Z) : outcome (list Z) :=
  copy_bytes M [7; 6; 5; 4; 3; 2; 1; 0]%nat 0 (replicate 8 0).

(** Machines that keep the halves of a [double] in the other order. *)
Definition doublestore (T V : list Z) : outcome (list Z) :=
  copy_bytes V [4; 5; 6; 7; 0; 1; 2; 3]%nat 0 T.
Definition doubleget (M : list Z) : outcome (list Z) :=
  copy_bytes M [4; 5; 6; 7; 0; 1; 2; 3]%nat 0 (replicate 8 0).

(** ** Helpers *)
Definition CMP_NUM (a b : Z) : Z := if a <? b then -1 else if a =? b then 0 else 1.
Definition sgn (a : Z) : Z := if a <? 0 then -1 else if 0 <? a then 1 else 0.

(** The variables after the macro. *)
Definition swap_variables {A} (a b : A) : A * A := let dummy := a in (b, dummy).
Definition set_if_bigger (a b : Z) : Z := if a <? b then b else a.
Definition set_if_smaller (a b : Z) : Z := if b <? a then b else a.

(** For an unsigned type of [size] bytes. *)
Definition set_bits (size bit_count : Z) : Z :=
  if size * 8 <=? bit_count then Z.lnot 0 mod 2 ^ (size * 8)
  else (Z.shiftl 1 bit_count - 1) mod 2 ^ (size * 8).

Definition test_all_bits (a b : Z) : bool := Z.land a b =? b.

(** For [size_t], as [ALIGN_SIZE] uses it. *)
Definition MY_ALIGN (A L : Z) : Z :=
  Z.land (wrap_u64 (wrap_u64 (A + L) - 1)) (wrap_u64 (Z.lnot (wrap_u64 (L - 1)))).
Definition ALIGN_SIZE (A : Z) : Z := MY_ALIGN A 8.

(** ** Rounding *)
(** A finite [double], [mant * 2 ^ expo]. *)
Record double := mkDouble { mant : Z; expo : Z }.

Definition MAX_EXACT_INTEGER : Z := Z.shiftl 1 53 - 1.

(** [modf]: the integral part, and the fraction as a numerator over a power of two; both
    have the sign of the argument. *)
Definition modf (x : double) : Z * Z * Z :=
  if 0 <=? expo x then (mant x * 2 ^ expo x, 0, 1)
  else let den := 2 ^ (- expo x) in (Z.quot (mant x) den, Z.rem (mant x) den, den).

Definition rint (x : double) : Z :=
  let '(i, f, den) := modf x in
  if 0 <? mant x
  then i + Z.b2z ((den <? 2 * f)
                  || (2 * f =? den) && (i <=? MAX_EXACT_INTEGER) && negb (Z.rem i 2 =? 0))
  else i - Z.b2z ((2 * f <? - den)
                  || (2 * f =? - den) && (- MAX_EXACT_INTEGER <=? i) && negb (Z.rem i 2 =? 0)).

(** ** Facts about words *)
Lemma le_value_bytes n v : le_value (le_bytes n v) = v mod 2 ^ (8 * Z.of_nat n).
Proof.
  revert v. induction n as [|n IH]; intros v; [by rewrite Z.mod_1_r|].
  simpl. rewrite IH. unfold u8.
  replace (8 * Z.of_nat (S n)) with (8 + 8 * Z.of_nat n) by lia.
  rewrite Z.pow_add_r, Z.rem_mul_r by lia. done.
Qed.

Lemma length_le_bytes n v : length (le_bytes n v) = n.
Proof. revert v. induction n; intros v; simpl; auto. Qed.

Lemma lor_shiftl a b k : 0 <= k -> 0 <= a < 2 ^ k -> Z.lor (Z.shiftl b k) a = 2 ^ k * b + a.
Proof.
  intros Hk Ha. rewrite <- Z.mul_comm, <- Z.shiftl_mul_pow2, <- Z.add_lor_land by done.
  enough (Z.land (Z.shiftl b k) a = 0) by lia.
  apply Z.bits_inj'. intros n Hn. rewrite Z.land_spec, Z.bits_0, Z.shiftl_spec by done.
  destruct (Z.ltb_spec n k); [by rewrite Z.testbit_neg_r by lia|].
  apply andb_false_intro2. rewrite Z.testbit_false by done. rewrite Z.div_small; [done|].
  split; [lia|]. eapply Z.lt_le_trans; [apply Ha|]. by apply Z.pow_le_mono_r.
Qed.

(** Reduce reads at literal indices, and arithmetic on bytes. *)
Ltac bytes_in :=
  repeat match goal with H : Forall is_byte (_ :: _) |- _ => apply Forall_cons in H as [? H] end;
  unfold is_byte in *.

Ltac words :=
  unfold load, store, byte_at, u16, s16, s64, wrap_u32, wrap_u64, wrap_int in *;
  cbn -[Z.pow Z.add Z.mul Z.modulo Z.sub Z.div Z.shiftl]; rewrite ?take_0;
  cbn -[Z.pow Z.add Z.mul Z.modulo Z.sub Z.div Z.shiftl]; rewrite ?Z.shiftl_mul_pow2 by lia;
  try reflexivity; try f_equal; lia.

Lemma sint2korr_word A : Forall is_byte A -> sint2korr A = i386_sint2korr A.
Proof.
  intros H. unfold sint2korr, i386_sint2korr. destruct A as [|a0 [|a1 A]]; try reflexivity.
  bytes_in. words.
Qed.

Lemma uint32_at_word A : Forall is_byte A -> uint32_at A 0 = load 4 A.
Proof.
  intros H. unfold uint32_at. destruct A as [|a0 [|a1 [|a2 [|a3 A]]]]; try reflexivity.
  bytes_in. words.
Qed.

Lemma uint2korr_word A : Forall is_byte A -> uint2korr A = load 2 A.
Proof.
  intros H. unfold uint2korr. destruct A as [|a0 [|a1 A]]; try reflexivity. bytes_in. words.
Qed.

Lemma uint3korr_word A : Forall is_byte A -> uint3korr A = load 3 A.
Proof.
  intros H. unfold uint3korr. destruct A as [|a0 [|a1 [|a2 A]]]; try reflexivity. bytes_in. words.
Qed.

Lemma sign_bit b : is_byte b -> (Z.land b 128 =? 0) = (b <? 128).
Proof.
  intros Hb.
  assert (Hall : forallb (fun n => Bool.eqb (Z.land n 128 =? 0) (n <? 128)) (seqZ 0 256) = true)
    by (vm_compute; reflexivity).
  rewrite forallb_forall in Hall. apply Bool.eqb_prop, Hall, list_elem_of_In, elem_of_seqZ.
  unfold is_byte in Hb. lia.
Qed.

(** The sign of a three byte integer. *)
Definition s24 (z : Z) : Z := (z + 2 ^ 23) mod 2 ^ 24 - 2 ^ 23.

Lemma sint3korr_word A : Forall is_byte A -> sint3korr A = v ← load 3 A; Ok (s24 v).
Proof.
  intros H. unfold sint3korr. destruct A as [|a0 [|a1 [|a2 A]]]; try reflexivity.
  apply Forall_cons in H as [H0 [H1 [H2 _]%Forall_cons]%Forall_cons].
  unfold load, byte_at.
  cbn -[Z.pow Z.add Z.mul Z.modulo Z.sub Z.div Z.shiftl Z.lor Z.land]. rewrite take_0.
  cbn -[Z.pow Z.add Z.mul Z.modulo Z.sub Z.div Z.shiftl Z.lor Z.land].
  rewrite sign_bit by done. unfold is_byte in *. f_equal.
  assert (E : Z.lor (Z.lor (wrap_u32 (Z.shiftl a2 16)) (wrap_u32 (Z.shiftl a1 8))) a0
              = 2 ^ 16 * a2 + 2 ^ 8 * a1 + a0).
  { unfold wrap_u32. rewrite !Z.mod_small by (rewrite Z.shiftl_mul_pow2 by lia; lia).
    rewrite lor_shiftl by (rewrite ?Z.shiftl_mul_pow2 by lia; lia).
    rewrite Z.shiftl_mul_pow2 by lia.
    replace (2 ^ 16 * a2 + a1 * 2 ^ 8) with (Z.shiftl (2 ^ 8 * a2 + a1) 8)
      by (rewrite Z.shiftl_mul_pow2 by lia; lia).
    rewrite lor_shiftl by lia. lia. }
  unfold wrap_int, s24. destruct (Z.ltb_spec a2 128); cbn [negb].
  - rewrite E. lia.
  - change (wrap_u32 (Z.shiftl 255 24)) with (Z.shiftl 255 24).
    rewrite <- !Z.lor_assoc, (Z.lor_assoc (wrap_u32 _)), E, lor_shiftl by lia. lia.
Qed.

Lemma sint4korr_word A : Forall is_byte A -> sint4korr A = i386_sint4korr A.
Proof.
  intros H. unfold sint4korr, i386_sint4korr.
  destruct A as [|a0 [|a1 [|a2 [|a3 A]]]]; try reflexivity. bytes_in. words.
Qed.

Lemma uint5korr_word A : Forall is_byte A -> uint5korr A = load 5 A.
Proof.
  intros H. unfold uint5korr, uint32_at.
  destruct A as [|a0 [|a1 [|a2 [|a3 [|a4 A]]]]]; try reflexivity. bytes_in. words.
Qed.

Lemma uint6korr_word A : Forall is_byte A -> uint6korr A = load 6 A.
Proof.
  intros H. unfold uint6korr, uint32_at.
  destruct A as [|a0 [|a1 [|a2 [|a3 [|a4 [|a5 A]]]]]]; try reflexivity. bytes_in. words.
Qed.

Lemma uint8korr_word A : Forall is_byte A -> uint8korr A = load 8 A.
Proof.
  intros H. unfold uint8korr, uint32_at.
  destruct A as [|a0 [|a1 [|a2 [|a3 [|a4 [|a5 [|a6 [|a7 A]]]]]]]]; try reflexivity. bytes_in. words.
Qed.

Lemma le_bytes_mod n v k : 8 * Z.of_nat n <= k -> le_bytes n (v mod 2 ^ k) = le_bytes n v.
Proof.
  revert v k. induction n as [|n IH]; intros v k Hk; [done|]. simpl. f_equal.
  - unfold u8. replace k with (8 + (k - 8)) by lia. rewrite Z.pow_add_r by lia.
    rewrite Z.rem_mul_r by lia. rewrite Z.add_mod by lia. rewrite (Z.mul_comm (2 ^ 8)), Z.mod_mul by lia.
    rewrite Z.add_0_r, !Z.mod_mod by lia. done.
  - rewrite <- (IH (v / 2 ^ 8) (k - 8)) by lia. f_equal.
    replace k with (8 + (k - 8)) at 1 by lia. rewrite Z.pow_add_r, Z.rem_mul_r by lia.
    rewrite Z.mul_comm, Z.div_add by lia. rewrite Z.div_small by (apply Z.mod_pos_bound; lia). lia.
Qed.

Lemma le_bytes_wrap_int n v : (n <= 4)%nat -> le_bytes n (wrap_int v) = le_bytes n v.
Proof.
  intros Hn. rewrite <- (le_bytes_mod n (wrap_int v) 32), <- (le_bytes_mod n v 32) by lia. f_equal.
  unfold wrap_int. lia.
Qed.

(** Stores of the bytes of [A] one by one are stores of a word. *)
Ltac stored :=
  unfold store, put, u8, wrap_u32, wrap_int in *; try reflexivity;
  cbn -[Z.pow Z.add Z.mul Z.modulo Z.sub Z.div Z.shiftr];
  rewrite ?drop_0; unfold u8; rewrite ?Z.shiftr_div_pow2 by lia;
  try apply (f_equal Ok); repeat first [reflexivity | apply (f_equal2 cons); [lia|]].

Lemma int2store_word T A : int2store T A = store 2 T A.
Proof. unfold int2store. destruct T as [|t0 [|t1 T]]; stored. Qed.

Lemma int3store_word T A : int3store T A = store 3 T A.
Proof. unfold int3store. destruct T as [|t0 [|t1 [|t2 T]]]; stored. Qed.

Lemma i386_int3store_word T A : i386_int3store T A = store 3 T A.
Proof. unfold i386_int3store. destruct T as [|t0 [|t1 [|t2 T]]]; stored. Qed.

Lemma int4store_word T A : int4store T A = store 4 T A.
Proof. unfold int4store, int4store_at. destruct T as [|t0 [|t1 [|t2 [|t3 T]]]]; stored. Qed.

Lemma int5store_word T A : int5store T A = store 5 T A.
Proof. unfold int5store, int4store_at. destruct T as [|t0 [|t1 [|t2 [|t3 [|t4 T]]]]]; stored. Qed.

Lemma int6store_word T A : int6store T A = store 6 T A.
Proof.
  unfold int6store, int4store_at. destruct T as [|t0 [|t1 [|t2 [|t3 [|t4 [|t5 T]]]]]]; stored.
Qed.

Lemma put_wrap T i v k :
  k = 0 \/ k = 8 \/ k = 16 \/ k = 24 -> put T i (Z.shiftr (wrap_u32 v) k) = put T i (Z.shiftr v k).
Proof.
  intros Hk. unfold put. case_match; [|done]. do 2 f_equal. unfold u8, wrap_u32.
  rewrite !Z.shiftr_div_pow2 by lia. destruct Hk as [->|[->|[->| ->]]]; lia.
Qed.

Lemma int4store_at_wrap T i v : int4store_at T i (wrap_u32 v) = int4store_at T i v.
Proof.
  unfold int4store_at. pose proof (put_wrap T i v 0) as H0. rewrite !Z.shiftr_0_r in H0.
  rewrite H0 by auto. destruct (put T i v) as [T1|]; [|done]. simpl. rewrite put_wrap by auto.
  destruct (put T1 _ _) as [T2|]; [|done]. simpl. rewrite put_wrap by auto.
  destruct (put T2 _ _) as [T3|]; [|done]. simpl. by rewrite put_wrap by auto.
Qed.

Lemma int8store_word T A : int8store T A = store 8 T A.
Proof.
  unfold int8store. rewrite int4store_at_wrap.
  destruct (int4store_at T 0 A) as [T1|f] eqn:E.
  - simpl. rewrite int4store_at_wrap. revert E. unfold int4store_at. rewrite !Z.shiftr_shiftr by lia.
    destruct T as [|t0 [|t1 [|t2 [|t3 [|t4 [|t5 [|t6 [|t7 T]]]]]]]]; try discriminate;
      intros [= <-]; stored.
  - revert E. unfold int4store_at.
    destruct T as [|t0 [|t1 [|t2 [|t3 T]]]]; try discriminate; by intros [= <-].
Qed.

(** ** The two versions agree *)
Lemma i386_uint3korr_word A :
  Forall is_byte A ->
  i386_uint3korr false A = if (length A =? 3)%nat then Fault OutOfBounds else uint3korr A.
Proof.
  intros H. rewrite uint3korr_word by done. unfold i386_uint3korr.
  destruct A as [|a0 [|a1 [|a2 [|a3 A]]]]; try reflexivity.
  apply Forall_cons in H as [H0 [H1 [H2 [H3 _]%Forall_cons]%Forall_cons]%Forall_cons].
  unfold load. cbn -[Z.pow Z.add Z.mul Z.land wrap_int]. rewrite take_0.
  cbn -[Z.pow Z.add Z.mul Z.land wrap_int]. f_equal.
  change 16777215 with (Z.ones 24). rewrite Z.land_ones by lia. unfold is_byte, wrap_int in *. lia.
Qed.

(** The i386 macros are the portable ones. On every list of bytes the macros that read one
    word give what the portable macros compute byte by byte, and the same for
    the macros that store, out of bounds accesses included, with one exception, which a comment
    in the header announces: [uint3korr] of the i386 reads a fourth byte, so three bytes are not
    enough. *)
Theorem accessors_agree :
  (forall A, Forall is_byte A ->
     i386_sint2korr A = sint2korr A /\ i386_sint3korr A = sint3korr A
     /\ i386_sint4korr A = sint4korr A /\ i386_sint8korr A = sint8korr A
     /\ i386_uint2korr A = uint2korr A /\ i386_uint4korr A = uint4korr A
     /\ i386_uint5korr A = uint5korr A /\ i386_uint6korr A = uint6korr A
     /\ i386_uint8korr A = uint8korr A
     /\ i386_uint3korr false A = if (length A =? 3)%nat then Fault OutOfBounds else uint3korr A)
  /\ forall T A, - 2 ^ 63 <= A < 2 ^ 64 ->
       i386_int2store T A = int2store T A /\ i386_int3store T A = int3store T A
       /\ i386_int4store T A = int4store T A /\ i386_int8store T A = int8store T A.
Proof.
  split.
  - intros A H. unfold i386_sint8korr, sint8korr, uint4korr.
    rewrite <- sint2korr_word, sint4korr_word, uint2korr_word, uint32_at_word, uint8korr_word,
      i386_uint3korr_word by done.
    done.
  - intros T A _. rewrite int2store_word, int3store_word, i386_int3store_word, int4store_word, int8store_word.
    unfold i386_int2store, i386_int4store, i386_int8store, store, u16, wrap_u64.
    rewrite !le_bytes_mod, le_bytes_wrap_int by lia. done.
Qed.

(** ** Round trips *)
Definition signed (n : nat) (v : Z) : Z :=
  (v + 2 ^ (8 * Z.of_nat n - 1)) mod 2 ^ (8 * Z.of_nat n) - 2 ^ (8 * Z.of_nat n - 1).

(** The widths, whether they are read as signed, and their macros. *)
Inductive format : nat -> bool -> (list Z -> Z -> outcome (list Z)) -> (list Z -> outcome Z) -> Prop :=
| format_u2 : format 2 false int2store uint2korr
| format_u3 : format 3 false int3store uint3korr
| format_u4 : format 4 false int4store uint4korr
| format_u5 : format 5 false int5store uint5korr
| format_u6 : format 6 false int6store uint6korr
| format_u8 : format 8 false int8store uint8korr
| format_s2 : format 2 true int2store sint2korr
| format_s3 : format 3 true int3store sint3korr
| format_s4 : format 4 true int4store sint4korr
| format_s8 : format 8 true int8store sint8korr.

Lemma le_bytes_is_byte n v : Forall is_byte (le_bytes n v).
Proof.
  revert v. induction n as [|n IH]; intros v; simpl; [done|]. constructor; [|done].
  unfold is_byte, u8. apply Z.mod_pos_bound. lia.
Qed.

Lemma take_le_bytes n v l : take n (le_bytes n v ++ l) = le_bytes n v.
Proof. rewrite <- (length_le_bytes n v) at 1. apply take_app_length. Qed.

Lemma load_store n v T : load n (le_bytes n v ++ T) = Ok (v mod 2 ^ (8 * Z.of_nat n)).
Proof.
  unfold load. rewrite take_le_bytes, le_value_bytes, length_app, length_le_bytes.
  by rewrite (proj2 (Nat.leb_le _ _)) by lia.
Qed.

Lemma format_word n sign st ld T v :
  format n sign st ld -> Forall is_byte T ->
  st T v = store n T v /\ ld T = x ← load n T; Ok (if sign then signed n x else x).
Proof.
  intros Hf HT. destruct Hf; unfold sint8korr, uint4korr;
    rewrite ?int2store_word, ?int3store_word, ?int4store_word, ?int5store_word, ?int6store_word,
      ?int8store_word, ?uint2korr_word, ?uint3korr_word, ?uint32_at_word, ?uint5korr_word,
      ?uint6korr_word, ?uint8korr_word, ?sint2korr_word, ?sint3korr_word, ?sint4korr_word by done;
    split; try done; unfold load; by case_match.
Qed.

Lemma signed_mod n v : (0 < n)%nat -> signed n (v mod 2 ^ (8 * Z.of_nat n)) = signed n v.
Proof.
  intros Hn. unfold signed. f_equal. rewrite Z.add_mod_idemp_l; [done|]. lia.
Qed.

(** C40: an integer that is stored is read back, reduced to the width of the format. Into any
    buffer that is long enough, every [int2store] to [int8store] puts its bytes at the
    front, leaves the rest alone, and the matching [uint2korr] to [uint8korr] reads the value
    modulo the width, [sint2korr] to [sint8korr] its two's complement; a buffer that is
    too short is the only failure. *)
Theorem accessors_roundtrip n sign st ld T v :
  Forall is_byte T -> format n sign st ld ->
  if (n <=? length T)%nat
  then exists T', st T v = Ok T' /\ length T' = length T /\ drop n T' = drop n T
         /\ ld T' = Ok (if sign then signed n v else v mod 2 ^ (8 * Z.of_nat n))
  else st T v = Fault OutOfBounds.
Proof.
  intros HT Hf. destruct (format_word n sign st ld T v Hf HT) as [-> _]. unfold store.
  destruct (Nat.leb_spec n (length T)) as [Hn|Hn]; [|done]. eexists. split; [done|].
  split; [rewrite length_app, length_le_bytes, length_drop; lia|].
  split; [by rewrite drop_app_length' by by rewrite length_le_bytes|].
  destruct (format_word n sign st ld (le_bytes n v ++ drop n T) v Hf) as [_ ->].
  { apply Forall_app. split; [apply le_bytes_is_byte|by apply Forall_drop]. }
  rewrite load_store. simpl. destruct sign; [|done]. rewrite signed_mod; [done|].
  destruct Hf; lia.
Qed.

(** The bytes of a bank balance, and a negative number read back from five bytes more. *)
Lemma accessors_roundtrip_witness :
  exists T', int4store (replicate 9 7) (-100000) = Ok T' /\ drop 4 T' = replicate 5 7
    /\ sint4korr T' = Ok (-100000).
Proof.
  destruct (accessors_roundtrip 4 true int4store sint4korr (replicate 9 7) (-100000)) as (T' & H1 & _ & H2 & H3).
  - by_decide.
  - constructor.
  - exists T'. split; [exact H1|]. split; [exact H2|exact H3].
Defined.

Lemma accessors_agree_witness :
  i386_uint3korr false [1; 2; 3] = Fault OutOfBounds /\ uint3korr [1; 2; 3] = Ok 197121
  /\ i386_int8store (replicate 8 0) (-2) = int8store (replicate 8 0) (-2).
Proof.
  destruct accessors_agree as [HA HT]. split.
  - destruct (HA [1; 2; 3]) as (_ & _ & _ & _ & _ & _ & _ & _ & _ & H); [by_decide|exact H].
  - split; [reflexivity|]. apply (HT (replicate 8 0) (-2)). split; [discriminate|reflexivity].
Defined.

(** On a big-endian machine the other macros keep values in its own order, which is the
    network's. *)
Theorem big_endian_roundtrip T v :
  (4 <= length T)%nat ->
  (exists T', shortstore T v = Ok T' /\ shortget T' = Ok (signed 2 v) /\ ushortget T' = Ok (v mod 2 ^ 16)
     /\ drop 2 T' = drop 2 T)
  /\ exists T', longstore T v = Ok T' /\ longget T' = Ok (signed 4 v) /\ ulongget T' = Ok (v mod 2 ^ 32)
       /\ int4net T' = longget T' /\ drop 4 T' = drop 4 T.
Proof.
  destruct T as [|t0 [|t1 [|t2 [|t3 T]]]]; simpl length; try lia. intros _.
  split; eexists; (split; [reflexivity|]).
  - unfold shortget, ushortget, byte_at, put, signed.
    cbn -[Z.pow Z.add Z.mul Z.modulo Z.sub Z.shiftl Z.shiftr].
    unfold s16, u16, u8, wrap_u32. rewrite !Z.shiftr_div_pow2, !Z.shiftl_mul_pow2 by lia.
    split; [f_equal; lia|]. split; [f_equal; lia|done].
  - unfold longget, ulongget, int4net, four_bytes, byte_at, be_value, wrap_int.
    cbn -[Z.pow Z.add Z.mul Z.modulo Z.sub Z.shiftl Z.shiftr Z.lor]. unfold u8, signed.
    rewrite !Z.shiftr_div_pow2 by lia. split; [f_equal; lia|]. split; [f_equal; lia|]. split; [|done].
    do 2 f_equal. unfold wrap_u32.
    rewrite !(Z.mod_small (Z.shiftl _ _)) by (rewrite Z.shiftl_mul_pow2 by lia; lia).
    rewrite (Z.lor_comm _ (Z.shiftl ((v / 2 ^ 24) mod 2 ^ 8) 24)), (Z.lor_comm _ (Z.shiftl _ 16)),
      (Z.lor_comm _ (Z.shiftl _ 8)).
    rewrite (lor_shiftl _ _ 8), (lor_shiftl _ _ 16), (lor_shiftl _ _ 24) by lia. lia.
Qed.

Lemma big_endian_roundtrip_witness :
  exists T', longstore [9; 9; 9; 9; 9] (-2) = Ok T' /\ int4net T' = Ok (-2) /\ ulongget T' = Ok 4294967294.
Proof.
  destruct (big_endian_roundtrip [9; 9; 9; 9; 9] (-2)) as (_ & T' & H1 & H2 & H3 & H4 & _).
  - simpl. lia.
  - exists T'. split; [exact H1|]. split; [rewrite H4; exact H2|exact H3].
Defined.

(** A [double] of a big-endian machine, or of one that keeps its halves in the other order, is
    stored low byte first and comes back. *)
Theorem double_roundtrip V T :
  length V = 8%nat -> Forall is_byte V -> (8 <= length T)%nat ->
  (exists T', float8store T V = Ok T' /\ float8get T' = Ok V /\ T' = rev V ++ drop 8 T)
  /\ exists T', doublestore T V = Ok T' /\ doubleget T' = Ok V
       /\ T' = drop 4 V ++ take 4 V ++ drop 8 T.
Proof.
  intros HV HB HT.
  destruct V as [|v0 [|v1 [|v2 [|v3 [|v4 [|v5 [|v6 [|v7 [|v8 V]]]]]]]]]; try done.
  destruct T as [|t0 [|t1 [|t2 [|t3 [|t4 [|t5 [|t6 [|t7 T]]]]]]]]; simpl in HT; try lia.
  rewrite !Forall_cons in HB. destruct HB as (H0 & H1 & H2 & H3 & H4 & H5 & H6 & H7 & _).
  unfold is_byte in *.
  assert (E : forall b, 0 <= b < 256 -> u8 b = b) by (intros b Hb; by apply Z.mod_small).
  split; eexists; (split; [reflexivity|]); cbn; rewrite !E by (rewrite ?E; done); done.
Qed.

Lemma double_roundtrip_witness :
  exists T', float8store (replicate 8 0) [64; 9; 33; 251; 84; 68; 45; 24] = Ok T'
    /\ float8get T' = Ok [64; 9; 33; 251; 84; 68; 45; 24] /\ take 2 T' = [24; 45].
Proof.
  destruct (double_roundtrip [64; 9; 33; 251; 84; 68; 45; 24] (replicate 8 0)) as [(T' & H1 & H2 & H3) _].
  - reflexivity.
  - by_decide.
  - simpl. lia.
  - exists T'. split; [exact H1|]. split; [exact H2|]. rewrite H3. reflexivity.
Defined.

(** [MY_ALIGN] rounds up to a multiple of a power of two; a sum past the end of [size_t] wraps
    to 0. *)
Theorem MY_ALIGN_rounds_up A k :
  0 <= k < 64 -> 0 <= A < 2 ^ 64 ->
  if A + 2 ^ k - 1 <? 2 ^ 64
  then exists m, MY_ALIGN A (2 ^ k) = m * 2 ^ k /\ A <= m * 2 ^ k < A + 2 ^ k
  else MY_ALIGN A (2 ^ k) = 0.
Proof.
  intros Hk HA. assert (Hp : 0 < 2 ^ k < 2 ^ 64).
  { split; [lia|]. apply Z.pow_lt_mono_r; lia. }
  assert (E : MY_ALIGN A (2 ^ k) = wrap_u64 (A + 2 ^ k - 1) / 2 ^ k * 2 ^ k).
  { unfold MY_ALIGN, wrap_u64. rewrite (Z.mod_small (2 ^ k - 1)) by lia.
    replace ((A + 2 ^ k) mod 2 ^ 64 - 1) with ((A + 2 ^ k) mod 2 ^ 64 + (-1)) by lia.
    rewrite Z.add_mod_idemp_l by lia. replace (A + 2 ^ k + -1) with (A + 2 ^ k - 1) by lia.
    rewrite <- (Z.land_ones (Z.lnot _)) by lia.
    rewrite (Z.land_comm (Z.lnot _)), Z.land_assoc, (Z.land_ones _ 64), Z.mod_mod by lia.
    replace (2 ^ k - 1) with (Z.ones k) by (rewrite Z.ones_equiv; lia).
    rewrite <- Z.ldiff_land, Z.ldiff_ones_r, Z.shiftr_div_pow2, Z.shiftl_mul_pow2 by lia. done. }
  rewrite E. unfold wrap_u64. destruct (Z.ltb_spec (A + 2 ^ k - 1) (2 ^ 64)) as [Hlt|Hge].
  - rewrite Z.mod_small by lia. eexists. split; [done|].
    pose proof (Z.div_mod (A + 2 ^ k - 1) (2 ^ k)). pose proof (Z.mod_pos_bound (A + 2 ^ k - 1) (2 ^ k)). lia.
  - rewrite Z.div_small; [done|].
    replace (A + 2 ^ k - 1) with (A + 2 ^ k - 1 - 2 ^ 64 + 1 * 2 ^ 64) by lia.
    rewrite Z.mod_add, Z.mod_small by lia. lia.
Qed.

Lemma MY_ALIGN_rounds_up_witness :
  MY_ALIGN 37 (2 ^ 3) = 40 /\ MY_ALIGN (2 ^ 64 - 1) (2 ^ 3) = 0
  /\ exists m, MY_ALIGN 37 (2 ^ 3) = m * 2 ^ 3 /\ 37 <= m * 2 ^ 3 < 37 + 2 ^ 3.
Proof.
  split; [vm_compute; reflexivity|]. split; [vm_compute; reflexivity|].
  apply (MY_ALIGN_rounds_up 37 3); split; (discriminate || reflexivity).
Defined.

Lemma rem_even i : (Z.rem i 2 =? 0) = Z.even i.
Proof.
  rewrite Zeven_mod. destruct (Z.eqb_spec (Z.rem i 2) 0) as [E|E], (Z.eqb_spec (i mod 2) 0) as [E'|E'];
    try done; exfalso; Z.to_euclidean_division_equations; lia.
Qed.

Lemma rint_tie den f i b :
  0 < den -> 0 <= f < den -> 0 <= i < 2 ^ 53 ->
  b = (den <? 2 * f) || (2 * f =? den) && (i <=? MAX_EXACT_INTEGER) && negb (Z.rem i 2 =? 0) ->
  let r := i + Z.b2z b in
  2 * Z.abs (i * den + f - r * den) <= den
  /\ (2 * Z.abs (i * den + f - r * den) = den -> Z.even r = true).
Proof.
  intros Hd Hf Hi -> r.
  assert (E : (i <=? MAX_EXACT_INTEGER) = true) by (apply Z.leb_le; change MAX_EXACT_INTEGER with (2 ^ 53 - 1); lia).
  unfold r. rewrite E, rem_even. destruct (Z.ltb_spec den (2 * f)), (Z.eqb_spec (2 * f) den);
    cbn [orb andb Z.b2z]; try lia.
  destruct (Z.even i) eqn:Ev; cbn [negb Z.b2z]; [rewrite Z.add_0_r|rewrite Z.add_1_r, Z.even_succ];
    (split; [nia|]); intros _; [done|]. by rewrite <- Z.negb_even, Ev.
Qed.

Lemma rint_neg m e : 0 < m -> rint (mkDouble (- m) e) = - rint (mkDouble m e).
Proof.
  intros Hm. unfold rint, modf. cbn [mant expo].
  rewrite (proj2 (Z.ltb_lt 0 m)), (proj2 (Z.ltb_ge 0 (- m))) by lia.
  destruct (Z.leb_spec 0 e); [by rewrite Z.mul_0_r, Z.mul_opp_l, Z.sub_0_r, Z.add_0_r|].
  assert (Hden : 0 < 2 ^ (- e)) by (apply Z.pow_pos_nonneg; lia).
  set (den := 2 ^ (- e)). rewrite Z.quot_opp_l, Z.rem_opp_l by lia.
  set (i := Z.quot m den). set (f := Z.rem m den).
  replace (2 * - f <? - den) with (den <? 2 * f) by lia.
  replace (2 * - f =? - den) with (2 * f =? den) by lia.
  replace (- MAX_EXACT_INTEGER <=? - i) with (i <=? MAX_EXACT_INTEGER) by lia.
  rewrite Z.rem_opp_l by done. replace (- Z.rem i 2 =? 0) with (Z.rem i 2 =? 0) by lia. lia.
Qed.

(** What it is to round [n / d]. *)
Definition rounds (n d r : Z) : Prop :=
  2 * Z.abs (n - r * d) <= d /\ (2 * Z.abs (n - r * d) = d -> Z.even r = true).

Lemma rounds_opp n d r : rounds n d r -> rounds (- n) d (- r).
Proof.
  unfold rounds. replace (- n - - r * d) with (- (n - r * d)) by lia.
  by rewrite Z.abs_opp, Z.even_opp.
Qed.

Definition representable (r : Z) : Prop :=
  exists m e, - 2 ^ 53 < m < 2 ^ 53 /\ 0 <= e /\ r = m * 2 ^ e.

Lemma representable_opp r : representable r -> representable (- r).
Proof. intros (m & e & Hm & He & ->). exists (- m), e. split_and!; lia. Qed.

Lemma rint_pos m e :
  0 < m < 2 ^ 53 ->
  rounds (m * 2 ^ Z.max 0 e) (2 ^ Z.max 0 (- e)) (rint (mkDouble m e)) /\ representable (rint (mkDouble m e)).
Proof.
  intros Hm. unfold rint, modf. cbn [mant expo]. rewrite (proj2 (Z.ltb_lt 0 m)) by lia.
  destruct (Z.leb_spec 0 e) as [He|He].
  - rewrite (Z.max_r 0 e), (Z.max_l 0 (- e)), Z.pow_0_r by lia. cbn -[Z.pow Z.mul Z.add Z.abs].
    rewrite Z.add_0_r. split; [|exists m, e; lia]. unfold rounds. split; [lia|]. lia.
  - rewrite (Z.max_l 0 e), (Z.max_r 0 (- e)), Z.pow_0_r, Z.mul_1_r by lia.
    assert (Hd : 2 <= 2 ^ (- e)).
    { replace (- e) with (1 + (- e - 1)) by lia. rewrite Z.pow_add_r by lia.
      pose proof (Z.pow_pos_nonneg 2 (- e - 1)). lia. }
    set (den := 2 ^ (- e)) in *.
    pose proof (Z.quot_rem' m den) as Hq. pose proof (Z.rem_bound_pos m den ltac:(lia) ltac:(lia)) as Hf.
    assert (Hi : 0 <= Z.quot m den <= m / 2).
    { split; [apply Z.quot_pos; lia|]. rewrite Z.quot_div_nonneg by lia. apply Z.div_le_compat_l; lia. }
    set (i := Z.quot m den) in *. set (f := Z.rem m den) in *. cbv zeta. set (b := orb _ _).
    destruct (rint_tie den f i b ltac:(lia) Hf ltac:(lia) eq_refl) as [H1 H2].
    split; [unfold rounds; by rewrite Hq, (Z.mul_comm den)|].
    exists (i + Z.b2z b), 0. rewrite Z.pow_0_r. destruct b; cbn [Z.b2z]; lia.
Qed.

(** [rint] rounds to the nearest integer, ties to the even one, as its comment says: the
    result differs from [n / d], the exact value of the argument, by at most a half, is even
    when it differs by a half, and is itself a [double]. *)
Theorem rint_nearest_even x :
  - 2 ^ 53 < mant x < 2 ^ 53 ->
  let n := mant x * 2 ^ Z.max 0 (expo x) in
  let d := 2 ^ Z.max 0 (- expo x) in
  rounds n d (rint x) /\ representable (rint x).
Proof.
  intros Hm n d. destruct x as [m e]. cbn [mant expo] in *.
  destruct (Z.lt_trichotomy m 0) as [Hn|[->|Hp]].
  - assert (Hk : exists k, m = - k) by (exists (- m); lia). destruct Hk as [k ->]. unfold n, d.
    destruct (rint_pos k e) as [H1 H2]; [lia|]. rewrite rint_neg by lia. split.
    + rewrite Z.mul_opp_l. by apply rounds_opp.
    + by apply representable_opp.
  - assert (E : rint (mkDouble 0 e) = 0).
    { unfold rint, modf. cbn [mant expo]. destruct (Z.leb_spec 0 e); [done|].
      assert (Hd : 0 < 2 ^ (- e)) by (apply Z.pow_pos_nonneg; lia).
      rewrite Z.quot_0_l, Z.rem_0_l by lia. change (0 <? 0) with false. cbv iota.
      replace (2 * 0 <? - 2 ^ (- e)) with false by lia.
      change (negb (Z.rem 0 2 =? 0)) with false. by rewrite andb_false_r. }
    rewrite E. split; [|exists 0, 0; lia]. unfold rounds, n, d. rewrite !Z.mul_0_l.
    assert (0 < 2 ^ Z.max 0 (- e)) by (apply Z.pow_pos_nonneg; lia). simpl. split; [lia|done].
  - unfold n, d. apply rint_pos. lia.
Qed.

(** 2.5, 3.5 and -0.75. *)
Lemma rint_nearest_even_witness :
  rint (mkDouble 5 (-1)) = 2 /\ rint (mkDouble 7 (-1)) = 4 /\ rint (mkDouble (-3) (-2)) = -1
  /\ rounds 7 2 (rint (mkDouble 7 (-1))).
Proof.
  split; [reflexivity|]. split; [reflexivity|]. split; [reflexivity|].
  apply (rint_nearest_even (mkDouble 7 (-1))). split; reflexivity.
Defined.
