(* ===== verification/Resources.v ===== *)
(** * Resources: the small owners of the client library
    ([libhsclient/auto_addrinfo.hpp], [auto_file.hpp], [mutex.hpp], [fatal.cpp], [hslongrun.cpp])

    [auto_addrinfo] owns a list of [getaddrinfo], [auto_dir] an open directory, and
    [auto_mysql], [auto_mysql_res] and [auto_mysql_stmt] objects of the MySQL client; each
    holds a pointer, 0 for none.  [mutex] aborts when a call of pthreads fails. *)
From stdpp Require Import gmap.
From S2P Require Import Prelude.
#[local] Open Scope Z_scope.

(** ** Owners of one pointer *)
(** The release of a resource ([freeaddrinfo], [closedir], [mysql_close], ...); releasing twice
    is an error. *)
Class Releases (W : Type) := {
  release : Z -> W -> outcome W;
  (** What is allocated. *)
  allocated : W -> gset Z;
  release_law : forall p w, p ∈ allocated w ->
    exists w', release p w = Ok w' /\ allocated w' = allocated w ∖ {[p]}
}.

(** [getaddrinfo]: its result and the list it stores. *)
Class Resolver (W : Type) `{Releases W} := {
  getaddrinfo : option (list Z) -> option (list Z) -> Z * Z * Z * Z -> W -> W * (Z * Z);
  getaddrinfo_law : forall node service hints w w' rc p,
    getaddrinfo node service hints w = (w', (rc, p)) ->
    if rc =? 0 then p <> 0 /\ (p ∉ allocated w) /\ allocated w' = {[p]} ∪ allocated w
    else allocated w' = allocated w
}.

(** [mysql_init], [mysql_store_result] and [mysql_stmt_init]: a new object, or 0. *)
Class Acquires (W : Type) `{Releases W} := {
  acquire : W -> W * Z;
  acquire_law : forall w w' p, acquire w = (w', p) ->
    if p =? 0 then allocated w' = allocated w
    else (p ∉ allocated w) /\ allocated w' = {[p]} ∪ allocated w
}.

Section Owner.
Context {W : Type} `{Releases W}.

(** [auto_addrinfo::reset] and [auto_dir::reset]: the old pointer is [addr]. *)
Definition addrinfo_reset (a : Z) (addr : Z) (w : W) : outcome (W * Z) :=
  w ← (if negb (addr =? 0) then release addr w else Ok w);
  Ok (w, a).

Definition auto_dir_reset (d : Z) (dp : Z) (w : W) : outcome (W * Z) :=
  w ← (if negb (dp =? 0) then release dp w else Ok w);
  Ok (w, d).

(** The destructors. *)
Definition addrinfo_destroy (addr : Z) (w : W) : outcome W :=
  '(w, _) ← addrinfo_reset 0 addr w; Ok w.

(** [resolve]: flags, family, socket type and protocol of the hints; a failed call leaves
    the pointer. *)
Definition resolve `{Resolver W} (node service : option (list Z)) (hints : Z * Z * Z * Z)
    (addr : Z) (w : W) : outcome (W * Z * Z) :=
  '(w, addr) ← addrinfo_reset 0 addr w;
  let '(w, (rc, p)) := getaddrinfo node service hints w in
  Ok (w, if rc =? 0 then p else addr, rc).

(** The destructors of the three owners of MySQL objects. *)
Definition auto_mysql_destroy (db : Z) (w : W) : outcome W :=
  if negb (db =? 0) then release db w else Ok w.

(** [auto_mysql::reset], also its constructor with 0; [fatal_exit] is a fault. *)
Definition auto_mysql_reset `{Acquires W} (db : Z) (w : W) : outcome (W * Z) :=
  w ← (if negb (db =? 0) then release db w else Ok w);
  let '(w, db) := acquire w in
  if db =? 0 then Fault FatalAbort else Ok (w, db).

(** [auto_mysql_res] and [auto_mysql_stmt] around what is done with the object. *)
Definition with_object `{Acquires W} (body : Z -> W -> outcome W) (w : W) : outcome W :=
  let '(w, p) := acquire w in
  w ← body p w;
  if negb (p =? 0) then release p w else Ok w.
End Owner.

Fixpoint auto_mysql_resets {W} `{Acquires W} (n : nat) (db : Z) (w : W) : outcome (W * Z) :=
  match n with
  | O => Ok (w, db)
  | S n => '(w, db) ← auto_mysql_reset db w; auto_mysql_resets n db w
  end.

(** The calls a user makes before the destructor. *)
Inductive addrinfo_op :=
| AddrReset
| AddrResolve (node service : option (list Z)) (hints : Z * Z * Z * Z).

Fixpoint addrinfo_run {W} `{Resolver W} (ops : list addrinfo_op) (addr : Z) (w : W)
    : outcome (W * Z) :=
  match ops with
  | [] => Ok (w, addr)
  | AddrReset :: ops' => '(w, addr) ← addrinfo_reset 0 addr w; addrinfo_run ops' addr w
  | AddrResolve node service hints :: ops' =>
      '(w, addr, _) ← resolve node service hints addr w; addrinfo_run ops' addr w
  end.

(** ** [mutex] *)
(** The results of the pthread calls. *)
Class Pthreads (W : Type) := {
  pthread_mutex_init : W -> W * Z;
  pthread_mutex_destroy : W -> W * Z;
  pthread_mutex_lock : W -> W * Z;
  pthread_mutex_unlock : W -> W * Z
}.

(** [if (call != 0) { fatal_abort(...); }]. *)
Definition or_abort {W} (r : W * Z) : outcome W :=
  let '(w, rc) := r in if negb (rc =? 0) then Fault FatalAbort else Ok w.

Section Mutex.
Context {W : Type} `{Pthreads W}.
Definition mutex_new (w : W) : outcome W := or_abort (pthread_mutex_init w).
Definition mutex_destroy (w : W) : outcome W := or_abort (pthread_mutex_destroy w).
Definition mutex_lock (w : W) : outcome W := or_abort (pthread_mutex_lock w).
Definition mutex_unlock (w : W) : outcome W := or_abort (pthread_mutex_unlock w).

(** [lock_guard] of [hslongrun.cpp] around [body]. *)
Definition with_lock_guard (body : W -> outcome W) (w : W) : outcome W :=
  w ← mutex_lock w; w ← body w; mutex_unlock w.
End Mutex.

(** ** [fatal.cpp] *)
(** How a process ends: [_exit] with a status or [abort]. *)
Inductive process_end := ExitStatus (status : Z) | Aborts.

(** A [%s] of [message.c_str()] ends at the first NUL. *)
Definition c_str_text (message : list Z) : list Z :=
  match memchr NUL message with Some n => take n message | None => message end.

(** The line on stderr (without its newline), the line of the system log, and the end. *)
Definition fatal_exit (message : list Z) : list Z * list Z * process_end :=
  let line := bytes "FATAL_EXIT: " ++ c_str_text message in (line, line, ExitStatus 1).
Definition fatal_abort (message : list Z) : list Z * list Z * process_end :=
  let line := bytes "FATAL_COREDUMP: " ++ c_str_text message in (line, line, Aborts).

(** ** Ownership *)
Section OwnerFacts.
Context {W : Type} `{Resolver W}.

(** [addr] is all that was allocated besides [base]. *)
Definition owns (base : gset Z) (addr : Z) (w : W) : Prop :=
  if decide (addr = 0) then allocated w = base
  else (addr ∉ base) /\ allocated w = {[addr]} ∪ base.

Lemma reset_owns base addr (w : W) :
  owns base addr w -> exists w', addrinfo_reset 0 addr w = Ok (w', 0) /\ allocated w' = base.
Proof.
  unfold owns, addrinfo_reset. destruct (Z.eqb_spec addr 0) as [->|Hne]; cbn [negb].
  - rewrite decide_True by done. intros Ha. exists w. done.
  - rewrite decide_False by done. intros (Hb & Ha).
    destruct (release_law addr w) as (w' & -> & Hw'); [set_solver|].
    exists w'. split; [done|]. rewrite Hw', Ha. set_solver.
Qed.

Lemma resolve_owns base node service hints addr (w : W) :
  owns base addr w ->
  exists w' addr' rc, resolve node service hints addr w = Ok (w', addr', rc) /\ owns base addr' w'.
Proof.
  intros (w1 & Hr & Ha)%reset_owns. unfold resolve. rewrite Hr. cbn [mbind outcome_bind].
  destruct (getaddrinfo node service hints w1) as [w2 [rc p]] eqn:E.
  apply getaddrinfo_law in E. rewrite Ha in E. do 3 eexists. split; [done|]. unfold owns.
  destruct (rc =? 0); [|by rewrite decide_True].
  destruct E as (Hp & Hn & Hal). by rewrite decide_False.
Qed.
End OwnerFacts.

Section MysqlFacts.
Context {W : Type} `{Acquires W}.

Lemma release_owned base db (w : W) :
  owns base db w -> exists w', (if negb (db =? 0) then release db w else Ok w) = Ok w' /\ allocated w' = base.
Proof.
  intros Ho. destruct (reset_owns _ _ _ Ho) as (w' & Hr & Ha). exists w'. split; [|done].
  unfold addrinfo_reset in Hr. destruct (if negb (db =? 0) then _ else _) as [w1|e]; [|done].
  cbn [mbind outcome_bind] in Hr. congruence.
Qed.

Lemma auto_mysql_resets_owns base n db (w w' : W) db' :
  owns base db w -> auto_mysql_resets n db w = Ok (w', db') -> owns base db' w'.
Proof.
  revert db w. induction n as [|n IH]; intros db w Ho; cbn [auto_mysql_resets]; [by intros [= <- <-]|].
  unfold auto_mysql_reset. destruct (release_owned _ _ _ Ho) as (w1 & Hr & Ha). rewrite Hr.
  cbn [mbind outcome_bind]. destruct (acquire w1) as [w2 p] eqn:E. apply acquire_law in E.
  destruct (Z.eqb_spec p 0) as [Hp|Hp]; [done|]. apply IH. unfold owns.
  rewrite decide_False by done. by rewrite Ha in E.
Qed.
End MysqlFacts.

(** The objects of the MySQL client are released exactly once: a connection that is made, reset
    any number of times and destroyed, and a result or statement that is used by code which
    itself allocates nothing for good, leave allocated what was allocated before. *)
Theorem mysql_objects_released {W} `{Acquires W} (w : W) :
  (forall n w1 db, auto_mysql_resets n 0 w = Ok (w1, db) ->
     exists w2, auto_mysql_destroy db w1 = Ok w2 /\ allocated w2 = allocated w)
  /\ forall body,
       (forall p w0 w1, body p w0 = Ok w1 -> allocated w1 = allocated w0) ->
       forall w2, with_object body w = Ok w2 -> allocated w2 = allocated w.
Proof.
  split.
  - intros n w1 db Hr. apply (auto_mysql_resets_owns (allocated w)) in Hr; [|done].
    by apply release_owned in Hr.
  - intros body Hb w2. unfold with_object. destruct (acquire w) as [w1 p] eqn:E.
    apply acquire_law in E. intros (w3 & H3 & H4)%bind_Ok_inv. apply Hb in H3.
    assert (Ho : owns (allocated w) p w3).
    { unfold owns. rewrite H3. destruct (Z.eqb_spec p 0) as [Hp|Hp]; [by rewrite decide_True|by rewrite decide_False]. }
    destruct (release_owned _ _ _ Ho) as (w4 & Hr & Ha). rewrite Hr in H4. congruence.
Qed.

(** An [auto_addrinfo] frees every list it has resolved exactly once. After any resets and
    resolutions, successful or not, its destructor leaves allocated exactly what was allocated
    before it was created, and no list is released that is not allocated. *)
Theorem addrinfo_released {W} `{Resolver W} ops (w : W) :
  exists w1 addr w2, addrinfo_run ops 0 w = Ok (w1, addr)
    /\ addrinfo_destroy addr w1 = Ok w2 /\ allocated w2 = allocated w.
Proof.
  assert (Hrun : forall addr w0, owns (allocated w) addr w0 ->
            exists w1 addr1, addrinfo_run ops addr w0 = Ok (w1, addr1) /\ owns (allocated w) addr1 w1).
  { induction ops as [|[|node service hints] ops IH]; intros addr w0 Ho; cbn [addrinfo_run]; [eauto|..].
    - destruct (reset_owns _ _ _ Ho) as (w1 & -> & Ha). cbn [mbind outcome_bind]. by apply IH.
    - destruct (resolve_owns _ node service hints _ _ Ho) as (w1 & a1 & rc & -> & Ho1).
      cbn [mbind outcome_bind]. by apply IH. }
  destruct (Hrun 0 w eq_refl) as (w1 & addr & Hr & Ho).
  destruct (reset_owns _ _ _ Ho) as (w2 & Hd & Ha). exists w1, addr, w2.
  split; [done|]. split; [|done]. unfold addrinfo_destroy. by rewrite Hd.
Qed.

(** A system in which every second call of [getaddrinfo] fails. *)
Definition sample_releases : Releases (nat * gset Z).
Proof.
  refine {|
    release := fun p w => if decide (p ∈ w.2) then Ok (w.1, w.2 ∖ {[p]}) else Fault NullDeref;
    allocated := snd
  |}.
  intros p w Hp. rewrite decide_True by done. by eexists.
Defined.

Definition fresh_address (s : gset Z) : Z := fresh ({[0]} ∪ s).

Definition sample_resolver : @Resolver (nat * gset Z) sample_releases.
Proof.
  refine (@Build_Resolver (nat * gset Z) sample_releases
    (fun _ _ _ w => if Nat.even w.1
                    then ((S w.1, {[fresh_address w.2]} ∪ w.2), (0, fresh_address w.2))
                    else ((S w.1, w.2), (1, 0))) _).
  intros node service hints [n s] w' rc p. cbn [fst snd]. pose proof (is_fresh ({[0]} ∪ s)) as Hf.
  fold (fresh_address s) in Hf.
  destruct (Nat.even n); intros [= <- <- <-]; cbn [Z.eqb allocated sample_releases snd]; [|done].
  split; [set_solver|]. split; [set_solver|done].
Defined.

Lemma addrinfo_released_witness :
  exists w1 addr w2,
    @addrinfo_run _ sample_releases sample_resolver
      [AddrResolve None None (0, 0, 1, 0); AddrResolve None None (0, 0, 1, 0); AddrReset;
       AddrResolve None None (0, 0, 1, 0)] 0 (0%nat, {[7]}) = Ok (w1, addr)
    /\ @addrinfo_destroy _ sample_releases addr w1 = Ok w2 /\ w2.2 = {[7]}.
Proof.
  destruct (@addrinfo_released _ sample_releases sample_resolver
              [AddrResolve None None (0, 0, 1, 0); AddrResolve None None (0, 0, 1, 0); AddrReset;
               AddrResolve None None (0, 0, 1, 0)] (0%nat, {[7]})) as (w1 & addr & w2 & H1 & H2 & H3).
  exists w1, addr, w2. split; [exact H1|]. split; [exact H2|exact H3].
Defined.

Definition sample_acquires : @Acquires (nat * gset Z) sample_releases.
Proof.
  refine (@Build_Acquires (nat * gset Z) sample_releases
    (fun w => ((w.1, {[fresh_address w.2]} ∪ w.2), fresh_address w.2)) _).
  intros [n s] w' p. cbn [fst snd]. pose proof (is_fresh ({[0]} ∪ s)) as Hf.
  fold (fresh_address s) in Hf. intros [= <- <-].
  destruct (Z.eqb_spec (fresh_address s) 0) as [E|_]; [set_solver|].
  cbn [allocated sample_releases snd]. split; [set_solver|done].
Defined.

Lemma mysql_objects_released_witness :
  exists w1 db w2, @auto_mysql_resets _ sample_releases sample_acquires 2 0 (0%nat, {[7]}) = Ok (w1, db)
    /\ @auto_mysql_destroy _ sample_releases db w1 = Ok w2 /\ @allocated _ sample_releases w2 = {[7]}.
Proof.
  destruct (@mysql_objects_released _ sample_releases sample_acquires (0%nat, {[7]})) as [Hm _].
  destruct (@auto_mysql_resets _ sample_releases sample_acquires 2 0 (0%nat, {[7]})) as [[w1 db]|e] eqn:E.
  - destruct (Hm 2%nat w1 db E) as (w2 & H1 & H2). exists w1, db, w2. split; [reflexivity|]. split; [exact H1|exact H2].
  - exfalso. vm_compute in E. discriminate E.
Defined.
