(* ===== verification/Thread.v ===== *)
(** * Thread: joinable threads ([libhsclient/thread.hpp])

    [thread<T>] wraps a pthread: [start] creates it at most once, [join] waits for it when
    there is one, and the destructor joins.  [thread_base] of [hslongrun.cpp] repeats the
    same operations for a virtual [run].  The pthread library is the class [PThreads]. *)
From S2P Require Import Prelude.
#[local] Open Scope Z_scope.

(** The calls of the pthread library; [false] is a result other than 0, and
    [pthread_create] returns the new thread or fails. *)
Class PThreads (W : Type) := {
  pthread_attr_init : W -> W * bool;
  pthread_attr_setstacksize : Z -> W -> W * bool;
  pthread_create : W -> W * option Z;
  pthread_attr_destroy : W -> W * bool;
  pthread_join : Z -> W -> W * bool
}.

(** What POSIX says of them: [joinable w] are the threads that were created and not yet
    joined.  The attribute calls create no thread, a new thread is none of the joinable
    ones, and a successful join of a joinable thread consumes it.  Nothing is known about a
    join of any other thread, which is undefined. *)
Class PThreadLaws (W : Type) `{PThreads W} := {
  joinable : W -> gset Z;
  joinable_attr_init w : joinable (pthread_attr_init w).1 = joinable w;
  joinable_setstacksize n w : joinable (pthread_attr_setstacksize n w).1 = joinable w;
  joinable_attr_destroy w : joinable (pthread_attr_destroy w).1 = joinable w;
  joinable_create_failed w w' : pthread_create w = (w', None) -> joinable w' = joinable w;
  joinable_create w w' t :
    pthread_create w = (w', Some t) -> (t ∉ joinable w) /\ joinable w' = {[t]} ∪ joinable w;
  joinable_join t w w' :
    t ∈ joinable w -> pthread_join t w = (w', true) -> joinable w' = (joinable w ∖ {[t]})
}.

Record thread := mkThread {
  thr : Z;
  need_join : bool;
  stack_size : Z
}.

(** The constructor; [thr] is 0 as in [thread<T>]. *)
Definition thread_new (stack_sz : Z) : thread := mkThread 0 false stack_sz.

Section Operations.
Context {W : Type} `{PThreads W}.

(** The thread that [start_nothrow] creates, if it does. *)
Definition create_thread (stack_sz : Z) (w : W) : outcome (W * option Z) :=
  let '(w, ok) := pthread_attr_init w in
  _ ← checked FatalAbort ok;
  let '(w, ok) := pthread_attr_setstacksize stack_sz w in
  _ ← checked FatalAbort ok;
  let '(w, r) := pthread_create w in
  let '(w, ok) := pthread_attr_destroy w in
  _ ← checked FatalAbort ok;
  Ok (w, r).

Definition start_nothrow (t : thread) (w : W) : outcome (W * thread * bool) :=
  if need_join t then Ok (w, t, true)
  else
    '(w, r) ← create_thread (stack_size t) w;
    match r with
    | None => Ok (w, t, false)
    | Some id => Ok (w, mkThread id true (stack_size t), true)
    end.

Definition start (t : thread) (w : W) : outcome (W * thread) :=
  '(w, t, started) ← start_nothrow t w;
  _ ← checked FatalAbort started; Ok (w, t).

Definition join (t : thread) (w : W) : outcome (W * thread) :=
  if negb (need_join t) then Ok (w, t)
  else
    let '(w, ok) := pthread_join (thr t) w in
    _ ← checked FatalAbort ok; Ok (w, mkThread (thr t) false (stack_size t)).

(** [~thread]. *)
Definition thread_destroy (t : thread) (w : W) : outcome W :=
  '(w, _) ← join t w; Ok w.

(** [thread_base]: the same code for the workers of [hslongrun.cpp], with its own stack size. *)
Definition thread_base_new : thread := thread_new (256 * 1024).
Definition thread_base_start_nothrow : thread -> W -> outcome (W * thread * bool) := start_nothrow.
Definition thread_base_start : thread -> W -> outcome (W * thread) := start.
Definition thread_base_join : thread -> W -> outcome (W * thread) := join.
Definition thread_base_destroy : thread -> W -> outcome W := thread_destroy.

(** A caller's use of one object. *)
Inductive thread_call := CallStart | CallStartNothrow | CallJoin.

Definition thread_step (c : thread_call) (t : thread) (w : W) : outcome (W * thread) :=
  match c with
  | CallStart => start t w
  | CallStartNothrow => '(w, t, _) ← start_nothrow t w; Ok (w, t)
  | CallJoin => join t w
  end.

Fixpoint thread_life (calls : list thread_call) (t : thread) (w : W) : outcome W :=
  match calls with
  | [] => thread_destroy t w
  | c :: calls => '(w, t) ← thread_step c t w; thread_life calls t w
  end.

(** Several objects in a container, as [hs_longrun_main] starts and joins its workers. *)
Fixpoint start_all (ts : list thread) (w : W) : outcome (W * list thread) :=
  match ts with
  | [] => Ok (w, [])
  | t :: ts => '(w, t) ← start t w; '(w, ts) ← start_all ts w; Ok (w, t :: ts)
  end.

Fixpoint join_all (ts : list thread) (w : W) : outcome (W * list thread) :=
  match ts with
  | [] => Ok (w, [])
  | t :: ts => '(w, t) ← join t w; '(w, ts) ← join_all ts w; Ok (w, t :: ts)
  end.
End Operations.

(** ** Every thread that is created is joined once *)
Section Laws.
Context {W : Type} `{PThreadLaws W}.

(** The thread that an object owns. *)
Definition owned (t : thread) : gset Z := if need_join t then {[thr t]} else ∅.

(** [owns rest t w]: the joinable threads are those of [rest] and the one of [t]. *)
Definition owns (rest : gset Z) (t : thread) (w : W) : Prop :=
  joinable w = owned t ∪ rest /\ owned t ## rest.

Lemma owns_new rest n w : joinable w = rest -> owns rest (thread_new n) w.
Proof. intros <-. unfold owns, owned. simpl. set_solver. Qed.

Lemma create_thread_Ok n w w' r :
  create_thread n w = Ok (w', r) ->
  match r with
  | None => joinable w' = joinable w
  | Some id => (id ∉ joinable w) /\ joinable w' = {[id]} ∪ joinable w
  end.
Proof.
  unfold create_thread. intros E.
  pose proof (joinable_attr_init w) as J1. destruct (pthread_attr_init w) as [w1 ok1]. inv_ok.
  pose proof (joinable_setstacksize n w1) as J2.
  destruct (pthread_attr_setstacksize n w1) as [w2 ok2]. inv_ok.
  destruct (pthread_create w2) as [w3 o] eqn:C.
  pose proof (joinable_attr_destroy w3) as J3. destruct (pthread_attr_destroy w3) as [w4 ok4].
  inv_ok. simpl in *. rewrite <- J1, <- J2, J3.
  destruct r as [id|]; [exact (joinable_create _ _ _ C) | exact (joinable_create_failed _ _ C)].
Qed.

Lemma create_thread_faults n w : faults_only (eq FatalAbort) (create_thread n w).
Proof.
  unfold create_thread.
  repeat first
    [ apply faults_only_Ok
    | apply faults_only_bind; [by apply faults_only_checked | intros ? _]
    | case_match ].
Qed.

Lemma start_nothrow_owns rest t w w' t' b :
  owns rest t w -> start_nothrow t w = Ok (w', t', b) ->
  owns rest t' w' /\ b = need_join t' /\ stack_size t' = stack_size t.
Proof.
  intros [Hj Hd] E. unfold start_nothrow in E. destruct (need_join t) eqn:N.
  { injection E as <- <- <-. by rewrite N. }
  inv_ok. destruct r as [w1 o]. apply create_thread_Ok in Hr.
  unfold owns, owned in *. rewrite N in *. destruct o as [id|]; inv_ok; simpl.
  - destruct Hr as [Hn ->]. rewrite Hj in *. set_solver.
  - rewrite Hr, N. done.
Qed.

Lemma start_owns rest t w w' t' :
  owns rest t w -> start t w = Ok (w', t') -> owns rest t' w' /\ need_join t' = true.
Proof.
  intros O E. unfold start in E. inv_ok. destruct r as [[w1 t1] b]. inv_ok.
  destruct (start_nothrow_owns _ _ _ _ _ _ O Hr) as (O' & E & _). done.
Qed.

Lemma join_owns rest t w w' t' :
  owns rest t w -> join t w = Ok (w', t') -> owns rest t' w' /\ need_join t' = false.
Proof.
  intros O E. unfold join in E. destruct (need_join t) eqn:N; simpl in E.
  2: { injection E as <- <-. done. }
  destruct O as [Hj Hd]. destruct (pthread_join (thr t) w) as [w1 ok] eqn:J. inv_ok.
  unfold owns, owned in *. rewrite N in *. simpl. split; [|done].
  rewrite (joinable_join (thr t) w w') by (done || set_solver). set_solver.
Qed.

Lemma step_owns rest c t w w' t' :
  owns rest t w -> thread_step c t w = Ok (w', t') -> owns rest t' w'.
Proof.
  intros O E. destruct c; simpl in E.
  - by apply (start_owns rest t w).
  - inv_ok. destruct r as [[w1 t1] b]. inv_ok. by apply (start_nothrow_owns rest t w _ _ b).
  - by apply (join_owns rest t w).
Qed.

Lemma join_faults t w : faults_only (eq FatalAbort) (join t w).
Proof.
  unfold join. intros f. destruct (need_join t); simpl; [|done].
  destruct (pthread_join _ _) as [? []]; simpl; congruence.
Qed.

Lemma start_nothrow_faults t w : faults_only (eq FatalAbort) (start_nothrow t w).
Proof.
  unfold start_nothrow. destruct (need_join t); [apply faults_only_Ok|].
  apply faults_only_bind; [apply create_thread_faults|].
  intros [w1 []] _; apply faults_only_Ok.
Qed.

Lemma step_faults c t w : faults_only (eq FatalAbort) (thread_step c t w).
Proof.
  destruct c; simpl; [unfold start| |apply join_faults];
    (apply faults_only_bind; [apply start_nothrow_faults|]); intros [[w1 t1] []] _; simpl;
    try apply faults_only_Ok; by intros f [= <-].
Qed.

Lemma life_returns calls rest t w :
  owns rest t w ->
  returns (eq FatalAbort) (fun w' => joinable w' = rest) (thread_life calls t w).
Proof.
  revert t w. induction calls as [|c calls IH]; intros t w O; simpl.
  - unfold thread_destroy. destruct (join t w) as [[w' t']|f] eqn:E; simpl.
    + destruct (join_owns _ _ _ _ _ O E) as [[J _] N]. unfold owned in J. rewrite N in J.
      set_solver.
    + by apply (join_faults t w).
  - destruct (thread_step c t w) as [[w' t']|f] eqn:E; simpl.
    + apply IH. by apply (step_owns rest c t w).
    + by apply (step_faults c t w).
Qed.
End Laws.

(** ** Several objects *)
Section Containers.
Context {W : Type} `{PThreadLaws W}.

Fixpoint owned_all (ts : list thread) : gset Z :=
  match ts with [] => ∅ | t :: ts => owned t ∪ owned_all ts end.

Fixpoint apart (rest : gset Z) (ts : list thread) : Prop :=
  match ts with
  | [] => True
  | t :: ts => (owned t ## owned_all ts ∪ rest) /\ apart rest ts
  end.

(** The objects own different threads, and the other joinable ones are [rest]. *)
Definition all_own (rest : gset Z) (ts : list thread) (w : W) : Prop :=
  joinable w = owned_all ts ∪ rest /\ apart rest ts.

Lemma apart_disjoint rest ts : apart rest ts -> owned_all ts ## rest.
Proof. induction ts as [|t ts IH]; simpl; [set_solver|]. intros [? ?%IH]. set_solver. Qed.

Lemma apart_mono r1 r2 ts : r1 ⊆ r2 -> apart r2 ts -> apart r1 ts.
Proof.
  intros Hr. induction ts as [|t ts IH]; simpl; [done|]. intros [? ?].
  split; [set_solver|auto].
Qed.

Definition idle (t : thread) : Prop := need_join t = false.

Lemma start_all_owns ts rest w w' ts' :
  Forall idle ts -> joinable w = rest -> start_all ts w = Ok (w', ts') ->
  all_own rest ts' w' /\ Forall (fun t => need_join t = true) ts' /\ length ts' = length ts.
Proof.
  intros F. revert rest w w' ts'. induction F as [|t ts N F IH]; intros rest w w' ts' Hj E;
    simpl in E.
  - injection E as <- <-. unfold all_own. simpl. split; [set_solver|done].
  - inv_ok. destruct r as [w1 t1]. inv_ok. destruct r as [w2 ts2]. inv_ok.
    destruct (start_owns (joinable w) t w w1 t1) as [[Hj1 Hd] N1]; [|done|].
    { unfold owns, owned. rewrite N. set_solver. }
    destruct (IH _ _ _ _ Hj1 Hr0) as ([Hj2 A] & F' & L).
    pose proof (apart_disjoint _ _ A). simpl. split_and!; [|by constructor|lia].
    split; simpl; [set_solver|]. split; [set_solver|]. eapply apart_mono; [|done]. set_solver.
Qed.

Lemma join_all_owns ts rest w w' ts' :
  all_own rest ts w -> join_all ts w = Ok (w', ts') ->
  joinable w' = rest /\ Forall idle ts'.
Proof.
  revert w w' ts'. induction ts as [|t ts IH]; intros w w' ts' [Hj A] E; simpl in Hj, A, E.
  - injection E as <- <-. split; [set_solver|done].
  - inv_ok. destruct r as [w1 t1]. inv_ok. destruct r as [w2 ts2]. inv_ok.
    destruct (join_owns (owned_all ts ∪ rest) t w w1 t1) as [[Hj1 _] N]; [|done|].
    { split; [set_solver|apply A]. }
    unfold owned in Hj1. rewrite N in Hj1.
    destruct (IH w1 w' ts2) as [J F]; [split; [set_solver|apply A]|done|].
    split; [done|]. by constructor.
Qed.
End Containers.

(** An object never leaks a thread and never joins one twice. Whatever calls a caller
    makes on a new thread object, in any order and any number of times, followed by the
    destructor: either a call of the library fails and the process aborts, or the joinable
    threads of the process are at the end exactly those that were there before. *)
Theorem thread_joined_once `{PThreadLaws W} calls stack_sz (w : W) :
  returns (eq FatalAbort) (fun w' => joinable w' = joinable w)
    (thread_life calls (thread_new stack_sz) w).
Proof. by apply life_returns, owns_new. Qed.

(** ** A process in which threads can be created while [dm_room] is positive *)
Record demo := mkDemo { dm_room : nat; dm_live : gset Z; dm_joined : nat }.

#[export] Instance demo_eq_dec : EqDecision demo.
Proof. solve_decision. Defined.

#[export] Instance demo_pthreads : PThreads demo := {|
  pthread_attr_init w := (w, true);
  pthread_attr_setstacksize _ w := (w, true);
  pthread_create w :=
    match dm_room w with
    | O => (w, None)
    | S n => let t := fresh (dm_live w) in (mkDemo n ({[t]} ∪ dm_live w) (dm_joined w), Some t)
    end;
  pthread_attr_destroy w := (w, true);
  pthread_join t w :=
    if decide (t ∈ dm_live w)
    then (mkDemo (dm_room w) (dm_live w ∖ {[t]}) (S (dm_joined w)), true)
    else (w, false)
|}.

#[export, refine] Instance demo_laws : PThreadLaws demo := {| joinable := dm_live |}.
Proof.
  - done.
  - done.
  - done.
  - intros w w' E. unfold pthread_create in E. simpl in E.
    destruct (dm_room w); simpl in E; congruence.
  - intros w w' t E. unfold pthread_create in E. simpl in E.
    destruct (dm_room w); simpl in E; [congruence|]. injection E as <- <-. simpl.
    split; [apply is_fresh|done].
  - intros t w w' Hin E. unfold pthread_join in E. simpl in E.
    rewrite decide_True in E by done. injection E as <-. done.
Defined.

(** Started twice, joined twice, started again: two threads were created and joined. *)
Lemma thread_joined_once_witness :
  thread_life [CallStart; CallStart; CallJoin; CallJoin; CallStartNothrow] (thread_new 262144)
    (mkDemo 5 ∅ 0) = Ok (mkDemo 3 ∅ 2)
  /\ returns (eq FatalAbort) (fun w' => joinable w' = ∅)
       (thread_life [CallStart; CallStart; CallJoin; CallJoin; CallStartNothrow]
          (thread_new 262144) (mkDemo 5 ∅ 0)).
Proof.
  split; [by_decide|].
  exact (thread_joined_once [CallStart; CallStart; CallJoin; CallJoin; CallStartNothrow] 262144
           (mkDemo 5 ∅ 0)).
Defined.
