(* ===== verification/Longrun.v ===== *)
(** * Longrun: the verifying load generator ([libhsclient/hslongrun.cpp])

    Threads that insert, delete, update and read the rows of one table over
    HandlerSocket or SQL, each against a shared record of what the row should hold.  A
    record is used under its mutex, so an operation is one step on it.  The loops run
    while [running] is set; the model takes the sequence of iterations of all workers.
    Output to stderr is left out. *)
From Stdlib Require Import Ascii.
From S2P Require Import Prelude Text StringUtil Escape Socket Hstcpcli.
#[local] Open Scope Z_scope.

(** ** Shared data *)
Record record_value := mkRecord {
  deleted : bool;
  unknown_state : bool;
  key : list Z;
  values : list (list Z)
}.

Definition record_value_new : record_value := mkRecord true false [] [].

Definition with_deleted (r : record_value) (b : bool) : record_value :=
  mkRecord b (unknown_state r) (key r) (values r).
Definition with_unknown (r : record_value) (b : bool) : record_value :=
  mkRecord (deleted r) b (key r) (values r).
Definition with_values (r : record_value) (vs : list (list Z)) : record_value :=
  mkRecord (deleted r) (unknown_state r) (key r) vs.

Record hs_longrun_stat := mkStat {
  verify_error_count : Z;
  runtime_error_count : Z;
  unknown_count : Z;
  success_count : Z
}.

Definition stat_new : hs_longrun_stat := mkStat 0 0 0 0.

Definition stat_add (s x : hs_longrun_stat) : hs_longrun_stat :=
  mkStat (wrap_u64 (verify_error_count s + verify_error_count x))
    (wrap_u64 (runtime_error_count s + runtime_error_count x))
    (wrap_u64 (unknown_count s + unknown_count x))
    (wrap_u64 (success_count s + success_count x)).

(** The four [++] on the counters. *)
Definition verify_error (s : hs_longrun_stat) : hs_longrun_stat :=
  mkStat (wrap_u64 (verify_error_count s + 1)) (runtime_error_count s) (unknown_count s)
    (success_count s).
Definition runtime_error (s : hs_longrun_stat) : hs_longrun_stat :=
  mkStat (verify_error_count s) (wrap_u64 (runtime_error_count s + 1)) (unknown_count s)
    (success_count s).
Definition unknown (s : hs_longrun_stat) : hs_longrun_stat :=
  mkStat (verify_error_count s) (runtime_error_count s) (wrap_u64 (unknown_count s + 1))
    (success_count s).
Definition success (s : hs_longrun_stat) : hs_longrun_stat :=
  mkStat (verify_error_count s) (runtime_error_count s) (unknown_count s)
    (wrap_u64 (success_count s + 1)).

(** ** Verification of an answer *)

(** An operation that should succeed exactly on a row that is there ([delete],
    [update]): the returned code and the counters. *)
Definition check_present (rec : record_value) (op_success : bool) (s : hs_longrun_stat)
    : Z * hs_longrun_stat :=
  if negb (unknown_state rec) then
    if negb (deleted rec) && negb op_success then (1, verify_error s)
    else if deleted rec && op_success then (1, verify_error s) else (0, s)
  else (0, s).

Definition count_success (ret : Z) (rec : record_value) (s : hs_longrun_stat) : hs_longrun_stat :=
  if (ret =? 0) && negb (unknown_state rec) then success s else s.

Definition verify_update (k v1 v2 v3 : list Z) (rec : record_value) (num_rows : Z)
    (cur_unknown_state : bool) (s : hs_longrun_stat) : Z * record_value * hs_longrun_stat :=
  let op_success := num_rows =? 1 in
  let '(ret, s) := check_present rec op_success s in
  let '(rec, s) := if op_success
                   then (with_values rec [k; v1; v2; v3], count_success ret rec s)
                   else (rec, s) in
  (ret, with_unknown rec cur_unknown_state, s).

(** The comparison of the four values; [rec.values] is indexed without a check. *)
Fixpoint values_differ (n i : nat) (rrec : list (list Z)) (vs : list (list Z)) (diff : bool)
    : outcome bool :=
  match n with
  | O => Ok diff
  | S n' =>
      expected ← array_get vs (Z.of_nat i);
      val ← array_get rrec (Z.of_nat i);
      values_differ n' (S i) rrec vs (if bool_decide (expected = val) then diff else true)
  end.

Definition verify_read (num_rows num_flds : Z) (rrec : list (list Z)) (rec : record_value)
    (s : hs_longrun_stat) : outcome (Z * hs_longrun_stat) :=
  let op_success := negb (num_rows =? 0) in
  '(ret, s) ←
    (if negb (unknown_state rec) then
       if negb (deleted rec) && negb op_success then Ok (1, verify_error s)
       else if deleted rec && op_success then Ok (1, verify_error s)
       else if negb (num_flds =? 4) then Ok (1, verify_error s)
       else if deleted rec then Ok (0, s)
       else
         diff ← values_differ 4 0 rrec (values rec) false;
         Ok (if diff : bool then 1 else 0, s)
     else Ok (0, s));
  Ok (ret, count_success ret rec s).

Definition verify_readnolock (num_rows num_flds : Z) (s : hs_longrun_stat) : Z * hs_longrun_stat :=
  if negb (num_rows =? 1) || negb (num_flds =? 4) then (1, verify_error s) else (0, success s).

(** ** A HandlerSocket worker *)

(** The values a worker writes: a tag, the key and the id of the worker. *)
Definition op_value (tag : string) (k : list Z) (id : Z) : list Z :=
  bytes tag ++ k ++ bytes "_" ++ to_stdstring id.

(** [check_hs_error(mess, 0)]: whether the client is in error. *)
Definition check_hs_error (c : hstcpcli) (s : hs_longrun_stat) : bool * hs_longrun_stat :=
  if get_error_code c =? 0 then (false, s) else (true, runtime_error s).

(** [check_hs_error(mess, &rec)]: an error leaves the record in an unknown state. *)
Definition check_hs_error_on (c : hstcpcli) (rec : record_value) (s : hs_longrun_stat)
    : bool * record_value * hs_longrun_stat :=
  let '(failed, s) := check_hs_error c s in
  (failed, if failed then with_unknown rec true else rec, s).

(** [to_string] of a field. *)
Definition to_string (s : string_ref) : list Z := default [] s.

(** The first field of a row; a row is never empty when [num_flds] is positive. *)
Definition first_field (c : hstcpcli) (row : list field_ref) : outcome string_ref :=
  r ← of_option OutOfBounds (head row); Ok (field_bytes c r).

(** [drand48_r] on the generator of a thread: [size_t(v * sz)] for the next [v]. *)
Class Random (W : Type) := { draw : Z -> W -> W * Z }.

Record hs_worker := mkWorker {
  hw_id : Z;
  hw_op : ascii;
  hw_lock_flag : bool;
  hw_stat : hs_longrun_stat;
  hw_cli : option hstcpcli;
  hw_sockargs : socket_args
}.

Definition with_cli (t : hs_worker) (c : option hstcpcli) (s : hs_longrun_stat) : hs_worker :=
  mkWorker (hw_id t) (hw_op t) (hw_lock_flag t) s c (hw_sockargs t).

Section Worker.
Context {W : Type} `{Net W} `{Random W}.
Variable recv_fuel : nat.
Variable verbose : Z.

(** The common start of the operations: buffer a request and send it. *)
Definition send_generic (op : list Z) (args : list string_ref) (limit : Z) (mod_op : string_ref)
    (mod_args : list string_ref) (c : hstcpcli) (w : W) : W * hstcpcli :=
  let '(w, c) := request_buf_exec_generic 0 (Some op) args limit 0 mod_op mod_args [] (-1) [] c w in
  let '(w, c, _) := request_send c w in (w, c).

(** The result of an operation: world, client, record, counters and returned code. *)
Definition op_result : Type := W * hstcpcli * record_value * hs_longrun_stat * Z.

Definition op_insert (id : Z) (rec : record_value) (s : hs_longrun_stat) (c : hstcpcli) (w : W)
    : outcome op_result :=
  let k := key rec in
  let v1 := op_value "iv1_" k id in
  let v2 := op_value "iv2_" k id in
  let v3 := op_value "iv3_" k id in
  let '(w, c) := send_generic (bytes "+") [Some k; Some v1; Some v2; Some v3] 1 None [] c w in
  let '(failed, rec, s) := check_hs_error_on c rec s in
  if failed then Ok (w, c, rec, s, 1)
  else
    '(w, c, _, _) ← response_recv recv_fuel 0 c w;
    c ← (if 10 <? verbose
         then
           '(c, row) ← get_next_row c;
           match row with Some row => _ ← first_field c row; Ok c | None => Ok c end
         else Ok c);
    let op_success := get_error_code c =? 0 in
    let '(ret, s) :=
      if negb (unknown_state rec) then
        if deleted rec && negb op_success then (1, verify_error s)
        else if negb (deleted rec) && op_success then (1, verify_error s) else (0, s)
      else (0, unknown s) in
    let '(rec, s) :=
      if op_success
      then (mkRecord false false k [k; v1; v2; v3], count_success ret rec s)
      else (rec, s) in
    let '(w, c) := response_buf_remove c w in
    Ok (w, c, rec, s, ret).

Definition op_delete (id : Z) (rec : record_value) (s : hs_longrun_stat) (c : hstcpcli) (w : W)
    : outcome op_result :=
  let k := key rec in
  let '(w, c) := send_generic (bytes "=") [Some k] 1 (Some (bytes "D")) [] c w in
  let '(failed, rec, s) := check_hs_error_on c rec s in
  if failed then Ok (w, c, rec, s, 1)
  else
    '(w, c, numflds, _) ← response_recv recv_fuel 0 c w;
    let '(failed, rec, s) := check_hs_error_on c rec s in
    if failed then Ok (w, c, rec, s, 1)
    else
      '(c, row) ← get_next_row c;
      op_success ← (match row with
                    | Some row =>
                        if 0 <? numflds
                        then (v ← first_field c row; Ok (bool_decide (to_string v = bytes "1")))
                        else Ok false
                    | None => Ok false
                    end);
      let '(ret, s) := check_present rec op_success s in
      let '(w, c) := response_buf_remove c w in
      let '(rec, s) :=
        if op_success : bool
        then (with_unknown (with_deleted rec true) false, count_success ret rec s)
        else (rec, s) in
      Ok (w, c, rec, s, ret).

Definition op_update (id : Z) (rec : record_value) (s : hs_longrun_stat) (c : hstcpcli) (w : W)
    : outcome op_result :=
  let k := key rec in
  let v1 := op_value "uv1_" k id in
  let v2 := op_value "uv2_" k id in
  let v3 := op_value "uv3_" k id in
  let '(w, c) := send_generic (bytes "=") [Some k] 1 (Some (bytes "U"))
                   [Some k; Some v1; Some v2; Some v3] c w in
  let '(failed, rec, s) := check_hs_error_on c rec s in
  if failed then Ok (w, c, rec, s, 1)
  else
    '(w, c, _, _) ← response_recv recv_fuel 0 c w;
    let '(failed, rec, s) := check_hs_error_on c rec s in
    if failed then Ok (w, c, rec, s, 1)
    else
      '(c, row) ← get_next_row c;
      num_rows ← (match row with
                  | Some row => v ← first_field c row; Ok (atoi_uint32_nocheck (to_string v))
                  | None => Ok 0
                  end);
      let '(w, c) := response_buf_remove c w in
      let '(ret, rec, s) := verify_update k v1 v2 v3 rec num_rows (num_rows =? 1) s in
      Ok (w, c, rec, s, ret).

(** [for (int i = 0; i < 4; ++i) { rrec[i] = to_string(row[i]); }]. *)
Definition read_record {A} (field : A -> string_ref) (row : list A) : outcome (list (list Z)) :=
  array_reads row 0 4 ≫= fun fs : list A => Ok ((fun r => to_string (field r)) <$> fs).

(** [rrec] and [num_rows] after the first row. *)
Definition record_of_row (num_flds : Z) (c : hstcpcli) (row : option (list field_ref))
    : outcome (list (list Z) * Z) :=
  match row with
  | Some row =>
      if num_flds =? 4
      then rrec ← read_record (field_bytes c) row; Ok (rrec, 1)
      else Ok (replicate 4 [], 0)
  | None => Ok (replicate 4 [], 0)
  end.

(** The part [op_read] and [op_readnolock] share: [None] after a runtime error, else the
    number of rows (at most 2 are looked at), of fields, and the first row. *)
Definition fetch_record (k : list Z) (s : hs_longrun_stat) (c : hstcpcli) (w : W)
    : outcome (W * hstcpcli * hs_longrun_stat * option (Z * Z * list (list Z))) :=
  let '(w, c) := send_generic (bytes "=") [Some k] 1 None [] c w in
  let '(failed, s) := check_hs_error c s in
  if failed then Ok (w, c, s, None)
  else
    '(w, c, num_flds, _) ← response_recv recv_fuel 0 c w;
    let '(failed, s) := check_hs_error c s in
    if failed then Ok (w, c, s, None)
    else
      '(c, row) ← get_next_row c;
      '(rrec, num_rows) ← record_of_row num_flds c row;
      '(c, row) ← get_next_row c;
      let num_rows := match row with Some _ => num_rows + 1 | None => num_rows end in
      let '(w, c) := response_buf_remove c w in
      Ok (w, c, s, Some (num_rows, num_flds, rrec)).

Definition op_read (rec : record_value) (s : hs_longrun_stat) (c : hstcpcli) (w : W)
    : outcome op_result :=
  '(w, c, s, r) ← fetch_record (key rec) s c w;
  match r with
  | None => Ok (w, c, rec, s, 1)
  | Some (num_rows, num_flds, rrec) =>
      '(ret, s) ← verify_read num_rows num_flds rrec rec s; Ok (w, c, rec, s, ret)
  end.

Definition op_readnolock (rec_id : Z) (s : hs_longrun_stat) (c : hstcpcli) (w : W)
    : outcome (W * hstcpcli * hs_longrun_stat * Z) :=
  '(w, c, s, r) ← fetch_record (to_stdstring rec_id) s c w;
  match r with
  | None => Ok (w, c, s, 1)
  | Some (num_rows, num_flds, _) =>
      let '(ret, s) := verify_readnolock num_rows num_flds s in Ok (w, c, s, ret)
  end.

(** ** The loop *)
Definition rand_record (sz : nat) (w : W) : W * Z :=
  let '(w, r) := draw (Z.of_nat sz) w in (w, if Z.of_nat sz <=? r then 0 else r).

(** The destruction of a client. *)
Definition destroy (c : option hstcpcli) (w : W) : W :=
  match c with Some c => (af_close (fd c) w).1 | None => w end.

Definition hs_config (conf : config) (op : ascii) : outcome config :=
  port ← (if bool_decide (op = "R"%char) || bool_decide (op = "N"%char)
          then get_int conf (bytes "hsport") 9998 else get_int conf (bytes "hsport_wr") 9999);
  Ok (<[bytes "port" := to_stdstring port]> conf).

(** One attempt to have a client at a stable point with the index opened; an attempt
    that fails leaves no client. *)
Definition ensure_connected (t : hs_worker) (w : W) : outcome (W * hs_worker * bool) :=
  if match hw_cli t with Some c => stable_point c | None => false end then Ok (w, t, true)
  else
    let '(w, c) := create (hw_sockargs t) w in
    let w := destroy (hw_cli t) w in
    let abandon c s w := Ok (destroy (Some c) w, with_cli t None s, false) in
    let '(failed, s) := check_hs_error c (hw_stat t) in
    if failed then abandon c s w
    else
      let '(w, c) := request_buf_open_index 0 (bytes "hstestdb") (bytes "hstesttbl")
                       (bytes "PRIMARY") (bytes "k,v1,v2,v3") (Some (bytes "k,v1,v2,v3")) c w in
      let '(w, c, _) := request_send c w in
      let '(failed, s) := check_hs_error c s in
      if failed then abandon c s w
      else
        '(w, c, _, _) ← response_recv recv_fuel 0 c w;
        let '(failed, s) := check_hs_error c s in
        if failed then abandon c s w
        else
          let '(w, c) := response_buf_remove c w in
          Ok (w, with_cli t (Some c) s, true).

(** The dispatch on the kind of worker, on a locked record. *)
Definition locked_op (op : ascii) (id : Z) (rec : record_value) (s : hs_longrun_stat)
    (c : hstcpcli) (w : W) : outcome op_result :=
  if bool_decide (op = "I"%char) then op_insert id rec s c w
  else if bool_decide (op = "D"%char) then op_delete id rec s c w
  else if bool_decide (op = "U"%char) then op_update id rec s c w
  else if bool_decide (op = "R"%char) then op_read rec s c w
  else Ok (w, c, rec, s, 0).

Definition hs_run_step (t : hs_worker) (records : list record_value) (w : W)
    : outcome (W * hs_worker * list record_value) :=
  '(w, t, ok) ← ensure_connected t w;
  if negb ok then Ok (w, t, records)
  else
    let '(w, rec_id) := rand_record (length records) w in
    c ← of_option NullDeref (hw_cli t);
    if hw_lock_flag t then
      rec ← array_get records rec_id;
      '(w, c, rec, s, _) ← locked_op (hw_op t) (hw_id t) rec (hw_stat t) c w;
      records ← array_set records rec_id rec;
      Ok (w, with_cli t (Some c) s, records)
    else if bool_decide (hw_op t = "N"%char) then
      '(w, c, s, _) ← op_readnolock (wrap_int rec_id) (hw_stat t) c w;
      Ok (w, with_cli t (Some c) s, records)
    else Ok (w, t, records).

(** The loops of all workers: the schedule names the worker that does the next
    iteration. *)
Fixpoint hs_run (schedule : list nat) (ts : list hs_worker) (records : list record_value) (w : W)
    : outcome (W * list hs_worker * list record_value) :=
  match schedule with
  | [] => Ok (w, ts, records)
  | i :: more =>
      match ts !! i with
      | None => hs_run more ts records w
      | Some t =>
          '(w, t, records) ← hs_run_step t records w;
          hs_run more (<[i := t]> ts) records w
      end
  end.
End Worker.
