(* ===== verification/LongrunMain.v ===== *)
(** * LongrunMain: SQL workers, preparation and summary of the load generator
    ([libhsclient/hslongrun.cpp])

    The MySQL client library is the class [SqlClient]; a handle is an integer.  The
    threads that [hs_longrun_main] creates and the counters it prints are functions of
    the configuration and of the threads' counters. *)
From Stdlib Require Import Ascii.
From S2P Require Import Prelude Text StringUtil Socket Longrun.
#[local] Open Scope Z_scope.

(** The result set of a query: the number of fields and the rows; NULL is [None]. *)
Definition result_set : Type := Z * list (list (option (list Z))).

(** [mysql_init], [mysql_close], [mysql_real_connect] (host, user, password, database;
    the port is the library's), [mysql_real_query] (0 is success), [mysql_affected_rows],
    and [mysql_store_result] with [mysql_fetch_row] and [mysql_fetch_lengths]. *)
Class SqlClient (W : Type) := {
  sql_init : W -> W * option Z;
  sql_close : Z -> W -> W;
  sql_connect : Z -> list Z -> list Z -> list Z -> list Z -> W -> W * bool;
  sql_query : Z -> list Z -> W -> W * Z;
  sql_affected_rows : Z -> W -> Z;
  sql_store_result : Z -> W -> W * option result_set
}.

Record my_worker := mkMy {
  my_id : Z;
  my_op : ascii;
  my_stat : hs_longrun_stat;
  my_db : Z;
  my_connected : bool
}.

Definition with_my_stat (t : my_worker) (s : hs_longrun_stat) : my_worker :=
  mkMy (my_id t) (my_op t) s (my_db t) (my_connected t).

(** [snprintf(query, 1024, ...)]. *)
Definition query_buffer (text : list Z) : list Z := snprintf 1024 text.

Definition delete_query (k : list Z) : list Z :=
  query_buffer (bytes "delete from hstesttbl where k = '" ++ k ++ bytes "'").
Definition insert_query (k v1 v2 v3 : list Z) : list Z :=
  query_buffer (bytes "insert into hstesttbl values ('" ++ k ++ bytes "', '" ++ v1 ++ bytes "', '"
                ++ v2 ++ bytes "', '" ++ v3 ++ bytes "')").
Definition select_query (k : list Z) : list Z :=
  query_buffer (bytes "select k,v1,v2,v3 from hstesttbl where k='" ++ k ++ bytes "'").

Section Sql.
Context {W : Type} `{SqlClient W} `{Random W}.

(** [auto_mysql::reset]. *)
Definition reset_db (db : Z) (w : W) : outcome (W * Z) :=
  let '(w, db) := sql_init (sql_close db w) in
  db ← of_option FatalAbort db; Ok (w, db).

(** [show_mysql_error(mess, 0)]. *)
Definition show_mysql_error (t : my_worker) (w : W) : outcome (W * my_worker) :=
  '(w, db) ← reset_db (my_db t) w;
  Ok (w, mkMy (my_id t) (my_op t) (runtime_error (my_stat t)) db false).

(** The statements of the transaction of [op_delins] up to the first that fails:
    whether all succeeded, and whether the state of the row is unknown. *)
Definition delins_transaction (db : Z) (k v1 v2 v3 : list Z) (w : W) : W * bool * bool :=
  let '(w, r) := sql_query db (bytes "begin") w in
  if negb (r =? 0) then (w, false, false)
  else
    let '(w, r) := sql_query db (delete_query k) w in
    if negb (r =? 0) then (w, false, true)
    else if negb (sql_affected_rows db w =? 1) then (w, false, true)
    else
      let '(w, r) := sql_query db (insert_query k v1 v2 v3) w in
      if negb (r =? 0) then (w, false, true)
      else
        let '(w, r) := sql_query db (bytes "commit") w in
        if negb (r =? 0) then (w, false, true) else (w, true, false).

Definition op_delins (t : my_worker) (rec : record_value) (w : W)
    : W * my_worker * record_value * Z :=
  let k := key rec in
  let v1 := op_value "div1_" k (my_id t) in
  let v2 := op_value "div2_" k (my_id t) in
  let v3 := op_value "div3_" k (my_id t) in
  let '(w, succeeded, cur_unknown_state) := delins_transaction (my_db t) k v1 v2 v3 w in
  let '(ret, rec, s) := verify_update k v1 v2 v3 rec (if succeeded : bool then 1 else 0)
                          cur_unknown_state (my_stat t) in
  (w, with_my_stat t s, rec, ret).

(** The number of fields and of rows (at most 2 are looked at) of a result, and [rrec]. *)
Definition my_record (res : option (Z * list (list string_ref)))
    : outcome (Z * Z * list (list Z)) :=
  match res with
  | Some (n, row :: more) =>
      rrec ← (if n =? 4 then read_record id row else Ok (replicate 4 []));
      Ok (n, if bool_decide (more = []) then 1 else 2, rrec)
  | Some (n, []) => Ok (n, 0, replicate 4 [])
  | None => Ok (0, 0, replicate 4 [])
  end.

Definition my_op_read (t : my_worker) (rec : record_value) (w : W)
    : outcome (W * my_worker * record_value * Z) :=
  let '(w, r) := sql_query (my_db t) (select_query (key rec)) w in
  if negb (r =? 0) then '(w, t) ← show_mysql_error t w; Ok (w, t, rec, 1)
  else
    let '(w, res) := sql_store_result (my_db t) w in
    '(num_flds, num_rows, rrec) ← my_record res;
    '(ret, s) ← verify_read num_rows num_flds rrec rec (my_stat t);
    Ok (w, with_my_stat t s, rec, ret).

Definition my_run_step (conf : config) (t : my_worker) (records : list record_value) (w : W)
    : outcome (W * my_worker * list record_value) :=
  let '(w, ok) :=
    if my_connected t then (w, true)
    else sql_connect (my_db t) (get_str conf (bytes "host") (bytes "localhost"))
           (get_str conf (bytes "mysqluser") (bytes "root"))
           (get_str conf (bytes "mysqlpass") []) (bytes "hstestdb") w in
  if negb ok then '(w, t) ← show_mysql_error t w; Ok (w, t, records)
  else
    let t := mkMy (my_id t) (my_op t) (my_stat t) (my_db t) true in
    let '(w, rec_id) := rand_record (length records) w in
    rec ← array_get records rec_id;
    '(w, t, rec, _) ← (if bool_decide (my_op t = "T"%char) then Ok (op_delins t rec w)
                       else if bool_decide (my_op t = "R"%char) then my_op_read t rec w
                       else Ok (w, t, rec, 0));
    records ← array_set records rec_id rec;
    Ok (w, t, records).

(** ** Preparation of the table *)
Definition mysql_do (db : Z) (query : list Z) (w : W) : outcome W :=
  let '(w, r) := sql_query db query w in
  _ ← checked FatalAbort (r =? 0); Ok w.

Definition prepared_values (i : Z) : list (list Z) :=
  let i_str := to_stdstring i in
  [i_str; bytes "pv1_" ++ i_str; bytes "pv2_" ++ i_str; bytes "pv3_" ++ i_str].

Definition prepare_query (i : Z) : list Z :=
  match prepared_values i with
  | [_; v1; v2; v3] =>
      query_buffer (bytes "insert into hstesttbl(k, v1, v2, v3) values(" ++ dec_int i
        ++ bytes ", '" ++ v1 ++ bytes "', '" ++ v2 ++ bytes "', '" ++ v3 ++ bytes "')")
  | _ => []
  end.

Definition create_table_query : list Z :=
  bytes "create table hstesttbl (k int primary key,v1 varchar(32) not null,v2 varchar(32) not null,v3 varchar(32) not null) character set utf8 collate utf8_bin engine = innodb".

(** Rows [i], [i + 1], ... of [n] prepared rows. *)
Fixpoint prepare_rows (n : nat) (i : Z) (db : Z) (records : list record_value) (w : W)
    : outcome (list record_value * W) :=
  match n with
  | O => Ok (records, w)
  | S n' =>
      w ← mysql_do db (prepare_query i) w;
      rec ← array_get records i;
      records ← array_set records i
                  (mkRecord false (unknown_state rec) (to_stdstring i) (prepared_values i));
      prepare_rows n' (i + 1) db records w
  end.

Definition hs_longrun_init_table (conf : config) (num_prepare : Z) (records : list record_value)
    (w : W) : outcome (list record_value * W) :=
  let '(w, db) := sql_init w in
  db ← of_option FatalAbort db;
  let '(w, ok) := sql_connect db (get_str conf (bytes "host") (bytes "localhost"))
                    (get_str conf (bytes "mysqluser") (bytes "root"))
                    (get_str conf (bytes "mysqlpass") []) [] w in
  _ ← checked FatalAbort ok;
  w ← mysql_do db (bytes "drop database if exists hstestdb") w;
  w ← mysql_do db (bytes "create database hstestdb") w;
  w ← mysql_do db (bytes "use hstestdb") w;
  w ← mysql_do db create_table_query w;
  '(records, w) ← prepare_rows (Z.to_nat num_prepare) 0 db records w;
  Ok (records, sql_close db w).
End Sql.

(** ** The main function *)
Record thrtmpl_type := mkTmpl {
  tm_type : list Z;
  tm_op : ascii;
  tm_num : Z;
  tm_hs : bool;
  tm_lock : bool
}.

(** A thread to create: its id and its template. *)
Definition thread_spec : Type := Z * thrtmpl_type.

Definition make_records (table_size : Z) : list record_value :=
  (fun i => mkRecord true false (to_stdstring (Z.of_nat i)) []) <$> seq 0 (Z.to_nat table_size).

(** The configuration of a run: verbosity, records, number of prepared rows, templates. *)
Record longrun_plan := mkPlan {
  pl_conf : config;
  pl_verbose : Z;
  pl_records : list record_value;
  pl_prepare : Z;
  pl_duration : Z;
  pl_templates : list thrtmpl_type
}.

Definition thrtmpl (hsinsert hsdelete hsupdate hsread readnolock myread mydelins : Z)
    : list thrtmpl_type :=
  [mkTmpl (bytes "hsinsert") "I" hsinsert true true;
   mkTmpl (bytes "hsdelete") "D" hsdelete true true;
   mkTmpl (bytes "hsupdate") "U" hsupdate true true;
   mkTmpl (bytes "hsread") "R" hsread true true;
   mkTmpl (bytes "hsreadnolock") "N" readnolock true false;
   mkTmpl (bytes "myread") "R" myread false true;
   mkTmpl (bytes "mydelins") "T" mydelins false true].

(** [conf.get_int] stored in an [int]. *)
Definition get_conf_int (conf : config) (key : string) (def : Z) : outcome Z :=
  n ← get_int conf (bytes key) def; Ok (wrap_int n).

Definition plan_of (conf : config) : outcome longrun_plan :=
  let conf := <[bytes "host" := get_str conf (bytes "host") (bytes "localhost")]> conf in
  verbose ← get_conf_int conf "verbose" 1;
  table_size ← get_conf_int conf "table_size" 10000;
  duration ← get_conf_int conf "duration" 10;
  hsinsert ← get_conf_int conf "num_hsinsert" 10;
  hsdelete ← get_conf_int conf "num_hsdelete" 10;
  hsupdate ← get_conf_int conf "num_hsupdate" 10;
  hsread ← get_conf_int conf "num_hsread" 10;
  myread ← get_conf_int conf "num_myread" 10;
  mydelins ← get_conf_int conf "num_mydelins" 10;
  readnolock ← get_conf_int conf "num_hsreadnolock" 10;
  let always_filled := (hsinsert =? 0) && (hsdelete =? 0) in
  let readnolock := if always_filled then readnolock else 0 in
  Ok (mkPlan conf verbose (make_records table_size) (if always_filled then table_size else 0)
        duration (thrtmpl hsinsert hsdelete hsupdate hsread readnolock myread mydelins)).

(** The threads in the order of their creation; an id is the number of threads before. *)
Fixpoint make_threads (templates : list thrtmpl_type) (id : Z) : list thread_spec :=
  match templates with
  | [] => []
  | e :: more =>
      ((fun j => (id + Z.of_nat j, e)) <$> seq 0 (Z.to_nat (tm_num e)))
      ++ make_threads more (id + Z.max 0 (tm_num e))
  end.

(** [sm[wt].add(thr->stat)] for every thread, then the sum over the map. *)
Abbreviation stat_map := (gmap (list Z) hs_longrun_stat).

Definition summarize_thread (sm : stat_map) (thr : list Z * hs_longrun_stat) : stat_map :=
  <[thr.1 := stat_add (default stat_new (sm !! thr.1)) thr.2]> sm.

Definition summarize (thrs : list (list Z * hs_longrun_stat)) : stat_map :=
  foldl summarize_thread ∅ thrs.

Definition total_stat (sm : stat_map) : hs_longrun_stat :=
  foldl stat_add stat_new (map_to_list sm).*2.
