(* ===== verification/LongrunSpec.v ===== *)
(** * LongrunSpec: what the verification of the load generator can and cannot see

    A record tracks a row when it says exactly what the row holds.  Against a server that
    executes each request and answers truthfully, every operation keeps the record
    tracking and reports nothing; an answer that contradicts a known record is
    returned as an error.  Whatever a server sends, a thread stays inside its memory. *)
From Stdlib Require Import Ascii.
From S2P Require Import Prelude Text StringUtil Escape Socket Hstcpcli HstcpcliSpec HandlerSocket Longrun LongrunMain.
#[local] Open Scope Z_scope.

(** ** The table, one row at a time *)
Definition row := option (list (list Z)).

Record tracks (rec : record_value) (r : row) : Prop := {
  tr_row : r = if deleted rec then None else Some (values rec);
  tr_values : deleted rec = false -> length (values rec) = 4%nat;
  tr_bytes : Forall (Forall is_byte) (values rec);
  tr_key : Forall is_byte (key rec)
}.

Inductive table_op := OpInsert | OpDelete | OpUpdate | OpRead.

Definition new_values (tag1 tag2 tag3 : string) (k : list Z) (id : Z) : list (list Z) :=
  [k; op_value tag1 k id; op_value tag2 k id; op_value tag3 k id].

(** The request of an operation. *)
Definition generic_line (op : list Z) (args : list string_ref) (mop : string_ref)
    (mvs : list string_ref) : list Z :=
  exec_generic_line [] 0 (Some op) args 1 0 mop mvs [] (-1) [].

Definition op_line (op : table_op) (id : Z) (k : list Z) : list Z :=
  match op with
  | OpInsert => generic_line (bytes "+") (Some <$> new_values "iv1_" "iv2_" "iv3_" k id) None []
  | OpDelete => generic_line (bytes "=") [Some k] (Some (bytes "D")) []
  | OpUpdate => generic_line (bytes "=") [Some k] (Some (bytes "U"))
                  (Some <$> new_values "uv1_" "uv2_" "uv3_" k id)
  | OpRead => generic_line (bytes "=") [Some k] None []
  end.

(** What a truthful server replies, and the row afterwards. *)
Definition count_reply (n : Z) : list Z := encode_reply 1 [[Some (dec_int n)]].

Definition answer (op : table_op) (id : Z) (k : list Z) (r : row) : list Z * row :=
  match op, r with
  | OpInsert, None => (encode_reply 1 [], Some (new_values "iv1_" "iv2_" "iv3_" k id))
  | OpInsert, Some _ => (encode_error 1 1 (bytes "121"), r)
  | OpDelete, None => (count_reply 0, None)
  | OpDelete, Some _ => (count_reply 1, None)
  | OpUpdate, None => (count_reply 0, None)
  | OpUpdate, Some _ => (count_reply 1, Some (new_values "uv1_" "uv2_" "uv3_" k id))
  | OpRead, None => (encode_reply 4 [], None)
  | OpRead, Some vs => (encode_reply 4 [Some <$> vs], r)
  end.

Definition run_op {W} `{Net W} (recv_fuel : nat) (verbose : Z) (op : table_op) (id : Z)
    (rec : record_value) (s : hs_longrun_stat) (c : hstcpcli) (w : W) :=
  match op with
  | OpInsert => op_insert recv_fuel verbose id rec s c w
  | OpDelete => op_delete recv_fuel id rec s c w
  | OpUpdate => op_update recv_fuel id rec s c w
  | OpRead => op_read recv_fuel rec s c w
  end.

(** Neither kind of error has been counted between two states of the counters. *)
Definition no_errors (s s' : hs_longrun_stat) : Prop :=
  verify_error_count s' = verify_error_count s /\ runtime_error_count s' = runtime_error_count s.

Lemma count_success_no_errors ret rec s : no_errors s (count_success ret rec s).
Proof. unfold count_success. by destruct (_ && _). Qed.

Lemma check_present_tracks rec r s :
  tracks rec r -> check_present rec (bool_decide (is_Some r)) s = (0, s).
Proof.
  intros [-> _ _ _]. unfold check_present. by destruct (unknown_state rec), (deleted rec).
Qed.

Lemma values_differ_spec n i vs rrec diff :
  (i + n <= length vs)%nat -> (i + n <= length rrec)%nat ->
  values_differ n i rrec vs diff
  = Ok (diff || negb (bool_decide (take n (drop i vs) = take n (drop i rrec)))).
Proof.
  revert i diff. induction n as [|n IH]; intros i diff Hv Hr; cbn [values_differ].
  { by rewrite orb_false_r. }
  destruct (lookup_lt_is_Some_2 vs i ltac:(lia)) as [x Hx].
  destruct (lookup_lt_is_Some_2 rrec i ltac:(lia)) as [y Hy].
  rewrite (array_get_nat _ _ _ Hx), (array_get_nat _ _ _ Hy). cbn [mbind outcome_bind].
  rewrite IH by lia. f_equal. rewrite (drop_S vs x i Hx), (drop_S rrec y i Hy). cbn [take firstn].
  destruct (decide (x = y)) as [->|Hxy].
  - rewrite (bool_decide_eq_true_2 (y = y)) by done. do 2 f_equal. apply bool_decide_ext.
    split; [by intros ->|by intros [= ?]].
  - rewrite bool_decide_eq_false_2 by done. rewrite (bool_decide_eq_false_2 (x :: _ = _)) by congruence.
    by rewrite orb_true_r.
Qed.

Lemma verify_read_tracks rec r s :
  tracks rec r ->
  exists s', verify_read (match r with Some _ => 1 | None => 0 end) 4
               (default (replicate 4 []) r) rec s = Ok (0, s') /\ no_errors s s'.
Proof.
  intros [-> Hlen _ _]. unfold verify_read. destruct (unknown_state rec) eqn:Eu, (deleted rec) eqn:Ed;
    cbn [negb andb Z.eqb Pos.eqb default from_option id mbind outcome_bind];
    try rewrite values_differ_spec by (rewrite Hlen by done; lia);
    try rewrite bool_decide_eq_true_2 by done; cbn [mbind outcome_bind orb negb];
    (eexists; split; [reflexivity|apply count_success_no_errors]).
Qed.

(** ** Exchanges of an operation *)
Section Exchanges.
Context {W : Type} `{Net W}.
Variable recv_fuel : nat.

Lemma generic_line_nonempty op args mop mvs : generic_line op args mop mvs <> [].
Proof. apply exec_line_nonempty. Qed.

Lemma send_generic_sends op args mop mvs c (w w1 : W) :
  ready c ->
  sys_send (fd c) (generic_line op args mop mvs) w
    = (w1, Z.of_nat (length (generic_line op args mop mvs))) ->
  send_generic op args 1 mop mvs c w = (w1, sent_client c).
Proof.
  intros Hc Hs. unfold send_generic, request_buf_exec_generic.
  destruct (send_request "request_buf_exec_generic" _ c w w1 Hc (generic_line_nonempty _ _ _ _) Hs)
    as (c1 & Hb & Hsd).
  unfold generic_line in *. by rewrite Hb, Hsd.
Qed.

Lemma reply_exchange op args mop mvs c (w w2 : W) nf rows :
  ready c -> served recv_fuel c (generic_line op args mop mvs) (encode_reply nf rows) w w2 ->
  0 < nf < 2 ^ 32 -> Forall (row_ok nf) rows ->
  exists w1, send_generic op args 1 mop mvs c w = (w1, sent_client c)
    /\ response_recv recv_fuel 0 (sent_client c) w1
       = Ok (w2, reply_ready (sent_client c) nf rows [], nf, 0).
Proof.
  intros Hc Hs Hnf Hrows.
  destruct (exchange recv_fuel "request_buf_exec_generic" _ c w w2 nf rows Hc
              (generic_line_nonempty _ _ _ _) Hs Hnf Hrows) as (c1 & w1 & Hb & Hsd & Hr).
  exists w1. split; [|done]. unfold send_generic, request_buf_exec_generic, generic_line in *.
  by rewrite Hb, Hsd.
Qed.

Lemma error_exchange op args mop mvs c (w w2 : W) code nf msg :
  ready c -> served recv_fuel c (generic_line op args mop mvs) (encode_error code nf msg) w w2 ->
  0 < code < 2 ^ 32 -> 0 <= nf < 2 ^ 32 -> (TAB ∉ msg) -> (LF ∉ msg) ->
  exists w1, send_generic op args 1 mop mvs c w = (w1, sent_client c)
    /\ response_recv recv_fuel 0 (sent_client c) w1
       = Ok (w2, error_ready (sent_client c) code nf msg [], nf, wrap_int code).
Proof.
  intros Hc (w1 & chunks & Hsend & Hdel & Hfuel & Htext) Hcode Hnf Ht Hl.
  exists w1. split; [by apply send_generic_sends|].
  destruct (response_recv_error recv_fuel 0 (sent_client c) w1 w2 chunks code nf msg [])
    as (k & w2' & rest' & Hrv & Hd & Hrest); try done.
  { apply sent_waiting, Hc. }
  apply app_nil in Hrest as [-> Hk]. by rewrite (delivers_nothing _ _ _ _ Hd Hk) in Hrv.
Qed.

(** A client whose error reply has been removed. *)
Lemma remove_error c code nf msg (w : W) :
  0 <= fd c -> 0 < code < 2 ^ 31 ->
  exists c', response_buf_remove (error_ready (sent_client c) code nf msg []) w = (w, c') /\ ready c'.
Proof.
  intros Hfd Hcode. unfold response_buf_remove, error_ready. cbn [response_end_offset Nat.eqb].
  eexists. split; [reflexivity|]. cbn. rewrite wrap_int_id by (unfold is_int, INT_MIN, INT_MAX; lia).
  split; cbn; try done; try lia. rewrite drop_ge; [done|]. rewrite length_app. simpl. lia.
Qed.
End Exchanges.

(** ** The operations against a truthful server *)
Section Operations.
Context {W : Type} `{Net W}.
Variable recv_fuel : nat.
Variable verbose : Z.
Hypothesis quiet : verbose <= 10.

Lemma new_values_ok t1 t2 t3 k id : length (new_values t1 t2 t3 k id) = 4%nat.
Proof. done. Qed.

Lemma new_values_bytes t1 t2 t3 k id :
  Forall is_byte k -> Forall (Forall is_byte) (new_values t1 t2 t3 k id).
Proof.
  intros Hk.
  assert (Hb : forall s, Forall is_byte (bytes s)).
  { intros s. unfold bytes. apply Forall_fmap, Forall_true. intros a. unfold is_byte. simpl.
    pose proof (Ascii.N_ascii_bounded a). lia. }
  assert (Hv : forall t, Forall is_byte (op_value t k id)).
  { intros t. unfold op_value. repeat apply Forall_app_2; try apply Hb; [done|].
    unfold to_stdstring, uint32_text, snprintf. apply Forall_take.
    eapply Forall_impl; [apply dec_nat_is_digit|]. unfold is_digit, is_byte, chr0, chr9. lia. }
  unfold new_values. by repeat (apply Forall_cons; split).
Qed.

(** A record that holds the values a worker has just written. *)
Lemma tracks_written rec r t1 t2 t3 id u :
  tracks rec r ->
  tracks (mkRecord false u (key rec) (new_values t1 t2 t3 (key rec) id))
    (Some (new_values t1 t2 t3 (key rec) id)).
Proof. intros Ht. split; [done|done| |apply Ht]. apply new_values_bytes, Ht. Qed.

Definition verified (m : outcome (op_result (W := W))) (w2 : W) (s : hs_longrun_stat) (r' : row) : Prop :=
  exists c' rec' s', m = Ok (w2, c', rec', s', 0)
    /\ ready c' /\ tracks rec' r' /\ no_errors s s'.

Lemma op_insert_new id rec s c (w w2 : W) :
  ready c -> tracks rec None ->
  served recv_fuel c (op_line OpInsert id (key rec)) (encode_reply 1 []) w w2 ->
  verified (op_insert recv_fuel verbose id rec s c w) w2 s
    (Some (new_values "iv1_" "iv2_" "iv3_" (key rec) id)).
Proof.
  intros Hc Ht Hs. unfold op_line in Hs. destruct (reply_exchange recv_fuel _ _ _ _ c w w2 1 [] Hc Hs) as (w1 & Hsd & Hr);
    [lia|done|].
  unfold op_insert. cbn [fmap list_fmap new_values] in Hsd. rewrite Hsd.
  cbn [check_hs_error_on check_hs_error get_error_code error_code sent_client Z.eqb].
  fold (sent_client c). rewrite Hr. cbn [mbind outcome_bind].
  destruct (Z.ltb_spec 10 verbose); [lia|]. cbn [mbind outcome_bind].
  change (get_error_code (reply_ready _ _ _ _)) with 0. cbn [Z.eqb negb andb].
  rewrite (remove_idle c 1 []) by (by eexists _, _, _).
  assert (Hd : deleted rec = true) by (destruct Ht as [Hn _ _ _]; by destruct (deleted rec)).
  rewrite Hd. cbn [negb andb].
  destruct (unknown_state rec) eqn:Eu; cbn [negb].
  - eexists _, _, _. split; [reflexivity|]. split; [apply idle_ready, Hc|].
    split; [by eapply tracks_written|]. unfold count_success. by rewrite Eu.
  - eexists _, _, _. split; [reflexivity|]. split; [apply idle_ready, Hc|].
    split; [by eapply tracks_written|]. apply count_success_no_errors.
Qed.

Lemma op_insert_duplicate id rec s c vs (w w2 : W) :
  ready c -> tracks rec (Some vs) ->
  served recv_fuel c (op_line OpInsert id (key rec)) (encode_error 1 1 (bytes "121")) w w2 ->
  verified (op_insert recv_fuel verbose id rec s c w) w2 s (Some vs).
Proof.
  intros Hc Ht Hs. unfold op_line in Hs.
  destruct (error_exchange recv_fuel _ _ _ _ c w w2 1 1 (bytes "121") Hc Hs) as (w1 & Hsd & Hr);
    [lia|lia|by_decide|by_decide|].
  unfold op_insert. cbn [fmap list_fmap new_values] in Hsd. rewrite Hsd.
  cbn [check_hs_error_on check_hs_error get_error_code error_code sent_client Z.eqb].
  fold (sent_client c). rewrite Hr. cbn [mbind outcome_bind].
  destruct (Z.ltb_spec 10 verbose); [lia|]. cbn [mbind outcome_bind].
  change (get_error_code (error_ready _ _ _ _ _)) with 1. cbn [Z.eqb negb andb].
  destruct (remove_error c 1 1 (bytes "121") w2 (rd_fd _ Hc) ltac:(lia)) as (c' & Hrm & Hc').
  rewrite Hrm.
  assert (Hd : deleted rec = false) by (destruct Ht as [Hn _ _ _]; by destruct (deleted rec)).
  rewrite Hd. cbn [negb andb].
  destruct (unknown_state rec) eqn:Eu; cbn [negb]; by eexists _, _, _.
Qed.

(** The reply to a delete or an update: one row with the number of rows. *)
Lemma count_exchange args mop mvs n c (w w2 : W) :
  ready c -> n = 0 \/ n = 1 ->
  served recv_fuel c (generic_line (bytes "=") args mop mvs) (count_reply n) w w2 ->
  exists w1 c1 c2 r,
    send_generic (bytes "=") args 1 mop mvs c w = (w1, sent_client c)
    /\ response_recv recv_fuel 0 (sent_client c) w1 = Ok (w2, c1, 1, 0)
    /\ error_code c1 = 0 /\ get_next_row c1 = Ok (c2, Some [r])
    /\ field_bytes c2 r = Some (dec_int n)
    /\ response_buf_remove c2 w2 = (w2, idle_client c).
Proof.
  intros Hc Hn Hs.
  assert (Hrows : Forall (row_ok 1) [[Some (dec_int n)]]) by (apply Forall_singleton, count_row_ok).
  destruct (reply_exchange recv_fuel _ _ _ _ c w w2 1 _ Hc Hs ltac:(lia) Hrows) as (w1 & Hsd & Hr).
  destruct (get_next_row_value (reply_ready (sent_client c) 1 [[Some (dec_int n)]] []) [Some (dec_int n)] [])
    as (c2 & rs & Hg & Hvals & _ & Hsame & _).
  { apply reply_ready_pending; [lia|exact Hrows]. }
  destruct rs as [|r [|]]; try discriminate Hvals. injection Hvals as Hv.
  eexists w1, _, c2, r. split; [exact Hsd|]. split; [exact Hr|]. split; [done|].
  split; [exact Hg|]. split; [exact Hv|]. by apply (remove_idle c 1 [[Some (dec_int n)]]).
Qed.

Lemma op_delete_count id rec s c r n (w w2 : W) :
  ready c -> tracks rec r -> n = (if r is Some _ then 1 else 0) ->
  served recv_fuel c (op_line OpDelete id (key rec)) (count_reply n) w w2 ->
  verified (op_delete recv_fuel id rec s c w) w2 s None.
Proof.
  clear quiet. intros Hc Ht Hn Hs. unfold op_line in Hs.
  destruct (count_exchange _ _ _ n c w w2 Hc ltac:(destruct r; lia) Hs)
    as (w1 & c1 & c2 & x & Hsd & Hr & He & Hg & Hx & Hrm).
  unfold op_delete. rewrite Hsd.
  cbn [check_hs_error_on check_hs_error get_error_code error_code sent_client Z.eqb].
  fold (sent_client c). rewrite Hr. cbn [mbind outcome_bind].
  unfold check_hs_error_on, check_hs_error, get_error_code. rewrite He. cbn [Z.eqb].
  rewrite Hg. cbn [mbind outcome_bind Z.ltb Z.compare first_field head of_option].
  rewrite Hx. cbn [mbind outcome_bind to_string default from_option Datatypes.id].
  assert (Hb : bool_decide (dec_int n = bytes "1") = bool_decide (is_Some r))
    by (subst n; by destruct r).
  rewrite Hb, (check_present_tracks _ _ _ Ht), Hrm.
  destruct Ht as [Hrow Hlen Hbytes Hkey]. subst r.
  destruct (deleted rec) eqn:Ed; cbn.
  - eexists _, _, _. split; [reflexivity|]. split; [apply idle_ready, Hc|].
    split; [|done]. split; [by rewrite Ed|by rewrite Ed|done|done].
  - eexists _, _, _. split; [reflexivity|]. split; [apply idle_ready, Hc|].
    split; [|apply count_success_no_errors]. split; try done.
Qed.

Lemma op_update_count id rec s c r n (w w2 : W) :
  ready c -> tracks rec r -> n = (if r is Some _ then 1 else 0) ->
  served recv_fuel c (op_line OpUpdate id (key rec)) (count_reply n) w w2 ->
  verified (op_update recv_fuel id rec s c w) w2 s
    (if r is Some _ then Some (new_values "uv1_" "uv2_" "uv3_" (key rec) id) else None).
Proof.
  clear quiet. intros Hc Ht Hn Hs. unfold op_line in Hs.
  destruct (count_exchange _ _ _ n c w w2 Hc ltac:(destruct r; lia) Hs)
    as (w1 & c1 & c2 & x & Hsd & Hr & He & Hg & Hx & Hrm).
  unfold op_update. cbn [fmap list_fmap new_values] in Hsd. rewrite Hsd.
  cbn [check_hs_error_on check_hs_error get_error_code error_code sent_client Z.eqb].
  fold (sent_client c). rewrite Hr. cbn [mbind outcome_bind].
  unfold check_hs_error_on, check_hs_error, get_error_code. rewrite He. cbn [Z.eqb].
  rewrite Hg. cbn [mbind outcome_bind first_field head of_option].
  rewrite Hx. cbn [mbind outcome_bind to_string default from_option Datatypes.id].
  rewrite Hrm. unfold verify_update.
  assert (Hb : atoi_uint32_nocheck (dec_int n) = n) by (subst n; by destruct r).
  rewrite Hb.
  assert (Hn1 : (n =? 1) = bool_decide (is_Some r)) by (subst n; by destruct r).
  rewrite Hn1, (check_present_tracks _ _ _ Ht).
  pose proof (tracks_written rec r "uv1_" "uv2_" "uv3_" id) as Hw.
  destruct Ht as [Hrow Hlen Hbytes Hkey]. subst r.
  destruct (deleted rec) eqn:Ed; cbn.
  - eexists _, _, _. split; [reflexivity|]. split; [apply idle_ready, Hc|].
    split; [|done]. split; cbn; try done; by rewrite Ed.
  - eexists _, _, _. split; [reflexivity|]. split; [apply idle_ready, Hc|].
    split; [|apply count_success_no_errors]. unfold with_unknown, with_values. cbn. rewrite Ed.
    apply Hw. split; [by rewrite Ed|intros _; by apply Hlen|done..].
Qed.
Lemma read_row_ok vs : length vs = 4%nat -> Forall (Forall is_byte) vs -> Forall (row_ok 4) [Some <$> vs].
Proof.
  intros Hl Hb. apply Forall_singleton. split; [by rewrite length_fmap|].
  apply Forall_fmap. by eapply Forall_impl.
Qed.

Lemma read_record_Ok {A} (field : A -> string_ref) row :
  (4 <= length row)%nat -> read_record field row = Ok ((fun r => to_string (field r)) <$> take 4 row).
Proof. intros Hl. unfold read_record. by rewrite array_reads_Ok by lia. Qed.

(** The reply to a read: no row, or one with four values. *)
Lemma fetch_record_reads k s c (r : row) (w w2 : W) :
  ready c -> (forall vs, r = Some vs -> length vs = 4%nat /\ Forall (Forall is_byte) vs) ->
  served recv_fuel c (generic_line (bytes "=") [Some k] None [])
    (encode_reply 4 (if r is Some vs then [Some <$> vs] else [])) w w2 ->
  fetch_record recv_fuel k s c w
  = Ok (w2, idle_client c, s,
        Some (match r with Some _ => 1 | None => 0 end, 4, default (replicate 4 []) r)).
Proof.
  clear quiet. intros Hc Hvs Hs.
  assert (Hrows : Forall (row_ok 4) (if r is Some vs then [Some <$> vs] else [])).
  { destruct r as [vs|]; [|done]. by apply read_row_ok; apply Hvs. }
  destruct (reply_exchange recv_fuel _ _ _ _ c w w2 4 _ Hc Hs ltac:(lia) Hrows) as (w1 & Hsd & Hr).
  unfold fetch_record. rewrite Hsd.
  cbn [check_hs_error get_error_code error_code sent_client Z.eqb].
  fold (sent_client c). rewrite Hr. cbn [mbind outcome_bind].
  change (check_hs_error (reply_ready _ _ _ _) s) with (false, s). cbn [Z.eqb Pos.eqb].
  pose proof (reply_ready_pending (sent_client c) 4 _ [] ltac:(lia) Hrows) as Hp.
  destruct r as [vs|].
  - destruct (get_next_row_value _ _ _ Hp) as (c1 & rs & Hg & Hvals & Hp1 & Hs1 & _).
    rewrite Hg. cbn [mbind outcome_bind].
    destruct (get_next_row_end _ Hp1) as (c2 & Hg2 & Hs2). rewrite Hg2. cbn [mbind outcome_bind].
    rewrite (remove_idle c 4 [Some <$> vs]) by (by eapply same_response_trans).
    destruct (Hvs vs eq_refl) as [Hl _].
    assert (Hrs : length rs = 4%nat).
    { apply (f_equal length) in Hvals. rewrite !length_fmap in Hvals. lia. }
    change (record_of_row 4 c1 (Some rs))
      with (rrec ← read_record (field_bytes c1) rs; Ok (rrec, 1)).
    rewrite read_record_Ok by lia. cbn [mbind outcome_bind]. rewrite take_ge by lia.
    assert (Hv : (fun x => to_string (field_bytes c1 x)) <$> rs = vs).
    { transitivity (to_string <$> (field_bytes c1 <$> rs)); [by rewrite <- list_fmap_compose|].
      rewrite Hvals, <- list_fmap_compose. apply list_fmap_id. }
    by rewrite Hv.
  - destruct (get_next_row_end _ Hp) as (c1 & Hg & Hs1). rewrite Hg. cbn [mbind outcome_bind].
    pose proof (get_next_row_end_again _ _ Hp Hg) as Hp1.
    destruct (get_next_row_end _ Hp1) as (c2 & Hg2 & Hs2). rewrite Hg2. cbn [mbind outcome_bind].
    by rewrite (remove_idle c 4 []) by (by eapply same_response_trans).
Qed.

Lemma op_read_row rec s c r (w w2 : W) :
  ready c -> tracks rec r ->
  served recv_fuel c (op_line OpRead 0 (key rec))
    (encode_reply 4 (if r is Some vs then [Some <$> vs] else [])) w w2 ->
  verified (op_read recv_fuel rec s c w) w2 s r.
Proof.
  clear quiet. intros Hc Ht Hs. unfold op_read.
  rewrite (fetch_record_reads _ s c r w w2 Hc); [|intros vs ->|exact Hs].
  - cbn [mbind outcome_bind]. destruct (verify_read_tracks rec r s Ht) as (s' & -> & Hn).
    cbn [mbind outcome_bind]. eexists _, _, _. split; [reflexivity|].
    split; [apply idle_ready, Hc|done].
  - destruct Ht as [Hr Hl Hb _]. destruct (deleted rec) eqn:Ed; [done|].
    injection Hr as ->. split; [by apply Hl|done].
Qed.

(** C38: The verifying load generator raises no false alarm. If a record says what its
    row holds, and the server executes the request of an insert, delete, update or read and
    answers truthfully, however the answer is cut into reads, then the operation
    returns 0, counts neither a verification nor a runtime error, leaves the client
    ready, and the record says what the row holds afterwards ([verbose] is at most 10). *)
Theorem op_verifies op id rec s c r (w w2 : W) :
  ready c -> tracks rec r ->
  served recv_fuel c (op_line op id (key rec)) (answer op id (key rec) r).1 w w2 ->
  exists c' rec' s',
    run_op recv_fuel verbose op id rec s c w = Ok (w2, c', rec', s', 0)
    /\ ready c' /\ tracks rec' (answer op id (key rec) r).2 /\ no_errors s s'.
Proof.
  intros Hc Ht Hs. destruct op; cbn [run_op].
  - destruct r as [vs|]; [by apply op_insert_duplicate|by apply op_insert_new].
  - pose proof (op_delete_count id rec s c r (if r is Some _ then 1 else 0) w w2 Hc Ht eq_refl) as Hd.
    destruct r as [vs|]; by apply Hd.
  - pose proof (op_update_count id rec s c r (if r is Some _ then 1 else 0) w w2 Hc Ht eq_refl) as Hu.
    destruct r as [vs|]; by apply Hu.
  - pose proof (op_read_row rec s c r w w2 Hc Ht) as Hr. destruct r as [vs|]; by apply Hr.
Qed.
End Operations.

(** ** A thread stays inside its memory *)

(** A record that is not deleted has its four values. *)
Definition record_ok (rec : record_value) : Prop :=
  deleted rec = false -> length (values rec) = 4%nat.

Definition worker_inv (t : hs_worker) : Prop :=
  match hw_cli t with Some c => cli_inv c | None => True end.

Lemma with_unknown_ok rec b : record_ok rec -> record_ok (with_unknown rec b).
Proof. done. Qed.

Lemma deleted_ok rec b : record_ok (with_unknown (with_deleted rec true) b).
Proof. done. Qed.

Lemma written_ok b u k v0 v1 v2 v3 : record_ok (mkRecord b u k [v0; v1; v2; v3]).
Proof. done. Qed.

Lemma verify_read_returns num_rows num_flds rrec rec s :
  record_ok rec -> (4 <= length rrec)%nat ->
  returns (eq OutOfFuel) (fun _ => True) (verify_read num_rows num_flds rrec rec s).
Proof.
  intros Hrec Hlen. unfold verify_read. apply returns_bind with (Q := fun _ => True).
  - repeat case_match; try done.
    rewrite values_differ_spec; [done| |lia]. rewrite Hrec by done. lia.
  - by intros [].
Qed.

Section Safety.
Context {W : Type} `{Net W} `{Random W}.
Variable recv_fuel : nat.
Variable verbose : Z.

Definition op_safe (m : outcome (op_result (W := W))) : Prop :=
  returns (eq OutOfFuel) (fun r => cli_inv r.1.1.1.2 /\ record_ok r.1.1.2) m.

Lemma get_next_row_returns c :
  cli_inv c ->
  returns (eq OutOfFuel)
    (fun r => cli_inv r.1 /\ match r.2 with
                             | Some row => num_flds c <> 0 /\ (Z.to_nat (num_flds c) <= length row)%nat
                             | None => True
                             end) (get_next_row c).
Proof.
  intros Hc. destruct (get_next_row_ok c Hc) as (c' & row & Hg & Hc' & _). rewrite Hg. simpl.
  split; [done|]. destruct row as [row|]; [|done]. by apply get_next_row_length in Hg as (_ & ? & ?).
Qed.

Lemma send_generic_inv op args limit mop mvs c (w : W) :
  cli_inv c -> cli_inv (send_generic op args limit mop mvs c w).2.
Proof.
  intros Hc. unfold send_generic, request_buf_exec_generic.
  pose proof (request_buf_inv "request_buf_exec_generic"
    (exec_generic_line [] 0 (Some op) args limit 0 mop mvs [] (-1) []) c w Hc) as Hb.
  destruct (request_buf _ _ c w) as [w1 c1]. simpl in Hb.
  pose proof (request_send_inv c1 w1 Hb) as Hs. by destruct (request_send c1 w1) as [[w2 c2] r].
Qed.

Lemma remove_inv c (w : W) : cli_inv c -> cli_inv (response_buf_remove c w).2.
Proof. apply response_buf_remove_inv. Qed.

Lemma first_field_returns c c' row :
  cli_inv c -> num_flds c <> 0 -> (Z.to_nat (num_flds c) <= length row)%nat ->
  returns (eq OutOfFuel) (fun _ => True) (first_field c' row).
Proof. intros Hc Hn Hl. pose proof (inv_flds c Hc). by destruct row; [simpl in Hl; lia|]. Qed.

Lemma check_hs_error_on_ok c rec s :
  record_ok rec ->
  record_ok (check_hs_error_on c rec s).1.2
  /\ ((check_hs_error_on c rec s).1.1 = false -> error_code c = 0).
Proof.
  intros Hr. unfold check_hs_error_on, check_hs_error, get_error_code.
  destruct (Z.eqb_spec (error_code c) 0); simpl; [done|]. by split; [apply with_unknown_ok|].
Qed.

(** The steps the operations share: send, check, receive, check, take a row. *)
Ltac op_send Hc :=
  match goal with |- context [send_generic ?o ?a ?l ?m ?v ?c ?w] =>
    pose proof (send_generic_inv o a l m v c w Hc);
    destruct (send_generic o a l m v c w) as [? ?]; simpl in * end.
Ltac op_check Hr :=
  match goal with |- context [check_hs_error_on ?c ?r ?s] =>
    let H := fresh "Hok" in let H' := fresh "Hcode" in
    destruct (check_hs_error_on_ok c r s Hr) as [H H'];
    destruct (check_hs_error_on c r s) as [[[|] ?] ?]; simpl in *; [by split|] end.
Ltac op_recv :=
  eapply returns_bind; [by apply response_recv_returns|intros [[[? ?] ?] ?] [? ?]; simpl in *].
Ltac op_row :=
  eapply returns_bind; [by apply get_next_row_returns|intros [? ?] [? ?]; simpl in *].
Ltac op_remove :=
  match goal with |- context [response_buf_remove ?c ?w] =>
    pose proof (remove_inv c w); destruct (response_buf_remove c w); simpl in * end.

Lemma op_insert_safe id rec s c (w : W) :
  cli_inv c -> record_ok rec -> op_safe (op_insert recv_fuel verbose id rec s c w).
Proof.
  intros Hc Hr. unfold op_safe, op_insert. op_send Hc. op_check Hr. op_recv.
  apply returns_bind with (Q := cli_inv).
  { destruct (10 <? verbose); [|done]. op_row. destruct o as [row|]; [|done].
    eapply returns_bind; [by eapply first_field_returns; [|naive_solver..]|]. by intros ? _. }
  intros c3 Hc3. destruct (if negb _ then _ else _) as [ret s3]. destruct (_ =? 0); op_remove; auto using written_ok.
Qed.

Lemma op_delete_safe id rec s c (w : W) :
  cli_inv c -> record_ok rec -> op_safe (op_delete recv_fuel id rec s c w).
Proof.
  intros Hc Hr. unfold op_safe, op_delete. op_send Hc. op_check Hr. op_recv. op_check Hok. op_row.
  apply returns_bind with (Q := fun _ => True).
  { destruct o as [row|]; [|done]. case_match; [|done].
    eapply returns_bind; [by eapply first_field_returns; [|naive_solver..]|done]. }
  intros b _. destruct (check_present _ _ _) as [ret s3]. op_remove. destruct b; simpl; auto using deleted_ok.
Qed.

Lemma verify_update_ok k v1 v2 v3 rec n b s :
  record_ok rec -> record_ok (verify_update k v1 v2 v3 rec n b s).1.2.
Proof.
  intros Hr. unfold verify_update. destruct (check_present _ _ _) as [ret s'].
  by destruct (n =? 1).
Qed.

Lemma op_update_safe id rec s c (w : W) :
  cli_inv c -> record_ok rec -> op_safe (op_update recv_fuel id rec s c w).
Proof.
  intros Hc Hr. unfold op_safe, op_update. op_send Hc. op_check Hr. op_recv. op_check Hok. op_row.
  apply returns_bind with (Q := fun _ => True).
  { destruct o as [row|]; [|done].
    eapply returns_bind; [by eapply first_field_returns; [|naive_solver..]|done]. }
  intros n _. op_remove.
  match goal with |- context [verify_update ?k ?a ?b ?c0 ?r ?m ?u ?s0] =>
    pose proof (verify_update_ok k a b c0 r m u s0 ltac:(done));
    destruct (verify_update k a b c0 r m u s0) as [[? ?] ?] end. simpl in *; by auto.
Qed.

Lemma record_of_row_returns nf c row :
  (nf = 4 -> (4 <= length row)%nat) ->
  returns (eq OutOfFuel) (fun r => (4 <= length r.1)%nat) (record_of_row nf c (Some row)).
Proof.
  intros Hl. unfold record_of_row. destruct (Z.eqb_spec nf 4) as [->|]; [|simpl; lia].
  rewrite read_record_Ok by auto. cbn [mbind outcome_bind returns fst].
  rewrite length_fmap, length_take. specialize (Hl eq_refl). lia.
Qed.

Lemma fetch_record_safe k s c (w : W) :
  cli_inv c ->
  returns (eq OutOfFuel)
    (fun r => cli_inv r.1.1.2 /\ match r.2 with Some (_, _, rrec) => (4 <= length rrec)%nat | None => True end)
    (fetch_record recv_fuel k s c w).
Proof.
  intros Hc. unfold fetch_record. op_send Hc. unfold check_hs_error at 1.
  destruct (get_error_code h =? 0); [|done]. op_recv. unfold check_hs_error, get_error_code.
  destruct (Z.eqb_spec (error_code h0) 0) as [He|]; [|done]. op_row.
  apply returns_bind with (Q := fun r => (4 <= length r.1)%nat).
  { destruct o as [row|]; [|simpl; lia]. apply record_of_row_returns. intros ->.
    match goal with Hn : _ -> num_flds ?c1 = 4, Hl : num_flds ?c1 <> 0 /\ _ |- _ =>
      rewrite (Hn He) in Hl; destruct Hl as [_ Hl]; change (Z.to_nat 4) with 4%nat in Hl end. lia. }
  intros [rrec n] Hl. op_row. op_remove. split; auto.
Qed.

Lemma op_read_safe rec s c (w : W) :
  cli_inv c -> record_ok rec -> op_safe (op_read recv_fuel rec s c w).
Proof.
  intros Hc Hr. unfold op_safe, op_read.
  eapply returns_bind; [by apply fetch_record_safe|]. intros [[[w1 c1] s1] [[[n nf] rrec]|]] [Hc1 Hl]; [|done].
  eapply returns_bind; [by apply verify_read_returns|]. by intros [].
Qed.

Lemma op_readnolock_safe rec_id s c (w : W) :
  cli_inv c ->
  returns (eq OutOfFuel) (fun r => cli_inv r.1.1.2) (op_readnolock recv_fuel rec_id s c w).
Proof.
  intros Hc. unfold op_readnolock. eapply returns_bind; [by apply fetch_record_safe|].
  intros [[[w1 c1] s1] [[[n nf] rrec]|]] [Hc1 Hl]; [|done].
  by destruct (verify_readnolock n nf s1).
Qed.

Lemma locked_op_safe op id rec s c (w : W) :
  cli_inv c -> record_ok rec -> op_safe (locked_op recv_fuel verbose op id rec s c w).
Proof.
  intros Hc Hr. unfold locked_op.
  destruct (bool_decide _); [by apply op_insert_safe|].
  destruct (bool_decide _); [by apply op_delete_safe|].
  destruct (bool_decide _); [by apply op_update_safe|].
  destruct (bool_decide _); [by apply op_read_safe|by split].
Qed.

Lemma ensure_connected_safe t (w : W) :
  worker_inv t ->
  returns (eq OutOfFuel)
    (fun r => worker_inv r.1.2 /\ hw_op r.1.2 = hw_op t /\ hw_lock_flag r.1.2 = hw_lock_flag t
              /\ (r.2 = true -> hw_cli r.1.2 <> None))
    (ensure_connected recv_fuel t w).
Proof.
  intros Ht. unfold ensure_connected.
  destruct (match hw_cli t with Some c => stable_point c | None => false end) eqn:Es.
  { simpl. split_and!; [done..|]. intros _. by destruct (hw_cli t). }
  pose proof (create_inv (hw_sockargs t) w) as Hc. destruct (create _ w) as [w1 c1]. simpl in Hc.
  destruct (check_hs_error c1 _) as [[|] s1]; [done|].
  unfold request_buf_open_index.
  match goal with |- context [request_buf ?n ?l c1 ?w0] =>
    pose proof (request_buf_inv n l c1 w0 Hc) as Hb; destruct (request_buf n l c1 w0) as [w2 c2] end.
  simpl in Hb. pose proof (request_send_inv c2 w2 Hb) as Hs.
  destruct (request_send c2 w2) as [[w3 c3] r3]. simpl in Hs.
  destruct (check_hs_error c3 _) as [[|] s3]; [done|].
  eapply returns_bind; [by apply response_recv_returns|]. intros [[[w4 c4] nf] r4] [Hc4 _]. simpl in Hc4.
  destruct (check_hs_error c4 _) as [[|] s4]; [done|].
  pose proof (remove_inv c4 w4 Hc4). destruct (response_buf_remove c4 w4) as [w5 c5]. by split_and!.
Qed.

Lemma rand_record_bound n (w : W) :
  (0 < n)%nat -> (forall sz w, 0 <= (draw sz w).2) -> 0 <= (rand_record n w).2 < Z.of_nat n.
Proof.
  intros Hn Hd. unfold rand_record. specialize (Hd (Z.of_nat n) w).
  destruct (draw _ w) as [w1 r]. simpl in *. destruct (Z.leb_spec (Z.of_nat n) r); lia.
Qed.

Lemma hs_run_step_safe t records (w : W) :
  (forall sz w, 0 <= (draw sz w).2) ->
  worker_inv t -> records <> [] -> Forall record_ok records ->
  returns (eq OutOfFuel)
    (fun r => worker_inv r.1.2 /\ length r.2 = length records /\ Forall record_ok r.2)
    (hs_run_step recv_fuel verbose t records w).
Proof.
  intros Hd Ht Hne Hrs. unfold hs_run_step.
  eapply returns_bind; [by apply ensure_connected_safe|].
  intros [[w1 t1] ok] (Ht1 & Hop & Hlk & Hcli). simpl in *.
  destruct ok; [|by split_and!]. cbn [negb].
  assert (Hn : (0 < length records)%nat) by (destruct records; [done|simpl; lia]).
  pose proof (rand_record_bound _ w1 Hn Hd) as Hb.
  destruct (rand_record (length records) w1) as [w2 i]. simpl in Hb.
  unfold worker_inv in Ht1. destruct (hw_cli t1) as [c|] eqn:Ec; [|by destruct Hcli].
  cbn [of_option mbind outcome_bind].
  destruct (hw_lock_flag t1).
  - destruct (lookup_lt_is_Some_2 records (Z.to_nat i) ltac:(lia)) as [rec Hrec].
    assert (Hget : array_get records i = Ok rec) by (apply array_get_Ok; split; [lia|done]).
    rewrite Hget. cbn [mbind outcome_bind].
    pose proof (Forall_lookup_1 _ _ _ _ Hrs Hrec) as Hrok.
    eapply returns_bind; [by apply locked_op_safe|].
    intros [[[[w3 c3] rec3] s3] r3] [Hc3 Hr3]. simpl in *.
    rewrite array_set_Ok by lia. simpl. split; [done|]. rewrite length_insert. split; [done|].
    by apply Forall_insert.
  - case_bool_decide; [|simpl; unfold worker_inv; by rewrite Ec].
    eapply returns_bind; [by apply op_readnolock_safe|]. by intros [[[w3 c3] s3] r3] Hc3.
Qed.

(** The workers of the load generator are memory safe. Whatever the server sends,
    however often connections fail and in whatever order the workers take their
    iterations on a table of consistent records, there is no access outside a buffer, a row, a
    record's values or the table and no use of a null client; the only way not to come
    back is a server that keeps sending without a newline.  The records stay consistent. *)
Theorem hs_run_safe schedule ts records (w : W) :
  (forall sz w, 0 <= (draw sz w).2) ->
  Forall (fun t => hw_cli t = None) ts -> records <> [] -> Forall record_ok records ->
  match hs_run recv_fuel verbose schedule ts records w with
  | Ok (_, _, records') => length records' = length records /\ Forall record_ok records'
  | Fault f => f = OutOfFuel
  end.
Proof.
  intros Hd Hts Hne Hrs. assert (Hi : Forall worker_inv ts).
  { eapply Forall_impl; [exact Hts|]. intros t Ht. unfold worker_inv. by rewrite Ht. }
  clear Hts. revert ts records w Hi Hne Hrs.
  induction schedule as [|i schedule IH]; intros ts records w Hi Hne Hrs; [done|].
  cbn [hs_run]. destruct (ts !! i) as [t|] eqn:Et; [|by apply IH].
  pose proof (hs_run_step_safe t records w Hd (Forall_lookup_1 _ _ _ _ Hi Et) Hne Hrs) as Hs.
  destruct (hs_run_step _ _ _ _ _) as [[[w1 t1] rs1]|f]; simpl in *; [|done].
  destruct Hs as (Hi1 & Hl1 & Hrs1).
  specialize (IH (<[i := t1]> ts) rs1 w1 ltac:(by apply Forall_insert)).
  destruct (hs_run _ _ schedule _ rs1 w1) as [[[w2 t2] rs2]|f]; [rewrite <- Hl1|];
    apply IH; try done; by destruct rs1, records.
Qed.
End Safety.

(** ** What the verification sees *)

(** An answer to a read that agrees with a known record. *)
Definition read_agrees (rec : record_value) (num_rows num_flds : Z) (rrec : list (list Z)) : Prop :=
  num_flds = 4 /\ (if deleted rec then num_rows = 0 else num_rows <> 0 /\ rrec = values rec).

(** The answer is wrong in its values only. *)
Definition wrong_values (rec : record_value) (num_rows num_flds : Z) (rrec : list (list Z)) : Prop :=
  deleted rec = false /\ num_rows <> 0 /\ num_flds = 4 /\ rrec <> values rec.

#[export] Instance read_agrees_dec rec n f rrec : Decision (read_agrees rec n f rrec).
Proof. unfold read_agrees. destruct (deleted rec); apply _. Defined.
#[export] Instance wrong_values_dec rec n f rrec : Decision (wrong_values rec n f rrec).
Proof. unfold wrong_values. apply _. Defined.

(** The verification of a read is exact on a record whose state is known: it
    returns 0 and counts a success exactly when number of rows, number of fields and
    values agree with the record.  Every disagreement is returned as 1, but a row with
    wrong values, the one thing only this check can see, is not counted. *)
Theorem verify_read_exact rec num_rows num_flds rrec s :
  unknown_state rec = false -> record_ok rec -> length rrec = 4%nat ->
  verify_read num_rows num_flds rrec rec s
  = Ok (if decide (read_agrees rec num_rows num_flds rrec) then (0, success s)
        else (1, if decide (wrong_values rec num_rows num_flds rrec) then s else verify_error s)).
Proof.
  intros Hu Hr Hl. unfold verify_read, count_success, record_ok in *. rewrite Hu. cbn [negb andb].
  assert (Hd : deleted rec = false ->
    values_differ 4 0 rrec (values rec) false = Ok (negb (bool_decide (values rec = rrec)))).
  { intros Hdel. rewrite values_differ_spec by (rewrite ?Hl, ?Hr by done; lia).
    rewrite !drop_0, !take_ge by (rewrite ?Hl, ?Hr by done; lia). done. }
  assert (Hra : read_agrees rec num_rows num_flds rrec
    <-> num_flds = 4 /\ (if deleted rec then num_rows = 0 else num_rows <> 0 /\ rrec = values rec)) by done.
  assert (Hwv : wrong_values rec num_rows num_flds rrec
    <-> deleted rec = false /\ num_rows <> 0 /\ num_flds = 4 /\ rrec <> values rec) by done.
  destruct (deleted rec) eqn:Ed; cbn [negb andb];
    destruct (Z.eqb_spec num_rows 0) as [En|En]; cbn [negb];
    try (destruct (Z.eqb_spec num_flds 4) as [Ef|Ef]; cbn [negb]).
  - by rewrite decide_True by by apply Hra.
  - rewrite decide_False by by intros [? _]%Hra. by rewrite decide_False by by intros [? _]%Hwv.
  - rewrite decide_False by by intros [_ ?]%Hra. by rewrite decide_False by by intros [? _]%Hwv.
  - rewrite decide_False by by intros [_ ?]%Hra. by rewrite decide_False by by intros [? _]%Hwv.
  - rewrite decide_False by by intros (_ & ? & _)%Hra. by rewrite decide_False by by intros (_ & ? & _)%Hwv.
  - rewrite decide_False by by intros (_ & ? & _)%Hra. by rewrite decide_False by by intros (_ & ? & _)%Hwv.
  - rewrite Hd by done. cbn [mbind outcome_bind]. case_bool_decide as Hv.
    + by rewrite decide_True by by apply Hra.
    + rewrite decide_False by (intros (_ & _ & ?)%Hra; congruence).
      by rewrite decide_True by (apply Hwv; split_and!; congruence).
  - rewrite decide_False by by intros [? _]%Hra. by rewrite decide_False by by intros (_ & _ & ? & _)%Hwv.
Qed.

(** ** SQL workers *)
Section SqlSpec.
Context {W : Type} `{SqlClient W}.

(** The server executes the transaction of [op_delins] on a row [r]. *)
Definition delins_served (t : my_worker) (k v1 v2 v3 : list Z) (r : row) (w w' : W) : Prop :=
  exists w1 w2, sql_query (my_db t) (bytes "begin") w = (w1, 0)
    /\ sql_query (my_db t) (delete_query k) w1 = (w2, 0)
    /\ sql_affected_rows (my_db t) w2 = (if r is Some _ then 1 else 0)
    /\ match r with
       | None => w' = w2
       | Some _ => exists w3, sql_query (my_db t) (insert_query k v1 v2 v3) w2 = (w3, 0)
                     /\ sql_query (my_db t) (bytes "commit") w3 = (w', 0)
       end.

(** Replacing a row by delete and insert in a transaction: on a record that tracks
    its row, a server that executes the statements leads to no error, and the record
    tracks the new row (or its absence). *)
Theorem op_delins_verifies t rec r (w w' : W) :
  tracks rec r ->
  (let values := new_values "div1_" "div2_" "div3_" (key rec) (my_id t) in
   delins_served t (key rec) (op_value "div1_" (key rec) (my_id t))
     (op_value "div2_" (key rec) (my_id t)) (op_value "div3_" (key rec) (my_id t)) r w w' ->
   exists t' rec', op_delins t rec w = (w', t', rec', 0)
     /\ tracks rec' (if r is Some _ then Some values else None)
     /\ no_errors (my_stat t) (my_stat t') /\ my_connected t' = my_connected t).
Proof.
  intros Ht vals (w1 & w2 & Hb & Hd & Ha & Hr). unfold op_delins, delins_transaction.
  rewrite Hb, Hd. cbn [Z.eqb negb]. rewrite Ha. unfold verify_update.
  pose proof (tracks_written rec r "div1_" "div2_" "div3_" (my_id t)) as Hw.
  pose proof (check_present_tracks rec r (my_stat t) Ht) as Hp.
  destruct r as [vs|]; cbn [Z.eqb Pos.eqb negb].
  - destruct Hr as (w3 & Hi & Hc). rewrite Hi. cbn [Z.eqb negb]. rewrite Hc.
    cbn [Z.eqb Pos.eqb negb]. rewrite bool_decide_eq_true_2 in Hp by by eexists. rewrite Hp.
    eexists _, _. split; [reflexivity|]. split; [|split; [apply count_success_no_errors|done]].
    assert (Hdel : deleted rec = false) by (destruct Ht as [Hn _ _ _]; by destruct (deleted rec)).
    unfold with_unknown, with_values. cbn. rewrite Hdel. by apply Hw.
  - rewrite bool_decide_eq_false_2 in Hp by by intros []. rewrite Hp. subst w'.
    eexists _, _. split; [reflexivity|]. split; [|done].
    destruct Ht as [Hn Hl Hbs Hk]. by split.
Qed.

(** A lost connection is reported as a wrong answer. When [begin] fails on a
    row that is known to exist, [op_delins] counts a verification error, marks the state
    of the row as known, and stays connected, so that the next iteration does the same. *)
Theorem op_delins_lost_connection t rec (w w1 : W) r :
  unknown_state rec = false -> deleted rec = false ->
  sql_query (my_db t) (bytes "begin") w = (w1, r) -> r <> 0 ->
  exists t', op_delins t rec w = (w1, t', rec, 1)
    /\ verify_error_count (my_stat t') = wrap_u64 (verify_error_count (my_stat t) + 1)
    /\ my_connected t' = my_connected t /\ my_db t' = my_db t.
Proof.
  intros Hu Hd Hq Hr. unfold op_delins, delins_transaction. rewrite Hq.
  destruct (Z.eqb_spec r 0); [done|]. cbn [negb]. unfold verify_update, check_present.
  destruct rec as [d u k vs]. simpl in Hu, Hd. subst d u. cbn. eexists. by split; [reflexivity|].
Qed.
End SqlSpec.

(** ** The summary *)
Definition sum_of (f : hs_longrun_stat -> Z) (l : list hs_longrun_stat) : Z :=
  foldr (fun s acc => f s + acc) 0 l.

Lemma stat_add_counts s x :
  verify_error_count (stat_add s x) = wrap_u64 (verify_error_count s + verify_error_count x)
  /\ runtime_error_count (stat_add s x) = wrap_u64 (runtime_error_count s + runtime_error_count x)
  /\ unknown_count (stat_add s x) = wrap_u64 (unknown_count s + unknown_count x)
  /\ success_count (stat_add s x) = wrap_u64 (success_count s + success_count x).
Proof. done. Qed.

(** One of the four counters, as a homomorphism. *)
Record counter (f : hs_longrun_stat -> Z) : Prop := {
  ct_zero : f stat_new = 0;
  ct_add : forall s x, f (stat_add s x) = wrap_u64 (f s + f x)
}.

Lemma wrap_u64_add_l a b : wrap_u64 (wrap_u64 a + b) = wrap_u64 (a + b).
Proof. unfold wrap_u64. by rewrite Zplus_mod_idemp_l. Qed.
Lemma wrap_u64_add_r a b : wrap_u64 (a + wrap_u64 b) = wrap_u64 (a + b).
Proof. unfold wrap_u64. by rewrite Zplus_mod_idemp_r. Qed.

Lemma foldl_stat_add f l s :
  counter f -> wrap_u64 (f (foldl stat_add s l)) = wrap_u64 (f s + sum_of f l).
Proof.
  intros Hf. revert s. induction l as [|x l IH]; intros s; simpl; [by rewrite Z.add_0_r|].
  rewrite IH, (ct_add f Hf), wrap_u64_add_l. f_equal. lia.
Qed.

Lemma sum_of_perm f l l' : l ≡ₚ l' -> sum_of f l = sum_of f l'.
Proof. induction 1; simpl; lia. Qed.

(** Adding a thread to the map adds its counter to the sum over the map. *)
Lemma summarize_thread_sum f sm thr :
  counter f ->
  wrap_u64 (sum_of f (map_to_list (summarize_thread sm thr)).*2)
  = wrap_u64 (sum_of f (map_to_list sm).*2 + f thr.2).
Proof.
  intros Hf. destruct thr as [ty s]. unfold summarize_thread. cbn [fst snd].
  destruct (sm !! ty) as [s0|] eqn:E; cbn [default from_option id].
  - rewrite <- insert_delete_eq.
    rewrite (sum_of_perm f _ (stat_add s0 s :: (map_to_list (delete ty sm)).*2)).
    2:{ rewrite map_to_list_insert by apply lookup_delete_eq. done. }
    rewrite (sum_of_perm f (map_to_list sm).*2 (s0 :: (map_to_list (delete ty sm)).*2)).
    2:{ rewrite <- (insert_id sm ty s0) at 1 by done. rewrite <- insert_delete_eq.
        rewrite map_to_list_insert by apply lookup_delete_eq. done. }
    simpl. rewrite (ct_add f Hf), wrap_u64_add_l. f_equal. lia.
  - rewrite (sum_of_perm f _ (stat_add stat_new s :: (map_to_list sm).*2)).
    2:{ rewrite map_to_list_insert by done. done. }
    simpl. rewrite (ct_add f Hf), (ct_zero f Hf), wrap_u64_add_l. f_equal. lia.
Qed.

Lemma summarize_sum f thrs sm :
  counter f ->
  wrap_u64 (sum_of f (map_to_list (foldl summarize_thread sm thrs)).*2)
  = wrap_u64 (sum_of f (map_to_list sm).*2 + sum_of f thrs.*2).
Proof.
  intros Hf. revert sm. induction thrs as [|thr thrs IH]; intros sm; simpl; [by rewrite Z.add_0_r|].
  rewrite IH, <- wrap_u64_add_l, summarize_thread_sum, wrap_u64_add_l by done. f_equal.
  change (list_fmap _ _ snd thrs) with thrs.*2. lia.
Qed.

Lemma summarize_counter f thrs :
  counter f -> wrap_u64 (f (total_stat (summarize thrs))) = wrap_u64 (sum_of f thrs.*2).
Proof.
  intros Hf. unfold total_stat, summarize. rewrite foldl_stat_add, (ct_zero f Hf) by done.
  rewrite Z.add_0_l, summarize_sum, map_to_list_empty by done. done.
Qed.

(** The summary loses nothing. Grouping the threads by type and adding up the groups
    gives, for each of the four counters, the sum over all threads (modulo 2^64). *)
Theorem summary_is_sum thrs :
  let total := total_stat (summarize thrs) in
  wrap_u64 (verify_error_count total) = wrap_u64 (sum_of verify_error_count thrs.*2)
  /\ wrap_u64 (runtime_error_count total) = wrap_u64 (sum_of runtime_error_count thrs.*2)
  /\ wrap_u64 (unknown_count total) = wrap_u64 (sum_of unknown_count thrs.*2)
  /\ wrap_u64 (success_count total) = wrap_u64 (sum_of success_count thrs.*2).
Proof. split_and!; by apply summarize_counter. Qed.

(** ** The hypotheses at concrete inputs *)
Definition sample_key : list Z := bytes "7".

Definition sample_record : record_value :=
  mkRecord false false sample_key [sample_key; bytes "a"; bytes "b"; bytes "c"].

Lemma sample_tracks : tracks sample_record (Some (values sample_record)).
Proof. split; [done|done|by_decide|by_decide]. Qed.

(** Worker 3 updates row 7. *)
Lemma op_verifies_witness :
  exists c' rec' s',
    @run_op script script_net 1 0 OpUpdate 3 sample_record stat_new sample_client
      (mkScript [count_reply 1 ++ [LF]] [])
    = Ok (mkScript [] [op_line OpUpdate 3 sample_key], c', rec', s', 0)
    /\ ready c' /\ tracks rec' (Some (new_values "uv1_" "uv2_" "uv3_" sample_key 3))
    /\ no_errors stat_new s'.
Proof.
  apply (@op_verifies script script_net 1 0 ltac:(lia) OpUpdate 3 sample_record stat_new sample_client
           (Some (values sample_record))).
  - apply sample_ready.
  - apply sample_tracks.
  - apply script_served; [lia|vm_compute; reflexivity].
Defined.

(** A generator that always draws the first record. *)
Definition first_record : Random script := {| draw := fun _ w => (w, 0) |}.

Definition sample_worker : hs_worker :=
  mkWorker 3 "U"%char true stat_new None (hs_args (bytes "/tmp/handler_socket_write")).

Lemma hs_run_safe_witness :
  match @hs_run script script_net first_record 4 0 [0; 1; 0]%nat [sample_worker; sample_worker] [sample_record]
          (mkScript [count_reply 1 ++ [LF]] []) with
  | Ok (_, _, records') => length records' = 1%nat /\ Forall record_ok records'
  | Fault f => f = OutOfFuel
  end.
Proof.
  apply (@hs_run_safe script script_net first_record 4 0 [0; 1; 0]%nat [sample_worker; sample_worker]
           [sample_record]).
  - done.
  - by repeat constructor.
  - done.
  - by apply Forall_singleton.
Defined.

Lemma verify_read_exact_witness :
  verify_read 1 4 [sample_key; bytes "a"; bytes "x"; bytes "c"] sample_record stat_new
  = Ok (1, stat_new).
Proof.
  rewrite (verify_read_exact sample_record 1 4 [sample_key; bytes "a"; bytes "x"; bytes "c"] stat_new).
  - reflexivity.
  - reflexivity.
  - done.
  - reflexivity.
Defined.

(** A server that executes every statement; it counts them. *)
Definition counting_sql : SqlClient Z := {|
  sql_init w := (w, Some 1);
  sql_close _ w := w;
  sql_connect _ _ _ _ _ w := (w, true);
  sql_query _ _ w := (w + 1, 0);
  sql_affected_rows _ _ := 1;
  sql_store_result _ w := (w, None)
|}.

Definition sample_my : my_worker := mkMy 5 "T"%char stat_new 1 true.

Lemma op_delins_verifies_witness :
  exists t' rec', @op_delins Z counting_sql sample_my sample_record 0 = (4, t', rec', 0)
    /\ tracks rec' (Some (new_values "div1_" "div2_" "div3_" sample_key 5))
    /\ no_errors stat_new (my_stat t') /\ my_connected t' = true.
Proof.
  apply (@op_delins_verifies Z counting_sql sample_my sample_record (Some (values sample_record)) 0 4).
  - apply sample_tracks.
  - exists 1, 2. split; [done|]. split; [done|]. split; [done|]. exists 3. by split.
Defined.

(** A server that refuses every statement. *)
Definition lost_sql : SqlClient Z := {|
  sql_init w := (w, Some 1);
  sql_close _ w := w;
  sql_connect _ _ _ _ _ w := (w, false);
  sql_query _ _ w := (w, 2006);
  sql_affected_rows _ _ := 0;
  sql_store_result _ w := (w, None)
|}.

Lemma op_delins_lost_connection_witness :
  exists t', @op_delins Z lost_sql sample_my sample_record 0 = (0, t', sample_record, 1)
    /\ verify_error_count (my_stat t') = 1 /\ my_connected t' = true /\ my_db t' = 1.
Proof.
  apply (@op_delins_lost_connection Z lost_sql sample_my sample_record 0 0 2006); done.
Defined.
