(* ===== verification/LongrunAll.v ===== *)
(** * LongrunAll: all workers of the load generator on one table ([libhsclient/hslongrun.cpp])

    The main thread reads the configuration, prepares the table, creates the workers of both
    kinds from the templates and lets them run on the shared records.  [Longrun] and
    [LongrunMain] have one iteration of each kind; here is the whole, from the configuration
    to the last iteration. *)
From Stdlib Require Import Ascii.
From S2P Require Import Prelude Text StringUtil Socket Hstcpcli HstcpcliSpec Longrun LongrunMain LongrunSpec.
#[local] Open Scope Z_scope.

(** [hs_longrun_thread_hs] or [hs_longrun_thread_my] behind the base class. *)
Inductive any_worker := HsWorker (t : hs_worker) | MyWorker (t : my_worker).

Section All.
Context {W : Type} `{Net W, Random W, SqlClient W}.
Variable recv_fuel : nat.
Variable verbose : Z.

(** The constructors; that of a MySQL worker has an [auto_mysql]. *)
Definition new_worker (spec : thread_spec) (w : W) : outcome (W * any_worker) :=
  let '(id, e) := spec in
  if tm_hs e
  then Ok (w, HsWorker (Longrun.mkWorker id (tm_op e) (tm_lock e) stat_new None socket_args_default))
  else
    let '(w, db) := sql_init w in
    db ← of_option FatalAbort db;
    Ok (w, MyWorker (mkMy id (tm_op e) stat_new db false)).

Fixpoint new_workers (specs : list thread_spec) (w : W) : outcome (W * list any_worker) :=
  match specs with
  | [] => Ok (w, [])
  | spec :: more =>
      '(w, t) ← new_worker spec w; '(w, ts) ← new_workers more w; Ok (w, t :: ts)
  end.

(** What [run] does before its loop. *)
Definition run_prologue (conf : config) (t : any_worker) (w : W) : outcome any_worker :=
  match t with
  | HsWorker t =>
      c ← hs_config conf (hw_op t);
      a ← socket_args_set (hw_sockargs t) c w;
      Ok (HsWorker (Longrun.mkWorker (hw_id t) (hw_op t) (hw_lock_flag t) (hw_stat t) (hw_cli t) a))
  | MyWorker t => Ok (MyWorker t)
  end.

Fixpoint run_prologues (conf : config) (ts : list any_worker) (w : W) : outcome (list any_worker) :=
  match ts with
  | [] => Ok []
  | t :: more => t ← run_prologue conf t w; more ← run_prologues conf more w; Ok (t :: more)
  end.

(** One iteration of the loop of a worker. *)
Definition run_step (conf : config) (t : any_worker) (records : list record_value) (w : W)
    : outcome (W * any_worker * list record_value) :=
  match t with
  | HsWorker t =>
      '(w, t, records) ← hs_run_step recv_fuel verbose t records w; Ok (w, HsWorker t, records)
  | MyWorker t => '(w, t, records) ← my_run_step conf t records w; Ok (w, MyWorker t, records)
  end.

(** The iterations of all workers in the order of the schedule. *)
Fixpoint run_all (conf : config) (schedule : list nat) (ts : list any_worker)
    (records : list record_value) (w : W) : outcome (W * list any_worker * list record_value) :=
  match schedule with
  | [] => Ok (w, ts, records)
  | i :: more =>
      match ts !! i with
      | None => run_all conf more ts records w
      | Some t =>
          '(w, t, records) ← run_step conf t records w;
          run_all conf more (<[i := t]> ts) records w
      end
  end.

(** From the plan to the last iteration. *)
Definition longrun (plan : longrun_plan) (schedule : list nat) (w : W)
    : outcome (W * list any_worker * list record_value) :=
  '(records, w) ← hs_longrun_init_table (pl_conf plan) (pl_prepare plan) (pl_records plan) w;
  '(w, ts) ← new_workers (make_threads (pl_templates plan) 0) w;
  ts ← run_prologues (pl_conf plan) ts w;
  run_all (pl_conf plan) schedule ts records w.
End All.

(** Faults of the memory; a process that gives up or a peer that never ends its line are not. *)
Definition memory_fault (f : fault) : Prop :=
  match f with OutOfBounds | NullDeref | Uninitialized => True | _ => False end.

Lemma returns_weaken {A} (F G : fault -> Prop) (P : A -> Prop) m :
  (forall f, F f -> G f) -> returns F P m -> returns G P m.
Proof. intros HFG. destruct m; simpl; auto. Qed.

Definition benign (f : fault) : Prop := ~ memory_fault f.

Lemma out_of_fuel_benign f : OutOfFuel = f -> benign f.
Proof. intros <- []. Qed.

Lemma int_op_benign z : returns benign (fun _ => True) (int_op z).
Proof. unfold int_op. case_decide; [done|]. by intros []. Qed.

Ltac benign_bind := apply returns_bind with (Q := fun _ => True); [|intros].

Lemma ll_op_benign z : returns benign (fun _ => True) (ll_op z).
Proof. unfold ll_op. case_match; [done|]. by intros []. Qed.

Lemma atoll_loop_benign neg l v : returns benign (fun _ => True) (atoll_loop neg l v).
Proof.
  revert v. induction l as [|c l IH]; intros v; [done|]. cbn [atoll_loop]. case_match; [done|].
  benign_bind; [apply ll_op_benign|]. benign_bind; [destruct neg; apply ll_op_benign|]. apply IH.
Qed.

Lemma get_int_benign conf k def : returns benign (fun _ => True) (get_int conf k def).
Proof.
  unfold get_int. case_match; [|done]. unfold atoll, atoll_nocheck. destruct (skip_spaces _); [done|].
  repeat case_match; apply atoll_loop_benign.
Qed.

Lemma hs_config_benign conf op : returns benign (fun _ => True) (hs_config conf op).
Proof. unfold hs_config. benign_bind; [|done]. case_match; apply get_int_benign. Qed.

Section AllFacts.
Context {W : Type} `{Net W, Random W, SqlClient W}.

Lemma socket_args_set_benign a conf (w : W) : returns benign (fun _ => True) (socket_args_set a conf w).
Proof.
  unfold socket_args_set. do 2 (benign_bind; [apply get_int_benign|]).
  benign_bind; [|do 2 (benign_bind; [apply get_int_benign|]); done].
  case_match; [|done]. case_match; [done|]. destruct (resolve _ _ _ w) as [r a']. simpl.
  case_match; [by intros []|done].
Qed.

(** What the code relies on: [drand48_r] gives no negative number, a row of a result has as
    many fields as the result says. *)
Definition draws_nonneg : Prop := forall sz (w : W), 0 <= (draw sz w).2.
Definition full_rows : Prop := forall db (w : W) n rows,
  (sql_store_result db w).2 = Some (n, rows) -> Forall (fun row => Z.of_nat (length row) = n) rows.

Lemma reset_db_benign db (w : W) : returns benign (fun _ => True) (reset_db db w).
Proof.
  unfold reset_db. destruct (sql_init (sql_close db w)) as [w1 [d|]]; simpl; [done|]. by intros [].
Qed.

Lemma show_mysql_error_benign t (w : W) : returns benign (fun _ => True) (show_mysql_error t w).
Proof. unfold show_mysql_error. benign_bind; [apply reset_db_benign|]. by case_match. Qed.

Lemma my_op_read_safe t rec (w : W) :
  full_rows -> record_ok rec -> returns benign (fun r => record_ok r.1.2) (my_op_read t rec w).
Proof.
  intros Hfull Hr. unfold my_op_read. destruct (sql_query _ _ w) as [w1 r]. case_match.
  - benign_bind; [apply show_mysql_error_benign|]. by case_match.
  - destruct (sql_store_result (my_db t) w1) as [w2 res] eqn:Er.
    apply returns_bind with (Q := fun r => (4 <= length r.2)%nat).
    + unfold my_record. destruct res as [[n [|row more]]|]; [simpl; lia| |simpl; lia].
      destruct (Z.eqb_spec n 4) as [->|]; [|simpl; lia].
      pose proof (Hfull (my_db t) w1 4 (row :: more)) as Hf. rewrite Er in Hf. specialize (Hf eq_refl).
      apply Forall_cons in Hf as [Hf _]. rewrite read_record_Ok by (unfold string_ref in *; lia).
      cbn [mbind outcome_bind returns snd]. rewrite length_fmap, length_take.
      unfold string_ref in *. lia.
    + intros [[nf nr] rrec] Hl. simpl in Hl. benign_bind; [|by case_match].
      eapply returns_weaken; [apply out_of_fuel_benign|]. by apply verify_read_returns.
Qed.

Lemma op_delins_safe t rec (w : W) : record_ok rec -> record_ok (op_delins t rec w).1.2.
Proof.
  intros Hr. unfold op_delins. destruct (delins_transaction _ _ _ _ _ w) as [[w1 ok] u].
  match goal with |- context [verify_update ?k ?a ?b ?c rec ?n ?u ?s] =>
    pose proof (verify_update_ok k a b c rec n u s Hr) as Hv;
    destruct (verify_update k a b c rec n u s) as [[ret rec'] s'] end.
  exact Hv.
Qed.

Lemma my_run_step_safe conf t records (w : W) :
  draws_nonneg -> full_rows -> records <> [] -> Forall record_ok records ->
  returns benign (fun r => length r.2 = length records /\ Forall record_ok r.2)
    (my_run_step conf t records w).
Proof.
  intros Hd Hfull Hne Hrs. unfold my_run_step.
  destruct (if my_connected t then _ else _) as [w1 ok].
  destruct ok; cbn [negb]; [|benign_bind; [apply show_mysql_error_benign|]; by case_match].
  assert (Hn : (0 < length records)%nat) by (destruct records; [done|simpl; lia]).
  pose proof (rand_record_bound _ w1 Hn Hd) as Hb.
  destruct (rand_record (length records) w1) as [w2 i]. simpl in Hb.
  destruct (lookup_lt_is_Some_2 records (Z.to_nat i) ltac:(lia)) as [rec Hrec].
  rewrite (proj2 (array_get_Ok records i rec)) by (split; [lia|done]). cbn [mbind outcome_bind].
  pose proof (Forall_lookup_1 _ _ _ _ Hrs Hrec) as Hrok.
  apply returns_bind with (Q := fun r => record_ok r.1.2).
  - case_match; [by apply op_delins_safe|]. case_match; [by apply my_op_read_safe|done].
  - intros [[[w3 t3] rec3] r3] Hr3. simpl in Hr3. rewrite array_set_Ok by lia. simpl.
    rewrite length_insert. split; [done|]. by apply Forall_insert.
Qed.

Lemma mysql_do_benign db q (w : W) : returns benign (fun _ => True) (mysql_do db q w).
Proof. unfold mysql_do. destruct (sql_query _ _ w) as [w1 r]. destruct (r =? 0); [done|by intros []]. Qed.

Lemma prepare_rows_safe n i db records (w : W) :
  0 <= i -> i + Z.of_nat n <= Z.of_nat (length records) -> Forall record_ok records ->
  returns benign (fun r => length r.1 = length records /\ Forall record_ok r.1)
    (prepare_rows n i db records w).
Proof.
  revert i records w. induction n as [|n IH]; intros i records w Hi Hn Hrs; [done|].
  cbn [prepare_rows]. benign_bind; [apply mysql_do_benign|].
  destruct (lookup_lt_is_Some_2 records (Z.to_nat i) ltac:(lia)) as [rec Hrec].
  rewrite (proj2 (array_get_Ok records i rec)) by (split; [lia|done]). cbn [mbind outcome_bind].
  rewrite array_set_Ok by lia. cbn [mbind outcome_bind].
  eapply returns_impl; [apply IH|].
  - lia.
  - rewrite length_insert. lia.
  - apply Forall_insert; [done|]. apply written_ok.
  - intros r. by rewrite length_insert.
Qed.

Lemma init_table_safe conf n records (w : W) :
  n <= Z.of_nat (length records) -> Forall record_ok records ->
  returns benign (fun r => length r.1 = length records /\ Forall record_ok r.1)
    (hs_longrun_init_table conf n records w).
Proof.
  intros Hn Hrs. unfold hs_longrun_init_table. destruct (sql_init w) as [w1 [db|]]; [|by intros []].
  cbn [of_option mbind outcome_bind]. destruct (sql_connect _ _ _ _ _ w1) as [w2 ok].
  destruct ok; [|by intros []]. cbn [checked mbind outcome_bind].
  do 4 (benign_bind; [apply mysql_do_benign|]).
  eapply returns_bind; [apply prepare_rows_safe; [lia|lia|done]|]. by intros [rs w'].
Qed.

(** A worker that does not hold on to broken memory. *)
Definition any_inv (t : any_worker) : Prop :=
  match t with HsWorker t => worker_inv t | MyWorker _ => True end.

Lemma new_workers_safe specs (w : W) :
  returns benign (fun r => Forall any_inv r.2) (new_workers specs w).
Proof.
  revert w. induction specs as [|[id e] specs IH]; intros w; [simpl; constructor|]. cbn [new_workers].
  apply returns_bind with (Q := fun r => any_inv r.2).
  - unfold new_worker. destruct (tm_hs e); [done|]. destruct (sql_init w) as [w1 [db|]]; [done|by intros []].
  - intros [w1 t] Ht. eapply returns_bind; [apply IH|]. intros [w2 ts] Hts. by constructor.
Qed.

Lemma run_prologues_safe conf ts (w : W) :
  Forall any_inv ts -> returns benign (Forall any_inv) (run_prologues conf ts w).
Proof.
  induction 1 as [|t ts Ht Hts IH]; [simpl; constructor|]. cbn [run_prologues].
  apply returns_bind with (Q := any_inv).
  - destruct t as [t|t]; [|done]. cbn [run_prologue]. benign_bind; [apply hs_config_benign|].
    benign_bind; [apply socket_args_set_benign|]. exact Ht.
  - intros t' Ht'. eapply returns_bind; [exact IH|]. intros ts' Hts'. by constructor.
Qed.

Lemma run_step_safe recv verbose conf t records (w : W) :
  draws_nonneg -> full_rows -> any_inv t -> records <> [] -> Forall record_ok records ->
  returns benign
    (fun r => any_inv r.1.2 /\ length r.2 = length records /\ Forall record_ok r.2)
    (run_step recv verbose conf t records w).
Proof.
  intros Hd Hfull Ht Hne Hrs. destruct t as [t|t]; cbn [run_step].
  - eapply returns_bind.
    + eapply returns_weaken; [apply out_of_fuel_benign|]. by apply hs_run_step_safe.
    + by intros [[w1 t1] rs1].
  - eapply returns_bind; [by apply my_run_step_safe|]. by intros [[w1 t1] rs1].
Qed.

Lemma run_all_safe recv verbose conf schedule ts records (w : W) :
  draws_nonneg -> full_rows -> Forall any_inv ts -> records <> [] -> Forall record_ok records ->
  returns benign (fun r => length r.2 = length records /\ Forall record_ok r.2)
    (run_all recv verbose conf schedule ts records w).
Proof.
  intros Hd Hfull. revert ts records w.
  induction schedule as [|i schedule IH]; intros ts records w Hts Hne Hrs; [done|]. cbn [run_all].
  destruct (ts !! i) as [t|] eqn:Et; [|by apply IH].
  eapply returns_bind.
  - apply run_step_safe; try done. by eapply Forall_lookup_1.
  - intros [[w1 t1] rs1] (Ht1 & Hl & Hrs1). simpl in *. rewrite <- Hl. apply IH; [|by destruct rs1, records|done].
    by apply Forall_insert.
Qed.

(** The plan asks for no more prepared rows than there are records. *)
Lemma plan_prepares conf plan :
  plan_of conf = Ok plan ->
  pl_prepare plan <= Z.of_nat (length (pl_records plan)) /\ Forall record_ok (pl_records plan).
Proof.
  unfold plan_of. intros Hp. repeat (apply bind_Ok_inv in Hp as (? & _ & Hp)). injection Hp as <-.
  cbn [pl_prepare pl_records]. unfold make_records. split.
  - rewrite length_fmap, length_seq. case_match; lia.
  - apply Forall_fmap, Forall_true. intros i Hd. done.
Qed.
End AllFacts.

(** C37: The load generator is memory safe from its configuration on.  For every configuration
    that asks for at least one record, whatever both servers answer, however often connections
    fail and in whatever order the workers of both kinds take their iterations, preparing the
    table, starting the workers and running them never reads or writes outside a buffer, a row, the
    values of a record or the table, and never uses a null client; the records keep their
    four values.  A process that gives up, a number too large for [atoll] and a server that never
    ends its line are the ways not to come back. *)
Theorem longrun_memory_safe {W} `{Net W, Random W, SqlClient W} recv verbose conf plan schedule (w : W) :
  draws_nonneg (W := W) -> full_rows (W := W) ->
  plan_of conf = Ok plan -> pl_records plan <> [] ->
  match longrun recv verbose plan schedule w with
  | Ok (_, _, records) => length records = length (pl_records plan) /\ Forall record_ok records
  | Fault f => ~ memory_fault f
  end.
Proof.
  intros Hd Hfull Hp Hne. destruct (plan_prepares _ _ Hp) as [Hn Hrs].
  enough (Hr : returns benign
    (fun r => length r.2 = length (pl_records plan) /\ Forall record_ok r.2)
    (longrun recv verbose plan schedule w))
    by (destruct (longrun recv verbose plan schedule w) as [[[w' ts] rs]|f]; exact Hr).
  unfold longrun. eapply returns_bind; [by apply init_table_safe|]. intros [records w1] [Hl Hrs1].
  simpl in Hl, Hrs1. eapply returns_bind; [apply new_workers_safe|]. intros [w2 ts] Hts.
  eapply returns_bind; [by apply run_prologues_safe|]. intros ts' Hts'.
  eapply returns_impl; [apply run_all_safe|]; try done.
  - by destruct records, (pl_records plan).
  - intros r. by rewrite Hl.
Qed.

(** Without records the first worker that gets that far reads outside the table. *)
Lemma empty_table_faults {W} `{Random W, SqlClient W} conf t (w : W) :
  my_connected t = true -> my_run_step conf t [] w = Fault OutOfBounds.
Proof.
  intros Ht. unfold my_run_step. rewrite Ht. cbn [negb length]. unfold rand_record.
  destruct (draw _ w) as [w1 r]. unfold array_get, lookup.
  destruct (_ <? 0); [done|]. by destruct (Z.to_nat _).
Qed.

(** ** At a concrete configuration *)
(** A MySQL server that accepts every statement and has one row. *)
Definition one_row_sql : SqlClient script := {|
  sql_init w := (w, Some 1);
  sql_close _ w := w;
  sql_connect _ _ _ _ _ w := (w, true);
  sql_query _ _ w := (w, 0);
  sql_affected_rows _ _ := 1;
  sql_store_result _ w := (w, Some (4, [[Some (bytes "0"); Some (bytes "a"); Some (bytes "b"); None]]))
|}.

(** Two records, one inserting worker and one of each kind of MySQL worker. *)
Definition small_conf : config :=
  parse_args_loop (bytes <$> ["table_size=2"; "num_hsinsert=1"; "num_hsdelete=0"; "num_hsupdate=0";
    "num_hsread=0"; "num_myread=1"; "num_mydelins=1"; "host=/"; "hsport_wr=/tmp/hs"]%string) ∅.

Lemma longrun_memory_safe_witness :
  exists plan w ts records,
    plan_of small_conf = Ok plan
    /\ @longrun script script_net first_record one_row_sql 4 0 plan [0; 1; 2; 1; 2]%nat
         (mkScript [[48; TAB; 49; LF]; count_reply 1 ++ [LF]] []) = Ok (w, ts, records)
    /\ length records = 2%nat /\ Forall record_ok records.
Proof.
  destruct (plan_of small_conf) as [plan|f] eqn:Hp; [|vm_compute in Hp; discriminate].
  assert (Hpl : length (pl_records plan) = 2%nat /\ exists w ts records,
    @longrun script script_net first_record one_row_sql 4 0 plan [0; 1; 2; 1; 2]%nat
      (mkScript [[48; TAB; 49; LF]; count_reply 1 ++ [LF]] []) = Ok (w, ts, records)).
  { vm_compute in Hp. injection Hp as <-. split; [reflexivity|]. do 3 eexists. vm_compute. reflexivity. }
  destruct Hpl as (Hlen & w & ts & records & Hrun). exists plan, w, ts, records.
  split; [reflexivity|]. split; [exact Hrun|].
  pose proof (@longrun_memory_safe script script_net first_record one_row_sql 4 0 small_conf plan
    [0; 1; 2; 1; 2]%nat (mkScript [[48; TAB; 49; LF]; count_reply 1 ++ [LF]] [])) as Hs.
  rewrite Hrun, Hlen in Hs. apply Hs.
  - intros sz v. vm_compute. discriminate.
  - intros db v n rows [= <- <-]. by repeat constructor.
  - exact Hp.
  - intros Hnil. rewrite Hnil in Hlen. discriminate.
Defined.
