(* ===== verification/LongrunRun.v ===== *)
(** * LongrunRun: a run of the load generator ([hs_longrun_main] of [libhsclient/hslongrun.cpp])

    The main thread prepares the table, starts one thread object ([Thread]) per worker,
    sleeps, clears the flag [running], joins the threads and prints the counters.  What the
    workers do meanwhile ([Longrun], [LongrunMain]) belongs to the world: the class [Workers]
    is what the main thread sees of them. *)
From Stdlib Require Import Ascii.
From stdpp Require Import sorting.
From S2P Require Import Prelude Text StringUtil Socket Thread Longrun LongrunMain LongrunSpec.
#[local] Open Scope Z_scope.

(** The flag the workers poll, [sleep], and the counters of a worker by its id. *)
Class Workers (W : Type) := {
  set_running : Z -> W -> W;
  sys_sleep : Z -> W -> W;
  worker_stat : Z -> W -> hs_longrun_stat
}.

(** ** The printed summary *)

(** The order of the keys of a [std::map] of strings: lexicographic, bytes unsigned. *)
Fixpoint bytes_leb (a b : list Z) : bool :=
  match a, b with
  | [], _ => true
  | _ :: _, [] => false
  | x :: a, y :: b => (x <? y) || (x =? y) && bytes_leb a b
  end.

Definition key_le (a b : list Z * hs_longrun_stat) : Prop := bytes_leb a.1 b.1 = true.

#[export] Instance key_le_dec : RelDecision key_le.
Proof. intros a b. unfold key_le. apply _. Defined.

Definition sorted_stats (sm : stat_map) : list (list Z * hs_longrun_stat) :=
  merge_sort key_le (map_to_list sm).

Definition summary_line (who : list Z) (what : string) (n : Z) : list Z :=
  who ++ bytes what ++ dec_int n.

(** A counter of errors is printed unless it is 0, [success] always. *)
Definition stat_lines (who : list Z) (s : hs_longrun_stat) : list (list Z) :=
  (if verify_error_count s =? 0 then []
   else [summary_line who " verify_error " (verify_error_count s)])
  ++ (if runtime_error_count s =? 0 then []
      else [summary_line who " runtime_error " (runtime_error_count s)])
  ++ (if unknown_count s =? 0 then [] else [summary_line who " unknown " (unknown_count s)])
  ++ [summary_line who " success " (success_count s)].

Definition summary_lines (sm : stat_map) : list (list Z) :=
  mjoin ((fun p => stat_lines p.1 p.2) <$> sorted_stats sm)
  ++ stat_lines (bytes "TOTAL") (foldl stat_add stat_new (sorted_stats sm).*2).

(** ** [hs_longrun_main] *)
Section Main.
Context {W : Type} `{SqlClient W, PThreads W, Workers W}.

(** The workers as thread objects, with the stack size of [thread_base]. *)
Definition worker_threads (specs : list thread_spec) : list thread :=
  (fun _ => thread_new (256 * 1024)) <$> specs.

Definition worker_stats (specs : list thread_spec) (w : W) : list (list Z * hs_longrun_stat) :=
  (fun e => (tm_type e.2, worker_stat e.1 w)) <$> specs.

(** Start the workers, wait, stop them and wait for each. *)
Definition run_workers (specs : list thread_spec) (duration : Z) (w : W)
    : outcome (W * list thread) :=
  '(w, ts) ← start_all (worker_threads specs) (set_running 1 w);
  join_all ts (set_running 0 (sys_sleep duration w)).

(** The destructors of the container. *)
Fixpoint destroy_all (ts : list thread) (w : W) : outcome W :=
  match ts with [] => Ok w | t :: ts => w ← thread_destroy t w; destroy_all ts w end.

(** The lines printed between START and the end, and what the process returns. *)
Definition hs_longrun_main (argv : list (list Z)) (verbose_level : Z) (w : W)
    : outcome (W * list (list Z) * Z) :=
  '(conf, _) ← parse_args argv ∅ verbose_level;
  plan ← plan_of conf;
  '(_, w) ← hs_longrun_init_table (pl_conf plan) (pl_prepare plan) (pl_records plan) w;
  let specs := make_threads (pl_templates plan) 0 in
  '(w, ts) ← run_workers specs (pl_duration plan) w;
  let lines := bytes "START" :: bytes "DONE" :: summary_lines (summarize (worker_stats specs w)) in
  w ← destroy_all ts w;
  Ok (w, lines, 0).
End Main.

(** ** What a run leaves and prints *)

(** The calls of the main thread that are not about threads create none, whatever the
    workers do in the meantime. *)
Class WorkerLaws (W : Type) `{SqlClient W, PThreadLaws W, Workers W} := {
  joinable_set_running r w : joinable (set_running r w) = joinable w;
  joinable_sleep n w : joinable (sys_sleep n w) = joinable w;
  joinable_sql_init w : joinable (sql_init w).1 = joinable w;
  joinable_sql_close db w : joinable (sql_close db w) = joinable w;
  joinable_sql_connect db h u p d w : joinable (sql_connect db h u p d w).1 = joinable w;
  joinable_sql_query db q w : joinable (sql_query db q w).1 = joinable w
}.

Lemma sorted_stats_perm sm : sorted_stats sm ≡ₚ map_to_list sm.
Proof. apply merge_sort_Permutation. Qed.

Lemma sum_of_sorted f sm : sum_of f (sorted_stats sm).*2 = sum_of f (map_to_list sm).*2.
Proof. apply sum_of_perm. by rewrite sorted_stats_perm. Qed.

Lemma printed_total f thrs :
  counter f ->
  wrap_u64 (f (foldl stat_add stat_new (sorted_stats (summarize thrs)).*2))
  = wrap_u64 (sum_of f thrs.*2).
Proof.
  intros Hf. rewrite foldl_stat_add, (ct_zero f Hf), Z.add_0_l, sum_of_sorted by done.
  unfold summarize. by rewrite summarize_sum, map_to_list_empty.
Qed.

Section Run.
Context {W : Type} `{WorkerLaws W}.

Lemma worker_threads_idle specs : Forall idle (worker_threads specs).
Proof. apply Forall_fmap, Forall_true. done. Qed.

Lemma run_workers_joined specs d w w' ts :
  run_workers specs d w = Ok (w', ts) -> joinable w' = joinable w /\ Forall idle ts.
Proof.
  unfold run_workers. intros E. inv_ok. destruct r as [w1 ts1].
  destruct (start_all_owns _ _ _ _ _ (worker_threads_idle specs) eq_refl Hr) as ([J A] & _ & _).
  apply (join_all_owns ts1 (joinable w)) in E; [done|].
  rewrite joinable_set_running in J. split.
  - by rewrite joinable_set_running, joinable_sleep.
  - by rewrite joinable_set_running in A.
Qed.

Lemma destroy_all_idle ts (w : W) : Forall idle ts -> destroy_all ts w = Ok w.
Proof.
  induction 1 as [|t ts N F IH]; [done|]. simpl. unfold thread_destroy, join. by rewrite N.
Qed.

Lemma mysql_do_joinable db q w w' : mysql_do db q w = Ok w' -> joinable w' = joinable w.
Proof.
  unfold mysql_do. intros E. pose proof (joinable_sql_query db q w) as J.
  destruct (sql_query db q w) as [w1 r]. by inv_ok.
Qed.

Lemma prepare_rows_joinable n i db recs w recs' w' :
  prepare_rows n i db recs w = Ok (recs', w') -> joinable w' = joinable w.
Proof.
  revert i recs w. induction n as [|n IH]; intros i recs w E; simpl in E; inv_ok; [done|].
  apply IH in E. apply mysql_do_joinable in Hr. congruence.
Qed.

Lemma init_table_joinable conf n recs w recs' w' :
  hs_longrun_init_table conf n recs w = Ok (recs', w') -> joinable w' = joinable w.
Proof.
  unfold hs_longrun_init_table. intros E.
  pose proof (joinable_sql_init w) as J1. destruct (sql_init w) as [w1 o]. inv_ok.
  match type of E with (let '(_, _) := ?c in _) = _ => pose proof (joinable_sql_connect r
    (get_str conf (bytes "host") (bytes "localhost")) (get_str conf (bytes "mysqluser") (bytes "root"))
    (get_str conf (bytes "mysqlpass") []) [] w1) as J2; destruct c as [w2 ok] end.
  inv_ok.
  repeat match goal with Hm : mysql_do _ _ _ = Ok _ |- _ => apply mysql_do_joinable in Hm end.
  match goal with x : (list record_value * W)%type |- _ => destruct x end. inv_ok.
  rewrite joinable_sql_close.
  match goal with Hp : prepare_rows _ _ _ _ _ = Ok _ |- _ => apply prepare_rows_joinable in Hp end.
  simpl in *. congruence.
Qed.
End Run.

Lemma stat_fold_range f l :
  counter f -> f (foldl stat_add stat_new l) = wrap_u64 (sum_of f l).
Proof.
  intros Hf. rewrite <- (Z.add_0_l (sum_of f l)), <- (ct_zero f Hf), <- foldl_stat_add by done.
  destruct l as [|s l _] using rev_ind; simpl; [by rewrite (ct_zero f Hf)|].
  rewrite foldl_app. simpl. rewrite (ct_add f Hf). unfold wrap_u64. by rewrite Z.mod_mod.
Qed.

Lemma printed_counter f thrs :
  counter f ->
  f (foldl stat_add stat_new (sorted_stats (summarize thrs)).*2) = wrap_u64 (sum_of f thrs.*2).
Proof. intros Hf. rewrite <- printed_total by done. rewrite stat_fold_range by done. unfold wrap_u64. by rewrite Z.mod_mod. Qed.

(** A run of the load generator ends clean and reports every worker. When
    [hs_longrun_main] returns, it returns 0, no thread it started is left, and it has printed
    START, DONE, the lines of the kinds of worker and the lines of TOTAL, whose four counters
    are the sums of the counters of all the workers of the configuration, modulo 2^64: so
    TOTAL shows no error exactly when the sum is 0 modulo 2^64. *)
Theorem hs_longrun_main_reports `{WorkerLaws W} argv v (w w' : W) lines r :
  hs_longrun_main argv v w = Ok (w', lines, r) ->
  r = 0 /\ joinable w' = joinable w
  /\ exists conf level plan kinds total,
       parse_args argv ∅ v = Ok (conf, level) /\ plan_of conf = Ok plan
       /\ lines = bytes "START" :: bytes "DONE" :: kinds ++ stat_lines (bytes "TOTAL") total
       /\ let sums := (worker_stats (make_threads (pl_templates plan) 0) w').*2 in
          verify_error_count total = wrap_u64 (sum_of verify_error_count sums)
          /\ runtime_error_count total = wrap_u64 (sum_of runtime_error_count sums)
          /\ unknown_count total = wrap_u64 (sum_of unknown_count sums)
          /\ success_count total = wrap_u64 (sum_of success_count sums).
Proof.
  unfold hs_longrun_main. intros E. inv_ok. destruct r0 as [conf level]. inv_ok.
  destruct r1 as [recs w1]. inv_ok. destruct r1 as [w2 ts].
  apply init_table_joinable in Hr1. apply run_workers_joined in Hr2 as [J F].
  rewrite destroy_all_idle in E by done. inv_ok.
  split; [done|]. split; [congruence|].
  eexists _, _, _, _, _. split; [done|]. split; [done|]. split; [reflexivity|].
  cbv zeta. split_and!; by apply printed_counter.
Qed.

(** ** A run with three workers *)
#[export] Instance demo_sql : SqlClient demo := {|
  sql_init w := (w, Some 1);
  sql_close _ w := w;
  sql_connect _ _ _ _ _ w := (w, true);
  sql_query _ _ w := (w, 0);
  sql_affected_rows _ _ := 1;
  sql_store_result _ w := (w, None)
|}.

(** Worker [id] has succeeded [id + 1] times; worker 1 met an unknown state. *)
#[export] Instance demo_workers : Workers demo := {|
  set_running _ w := w;
  sys_sleep _ w := w;
  worker_stat id _ := mkStat 0 0 (if id =? 1 then 1 else 0) (id + 1)
|}.

#[export] Instance demo_worker_laws : WorkerLaws demo.
Proof. by split. Qed.

Definition sample_args : list (list Z) :=
  bytes <$> ["hslongrun"; "table_size=2"; "duration=1"; "num_hsinsert=2"; "num_hsdelete=0";
             "num_hsupdate=0"; "num_hsread=0"; "num_myread=0"; "num_mydelins=1"]%string.

Definition sample_lines : list (list Z) :=
  bytes <$> ["START"; "DONE"; "hsinsert unknown 1"; "hsinsert success 3"; "mydelins success 3";
             "TOTAL unknown 1"; "TOTAL success 6"]%string.

Lemma hs_longrun_main_reports_witness :
  hs_longrun_main sample_args 0 (mkDemo 9 ∅ 0) = Ok (mkDemo 6 ∅ 3, sample_lines, 0)
  /\ joinable (mkDemo 6 ∅ 3) = joinable (mkDemo 9 ∅ 0).
Proof.
  split; [by_decide|].
  apply (hs_longrun_main_reports sample_args 0 (mkDemo 9 ∅ 0) (mkDemo 6 ∅ 3) sample_lines 0).
  by_decide.
Defined.
