(* ===== verification/Database.v ===== *)
(** * Database: the store at the other end of the wire

    [HsServer] states what the service relies on in the HandlerSocket server it is
    connected to: a table of versioned customers, a truthful answer to the two requests of
    [handler_socket.cc].  With it the HandlerSocket functions are a lawful store, so the
    theorems about transactions hold down to the bytes of the protocol.  [reference_server]
    is an executable server, which parses the request lines of the client. *)
From S2P Require Import Prelude Text Structs Account FromHttp StringUtil Escape Socket Hstcpcli HstcpcliSpec HandlerSocket MariaDatabase Handler Processor.
#[local] Open Scope Z_scope.

(** A customer that the row of an id can hold. *)
Record storable (id : Z) (x : Customer) (v : Z) : Prop := {
  st_id : 0 <= id < 5;
  st_customer : wf_customer x;
  st_version : is_int v
}.

(** [listens w fd h]: on [fd] a server waits for a request, and [h] is an open handler. *)
Class HsServer (W : Type) `{Net W} (recv_fuel : nat) (padding : nat -> Z) := {
  table : W -> gmap Z (Customer * Z);
  listens : W -> Z -> Z -> Prop;
  padding_bytes : forall i, is_byte (padding i);
  read_served : forall w c h id x v,
    listens w (fd c) h -> table w !! id = Some (x, v) -> storable id x v ->
    exists w2, served recv_fuel c (read_line h id) (encode_reply 3 [customer_row padding id x v]) w w2
      /\ table w2 = table w /\ forall fd h, listens w fd h -> listens w2 fd h;
  write_served : forall w c h id x v x0 v0,
    listens w (fd c) h -> table w !! id = Some (x0, v0) -> storable id x v -> is_int (v + 1) ->
    exists w2, served recv_fuel c (write_line padding h id x v)
                 (encode_reply 1 [[Some (dec_int (if bool_decide (v = v0) then 1 else 0))]]) w w2
      /\ table w2 = (if bool_decide (v = v0) then <[id := (x, v + 1)]> (table w) else table w)
      /\ forall fd h, listens w fd h -> listens w2 fd h
}.

Section Store.
Context {W : Type} `{HsServer W}.

(** Both clients of the thread are ready and heard. *)
Definition connected (st : W * hs_thread) : Prop :=
  exists c1 c2, read_ptr st.2 = Some c1 /\ write_ptr st.2 = Some c2 /\ ready c1 /\ ready c2
    /\ listens st.1 (fd c1) (read_ptr_id st.2) /\ listens st.1 (fd c2) (write_ptr_id st.2).

(** A read is one exchange of the reading client. *)
Lemma hs_read_law (st : W * hs_thread) id cust ver x v :
  connected st -> table st.1 !! id = Some (x, v) -> storable id x v ->
  exists st', @read_customer _ (hs_store recv_fuel padding) id cust ver st = Ok (st', true, Some x, Some v)
    /\ table st'.1 = table st.1 /\ connected st'.
Proof.
  intros (c1 & c2 & Hc1 & Hc2 & Hr1 & Hr2 & Hl1 & Hl2) Ht Hst.
  destruct (read_served st.1 c1 (read_ptr_id st.2) id x v Hl1 Ht Hst) as (w2 & Hs & Htab & Hl).
  cbn [read_customer hs_store].
  rewrite (ReadCustomerHs_row recv_fuel padding id cust ver st.2 c1 x v st.1 w2 Hc1 Hr1
             (st_customer _ _ _ Hst) (st_version _ _ _ Hst) padding_bytes Hs).
  cbn [mbind outcome_bind]. eexists. split; [done|]. split; [done|].
  exists (idle_client c1), c2. cbn. split_and!; try done; [apply idle_ready, Hr1|by apply Hl..].
Qed.

(** A write is one exchange of the writing client. *)
Lemma hs_write_law (st : W * hs_thread) id x x0 v v0 :
  connected st -> table st.1 !! id = Some (x0, v0) -> storable id x v -> storable id x (v + 1) ->
  exists st', @write_customer _ (hs_store recv_fuel padding) id x v st = Ok (st', bool_decide (v = v0))
    /\ table st'.1 = (if bool_decide (v = v0) then <[id := (x, v + 1)]> (table st.1) else table st.1)
    /\ connected st'.
Proof.
  intros (c1 & c2 & Hc1 & Hc2 & Hr1 & Hr2 & Hl1 & Hl2) Ht Hst Hst'.
  pose proof (st_version _ _ _ Hst') as Hv.
  destruct (write_served st.1 c2 (write_ptr_id st.2) id x v x0 v0 Hl2 Ht Hst Hv)
    as (w2 & Hs & Htab & Hl).
  assert (Hn : is_int (if bool_decide (v = v0) then 1 else 0))
    by (unfold is_int, INT_MIN, INT_MAX; case_bool_decide; lia).
  pose proof (WriteCustomerHs_count recv_fuel padding id x v _ st.2 c2 st.1 w2 Hc2 Hr2 Hv Hn Hs) as Hw.
  cbn [write_customer hs_store]. rewrite Hw. cbn [mbind outcome_bind]. eexists. split; [by case_bool_decide|]. split; [done|].
  exists c1, (idle_client c2). cbn. split_and!; try done; [apply idle_ready, Hr2|by apply Hl..].
Qed.

(** The HandlerSocket functions are a lawful store. *)
Definition hs_laws : @StoreLaws (W * hs_thread) (hs_store recv_fuel padding).
Proof.
  refine (@Build_StoreLaws (W * hs_thread) (hs_store recv_fuel padding)
            (fun st => table st.1) connected storable _ _).
  - intros st id cust ver c v Hg Hc Hf. by apply hs_read_law.
  - intros st id c c0 v v0 Hg Hc Hf Hf'. by eapply hs_write_law.
Defined.
End Store.

(** ** A reference server

    It holds the table and what it has still to deliver; a line that arrives is executed at
    once.  Requests are told apart by their number of fields. *)
Record hs_server := mkServer { sv_table : gmap Z (Customer * Z); sv_outbox : list Z }.

(** The fields of a line. *)
Fixpoint fields (l : list Z) : list (list Z) :=
  match l with
  | [] => [[]]
  | c :: l' =>
      if c =? TAB then [] :: fields l'
      else match fields l' with t :: ts => (c :: t) :: ts | [] => [[c]] end
  end.

Definition value_of (field : list Z) : list Z := (unescape_string field).2.

Definition key_id (field : list Z) : Z := default 0 (head (value_of field)) - 48.

Section Reference.
Variable padding : nat -> Z.

(** The reply to a line, and the table afterwards. *)
Definition serve (line : list Z) (db : gmap Z (Customer * Z)) : list Z * gmap Z (Customer * Z) :=
  match fields line with
  | [_; _; _; k] =>
      let id := key_id k in
      (encode_reply 3 (match db !! id with Some (x, v) => [customer_row padding id x v] | None => [] end), db)
  | [_; _; _; k; ver; _; _; _; _; data; next] =>
      let id := key_id k in
      match db !! id, decode_customer (value_of data), std_stoi (value_of ver), std_stoi (value_of next) with
      | Some (_, v0), Ok x, Ok v, Ok v' =>
          if bool_decide (v = v0) then (encode_reply 1 [[Some (dec_int 1)]], <[id := (x, v')]> db)
          else (encode_reply 1 [[Some (dec_int 0)]], db)
      | _, _, _, _ => (encode_reply 1 [[Some (dec_int 0)]], db)
      end
  | _ => (encode_error 2 1 (bytes "cmd"), db)
  end.

Definition server_send (s : list Z) (w : hs_server) : hs_server :=
  let '(reply, db) := serve (take (length s - 1) s) (sv_table w) in
  mkServer db (sv_outbox w ++ reply ++ [LF]).

Definition server_net : Net hs_server.
Proof.
  refine {|
    sys_socket := fun _ _ _ w => (w, (3, 0));
    sys_setsockopt := fun _ _ _ w => (w, (0, 0));
    sys_fcntl_nonblock := fun _ w => (w, (0, 0));
    sys_connect := fun _ _ w => (w, (0, 0));
    sys_bind := fun _ _ w => (w, (0, 0));
    sys_listen := fun _ _ w => (w, (0, 0));
    sys_unlink := fun _ w => (w, (0, 0));
    sys_close := fun _ w => (w, 0);
    sys_send := fun _ s w => (server_send s w, Z.of_nat (length s));
    sys_read := fun _ n w => (mkServer (sv_table w) (drop n (sv_outbox w)), Some (take n (sv_outbox w)));
    sys_getaddrinfo := fun _ _ _ => (0, SockNone)
  |}.
  - intros fd s w. simpl. lia.
  - intros fd n w l [= <-]. rewrite length_take. lia.
Defined.

Lemma fields_cons t ts : TAB ∉ t -> ts <> [] -> fields (t ++ TAB :: join_with TAB ts) = t :: fields (join_with TAB ts).
Proof.
  intros Ht Hts. induction t as [|c t IH]; [done|]. apply not_elem_of_cons in Ht as [Hc Ht].
  cbn [app fields]. rewrite (IH Ht). by destruct (Z.eqb_spec c TAB).
Qed.

Lemma fields_single t : TAB ∉ t -> fields t = [t].
Proof.
  induction t as [|c t IH]; [done|]. intros [Hc Ht]%not_elem_of_cons. cbn [fields]. rewrite IH by done.
  by destruct (Z.eqb_spec c TAB).
Qed.

(** The fields of a framed request are its tokens. *)
Lemma fields_join ts : Forall plain ts -> ts <> [] -> fields (join_with TAB ts) = ts.
Proof.
  induction 1 as [|t ts [Ht _] Hts IH]; [done|]. intros _. destruct ts as [|u ts]; [by apply fields_single|].
  change (join_with TAB (t :: u :: ts)) with (t ++ TAB :: join_with TAB (u :: ts)).
  rewrite fields_cons, IH by done. done.
Qed.

Lemma value_of_token v : Forall is_byte v -> value_of (value_token (Some v)) = v.
Proof. intros Hv. unfold value_of. cbn [value_token]. by rewrite unescape_escape. Qed.

Lemma id_key_bytes id : value_ok (id_key id).
Proof. apply Forall_singleton, Z.mod_pos_bound. lia. Qed.

Lemma key_id_key id : 0 <= id < 5 -> key_id (value_token (id_key id)) = id.
Proof.
  intros Hid. unfold key_id, id_key. rewrite value_of_token by apply id_key_bytes. cbn.
  rewrite Z.mod_small; lia.
Qed.

Hypothesis padding_ok : forall i, is_byte (padding i).

(** The tokens of the two requests. *)
Lemma read_tokens h id :
  exec_tokens h (Some (bytes "=")) [id_key id] 0 0 None [] [] (-1) []
  = [uint32_text h; bytes "="; uint32_text 1; value_token (id_key id)].
Proof. reflexivity. Qed.

Lemma write_tokens h id x v :
  exec_tokens h (Some (bytes "=")) [id_key id; Some (dec_int v)] 0 0 (Some (bytes "U"))
    [id_key id; Some (encode_customer padding x); Some (dec_int (v + 1))] [] (-1) []
  = [uint32_text h; bytes "="; uint32_text 2; value_token (id_key id); value_token (Some (dec_int v));
     uint32_text 0; uint32_text 0; bytes "U"; value_token (id_key id);
     value_token (Some (encode_customer padding x)); value_token (Some (dec_int (v + 1)))].
Proof. reflexivity. Qed.

Lemma serve_read h id x v db :
  0 <= id < 5 -> db !! id = Some (x, v) ->
  serve (take (length (read_line h id) - 1) (read_line h id)) db
  = (encode_reply 3 [customer_row padding id x v], db).
Proof.
  clear padding_ok. intros Hid Hdb. unfold serve, read_line. rewrite exec_generic_line_tokens, length_app. cbn [length].
  rewrite Nat.add_sub, take_app_length, fields_join; [|apply exec_tokens_plain|done].
  - rewrite read_tokens, key_id_key by done. by rewrite Hdb.
  - split; by_decide.
  - split; by_decide.
  - apply Forall_singleton, id_key_bytes.
  - by repeat constructor.
  - done.
  - done.
Qed.

Lemma dec_int_ok v : value_ok (Some (dec_int v)).
Proof. apply dec_int_bytes. Qed.

Lemma serve_write h id x v x0 v0 db :
  storable id x v -> is_int (v + 1) -> db !! id = Some (x0, v0) ->
  serve (take (length (write_line padding h id x v) - 1) (write_line padding h id x v)) db
  = (encode_reply 1 [[Some (dec_int (if bool_decide (v = v0) then 1 else 0))]],
     if bool_decide (v = v0) then <[id := (x, v + 1)]> db else db).
Proof.
  intros [Hid Hx Hv] Hv' Hdb. unfold serve, write_line. rewrite exec_generic_line_tokens, length_app. cbn [length].
  rewrite Nat.add_sub, take_app_length, fields_join; [|apply exec_tokens_plain|done].
  - rewrite write_tokens.
    rewrite key_id_key, Hdb by done.
    rewrite (value_of_token (encode_customer padding x)) by (by apply encode_customer_bytes).
    rewrite (value_of_token (dec_int v)), (value_of_token (dec_int (v + 1))) by apply dec_int_bytes.
    rewrite <- (app_nil_r (encode_customer padding x)), decode_encode_customer by done.
    rewrite !std_stoi_dec_int by done. by case_bool_decide.
  - split; by_decide.
  - split; by_decide.
  - rewrite !Forall_cons. split_and!; [apply id_key_bytes|apply dec_int_ok|done].
  - rewrite !Forall_cons. split_and!; [apply id_key_bytes|by apply encode_customer_bytes|apply dec_int_ok|done].
  - done.
  - done.
Qed.
End Reference.

(** ** The reference server keeps the promises *)
Section ReferenceLaws.
Variable padding : nat -> Z.
Hypothesis padding_ok : forall i, is_byte (padding i).

Lemma server_served fd0 c line text (w : hs_server) db :
  fd c = fd0 -> sv_outbox w = [] ->
  serve padding (take (length line - 1) line) (sv_table w) = (text, db) ->
  (length text < block_size)%nat ->
  @served hs_server (server_net padding) 1 c line text w (mkServer db []).
Proof.
  intros _ Hout Hserve Hlen. exists (mkServer db (text ++ [LF])), [text ++ [LF]].
  split; [|split; [|split; [simpl; lia|by rewrite mjoin_cons, app_nil_r]]].
  - cbn [sys_send server_net]. unfold server_send. by rewrite Hserve, Hout.
  - split; [by intros [_ ?]%app_nil|]. eexists. split; [|reflexivity].
    cbn [sys_read server_net sv_outbox sv_table].
    rewrite take_ge, drop_ge by (rewrite length_app; simpl; unfold block_size in *; lia). done.
Qed.

Lemma delim_length s : (length (append_delim_value [] (Some s)) <= 1 + 2 * length s)%nat.
Proof. cbn [append_delim_value app length]. pose proof (escape_length s). lia. Qed.

Lemma customer_reply_length id x v :
  storable id x v -> (length (encode_reply 3 [customer_row padding id x v]) < block_size)%nat.
Proof.
  intros [Hid Hx Hv]. unfold encode_reply, encode_row, customer_row.
  cbn [fmap list_fmap mjoin list_join app length]. rewrite app_nil_r.
  pose proof (delim_length [(id + 48) mod 256]) as H1. pose proof (delim_length (encode_customer padding x)) as H2.
  pose proof (delim_length (dec_int v)) as H3. pose proof (dec_int_length v Hv).
  rewrite length_encode_customer in H2 by done. cbn [length] in H1.
  unfold id_key in *. unfold kCustomerSize in H2. unfold block_size.
  change (length (bytes "0")) with 1%nat.
  repeat (rewrite length_app; cbn [length]). change (length (dec_nat 3)) with 1%nat.
  change (length (bytes "0")) with 1%nat. lia.
Qed.

Definition server_laws : @HsServer hs_server (server_net padding) 1 padding.
Proof.
  refine (@Build_HsServer hs_server (server_net padding) 1 padding sv_table
            (fun w _ _ => sv_outbox w = []) padding_ok _ _).
  - intros w c h id x v Hout Hdb Hst. exists (mkServer (sv_table w) []).
    split; [|done]. apply (server_served (fd c)); [done|done| |by apply customer_reply_length].
    apply serve_read; [apply Hst|done].
  - intros w c h id x v x0 v0 Hout Hdb Hst Hv. eexists (mkServer _ []).
    split; [|split; [reflexivity|done]].
    apply (server_served (fd c)); [done|done| |].
    + cbn [sv_table]. apply (serve_write padding padding_ok h id x v x0 v0); done.
    + by case_bool_decide; apply Nat.ltb_lt.
Defined.
End ReferenceLaws.
