(* ===== verification/Service.v ===== *)
(** * Service: from HTTP bytes to the database and back

    The composition of the parser, the request processor, the transaction loop and the
    HandlerSocket client, against a server that keeps the promises of [HsServer]: one
    transaction, and a worker that serves any number of them as a bank would. *)
From S2P Require Import Prelude Text Structs Account FromHttp StringUtil Socket Hstcpcli HstcpcliSpec HandlerSocket MariaDatabase Handler Processor Database.
#[local] Open Scope Z_scope.

(** ** A transaction as a client posts it *)
Record posted := mkPosted {
  po_id : Z;
  po_head : list Z;
  po_digits : list Z;
  po_tipo : Z;
  po_desc : list Z;
  (** the bytes of the buffer behind the request *)
  po_rest : list Z;
  po_fd : Z
}.

Definition po_body (p : posted) : list Z := json_body (po_digits p) (po_tipo p) (po_desc p).

Definition po_text (p : posted) : list Z := post_request (chr0 + po_id p) (po_head p) (po_body p).

Definition po_amount (p : posted) : Z :=
  if po_tipo p =? 100 then - dec_value (po_digits p) else dec_value (po_digits p).

Record posted_ok (p : posted) : Prop := {
  po_id_ok : 1 <= po_id p <= 5;
  po_head_ok : head_ok (chr0 + po_id p) (po_head p) (po_body p);
  po_head_nul : NUL ∉ po_head p;
  po_desc_nul : NUL ∉ po_desc p;
  po_desc_quote : DQUOTE ∉ po_desc p;
  po_desc_bytes : Forall is_byte (po_desc p);
  po_desc_length : (1 <= length (po_desc p) <= 10)%nat;
  po_digits_ok : Forall is_digit (po_digits p);
  po_max : dec_value (po_digits p) <= INT_MAX;
  po_tipo_ok : po_tipo p = 99 \/ po_tipo p = 100
}.

(** An uninitialized local request: arrays of their lengths, filled with some bytes. *)
Record local_ok (r : Request) : Prop := {
  lo_description : length (description (transaction r)) = kDescriptionSize;
  lo_description_bytes : Forall is_byte (description (transaction r));
  lo_timestamp : length (timestamp (transaction r)) = kTimestampSize;
  lo_timestamp_bytes : Forall is_byte (timestamp (transaction r))
}.

(** The transaction that is stored, with the text of its time. *)
Definition stored (r : Request) (p : posted) (time : list Z) : Transaction :=
  stamped (mkTransaction (po_amount p) (desc_field (po_desc p) (description (transaction r)))
             (timestamp (transaction r))) time.

Lemma po_amount_int p : posted_ok p -> is_int (po_amount p).
Proof.
  intros Hp. pose proof (po_max p Hp). pose proof (dec_from_ge 0 (po_digits p) ltac:(lia) (po_digits_ok p Hp)) as Hge.
  fold (dec_value (po_digits p)) in Hge. unfold po_amount, is_int, INT_MIN, INT_MAX in *.
  destruct (_ =? _); lia.
Qed.

Lemma po_parses `{Abseil} p r rest :
  posted_ok p -> local_ok r ->
  FromHttp (po_text p ++ NUL :: rest) r
  = Ok (true, mkRequest TRANSACTION (po_id p)
                (mkTransaction (po_amount p) (desc_field (po_desc p) (description (transaction r)))
                   (timestamp (transaction r)))).
Proof.
  intros [Hid Hh Hhn Hdn Hq _ Hl Hds Hm Ht] Hr. unfold po_text, po_body in *.
  rewrite parse_transaction; try done; [|unfold is_digit, chr0, chr9 in *; lia|apply Hr].
  by replace (chr0 + po_id p - chr0) with (po_id p) by lia.
Qed.

Lemma stored_wf r p time :
  posted_ok p -> local_ok r -> time_text time -> Forall is_byte time -> wf_transaction (stored r p time).
Proof.
  intros Hp [Hd Hdb Ht Htb] [Htl Htn] Htime. pose proof (po_desc_length p Hp) as Hl.
  split; cbn [stored stamped with_timestamp value description timestamp].
  - by apply po_amount_int.
  - unfold desc_field. rewrite length_splice; [done|]. rewrite length_app. simpl.
    unfold kDescriptionSize in *. lia.
  - unfold desc_field, splice. repeat apply Forall_app_2; [done|apply Hp| |].
    + by apply Forall_singleton.
    + by apply Forall_drop.
  - rewrite length_app. cbn [length]. rewrite length_drop. unfold kTimestampSize in *. lia.
  - apply Forall_app_2; [done|]. constructor; [done|by apply Forall_drop].
Qed.

(** ** One transaction over the wire *)
Section Service.
Context {Wd : Type} `{Net Wd} (recv_fuel : nat) (padding : nat -> Z) `{!HsServer Wd recv_fuel padding}.
Context {W : Type} `{ConnLaws W} `{Abseil}.
Variable request : Request.
Hypothesis request_ok : local_ok request.
Hypothesis times_ok : forall x, time_text (FormatTime x) /\ Forall is_byte (FormatTime x).

(** A worker whose store is reached over HandlerSocket. *)
Definition wire_worker : Type := worker (Wd * hs_thread) W.

Definition serve_request (f : nat) (p : posted) (b : Z) (k : wire_worker) : outcome (wire_worker * list Z) :=
  @ProcessRequest (Wd * hs_thread) W (hs_store recv_fuel padding) _ _ _ f request
    (po_text p ++ b :: po_rest p) (Z.of_nat (length (po_text p))) (po_fd p) k.

(** The worker and its connection to the database are at rest. *)
Record at_rest (k : wire_worker) : Prop := {
  ar_connected : connected (sv_store (wk_service k));
  ar_time : time_ok (sv_time (wk_service k));
  ar_template : exists x y, wk_buffer k = template x y /\ length x = 20%nat /\ length y = 21%nat
}.

(** The row of the customer [id] is the account [(l, h)] at version [v]. *)
Record row_account (db : gmap Z (Customer * Z)) (id l : Z) (h : list Transaction) (c : Customer) (v : Z)
    : Prop := {
  ra_row : db !! (id - 1) = Some (c, v);
  ra_storable : storable (id - 1) c v;
  ra_account : account l h c;
  ra_limit : is_int l /\ is_int (- l)
}.

Definition db_of (k : wire_worker) : gmap Z (Customer * Z) := table (sv_store (wk_service k)).1.

Lemma wire_prepared k id t l h c v :
  at_rest k -> row_account (db_of k) id l h c v -> wf_transaction t ->
  is_int (total h + value t) -> is_int (v + 1) ->
  sv_locks (wk_service k) !! Z.to_nat (id - 1) = Some false ->
  @prepared _ (hs_store recv_fuel padding) hs_laws id t (sv_locks (wk_service k))
    (sv_store (wk_service k)) l h c v.
Proof.
  intros Hk [Hrow Hst Ha [Hl Hl']] Ht Hsum Hv Hlock. split.
  - apply Hk.
  - exact Hrow.
  - exact Hst.
  - exact Ha.
  - by rewrite (account_balance _ _ _ Ha).
  - exact Hl'.
  - intros c' Htry. destruct Hst as [Hid Hc Hvv].
    pose proof (ring_bounds _ _ (account_ring _ _ _ Ha)) as [Hb1 Hb2].
    assert (Hc' : wf_customer c') by (eapply try_transaction_wf; [exact Hc|exact Ht|lia|lia|exact Htry]).
    by split; split.
  - exact Hlock.
Qed.

(** One request: its answer, and the database afterwards. *)
Lemma serve_request_step f p b (k : wire_worker) l h c v :
  posted_ok p -> at_rest k -> row_account (db_of k) (po_id p) l h c v ->
  is_int (total h + po_amount p) -> is_int (v + 1) ->
  sv_locks (wk_service k) !! Z.to_nat (po_id p - 1) = Some false ->
  willing (po_fd p) (sv_world (wk_service k)) ->
  exists time k', serve_request (S f) p b k = Ok (k', po_text p ++ NUL :: po_rest p)
    /\ at_rest k' /\ sv_locks (wk_service k') = sv_locks (wk_service k)
    /\ present (sv_time (wk_service k)) (sv_world (wk_service k)) time
    /\ match spec_transaction l h (stored request p (FormatTime time)) with
       | Some h' =>
           sent (po_fd p) (sv_world (wk_service k'))
           = sent (po_fd p) (sv_world (wk_service k))
               ++ template (right_aligned 20 (dec_int l)) (right_aligned 21 (dec_int (total h')))
           /\ exists c', row_account (db_of k') (po_id p) l h' c' (v + 1)
                /\ db_of k' = <[po_id p - 1 := (c', v + 1)]> (db_of k)
       | None =>
           sent (po_fd p) (sv_world (wk_service k'))
           = sent (po_fd p) (sv_world (wk_service k)) ++ kBadRequestHeader
           /\ db_of k' = db_of k
       end.
Proof.
  intros Hp Hk Hra Hsum Hv Hlock Hw. destruct (ar_template k Hk) as (x & y & Hb & Hx & Hy).
  set (t := mkTransaction (po_amount p) (desc_field (po_desc p) (description (transaction request)))
              (timestamp (transaction request))).
  assert (Hprep : forall z, @prepared _ (hs_store recv_fuel padding) hs_laws (po_id p)
            (stamped t (FormatTime z)) (sv_locks (wk_service k)) (sv_store (wk_service k)) l h c v).
  { intros z. apply wire_prepared; try done. by apply stored_wf; [| |apply times_ok..]. }
  destruct (@process_transaction (Wd * hs_thread) W (hs_store recv_fuel padding) hs_laws _ _ _ _ f request
              (mkRequest TRANSACTION (po_id p) t) (po_text p ++ b :: po_rest p)
              (po_text p ++ NUL :: po_rest p) (Z.of_nat (length (po_text p))) (po_fd p) k (po_id p) t
              l h c v x y) as (time & k' & Hrun & Hlk & Hg & Htk & Hpres & Hbuf & Hcase); try done.
  - rewrite array_set_Ok by (rewrite length_app; simpl; lia).
    by rewrite Nat2Z.id, insert_app_r_alt, Nat.sub_diag by lia.
  - by apply po_parses.
  - apply request_ok.
  - apply times_ok.
  - apply Hk.
  - apply Hp.
  - apply Hra.
  - exists time, k'. split; [exact Hrun|]. split; [by split|]. split; [exact Hlk|]. split; [exact Hpres|].
    fold (stored request p (FormatTime time)) in Hcase. change (stamped t (FormatTime time))
      with (stored request p (FormatTime time)) in Hcase.
    destruct (spec_transaction l h (stored request p (FormatTime time))) as [h'|] eqn:Es; [|exact Hcase].
    destruct Hcase as (Hsent & c' & Ha' & Hcell & Hft). split; [exact Hsent|]. exists c'.
    assert (Hrow' : db_of k' = <[po_id p - 1 := (c', v + 1)]> (db_of k)) by exact Hcell.
    split; [|exact Hrow'].
    split; [by rewrite Hrow', lookup_insert_eq|exact Hft|exact Ha'|apply Hra].
Qed.

(** ** A worker that serves many *)

(** The accounts of the bank by customer, and what a posted transaction does to them. *)
Definition bank_answer (b : gmap Z (Z * list Transaction)) (p : posted) (time : list Z) : list Z :=
  match b !! po_id p with
  | Some (l, h) =>
      match spec_transaction l h (stored request p time) with
      | Some h' => template (right_aligned 20 (dec_int l)) (right_aligned 21 (dec_int (total h')))
      | None => kBadRequestHeader
      end
  | None => []
  end.

Definition bank_step (b : gmap Z (Z * list Transaction)) (p : posted) (time : list Z)
    : gmap Z (Z * list Transaction) :=
  match b !! po_id p with
  | Some (l, h) =>
      match spec_transaction l h (stored request p time) with
      | Some h' => <[po_id p := (l, h')]> b
      | None => b
      end
  | None => b
  end.

Fixpoint bank_run (b : gmap Z (Z * list Transaction)) (ps : list posted) (times : list (list Z))
    : gmap Z (Z * list Transaction) :=
  match ps, times with
  | p :: ps', time :: times' => bank_run (bank_step b p time) ps' times'
  | _, _ => b
  end.

(** The worker takes requests one after the other; each finds some byte behind it. *)
Fixpoint serve_all (f : nat) (ps : list (posted * Z)) (k : wire_worker) : outcome wire_worker :=
  match ps with
  | [] => Ok k
  | (p, b) :: ps' => '(k, _) ← serve_request f p b k; serve_all f ps' k
  end.

(** The run of the worker, request by request: each gets the present time [time], and its client
    is sent the answer of the bank at that time. *)
Fixpoint served (f : nat) (ps : list (posted * Z)) (k : wire_worker)
    (b : gmap Z (Z * list Transaction)) (times : list Z) (k' : wire_worker) : Prop :=
  match ps, times with
  | [], [] => k' = k
  | (p, next) :: ps', time :: times' =>
      exists k1 buf, serve_request f p next k = Ok (k1, buf)
        /\ present (sv_time (wk_service k)) (sv_world (wk_service k)) time
        /\ sent (po_fd p) (sv_world (wk_service k1))
           = sent (po_fd p) (sv_world (wk_service k)) ++ bank_answer b p (FormatTime time)
        /\ served f ps' k1 (bank_step b p (FormatTime time)) times' k'
  | _, _ => False
  end.

(** No sum of the pending amounts, all of one sign, can leave the range of an [int]. *)
Definition exposure (ps : list (posted * Z)) : Z := foldr (fun p acc => Z.abs (po_amount p.1) + acc) 0 ps.

(** The database of the worker holds the accounts of the bank, with room for the pending
    requests [ps] in balances and versions. *)
Record represents (ps : list (posted * Z)) (k : wire_worker)
    (b : gmap Z (Z * list Transaction)) : Prop := {
  rp_rest : at_rest k;
  rp_locks : forall id, 1 <= id <= 5 -> sv_locks (wk_service k) !! Z.to_nat (id - 1) = Some false;
  rp_accounts : forall id, 1 <= id <= 5 -> exists l h c v,
    b !! id = Some (l, h) /\ row_account (db_of k) id l h c v
    /\ is_int (total h - exposure ps) /\ is_int (total h + exposure ps)
    /\ is_int (v + Z.of_nat (length ps))
}.

Hypothesis peers_willing : forall fd (w : W), willing fd w.

Lemma exposure_nonneg ps : 0 <= exposure ps.
Proof. induction ps as [|p ps IH]; simpl; lia. Qed.

Lemma row_account_other db id id' x l h c v :
  id <> id' -> row_account db id l h c v -> row_account (<[id' - 1 := x]> db) id l h c v.
Proof. intros Hne [Hr ? ? ?]. split; try done. rewrite lookup_insert_ne; [done|lia]. Qed.

(** One request of the worker is one step of the bank. *)
Lemma represents_step f p b ps k bk :
  posted_ok p -> represents ((p, b) :: ps) k bk ->
  exists time k', serve_request (S f) p b k = Ok (k', po_text p ++ NUL :: po_rest p)
    /\ present (sv_time (wk_service k)) (sv_world (wk_service k)) time
    /\ sent (po_fd p) (sv_world (wk_service k'))
       = sent (po_fd p) (sv_world (wk_service k)) ++ bank_answer bk p (FormatTime time)
    /\ represents ps k' (bank_step bk p (FormatTime time)).
Proof.
  intros Hp [Hrest Hlocks Hacc].
  destruct (Hacc (po_id p) (po_id_ok p Hp)) as (l & h & c & v & Hb & Hra & Hlo & Hhi & Hver).
  cbn [exposure foldr fst length] in *. fold (exposure ps) in *. pose proof (exposure_nonneg ps) as He.
  pose proof (st_version _ _ _ (ra_storable _ _ _ _ _ _ Hra)) as Hv.
  destruct (serve_request_step f p b k l h c v Hp Hrest Hra) as (time & k' & Hrun & Hrest' & Hlk & Hpres & Hcase);
    [unfold is_int in *; lia|unfold is_int in *; lia|by apply Hlocks, Hp|done|].
  exists time, k'. split; [exact Hrun|]. split; [exact Hpres|]. unfold bank_step, bank_answer. rewrite Hb.
  split; [by destruct (spec_transaction l h _); apply Hcase|]. split; [exact Hrest'|by rewrite Hlk|].
  destruct (spec_transaction l h (stored request p (FormatTime time))) as [h'|] eqn:Es.
  - destruct Hcase as (_ & c' & Hra' & Hdb). apply spec_transaction_floor in Es as [-> _].
    intros id Hid. destruct (decide (id = po_id p)) as [->|Hne].
    + exists l, (stored request p (FormatTime time) :: h), c', (v + 1).
      rewrite lookup_insert_eq, total_cons. cbn [stored stamped with_timestamp value].
      split; [done|]. split; [exact Hra'|]. unfold is_int in *. lia.
    + destruct (Hacc id Hid) as (l1 & h1 & c1 & v1 & Hb1 & Hra1 & Hlo1 & Hhi1 & Hver1).
      exists l1, h1, c1, v1. rewrite lookup_insert_ne by congruence. split; [done|].
      rewrite Hdb. split; [by apply row_account_other|].
      pose proof (st_version _ _ _ (ra_storable _ _ _ _ _ _ Hra1)). unfold is_int in *. lia.
  - destruct Hcase as (_ & Hdb). intros id Hid.
    destruct (Hacc id Hid) as (l1 & h1 & c1 & v1 & Hb1 & Hra1 & Hlo1 & Hhi1 & Hver1).
    exists l1, h1, c1, v1. rewrite Hdb. split; [done|]. split; [done|].
    pose proof (st_version _ _ _ (ra_storable _ _ _ _ _ _ Hra1)). unfold is_int in *. lia.
Qed.

(** C1: the service is a bank, end to end. A worker whose database holds the accounts of a
    bank, over HandlerSocket, takes a sequence of well-formed posted transactions, and peers
    take the bytes they are offered.  If the balances stay in the range of an [int] even when
    all amounts of the sequence are added or all subtracted, and the versions leave room for as
    many writes ([represents]), it serves them all: each gets the present time, the clock's or
    one at most half a minute old, and its client the answer of the bank at that time, limit
    and new balance or a refusal by the limit; and in the end the database holds the accounts of
    the bank that has executed the sequence in that order at those times. *)
Theorem service_refines_bank f ps k b :
  Forall (fun p => posted_ok p.1) ps -> represents ps k b ->
  exists times k', serve_all (S f) ps k = Ok k' /\ served (S f) ps k b times k'
    /\ represents [] k' (bank_run b ps.*1 (FormatTime <$> times)).
Proof.
  intros Hps. revert k b. induction Hps as [|[p b1] ps Hp Hps IH]; intros k b Hr.
  { by exists [], k. }
  destruct (represents_step f p b1 ps k b Hp Hr) as (time & k1 & Hrun & Hpres & Hsent & Hr1).
  destruct (IH k1 _ Hr1) as (times & k2 & Hrun2 & Hserved & Hr2).
  exists (time :: times), k2. split; [|split; [|exact Hr2]].
  - cbn [serve_all]. rewrite Hrun. exact Hrun2.
  - by exists k1, (po_text p ++ NUL :: po_rest p).
Qed.
End Service.

(** ** Properties *)
Section ServiceTheorems.
Context {Wd : Type} `{Net Wd} (recv_fuel : nat) (padding : nat -> Z) `{!HsServer Wd recv_fuel padding}.
Context {W : Type} `{ConnLaws W} `{Abseil}.

(** One posted transaction, from the bytes of its HTTP request to the row of the
    database behind HandlerSocket and to the bytes of its answer. The client is sent the
    limit and the new balance and the row becomes the account with the transaction at the
    next version; or, when the limit forbids it, the client is sent 422 and the
    database is as it was. *)
Theorem transaction_over_the_wire request f p b k l h c v :
  local_ok request -> (forall x, time_text (FormatTime x) /\ Forall is_byte (FormatTime x)) ->
  posted_ok p -> at_rest recv_fuel padding k -> row_account (db_of recv_fuel padding k) (po_id p) l h c v ->
  is_int (total h + po_amount p) -> is_int (v + 1) ->
  sv_locks (wk_service k) !! Z.to_nat (po_id p - 1) = Some false ->
  willing (po_fd p) (sv_world (wk_service k)) ->
  exists time k', serve_request recv_fuel padding request (S f) p b k = Ok (k', po_text p ++ NUL :: po_rest p)
    /\ at_rest recv_fuel padding k' /\ sv_locks (wk_service k') = sv_locks (wk_service k)
    /\ present (sv_time (wk_service k)) (sv_world (wk_service k)) time
    /\ match spec_transaction l h (stored request p (FormatTime time)) with
       | Some h' =>
           sent (po_fd p) (sv_world (wk_service k'))
           = sent (po_fd p) (sv_world (wk_service k))
               ++ template (right_aligned 20 (dec_int l)) (right_aligned 21 (dec_int (total h')))
           /\ exists c', row_account (db_of recv_fuel padding k') (po_id p) l h' c' (v + 1)
                /\ db_of recv_fuel padding k' = <[po_id p - 1 := (c', v + 1)]> (db_of recv_fuel padding k)
       | None =>
           sent (po_fd p) (sv_world (wk_service k'))
           = sent (po_fd p) (sv_world (wk_service k)) ++ kBadRequestHeader
           /\ db_of recv_fuel padding k' = db_of recv_fuel padding k
       end.
Proof. intros. by eapply (serve_request_step recv_fuel padding request). Qed.
End ServiceTheorems.

(** ** The hypotheses at concrete inputs *)

(** The initial customers at version 1, behind the reference server. *)
Definition initial_table : gmap Z (Customer * Z) :=
  {[ 0 := (initial_customer 100000, 1); 1 := (initial_customer 80000, 1);
     2 := (initial_customer 1000000, 1); 3 := (initial_customer 10000000, 1);
     4 := (initial_customer 500000, 1) ]}.

Definition initial_bank : gmap Z (Z * list Transaction) :=
  {[ 1 := (100000, []); 2 := (80000, []); 3 := (1000000, []); 4 := (10000000, []);
     5 := (500000, []) ]}.

Definition sample_wire_worker : worker (hs_server * hs_thread) (list Z) :=
  mkWorker (mkService (mkServer initial_table [], sample_thread) free_locks [] (time_cache_new 0))
    transaction_result_buffer [].

Definition sample_debit : posted :=
  mkPosted 1 sample_head (bytes "700") 100 (bytes "pix") (replicate 20 7) 5.

Definition sample_credit : posted :=
  mkPosted 2 sample_head (bytes "1200") 99 (bytes "salario") [] 6.

Lemma no_padding_bytes i : is_byte (no_padding i).
Proof. by_decide. Qed.

Definition reference_laws : @HsServer hs_server (server_net no_padding) 1 no_padding :=
  server_laws no_padding no_padding_bytes.

Lemma blank_local : local_ok blank_request.
Proof. split; by_decide. Qed.

Lemma sample_times (x : Z) :
  time_text (@FormatTime _ wire_clock x) /\ Forall is_byte (@FormatTime _ wire_clock x).
Proof. split; [split; by_decide|by_decide]. Qed.

Lemma sample_debit_ok : posted_ok sample_debit.
Proof. split; try by_decide. vm_compute. reflexivity. Qed.

Lemma sample_credit_ok : posted_ok sample_credit.
Proof. split; try by_decide. vm_compute. reflexivity. Qed.

Lemma sample_at_rest :
  @at_rest hs_server (server_net no_padding) 1 no_padding reference_laws (list Z) wire_clock
    sample_wire_worker.
Proof.
  split.
  - exists sample_client, sample_client. split_and!; try reflexivity; apply sample_ready.
  - apply sample_time_ok.
  - exists (sample_spaces 20), (sample_spaces 21). split; [exact prebuilt_is_template|split; reflexivity].
Qed.

Lemma initial_row id l :
  1 <= id <= 5 -> initial_table !! (id - 1) = Some (initial_customer l, 1) -> 0 <= l < 100000000 ->
  row_account initial_table id l [] (initial_customer l) 1.
Proof.
  intros Hid Hrow Hl. split; [exact Hrow| | |].
  - split; [lia| |by_decide]. apply initial_customer_wf. unfold is_int, INT_MIN, INT_MAX. lia.
  - apply account_initial. lia.
  - unfold is_int, INT_MIN, INT_MAX. lia.
Qed.

Lemma transaction_over_the_wire_witness :
  exists time k', @serve_request hs_server (server_net no_padding) 1 no_padding (list Z) wire_conn wire_clock
      abseil_ref blank_request 1 sample_debit 0 sample_wire_worker
    = Ok (k', po_text sample_debit ++ NUL :: replicate 20 7)
    /\ @at_rest hs_server (server_net no_padding) 1 no_padding reference_laws (list Z) wire_clock k'
    /\ sv_locks (wk_service k') = free_locks
    /\ @present _ wire_clock (time_cache_new 0) [] time
    /\ match spec_transaction 100000 [] (stored blank_request sample_debit (@FormatTime _ wire_clock time)) with
       | Some h' =>
           sv_world (wk_service k')
           = template (right_aligned 20 (dec_int 100000)) (right_aligned 21 (dec_int (total h')))
           /\ exists c', row_account (sv_table (sv_store (wk_service k')).1) 1 100000 h' c' 2
                /\ sv_table (sv_store (wk_service k')).1 = <[0 := (c', 2)]> initial_table
       | None => sv_world (wk_service k') = kBadRequestHeader
                 /\ sv_table (sv_store (wk_service k')).1 = initial_table
       end.
Proof.
  apply (@transaction_over_the_wire hs_server (server_net no_padding) 1 no_padding reference_laws
           (list Z) wire_conn wire_clock wire_laws abseil_ref blank_request 0 sample_debit 0
           sample_wire_worker 100000 [] (initial_customer 100000) 1).
  - apply blank_local.
  - apply sample_times.
  - apply sample_debit_ok.
  - apply sample_at_rest.
  - apply initial_row; [by_decide|reflexivity|lia].
  - by_decide.
  - by_decide.
  - reflexivity.
  - exact I.
Defined.

Lemma service_refines_bank_witness :
  exists times k', @serve_all hs_server (server_net no_padding) 1 no_padding (list Z) wire_conn wire_clock
      abseil_ref blank_request 1 [(sample_debit, 0); (sample_credit, 65)] sample_wire_worker = Ok k'
    /\ @served hs_server (server_net no_padding) 1 no_padding (list Z) wire_conn wire_clock wire_laws
         abseil_ref blank_request 1 [(sample_debit, 0); (sample_credit, 65)] sample_wire_worker
         initial_bank times k'
    /\ @represents hs_server (server_net no_padding) 1 no_padding reference_laws (list Z) wire_clock
         [] k' (bank_run blank_request initial_bank [sample_debit; sample_credit]
                  (@FormatTime _ wire_clock <$> times)).
Proof.
  apply (@service_refines_bank hs_server (server_net no_padding) 1 no_padding reference_laws
           (list Z) wire_conn wire_clock wire_laws abseil_ref blank_request blank_local).
  - apply sample_times.
  - intros fd w. exact I.
  - apply Forall_cons. split; [apply sample_debit_ok|]. apply Forall_singleton, sample_credit_ok.
  - split; [apply sample_at_rest| |].
    + intros id Hid. assert (Hc : id = 1 \/ id = 2 \/ id = 3 \/ id = 4 \/ id = 5) by lia.
      by destruct Hc as [->|[->|[->|[->| ->]]]].
    + intros id Hid. assert (Hc : id = 1 \/ id = 2 \/ id = 3 \/ id = 4 \/ id = 5) by lia.
      destruct Hc as [->|[->|[->|[->| ->]]]]; eexists _, [], _, 1;
        (split; [reflexivity|]; split; [apply initial_row; [by_decide|reflexivity|lia]|by_decide]).
Defined.
