(* ===== verification/RubyApi.v ===== *)
(** * RubyApi: the part of Ruby's C interface the binding uses

    Ruby is not part of the repository, so its values and its heap are parameters: the
    class [Ruby] has the calls of the binding, [RubyLaws] what their documentation promises
    about the objects they create, change or leave alone.  A method of the binding is a
    computation over the heap, the network and the object's client that returns a value,
    raises an exception, or has no meaning ([fault]). *)
From S2P Require Import Prelude Text StringUtil Hstcpcli.
#[local] Open Scope Z_scope.

(** What [TYPE(v)] and the accessor macros see of a live object. *)
Inductive ruby_kind (V : Type) :=
| KNil
| KFixnum (z : Z)
| KString (s : list Z)
| KArray (vs : list V)
| KOther.
Arguments KNil {_}.
Arguments KFixnum {_} _.
Arguments KString {_} _.
Arguments KArray {_} _.
Arguments KOther {_}.

Inductive exn := TypeError | RangeError | ArgumentError | RuntimeError.

#[export] Instance exn_eq_dec : EqDecision exn.
Proof. solve_decision. Defined.

(** The calls, on values [V] and a heap [R].  [rb_check_convert_type] is the one the
    binding makes, to [String] by [to_s]; [num2int_other] is [NUM2INT] of what is neither
    [nil] nor a fixnum. *)
Class Ruby (V R : Type) := {
  kind : R -> V -> option (ruby_kind V);
  Qnil : V;
  Qtrue : V;
  Qfalse : V;
  INT2FIX : Z -> V;
  rb_str_new : list Z -> R -> R * V;
  rb_ary_new : R -> R * V;
  rb_ary_push : V -> V -> R -> R;
  rb_check_convert_type : V -> R -> R * (exn + V);
  num2int_other : V -> R -> exn + Z
}.

(** [r'] still has every object of [r], unchanged, [a] apart. *)
Definition keeps_but {V R} `{Ruby V R} (a : option V) (r r' : R) : Prop :=
  forall v k, kind r v = Some k -> Some v <> a -> kind r' v = Some k.

Class RubyLaws (V R : Type) `{Ruby V R} := {
  kind_Qnil r : kind r Qnil = Some KNil;
  kind_INT2FIX r z : is_int z -> kind r (INT2FIX z) = Some (KFixnum z);
  kind_fixnum_range r v z : kind r v = Some (KFixnum z) -> - 2 ^ 62 <= z < 2 ^ 62;
  rb_str_new_fresh l r : kind r (rb_str_new l r).2 = None;
  rb_str_new_kind l r : kind (rb_str_new l r).1 (rb_str_new l r).2 = Some (KString l);
  rb_str_new_keeps l r : keeps_but None r (rb_str_new l r).1;
  rb_ary_new_fresh r : kind r (rb_ary_new r).2 = None;
  rb_ary_new_kind r : kind (rb_ary_new r).1 (rb_ary_new r).2 = Some (KArray []);
  rb_ary_new_keeps r : keeps_but None r (rb_ary_new r).1;
  rb_ary_push_kind a x vs r :
    kind r a = Some (KArray vs) -> kind (rb_ary_push a x r) a = Some (KArray (vs ++ [x]));
  rb_ary_push_keeps a x r : keeps_but (Some a) r (rb_ary_push a x r);
  convert_string v s r :
    kind r v = Some (KString s) -> rb_check_convert_type v r = (r, inr v);
  convert_fixnum v z r :
    kind r v = Some (KFixnum z) ->
    exists r' u, rb_check_convert_type v r = (r', inr u)
      /\ kind r' u = Some (KString (dec_int z)) /\ keeps_but None r r'
}.

(** ** Methods *)
Section Methods.
Context {V R : Type} `{Ruby V R} {W : Type}.

(** The heap, the network, [p->tcpcli] of the receiver and [dena::verbose_level]. *)
Record ruby_state := mkRuby {
  rs_heap : R;
  rs_world : W;
  rs_tcpcli : option hstcpcli;
  rs_verbose : Z
}.

Definition method (A : Type) : Type := ruby_state -> outcome (ruby_state * (exn + A)).

#[export] Instance method_ret : MRet method := fun A a s => Ok (s, inr a).
#[export] Instance method_bind : MBind method := fun A B k m s =>
  '(s, r) ← m s; match r with inl e => Ok (s, inl e) | inr a => k a s end.

Definition rb_raise {A} (e : exn) : method A := fun s => Ok (s, inl e).

Definition undefined {A} (f : fault) : method A := fun _ => Fault f.

(** A call that changes the heap. *)
Definition ruby {A} (f : R -> R * A) : method A := fun s =>
  let '(r, a) := f (rs_heap s) in
  Ok (mkRuby r (rs_world s) (rs_tcpcli s) (rs_verbose s), inr a).

Definition kind_of (v : V) : method (option (ruby_kind V)) := fun s =>
  Ok (s, inr (kind (rs_heap s) v)).

(** A call of the client. *)
Definition on_client {A} (f : hstcpcli -> W -> outcome (W * hstcpcli * A)) : method A := fun s =>
  match rs_tcpcli s with
  | None => Fault NullDeref
  | Some c =>
      '(w, c, a) ← f c (rs_world s);
      Ok (mkRuby (rs_heap s) w (Some c) (rs_verbose s), inr a)
  end.

(** A string the binding reads through a [char *]: it ends at the first zero byte. *)
Definition upto_nul (l : list Z) : list Z := take (default (length l) (memchr NUL l)) l.

Definition NIL_P (v : V) : method bool :=
  k ← kind_of v; mret match k with Some KNil => true | _ => false end.

Definition check_fixnum (v : V) : method unit :=
  k ← kind_of v; match k with Some (KFixnum _) => mret tt | _ => rb_raise TypeError end.

Definition check_string (v : V) : method unit :=
  k ← kind_of v; match k with Some (KString _) => mret tt | _ => rb_raise TypeError end.

Definition check_array (v : V) : method unit :=
  k ← kind_of v; match k with Some (KArray _) => mret tt | _ => rb_raise TypeError end.

(** The accessor macros do not check the type: on another object they read
    foreign memory. *)
Definition RSTRING (v : V) : method (list Z) :=
  k ← kind_of v; match k with Some (KString s) => mret s | _ => undefined OutOfBounds end.

Definition RARRAY (v : V) : method (list V) :=
  k ← kind_of v; match k with Some (KArray vs) => mret vs | _ => undefined OutOfBounds end.

Definition rb_ary_entry (a : V) (i : nat) : method V :=
  vs ← RARRAY a; mret (default Qnil (vs !! i)).

(** [FIX2INT] raises when the number does not fit in an [int]. *)
Definition FIX2INT (v : V) : method Z :=
  k ← kind_of v;
  match k with
  | Some (KFixnum z) => if decide (is_int z) then mret z else rb_raise RangeError
  | _ => undefined OutOfBounds
  end.

Definition NUM2INT (v : V) : method Z := fun s =>
  match kind (rs_heap s) v with
  | Some (KFixnum z) => Ok (s, if decide (is_int z) then inr z else inl RangeError)
  | Some KNil => Ok (s, inl TypeError)
  | _ => Ok (s, num2int_other v (rs_heap s))
  end.

(** [StringValuePtr] of the result of a conversion, read as a C string. *)
Definition StringValuePtr (v : V) : method (list Z) :=
  k ← kind_of v;
  match k with Some (KString s) => mret (upto_nul s) | _ => rb_raise TypeError end.

Definition convert (v : V) : method V := fun s =>
  let '(r, x) := rb_check_convert_type v (rs_heap s) in
  Ok (mkRuby r (rs_world s) (rs_tcpcli s) (rs_verbose s), x).

Definition ary_push (a v : V) : method unit := ruby (fun r => (rb_ary_push a v r, tt)).

(** [rb_scan_args] with [n] required and [m] optional arguments: missing ones are nil. *)
Definition rb_scan_args (n m : nat) (argv : list V) : method (list V) :=
  if (n <=? length argv)%nat && (length argv <=? n + m)%nat
  then mret (argv ++ replicate (n + m - length argv) Qnil)
  else rb_raise ArgumentError.
End Methods.
Arguments ruby_state : clear implicits.
Arguments method : clear implicits.

(** Run a method that is known to return, step by step. *)
Ltac method_step :=
  cbv beta iota zeta delta [mbind method_bind outcome_bind mret method_ret rb_raise undefined].

(** ** What a caller sees of a result *)
Inductive scalar := SNil | SInt (z : Z) | SStr (s : list Z).

#[export] Instance scalar_eq_dec : EqDecision scalar.
Proof. solve_decision. Defined.

Section Views.
Context {V R : Type} `{Ruby V R}.

Definition scalar_of (r : R) (v : V) : option scalar :=
  match kind r v with
  | Some KNil => Some SNil
  | Some (KFixnum z) => Some (SInt z)
  | Some (KString s) => Some (SStr s)
  | _ => None
  end.

(** An array of scalars, and an array of such arrays. *)
Definition shown (r : R) (v : V) : option (list scalar) :=
  match kind r v with Some (KArray vs) => mapM (scalar_of r) vs | _ => None end.

Definition shown2 (r : R) (v : V) : option (list (list scalar)) :=
  match kind r v with Some (KArray vs) => mapM (shown r) vs | _ => None end.

Lemma keeps_refl a (r : R) : keeps_but a r r.
Proof. by intros v k Hv _. Qed.

Lemma keeps_trans a (r1 r2 r3 : R) : keeps_but a r1 r2 -> keeps_but a r2 r3 -> keeps_but a r1 r3.
Proof. intros H1 H2 v k Hk Hv. apply H2; [by apply H1|done]. Qed.

Lemma keeps_weaken a (r1 r2 : R) : keeps_but None r1 r2 -> keeps_but a r1 r2.
Proof. intros H1 v k Hk _. by apply H1. Qed.

(** Objects made after [r] may change: what was live stays. *)
Lemma keeps_fresh a (r1 r2 r3 : R) :
  kind r1 a = None -> keeps_but None r1 r2 -> keeps_but (Some a) r2 r3 -> keeps_but None r1 r3.
Proof.
  intros Ha H1 H2 v k Hk _. apply H2; [by apply H1|]. intros [= ->]. congruence.
Qed.

Lemma scalar_of_keeps a (r1 r2 : R) vs v s :
  keeps_but (Some a) r1 r2 -> kind r1 a = Some (KArray vs) ->
  scalar_of r1 v = Some s -> scalar_of r2 v = Some s.
Proof.
  intros Hk Ha. unfold scalar_of. destruct (kind r1 v) as [k|] eqn:Ev; [|done]. intros Hs.
  rewrite (Hk v k Ev); [done|]. intros [= ->]. rewrite Ha in Ev. injection Ev as <-. done.
Qed.

Lemma scalar_of_keeps_none (r1 r2 : R) v s :
  keeps_but None r1 r2 -> scalar_of r1 v = Some s -> scalar_of r2 v = Some s.
Proof.
  intros Hk. unfold scalar_of. destruct (kind r1 v) as [k|] eqn:Ev; [|done].
  by rewrite (Hk v k Ev).
Qed.

Lemma mapM_impl {A B} (f g : A -> option B) l k :
  (forall x y, x ∈ l -> f x = Some y -> g x = Some y) -> mapM f l = Some k -> mapM g l = Some k.
Proof.
  intros Hfg. rewrite !mapM_Some. intros Hl. induction Hl as [|x y l k Hx Hl IH]; [constructor|].
  constructor; [apply Hfg; [left|done]|]. apply IH. intros z t Hz. apply Hfg. by right.
Qed.

(** An array that changes elsewhere keeps what it shows. *)
Lemma shown_keeps b (r1 r2 : R) vs v ss :
  keeps_but (Some b) r1 r2 -> kind r1 b = Some (KArray vs) -> v <> b ->
  shown r1 v = Some ss -> shown r2 v = Some ss.
Proof.
  intros Hk Hb Hv. unfold shown. destruct (kind r1 v) as [k|] eqn:Ev; [|done].
  rewrite (Hk v k Ev) by congruence. destruct k; try done.
  apply mapM_impl. intros x y _. by eapply scalar_of_keeps.
Qed.

Lemma shown_keeps_none (r1 r2 : R) v ss :
  keeps_but None r1 r2 -> shown r1 v = Some ss -> shown r2 v = Some ss.
Proof.
  intros Hk. unfold shown. destruct (kind r1 v) as [k|] eqn:Ev; [|done].
  rewrite (Hk v k Ev) by done. destruct k; try done.
  apply mapM_impl. intros x y _. by apply scalar_of_keeps_none.
Qed.

Lemma shown_array (r : R) v ss : shown r v = Some ss -> exists vs, kind r v = Some (KArray vs).
Proof. unfold shown. destruct (kind r v) as [[]|]; naive_solver. Qed.

Lemma mapM_snoc {A B} (f : A -> option B) l k x y :
  mapM f l = Some k -> f x = Some y -> mapM f (l ++ [x]) = Some (k ++ [y]).
Proof. rewrite !mapM_Some. intros Hl Hx. apply Forall2_app; [done|]. by repeat constructor. Qed.

Context `{!RubyLaws V R}.

(** Pushing onto an array shows one more element. *)
Lemma shown_push (r : R) a v ss s :
  shown r a = Some ss -> scalar_of r v = Some s ->
  shown (rb_ary_push a v r) a = Some (ss ++ [s]) /\ keeps_but (Some a) r (rb_ary_push a v r).
Proof.
  intros Ha Hv. destruct (shown_array _ _ _ Ha) as [vs Hvs].
  pose proof (rb_ary_push_keeps a v r) as Hk. split; [|done]. unfold shown in *.
  rewrite (rb_ary_push_kind a v vs r Hvs). rewrite Hvs in Ha.
  apply mapM_snoc; [|by eapply scalar_of_keeps].
  eapply mapM_impl; [|exact Ha]. intros x y _. by eapply scalar_of_keeps.
Qed.

(** An array that shows scalars does not hold itself. *)
Lemma shown_not_self (r : R) b vs x : kind r b = Some (KArray vs) -> shown r b = Some x -> b ∉ vs.
Proof.
  intros Hb. unfold shown. rewrite Hb. intros Hm%mapM_Some Hin.
  apply list_elem_of_lookup in Hin as [i Hi].
  destruct (Forall2_lookup_l _ _ _ _ _ Hm Hi) as (y & _ & Hy).
  unfold scalar_of in Hy. by rewrite Hb in Hy.
Qed.

(** A new array pushed onto another one, then filled. *)
Lemma shown2_new (r : R) b done_ :
  shown2 r b = Some done_ ->
  let a := (rb_ary_new r).2 in
  let r2 := rb_ary_push b a (rb_ary_new r).1 in
  shown r2 a = Some []
  /\ forall r3 ss, keeps_but (Some a) r2 r3 -> shown r3 a = Some ss ->
     shown2 r3 b = Some (done_ ++ [ss]) /\ keeps_but (Some b) r r3.
Proof.
  intros Hb a r2. pose proof (rb_ary_new_fresh r) as Hf. pose proof (rb_ary_new_kind r) as Hk.
  pose proof (rb_ary_new_keeps r) as Hkeep. fold a in Hf, Hk. set (r1 := (rb_ary_new r).1) in *.
  unfold shown2 in Hb. destruct (kind r b) as [[| | |vs|]|] eqn:Eb; try done.
  assert (Hab : a <> b) by (intros ->; congruence).
  assert (Eb1 : kind r1 b = Some (KArray vs)) by (by apply Hkeep).
  pose proof (rb_ary_push_kind b a vs r1 Eb1) as Eb2.
  pose proof (rb_ary_push_keeps b a r1) as Hk2. fold r2 in Eb2, Hk2.
  assert (Ha2 : kind r2 a = Some (KArray [])) by (apply Hk2; [done|congruence]).
  split; [unfold shown; by rewrite Ha2|]. intros r3 ss Hk3 Ha3.
  assert (Eb3 : kind r3 b = Some (KArray (vs ++ [a]))) by (apply Hk3; [done|congruence]).
  split.
  - unfold shown2. rewrite Eb3. apply mapM_snoc; [|done].
    eapply mapM_impl; [|exact Hb]. intros v x Hin Hv.
    assert (Hva : v <> a) by (intros ->; unfold shown in Hv; by rewrite Hf in Hv).
    apply (shown_keeps a r2 r3 [] v x Hk3 Ha2 Hva).
    apply (shown_keeps b r1 r2 vs v x Hk2 Eb1); [|by apply (shown_keeps_none r)].
    intros ->. by apply (shown_not_self r b vs x).
  - intros v k Hv Hvb. apply Hk3; [|intros [= ->]; congruence].
    apply Hk2; [by apply Hkeep|done].
Qed.
End Views.

(** ** A concrete heap *)
Inductive rb_value := VNil | VTrue | VFalse | VFix (z : Z) | VRef (n : nat).
Inductive rb_object := ObjStr (s : list Z) | ObjAry (vs : list rb_value).

#[export] Instance rb_value_eq_dec : EqDecision rb_value.
Proof. solve_decision. Defined.

Definition heap_kind (r : list rb_object) (v : rb_value) : option (ruby_kind rb_value) :=
  match v with
  | VNil => Some KNil
  | VTrue | VFalse => Some KOther
  | VFix z => if decide (- 2 ^ 62 <= z < 2 ^ 62) then Some (KFixnum z) else None
  | VRef n =>
      match r !! n with
      | Some (ObjStr s) => Some (KString s)
      | Some (ObjAry vs) => Some (KArray vs)
      | None => None
      end
  end.

Definition heap_new (o : rb_object) (r : list rb_object) : list rb_object * rb_value :=
  (r ++ [o], VRef (length r)).

Definition heap_push (a x : rb_value) (r : list rb_object) : list rb_object :=
  match a with
  | VRef n => match r !! n with Some (ObjAry vs) => <[n := ObjAry (vs ++ [x])]> r | _ => r end
  | _ => r
  end.

Definition heap_convert (v : rb_value) (r : list rb_object) : list rb_object * (exn + rb_value) :=
  match heap_kind r v with
  | Some (KString _) => (r, inr v)
  | Some (KFixnum z) => let '(r, u) := heap_new (ObjStr (dec_int z)) r in (r, inr u)
  | _ => (r, inl TypeError)
  end.

Definition heap_ruby : Ruby rb_value (list rb_object) := {|
  kind := heap_kind;
  Qnil := VNil;
  Qtrue := VTrue;
  Qfalse := VFalse;
  INT2FIX := VFix;
  rb_str_new s := heap_new (ObjStr s);
  rb_ary_new := heap_new (ObjAry []);
  rb_ary_push := heap_push;
  rb_check_convert_type := heap_convert;
  num2int_other _ _ := inl TypeError
|}.

Lemma heap_new_fresh o r : heap_kind r (heap_new o r).2 = None.
Proof. cbn. by rewrite lookup_ge_None_2. Qed.

Lemma heap_new_kind o r :
  heap_kind (heap_new o r).1 (heap_new o r).2
  = Some (match o with ObjStr s => KString s | ObjAry vs => KArray vs end).
Proof. cbn. rewrite lookup_app_r, Nat.sub_diag by done. by destruct o. Qed.

Lemma heap_new_keeps o r : @keeps_but _ _ heap_ruby None r (heap_new o r).1.
Proof.
  intros v k Hk _. cbn in *. destruct v as [| | | |n]; try done. cbn in *.
  destruct (r !! n) eqn:E; [|done]. by rewrite (lookup_app_l_Some _ _ _ _ E).
Qed.

Definition heap_laws : @RubyLaws rb_value (list rb_object) heap_ruby.
Proof.
  split.
  - done.
  - intros r z Hz. cbn. rewrite decide_True; [done|]. unfold is_int, INT_MIN, INT_MAX in Hz. lia.
  - intros r v z. cbn. destruct v as [| | |z'|n]; try done; cbn.
    + case_decide; [|done]. by intros [= <-].
    + by destruct (r !! n) as [[]|].
  - intros l r. apply heap_new_fresh.
  - intros l r. apply (heap_new_kind (ObjStr l)).
  - intros l r. apply heap_new_keeps.
  - intros r. apply heap_new_fresh.
  - intros r. apply (heap_new_kind (ObjAry [])).
  - intros r. apply heap_new_keeps.
  - intros a x vs r. cbn. destruct a as [| | |z|n]; cbn; try done; [by case_decide|].
    destruct (r !! n) as [[s|us]|] eqn:E; cbn; try done. intros [= ->].
    rewrite list_lookup_insert_eq; [done|]. by apply lookup_lt_Some in E.
  - intros a x r v k Hk Hv. cbn in *. destruct a as [| | |z|n]; cbn; try done.
    destruct (r !! n) as [[s|us]|] eqn:E; cbn; try done.
    destruct v as [| | | |m]; try done. cbn in *. rewrite list_lookup_insert_ne; [done|]. congruence.
  - intros v s r Hv. cbn in *. unfold heap_convert. by rewrite Hv.
  - intros v z r Hv. cbn in *. unfold heap_convert. rewrite Hv. cbn.
    eexists _, _. split; [reflexivity|]. split; [apply (heap_new_kind (ObjStr (dec_int z)))|].
    apply (heap_new_keeps (ObjStr (dec_int z))).
Defined.
