(* ===== verification/Ruby.v ===== *)
(** * Ruby: the Ruby binding of the HandlerSocket client ([libhsclient/handlersocket.cpp])

    The methods of the class [HandlerSocket] in the order of the source.  [recv_fuel] bounds
    the reads that wait for one line.  The address of the first element of an empty
    vector, which the calls take, is never dereferenced and not modelled. *)
From S2P Require Import Prelude Text StringUtil Socket Hstcpcli RubyApi HandlerSocket.
#[local] Open Scope Z_scope.

Section Binding.
Context {V R : Type} `{Ruby V R} {W : Type} `{Net W}.
Variable recv_fuel : nat.

(** One entry of an array; a null reference for nil. *)
Definition ary2vec_entry (entry : V) : method R W string_ref :=
  nil ← NIL_P entry;
  if nil : bool then mret None
  else entry ← convert entry; s ← StringValuePtr entry; mret (Some s).

(** [ary2vec]: the length is converted to [int]; every entry is read when its turn
    comes. *)
Fixpoint ary2vec_loop (n i : nat) (ary : V) : method R W (list string_ref) :=
  match n with
  | O => mret []
  | S n' =>
      entry ← rb_ary_entry ary i;
      x ← ary2vec_entry entry;
      xs ← ary2vec_loop n' (S i) ary;
      mret (x :: xs)
  end.

Definition ary2vec (ary : V) : method R W (list string_ref) :=
  vs ← RARRAY ary;
  ary2vec_loop (Z.to_nat (wrap_int (Z.of_nat (length vs)))) 0 ary.

(** ** The object *)
Definition alloc : option hstcpcli := None.

(** The destructor of the client closes its descriptor. *)
Definition free (p : option hstcpcli) (w : W) : W :=
  match p with Some c => (af_close (fd c) w).1 | None => w end.

Definition Check_TcpCli : method R W unit := fun s =>
  Ok (s, match rs_tcpcli s with None => inl RuntimeError | Some _ => inr tt end).

(** One setting of [initialize]: its text, from a default or a fixnum. *)
Definition conf_fixnum (v : V) (def : string) : method R W (list Z) :=
  nil ← NIL_P v;
  if nil : bool then mret (bytes def)
  else check_fixnum v;; v ← convert v; StringValuePtr v.

Definition conf_host (v : V) : method R W (list Z) :=
  nil ← NIL_P v;
  if nil : bool then mret (bytes "localhost")
  else check_string v;; s ← RSTRING v; mret (upto_nul s).

Definition put_verbose_level (n : Z) : method R W unit := fun s =>
  Ok (mkRuby (rs_heap s) (rs_world s) (rs_tcpcli s) (wrap_u32 n), inr tt).

Definition set_verbose_level (v : V) : method R W unit :=
  nil ← NIL_P v;
  if nil : bool then mret tt
  else n ← NUM2INT v; put_verbose_level n.

(** The new client replaces the old one, which is not closed. *)
Definition new_client (conf : config) : method R W unit := fun s =>
  sargs ← socket_args_set socket_args_default conf (rs_world s);
  let '(w, c) := create sargs (rs_world s) in
  Ok (mkRuby (rs_heap s) w (Some c) (rs_verbose s), inr tt).

Definition initialize (argv : list V) : method R W V :=
  args ← rb_scan_args 0 5 argv;
  let arg i := default Qnil (args !! i) in
  host ← conf_host (arg 0%nat);
  port ← conf_fixnum (arg 1%nat) "9998";
  timeout ← conf_fixnum (arg 2%nat) "600";
  listen_backlog ← conf_fixnum (arg 3%nat) "256";
  set_verbose_level (arg 4%nat);;
  new_client (<[bytes "listen_backlog" := listen_backlog]> (<[bytes "timeout" := timeout]>
    (<[bytes "port" := port]> (<[bytes "host" := host]> ∅))));;
  mret Qnil.

Definition close : method R W V :=
  Check_TcpCli;;
  on_client (fun c w => let '(w, c) := Hstcpcli.close c w in Ok (w, c, tt));;
  mret Qnil.

Definition reconnect : method R W V :=
  Check_TcpCli;;
  retval ← on_client (fun c w => Ok (Hstcpcli.reconnect c w));
  mret (INT2FIX retval).

Definition stable_point : method R W V :=
  Check_TcpCli;;
  retval ← on_client (fun c w => Ok (w, c, Hstcpcli.stable_point c));
  mret (if retval : bool then Qtrue else Qfalse).

Definition client_error_code : method R W Z :=
  on_client (fun c w => Ok (w, c, Hstcpcli.get_error_code c)).

Definition get_error_code : method R W V :=
  Check_TcpCli;; retval ← client_error_code; mret (INT2FIX retval).

Definition client_error : method R W (list Z) :=
  on_client (fun c w => Ok (w, c, Hstcpcli.get_error c)).

Definition get_error : method R W V :=
  Check_TcpCli;; s ← client_error; ruby (rb_str_new s).

(** ** Requests *)
Definition client_send : method R W Z := on_client (fun c w => Ok (request_send c w)).

(** [response_recv]: the number of fields and the code. *)
Definition client_recv : method R W (Z * Z) :=
  on_client (fun c w =>
    '(w, c, nflds, r) ← response_recv recv_fuel 0 c w; Ok (w, c, (nflds, r))).

Definition client_remove : method R W unit :=
  on_client (fun c w => let '(w, c) := response_buf_remove c w in Ok (w, c, tt)).

Definition open_index (id db table index fields : V) : method R W V :=
  Check_TcpCli;;
  check_fixnum id;; check_string db;; check_string table;; check_string index;;
  check_string fields;;
  n ← FIX2INT id;
  dbn ← RSTRING db; tbl ← RSTRING table; idx ← RSTRING index; flds ← RSTRING fields;
  on_client (fun c w =>
    let '(w, c) := request_buf_open_index (wrap_u64 n) (upto_nul dbn) (upto_nul tbl)
                     (upto_nul idx) (upto_nul flds) None c w in Ok (w, c, tt));;
  rc ← client_send;
  (if negb (rc =? 0) then mret tt
   else
     client_recv;;
     e ← client_error_code;
     if 0 <=? e then client_remove else mret tt);;
  retval ← client_error_code;
  mret (INT2FIX retval).

(** A row of the reply, pushed value by value. *)
Fixpoint push_row (retval : V) (row : list string_ref) : method R W unit :=
  match row with
  | [] => mret tt
  | Some s :: row' => v ← ruby (rb_str_new s); ary_push retval v;; push_row retval row'
  | None :: row' => ary_push retval Qnil;; push_row retval row'
  end.

(** [row[0]], ..., [row[n - 1]]. *)
Definition row_values (c : hstcpcli) (n : nat) (row : list field_ref) : outcome (list string_ref) :=
  array_reads row 0 n ≫= fun fs : list field_ref => Ok (field_bytes c <$> fs).

(** [get_next_row] and the values of the row it points to. *)
Definition next_row (nflds : Z) : method R W (option (list string_ref)) :=
  on_client (fun c w =>
    '(c, row) ← get_next_row c;
    vals ← match row with
           | None => Ok None
           | Some row => vals ← row_values c (Z.to_nat nflds) row; Ok (Some vals)
           end;
    Ok (w, c, vals)).

Fixpoint push_rows (fuel : nat) (nflds : Z) (retval : V) : method R W unit :=
  match fuel with
  | O => undefined OutOfFuel
  | S f =>
      row ← next_row nflds;
      match row with
      | None => mret tt
      | Some vals => push_row retval vals;; push_rows f nflds retval
      end
  end.

(** Every row consumes a byte of the response. *)
Definition rows_bound : method R W nat := on_client (fun c w => Ok (w, c, rows_fuel c)).

(** What follows the code in a result: the message, or the values of the rows. *)
Definition push_reply (e nflds : Z) (retval : V) : method R W unit :=
  if negb (e =? 0) then
    s ← client_error; v ← ruby (rb_str_new s); ary_push retval v
  else fuel ← rows_bound; push_rows fuel nflds retval.

(** One request put into the buffer of the client. *)
Definition buffer_request (id : Z) (op : list Z) (keyarr : list string_ref) (limit skip : Z)
    (modop_ref : string_ref) (mvarr : list string_ref) : method R W unit :=
  on_client (fun c w =>
    let '(w, c) := request_buf_exec_generic (wrap_u64 id) (Some op) keyarr (wrap_u32 limit)
                     (wrap_u32 skip) modop_ref mvarr [] (-1) [] c w in Ok (w, c, tt)).

Definition execute_internal (v_id v_op v_keys v_limit v_skip : V) (modop : option (list Z))
    (v_modvals : V) : method R W V :=
  Check_TcpCli;;
  check_fixnum v_id;; check_string v_op;; check_array v_keys;; check_fixnum v_limit;;
  check_fixnum v_skip;;
  id ← FIX2INT v_id;
  op ← RSTRING v_op;
  keyarr ← ary2vec v_keys;
  mvarr ← (match modop with Some _ => ary2vec v_modvals | None => mret [] end);
  let modop_ref := upto_nul <$> modop in
  limit ← FIX2INT v_limit;
  skip ← FIX2INT v_skip;
  buffer_request id op keyarr limit skip modop_ref mvarr;;
  rc ← client_send;
  if negb (rc =? 0) then mret Qnil
  else
    '(nflds, _) ← client_recv;
    e ← client_error_code;
    retval ← ruby rb_ary_new;
    ary_push retval (INT2FIX e);;
    push_reply e nflds retval;;
    (if 0 <=? e then client_remove else mret tt);;
    mret retval.

Definition execute_single (argv : list V) : method R W V :=
  args ← rb_scan_args 3 4 argv;
  let arg i := default Qnil (args !! i) in
  nolimit ← NIL_P (arg 3%nat);
  noskip ← NIL_P (arg 4%nat);
  nomod ← NIL_P (arg 5%nat);
  modop ← (if nomod : bool then mret None
           else check_string (arg 5%nat);; check_array (arg 6%nat);;
                s ← RSTRING (arg 5%nat); mret (Some s));
  execute_internal (arg 0%nat) (arg 1%nat) (arg 2%nat)
    (if nolimit : bool then INT2FIX 0 else arg 3%nat)
    (if noskip : bool then INT2FIX 0 else arg 4%nat) modop (arg 6%nat).

Definition execute_update (id op keys limit skip modvals : V) : method R W V :=
  execute_internal id op keys limit skip (Some (bytes "U")) modvals.

Definition execute_delete (id op keys limit skip : V) : method R W V :=
  modvals ← ruby rb_ary_new;
  execute_internal id op keys limit skip (Some (bytes "D")) modvals.

Definition execute_insert (id fvals : V) : method R W V :=
  op ← ruby (rb_str_new (bytes "+"));
  execute_internal id op fvals (INT2FIX 0) (INT2FIX 0) None Qnil.

(** ** Several requests at once *)

(** The checks of the first loop, on one element. *)
Definition check_request (v_arg : V) : method R W unit :=
  check_array v_arg;;
  v_id ← rb_ary_entry v_arg 0; v_op ← rb_ary_entry v_arg 1; v_keys ← rb_ary_entry v_arg 2;
  v_limit ← rb_ary_entry v_arg 3; v_skip ← rb_ary_entry v_arg 4; v_modo ← rb_ary_entry v_arg 5;
  v_modvals ← rb_ary_entry v_arg 6;
  check_fixnum v_id;; check_string v_op;; check_array v_keys;; check_fixnum v_limit;;
  check_fixnum v_skip;;
  nomod ← NIL_P v_modo;
  if nomod : bool then mret tt else check_string v_modo;; check_array v_modvals.

(** The body of the second loop. *)
Definition multi_request (v_arg : V) : method R W unit :=
  v_id ← rb_ary_entry v_arg 0; v_op ← rb_ary_entry v_arg 1; v_keys ← rb_ary_entry v_arg 2;
  v_limit ← rb_ary_entry v_arg 3; v_skip ← rb_ary_entry v_arg 4; v_modo ← rb_ary_entry v_arg 5;
  v_modvals ← rb_ary_entry v_arg 6;
  id ← FIX2INT v_id;
  op ← RSTRING v_op;
  keyarr ← ary2vec v_keys;
  nomod ← NIL_P v_modo;
  '(modop_ref, mvarr) ←
    (if nomod : bool then mret (None, [])
     else s ← RSTRING v_modo; mv ← ary2vec v_modvals; mret (Some s, mv));
  limit ← FIX2INT v_limit;
  skip ← FIX2INT v_skip;
  buffer_request id op keyarr limit skip modop_ref mvarr.

(** [f] for the elements [i], ..., [i + n - 1] of the array. *)
Fixpoint each_entry (f : V -> method R W unit) (n i : nat) (args : V) : method R W unit :=
  match n with
  | O => mret tt
  | S n' => v_arg ← rb_ary_entry args i; f v_arg;; each_entry f n' (S i) args
  end.

(** The results: an array for every reply, pushed before it is filled; an
    input/output error ends them. *)
Fixpoint multi_replies (n : nat) (rvs : V) : method R W unit :=
  match n with
  | O => mret tt
  | S n' =>
      retval ← ruby rb_ary_new;
      ary_push rvs retval;;
      '(nflds, e) ← client_recv;
      ary_push retval (INT2FIX e);;
      push_reply e nflds retval;;
      (if 0 <=? e then client_remove else mret tt);;
      if e <? 0 then mret tt else multi_replies n' rvs
  end.

Definition execute_multi_internal (args : V) : method R W V :=
  Check_TcpCli;;
  check_array args;;
  vs ← RARRAY args;
  let num_args := length vs in
  each_entry check_request num_args 0 args;;
  each_entry multi_request num_args 0 args;;
  rvs ← ruby rb_ary_new;
  rc ← client_send;
  if rc <? 0 then
    retval ← ruby rb_ary_new;
    ary_push rvs retval;;
    e ← client_error_code;
    ary_push retval (INT2FIX e);;
    s ← client_error;
    v ← ruby (rb_str_new s);
    ary_push retval v;;
    mret rvs
  else multi_replies num_args rvs;; mret rvs.

Definition execute_multi (args : V) : method R W V := execute_multi_internal args.

(** ** [init]: the methods by name, with their numbers of arguments (-1: any) *)
Definition nullary (m : method R W V) (argv : list V) : method R W V := m.

Definition init : list (string * (Z * (list V -> method R W V))) :=
  let arg (argv : list V) i := default Qnil (argv !! i) in
  [("initialize", (-1, initialize));
   ("close", (0, nullary close));
   ("reconnect", (0, nullary reconnect));
   ("stable_point", (0, nullary stable_point));
   ("get_error_code", (0, nullary get_error_code));
   ("get_error", (0, nullary get_error));
   ("open_index", (5, fun a => open_index (arg a 0%nat) (arg a 1%nat) (arg a 2%nat) (arg a 3%nat)
                                 (arg a 4%nat)));
   ("execute_single", (-1, execute_single));
   ("execute_find", (-1, execute_single));
   ("execute_multi", (1, fun a => execute_multi (arg a 0%nat)));
   ("execute_update", (6, fun a => execute_update (arg a 0%nat) (arg a 1%nat) (arg a 2%nat)
                                     (arg a 3%nat) (arg a 4%nat) (arg a 5%nat)));
   ("execute_delete", (5, fun a => execute_delete (arg a 0%nat) (arg a 1%nat) (arg a 2%nat)
                                     (arg a 3%nat) (arg a 4%nat)));
   ("execute_insert", (2, fun a => execute_insert (arg a 0%nat) (arg a 1%nat)))]%string.

(** The call of a method as Ruby dispatches it: an unknown name or a wrong number of
    arguments raises. *)
Definition call_method (name : string) (argv : list V) : method R W V :=
  match list_find (fun m => m.1 = name) init with
  | None => rb_raise ArgumentError
  | Some (_, (_, (arity, m))) =>
      if (arity <? 0) || (arity =? Z.of_nat (length argv)) then m argv else rb_raise ArgumentError
  end.
End Binding.
