(* ===== verification/RubySpec.v ===== *)
(** * RubySpec: what a Ruby program sees of the database

    Requests read from Ruby arrays, replies turned into Ruby arrays: one request and its
    result, any number of requests sent together and their results in order, and the
    memory safety of every method. *)
From S2P Require Import Prelude Text StringUtil Escape Socket Hstcpcli HstcpcliSpec HandlerSocket RubyApi Ruby.
#[local] Open Scope Z_scope.

(** ** Requests *)

(** What the binding reads from its arguments; [rq_mod] is the operation that
    modifies and its values. *)
Record ruby_request := mkRequest {
  rq_id : Z;
  rq_op : list Z;
  rq_keys : list string_ref;
  rq_limit : Z;
  rq_skip : Z;
  rq_mod : option (list Z * list string_ref)
}.

Definition request_line (q : ruby_request) : list Z :=
  exec_generic_line [] (wrap_u64 (rq_id q)) (Some (rq_op q)) (rq_keys q) (wrap_u32 (rq_limit q))
    (wrap_u32 (rq_skip q)) (fst <$> rq_mod q) (default [] (snd <$> rq_mod q)) [] (-1) [].

(** ** Replies *)
Inductive reply :=
| Rows (nf : Z) (rows : list (list string_ref))
| Failure (code nf : Z) (msg : list Z).

Definition reply_text (p : reply) : list Z :=
  match p with
  | Rows nf rows => encode_reply nf rows
  | Failure code nf msg => encode_error code nf msg
  end.

Definition reply_ok (p : reply) : Prop :=
  match p with
  | Rows nf rows => 0 < nf < 2 ^ 32 /\ Forall (row_ok nf) rows
  | Failure code nf msg => 0 < code < 2 ^ 31 /\ 0 <= nf < 2 ^ 32 /\ (TAB ∉ msg) /\ (LF ∉ msg)
  end.

Definition cell (v : string_ref) : scalar := match v with Some s => SStr s | None => SNil end.

(** The array a caller gets: the code, then the values of all rows or the message. *)
Definition reply_code (p : reply) : Z := match p with Rows _ _ => 0 | Failure code _ _ => code end.

Definition reply_cells (p : reply) : list scalar :=
  match p with
  | Rows nf rows => cell <$> mjoin rows
  | Failure code nf msg => [SStr (if bool_decide (msg = []) then bytes "unknown_error" else msg)]
  end.

Definition reply_result (p : reply) : list scalar := SInt (reply_code p) :: reply_cells p.

Section Reading.
Context {V R : Type} `{Ruby V R}.

(** The bytes of a key or value, as [ary2vec] sees them. *)
Definition key_of (r : R) (v : V) : option string_ref :=
  match kind r v with
  | Some KNil => Some None
  | Some (KString s) => Some (Some (upto_nul s))
  | Some (KFixnum z) => Some (Some (dec_int z))
  | _ => None
  end.

Definition keys_of (r : R) (v : V) : option (list string_ref) :=
  match kind r v with Some (KArray vs) => mapM (key_of r) vs | _ => None end.

Definition int_of (r : R) (v : V) : option Z :=
  match kind r v with
  | Some (KFixnum z) => if decide (is_int z) then Some z else None
  | _ => None
  end.

Definition string_of (r : R) (v : V) : option (list Z) :=
  match kind r v with Some (KString s) => Some s | _ => None end.

(** [cut] is what becomes of the text of the modifying operation. *)
Definition mod_of (r : R) (cut : list Z -> list Z) (v_modo v_modvals : V)
    : option (option (list Z * list string_ref)) :=
  match kind r v_modo with
  | Some KNil => Some None
  | _ => s ← string_of r v_modo; mv ← keys_of r v_modvals; Some (Some (cut s, mv))
  end.

Definition read_request (r : R) (cut : list Z -> list Z)
    (v_id v_op v_keys v_limit v_skip v_modo v_modvals : V) : option ruby_request :=
  id ← int_of r v_id;
  op ← string_of r v_op;
  keys ← keys_of r v_keys;
  limit ← int_of r v_limit;
  skip ← int_of r v_skip;
  md ← mod_of r cut v_modo v_modvals;
  Some (mkRequest id op keys limit skip md).

Context `{!RubyLaws V R}.

(** The request of [execute_internal]: the modifying operation is a C string. *)
Definition internal_request (r : R) (v_id v_op v_keys v_limit v_skip : V) (modop : option (list Z))
    (v_modvals : V) : option ruby_request :=
  id ← int_of r v_id;
  op ← string_of r v_op;
  keys ← keys_of r v_keys;
  limit ← int_of r v_limit;
  skip ← int_of r v_skip;
  md ← match modop with
       | None => Some None
       | Some m => mv ← keys_of r v_modvals; Some (Some (upto_nul m, mv))
       end;
  Some (mkRequest id op keys limit skip md).

(** The request that a call of a method makes: the methods with one request. *)
Definition or_zero (r : R) (v : V) : V :=
  match kind r v with Some KNil => INT2FIX 0 | _ => v end.

Definition call_request (r : R) (name : string) (argv : list V) : option ruby_request :=
  let arg i := default Qnil (argv !! i) in
  if bool_decide (name = "execute_find" \/ name = "execute_single")%string then
    if (3 <=? length argv)%nat && (length argv <=? 7)%nat then
      read_request r upto_nul (arg 0%nat) (arg 1%nat) (arg 2%nat) (or_zero r (arg 3%nat))
        (or_zero r (arg 4%nat)) (arg 5%nat) (arg 6%nat)
    else None
  else if bool_decide (name = "execute_update")%string then
    if (length argv =? 6)%nat then
      internal_request r (arg 0%nat) (arg 1%nat) (arg 2%nat) (arg 3%nat) (arg 4%nat)
        (Some (bytes "U")) (arg 5%nat)
    else None
  else if bool_decide (name = "execute_delete")%string then
    if (length argv =? 5)%nat then
      q ← internal_request r (arg 0%nat) (arg 1%nat) (arg 2%nat) (arg 3%nat) (arg 4%nat) None Qnil;
      Some (mkRequest (rq_id q) (rq_op q) (rq_keys q) (rq_limit q) (rq_skip q)
              (Some (bytes "D", [])))
    else None
  else if bool_decide (name = "execute_insert")%string then
    if (length argv =? 2)%nat then
      id ← int_of r (arg 0%nat);
      keys ← keys_of r (arg 1%nat);
      Some (mkRequest id (bytes "+") keys 0 0 None)
    else None
  else None.

(** The request in one element of the argument of [execute_multi], and all of them. *)
Definition multi_request_of (r : R) (v_arg : V) : option ruby_request :=
  match kind r v_arg with
  | Some (KArray vs) =>
      let arg i := default Qnil (vs !! i) in
      read_request r (fun s => s) (arg 0%nat) (arg 1%nat) (arg 2%nat) (arg 3%nat) (arg 4%nat)
        (arg 5%nat) (arg 6%nat)
  | _ => None
  end.

Definition multi_requests_of (r : R) (args : V) : option (list ruby_request) :=
  match kind r args with Some (KArray vs) => mapM (multi_request_of r) vs | _ => None end.

(** No array is longer than an [int]. *)
Definition request_fits (q : ruby_request) : Prop :=
  Z.of_nat (length (rq_keys q)) <= INT_MAX
  /\ Z.of_nat (length (default [] (snd <$> rq_mod q))) <= INT_MAX.

Lemma key_of_keeps (r1 r2 : R) v x :
  keeps_but None r1 r2 -> key_of r1 v = Some x -> key_of r2 v = Some x.
Proof.
  intros Hk. unfold key_of. destruct (kind r1 v) as [k|] eqn:E; [|done]. by rewrite (Hk v k E).
Qed.

Lemma keys_of_keeps (r1 r2 : R) v x :
  keeps_but None r1 r2 -> keys_of r1 v = Some x -> keys_of r2 v = Some x.
Proof.
  intros Hk. unfold keys_of. destruct (kind r1 v) as [k|] eqn:E; [|done]. rewrite (Hk v k E) by done.
  destruct k; try done. apply mapM_impl. intros y z _. by apply key_of_keeps.
Qed.

Lemma int_of_keeps (r1 r2 : R) v x :
  keeps_but None r1 r2 -> int_of r1 v = Some x -> int_of r2 v = Some x.
Proof.
  intros Hk. unfold int_of. destruct (kind r1 v) as [k|] eqn:E; [|done]. by rewrite (Hk v k E).
Qed.

Lemma kind_keeps (r1 r2 : R) v k : keeps_but None r1 r2 -> kind r1 v = Some k -> kind r2 v = Some k.
Proof. intros Hk Hv. by apply Hk. Qed.

Lemma string_of_keeps (r1 r2 : R) v x :
  keeps_but None r1 r2 -> string_of r1 v = Some x -> string_of r2 v = Some x.
Proof.
  intros Hk. unfold string_of. destruct (kind r1 v) as [k|] eqn:E; [|done]. by rewrite (Hk v k E).
Qed.

Lemma mod_of_keeps (r1 r2 : R) cut v u x :
  keeps_but None r1 r2 -> mod_of r1 cut v u = Some x -> mod_of r2 cut v u = Some x.
Proof.
  intros Hk. unfold mod_of. destruct (kind r1 v) as [k|] eqn:E.
  - rewrite (Hk v k E) by done. destruct k; try done;
      intros (t & Hs & (mv & Hmv & [= <-])%bind_Some)%bind_Some; apply bind_Some; exists t;
      (split; [by eapply string_of_keeps|]); apply bind_Some; exists mv;
      (split; [by eapply keys_of_keeps|done]).
  - intros (t & Hs & _)%bind_Some. unfold string_of in Hs. by rewrite E in Hs.
Qed.

Lemma read_request_keeps (r1 r2 : R) cut v0 v1 v2 v3 v4 v5 v6 q :
  keeps_but None r1 r2 -> read_request r1 cut v0 v1 v2 v3 v4 v5 v6 = Some q ->
  read_request r2 cut v0 v1 v2 v3 v4 v5 v6 = Some q.
Proof.
  intros Hk. unfold read_request. intros Hq.
  do 6 (apply bind_Some in Hq as (? & ? & Hq)).
  erewrite int_of_keeps by eassumption. cbn [mbind option_bind].
  erewrite string_of_keeps by eassumption. cbn [mbind option_bind].
  erewrite keys_of_keeps by eassumption. cbn [mbind option_bind].
  erewrite int_of_keeps by eassumption. cbn [mbind option_bind].
  erewrite int_of_keeps by eassumption. cbn [mbind option_bind].
  by erewrite mod_of_keeps by eassumption.
Qed.

Lemma multi_request_keeps (r1 r2 : R) v q :
  keeps_but None r1 r2 -> multi_request_of r1 v = Some q -> multi_request_of r2 v = Some q.
Proof.
  intros Hk. unfold multi_request_of. destruct (kind r1 v) as [k|] eqn:E; [|done].
  rewrite (kind_keeps r1 r2 v k Hk E). destruct k; try done. by apply read_request_keeps.
Qed.
End Reading.

Lemma upto_nul_digits z : upto_nul (dec_int z) = dec_int z.
Proof.
  assert (Hn : NUL ∉ dec_int z).
  { unfold dec_int. destruct (z <? 0); [apply not_elem_of_cons; split; [done|]|];
      apply dec_nat_no_byte; by_decide. }
  unfold upto_nul. rewrite (proj2 (memchr_None _ _) Hn). by apply take_ge.
Qed.

(** ** Replies in a row *)

(** A client at rest that still awaits [n] replies. *)
Record pending (c : hstcpcli) (n : Z) : Prop := {
  pd_error : 0 <= error_code c;
  pd_fd : 0 <= fd c;
  pd_bufd : num_req_bufd c = 0;
  pd_sent : num_req_sent c = n;
  pd_rcvd : num_req_rcvd c = 0;
  pd_end : response_end_offset c = 0%nat;
  pd_flds : flds c = [];
  pd_writebuf : writebuf c = []
}.

Lemma pending_waiting c n : 0 < n -> pending c n -> waiting c.
Proof. intros Hn []. split; try done. lia. Qed.

Lemma pending_ready c : pending c 0 -> readbuf c = [] -> ready c.
Proof. intros [] Hr. by split. Qed.

(** A client at rest into which requests have been put. *)
Definition buffered (c : hstcpcli) (lines : list (list Z)) : hstcpcli :=
  with_writebuf (with_counts c (Z.of_nat (length lines)) 0 0) (mjoin lines).

(** The client after they have been sent. *)
Definition awaiting (c : hstcpcli) (n : nat) : hstcpcli :=
  mkCli (fd c) (sargs c) [] [] 0 (cur_row_offset c) (num_flds c) 0 (Z.of_nat n) 0 0 [] [].

Lemma buffered_nil c : ready c -> buffered c [] = c.
Proof.
  intros []. unfold buffered. destruct c. cbn in *. by subst.
Qed.

Lemma request_buf_buffered {W} `{Net W} name line c lines (w : W) :
  request_buf name line (buffered c lines) w = (w, buffered c (lines ++ [line])).
Proof.
  unfold request_buf, buffered, out_of_sync. cbn. do 2 f_equal. unfold with_writebuf, with_counts. cbn.
  rewrite mjoin_app, mjoin_cons, app_nil_r, length_app. cbn. f_equal. lia.
Qed.

Lemma request_send_buffered {W} `{Net W} c lines (w w1 : W) :
  ready c -> Forall (fun l => l <> []) lines -> lines <> [] ->
  sys_send (fd c) (mjoin lines) w = (w1, Z.of_nat (length (mjoin lines))) ->
  request_send (buffered c lines) w = (w1, awaiting c (length lines), 0).
Proof.
  intros [He Hfd Hb Hs Hr Hend Hfl Hwb Hrb] Hl Hne Hsend. unfold request_send, buffered. cbn.
  destruct (Z.ltb_spec (error_code c) 0); [lia|]. destruct (Z.ltb_spec (fd c) 0); [lia|].
  destruct (Z.eqb_spec (Z.of_nat (length lines)) 0); [destruct lines; [done|simpl in *; lia]|].
  cbn. rewrite Hsend.
  destruct (Z.leb_spec (Z.of_nat (length (mjoin lines))) 0).
  { by destruct Hl as [|[|b l] lines]. }
  rewrite Z.eqb_refl. cbn. unfold awaiting, with_counts, with_writebuf, clear_error, set_error. cbn.
  by rewrite Nat2Z.id, drop_all, Hrb, Hend, Hfl.
Qed.

Lemma awaiting_pending c n : ready c -> pending (awaiting c n) (Z.of_nat n).
Proof. intros []. by split. Qed.

(** Waiting for the end of a delivery whose text is all there is. *)
Lemma delivered_all {W} `{Net W} fd chunks (w w' : W) buf :
  delivers fd chunks w w' -> buf ++ mjoin chunks = [] -> buf = [] /\ w = w'.
Proof. intros Hd [-> Hj]%app_nil. split; [done|]. by eapply delivers_nothing. Qed.

(** ** Runs of methods *)
Section Runs.
Context {V R : Type} `{RubyLaws V R} {W : Type} `{Net W}.

(** [m] returns [a] from [s] in [s']. *)
Definition runs {A} (m : method R W A) (s s' : ruby_state R W) (a : A) : Prop :=
  m s = Ok (s', inr a).

Lemma runs_bind {A B} (m : method R W A) (k : A -> method R W B) s1 s2 s3 a b :
  runs m s1 s2 a -> runs (k a) s2 s3 b -> runs (m ≫= k) s1 s3 b.
Proof. unfold runs. intros Hm Hk. unfold mbind, method_bind. by rewrite Hm. Qed.

Lemma runs_then {A B} (m : method R W A) (k : A -> method R W B) s1 s2 a :
  runs m s1 s2 a -> (m ≫= k) s1 = k a s2.
Proof. unfold runs, mbind, method_bind. by intros ->. Qed.

Definition is_nil (r : R) (v : V) : bool := match kind r v with Some KNil => true | _ => false end.

Lemma nil_then {B} v (k : bool -> method R W B) s : (NIL_P v ≫= k) s = k (is_nil (rs_heap s) v) s.
Proof. unfold NIL_P, kind_of, is_nil. method_step. done. Qed.

Lemma runs_ret {A} (a : A) s : runs (mret a) s s a.
Proof. done. Qed.

Lemma runs_check (s : ruby_state R W) c : rs_tcpcli s = Some c -> runs Check_TcpCli s s tt.
Proof. intros Hc. unfold runs, Check_TcpCli. by rewrite Hc. Qed.

Lemma runs_nil v s k :
  kind (rs_heap s) v = Some k ->
  runs (NIL_P v) s s (match k with KNil => true | _ => false end).
Proof. intros Hk. unfold runs, NIL_P, kind_of. method_step. rewrite Hk. by destruct k. Qed.

Lemma runs_check_fixnum v s z : int_of (rs_heap s) v = Some z -> runs (check_fixnum v) s s tt.
Proof.
  unfold int_of, runs, check_fixnum, kind_of. method_step.
  by destruct (kind (rs_heap s) v) as [[]|].
Qed.

Lemma runs_FIX2INT v s z : int_of (rs_heap s) v = Some z -> runs (FIX2INT v) s s z.
Proof.
  unfold int_of, runs, FIX2INT, kind_of. method_step.
  destruct (kind (rs_heap s) v) as [[]|]; try done. case_decide; [|done]. by intros [= <-].
Qed.

Lemma runs_check_string v s l : string_of (rs_heap s) v = Some l -> runs (check_string v) s s tt.
Proof.
  unfold string_of, runs, check_string, kind_of. method_step.
  by destruct (kind (rs_heap s) v) as [[]|].
Qed.

Lemma runs_RSTRING v s l : string_of (rs_heap s) v = Some l -> runs (RSTRING v) s s l.
Proof.
  unfold string_of, runs, RSTRING, kind_of. method_step.
  destruct (kind (rs_heap s) v) as [[]|]; try done. by intros [= <-].
Qed.

Lemma runs_check_array v s vs : kind (rs_heap s) v = Some (KArray vs) -> runs (check_array v) s s tt.
Proof. intros Hk. unfold runs, check_array, kind_of. method_step. by rewrite Hk. Qed.

Lemma runs_RARRAY v s vs : kind (rs_heap s) v = Some (KArray vs) -> runs (RARRAY v) s s vs.
Proof. intros Hk. unfold runs, RARRAY, kind_of. method_step. by rewrite Hk. Qed.

Lemma runs_entry v s vs i x :
  kind (rs_heap s) v = Some (KArray vs) -> vs !! i = Some x -> runs (rb_ary_entry v i) s s x.
Proof.
  intros Hk Hx. unfold rb_ary_entry. eapply runs_bind; [by apply runs_RARRAY|]. rewrite Hx. apply runs_ret.
Qed.

Lemma runs_key v x r (w : W) c vb :
  key_of r v = Some x ->
  exists r', keeps_but None r r'
    /\ runs (ary2vec_entry v) (mkRuby r w (Some c) vb) (mkRuby r' w (Some c) vb) x.
Proof.
  unfold key_of. destruct (kind r v) as [k|] eqn:E; [|done].
  destruct k as [|z|s|vs|]; try done; intros [= <-].
  - exists r. split; [apply keeps_refl|]. eapply runs_bind; [by apply runs_nil|]. apply runs_ret.
  - destruct (convert_fixnum v z r E) as (r' & u & Hc & Hu & Hk). exists r'. split; [done|].
    eapply runs_bind; [by apply runs_nil|]. cbn [orb].
    eapply runs_bind; [unfold runs, convert; cbn [rs_heap]; by rewrite Hc|].
    unfold runs, StringValuePtr, kind_of. method_step. cbn [rs_heap]. rewrite Hu. method_step.
    by rewrite upto_nul_digits.
  - exists r. split; [apply keeps_refl|]. eapply runs_bind; [by apply runs_nil|].
    eapply runs_bind; [unfold runs, convert; cbn [rs_heap]; by rewrite (convert_string v s r E)|].
    unfold runs, StringValuePtr, kind_of. method_step. cbn [rs_heap]. by rewrite E.
Qed.

Lemma runs_ary2vec_loop ary vs n i xs r (w : W) c vb :
  kind r ary = Some (KArray vs) -> mapM (key_of r) (take n (drop i vs)) = Some xs ->
  (i + n <= length vs)%nat ->
  exists r', keeps_but None r r' /\ runs (ary2vec_loop n i ary) (mkRuby r w (Some c) vb) (mkRuby r' w (Some c) vb) xs.
Proof.
  revert i xs r. induction n as [|n IH]; intros i xs r Ha Hm Hl; cbn [ary2vec_loop].
  { injection Hm as <-. exists r. split; [apply keeps_refl|apply runs_ret]. }
  destruct (lookup_lt_is_Some_2 vs i ltac:(lia)) as [x Hx].
  rewrite (drop_S vs x i Hx) in Hm. cbn [take firstn] in Hm.
  cbn [mapM] in Hm. apply bind_Some in Hm as (y & Hy & (ys & Hys & [= <-])%bind_Some).
  destruct (runs_key x y r w c vb Hy) as (r1 & Hk1 & Hr1).
  assert (Hys1 : mapM (key_of r1) (take n (drop (S i) vs)) = Some ys).
  { eapply mapM_impl; [|exact Hys]. intros ? ? _. by apply key_of_keeps. }
  destruct (IH (S i) ys r1 (Hk1 _ _ Ha ltac:(done)) Hys1 ltac:(lia)) as (r2 & Hk2 & Hr2).
  exists r2. split; [by eapply keeps_trans|].
  eapply runs_bind; [by eapply runs_entry|]. eapply runs_bind; [exact Hr1|].
  eapply runs_bind; [exact Hr2|]. apply runs_ret.
Qed.

Lemma runs_ary2vec ary xs r (w : W) c vb :
  keys_of r ary = Some xs -> Z.of_nat (length xs) <= INT_MAX ->
  exists r', keeps_but None r r' /\ runs (ary2vec ary) (mkRuby r w (Some c) vb) (mkRuby r' w (Some c) vb) xs.
Proof.
  unfold keys_of. destruct (kind r ary) as [[]|] eqn:E; try done. intros Hm Hl.
  pose proof (length_mapM _ _ _ Hm) as Hlen.
  destruct (runs_ary2vec_loop ary vs (length vs) 0 xs r w c vb E) as (r' & Hk & Hr).
  { by rewrite drop_0, firstn_all. } { lia. }
  exists r'. split; [done|]. unfold ary2vec. eapply runs_bind; [by apply runs_RARRAY|].
  rewrite wrap_int_id, Nat2Z.id by (unfold is_int, INT_MIN; lia). exact Hr.
Qed.

Lemma runs_client {A} (f : hstcpcli -> W -> outcome (W * hstcpcli * A)) r w c vb w' c' a :
  f c w = Ok (w', c', a) ->
  runs (on_client f) (mkRuby r w (Some c) vb) (mkRuby r w' (Some c') vb) a.
Proof. unfold runs, on_client. cbn. by intros ->. Qed.

Lemma runs_ruby {A} (f : R -> R * A) r (w : W) c vb :
  runs (ruby f) (mkRuby r w c vb) (mkRuby (f r).1 w c vb) (f r).2.
Proof. unfold runs, ruby. cbn. by destruct (f r). Qed.

End Runs.

(** One step of a method. *)
Ltac run_step :=
  eapply runs_bind;
  [first [ eassumption
         | eapply runs_check; reflexivity
         | eapply runs_check_fixnum; cbn [rs_heap]; eassumption
         | eapply runs_FIX2INT; cbn [rs_heap]; eassumption
         | eapply runs_check_string; cbn [rs_heap]; eassumption
         | eapply runs_RSTRING; cbn [rs_heap]; eassumption
         | eapply runs_check_array; cbn [rs_heap]; eassumption
         | eapply runs_RARRAY; cbn [rs_heap]; eassumption
         | eapply runs_entry; cbn [rs_heap]; eassumption
         | match goal with |- runs (mret _) _ _ _ => apply runs_ret end ]|]; cbn beta iota zeta.

Section Replies.
Context {V R : Type} `{RubyLaws V R} {W : Type} `{Net W}.
Variable recv_fuel : nat.

(** ** Filling an array *)

(** [m] appends [ss] to the array [a] and leaves every other object alone. *)
Definition appends (m : method R W unit) (a : V) (ss : list scalar) (w : W) (c c' : hstcpcli) (vb : Z)
    : Prop :=
  forall r old, shown r a = Some old ->
  exists r', runs m (mkRuby r w (Some c) vb) (mkRuby r' w (Some c') vb) tt
    /\ shown r' a = Some (old ++ ss) /\ keeps_but (Some a) r r'.

Lemma appends_bind m n a ss ts w c1 c2 c3 vb :
  appends m a ss w c1 c2 vb -> appends n a ts w c2 c3 vb ->
  appends (m;; n) a (ss ++ ts) w c1 c3 vb.
Proof.
  intros Hm Hn r old Hs. destruct (Hm r old Hs) as (r1 & Hr1 & Hs1 & Hk1).
  destruct (Hn r1 _ Hs1) as (r2 & Hr2 & Hs2 & Hk2). exists r2.
  split; [by eapply runs_bind|]. rewrite app_assoc. split; [done|by eapply keeps_trans].
Qed.

Lemma appends_nothing a w c vb : appends (mret tt) a [] w c c vb.
Proof. intros r old Hs. exists r. rewrite app_nil_r. split; [done|]. split; [done|apply keeps_refl]. Qed.

(** A step of the client, as seen by an array. *)
Lemma appends_client {A} f (k : A -> method R W unit) a ss w c c1 c' vb x :
  f c w = Ok (w, c1, x) -> appends (k x) a ss w c1 c' vb ->
  appends (on_client f ≫= k) a ss w c c' vb.
Proof.
  intros Hf Hk r old Hs. destruct (Hk r old Hs) as (r1 & Hr1 & Hrest). exists r1.
  split; [|done]. eapply runs_bind; [by apply runs_client|done].
Qed.

Lemma appends_value v s a w c vb :
  (forall r, scalar_of r v = Some s) -> appends (ary_push a v) a [s] w c c vb.
Proof.
  intros Hv r old Hs. eexists. split; [apply runs_ruby|]. by apply shown_push.
Qed.

Lemma appends_string s a w c vb :
  appends (v ← ruby (rb_str_new s); ary_push a v) a [SStr s] w c c vb.
Proof.
  intros r old Hs. pose proof (rb_str_new_kind s r) as Hk. pose proof (rb_str_new_keeps s r) as Hf.
  destruct (shown_push (rb_str_new s r).1 a (rb_str_new s r).2 old (SStr s)) as [Hsh Hkb].
  { by eapply shown_keeps_none. } { unfold scalar_of. by rewrite Hk. }
  eexists. split; [eapply runs_bind; [apply runs_ruby|apply runs_ruby]|]. split; [exact Hsh|].
  eapply keeps_trans; [apply keeps_weaken, Hf|exact Hkb].
Qed.

Lemma runs_assoc {A B C} (m : method R W A) (f : A -> method R W B) (g : B -> method R W C) s :
  ((m ≫= f) ≫= g) s = (m ≫= (fun x => f x ≫= g)) s.
Proof. method_step. by destruct (m s) as [[s1 [e|x]]|]. Qed.

Lemma appends_row row a w c vb : appends (push_row a row) a (cell <$> row) w c c vb.
Proof.
  induction row as [|[s|] row IH]; cbn [push_row]; [apply appends_nothing| |].
  - change (cell <$> Some s :: row) with ([SStr s] ++ (cell <$> row)). intros r old Hs.
    destruct (appends_bind _ _ _ _ _ _ _ _ _ _ (appends_string s a w c vb) IH r old Hs)
      as (r' & Hr & Hrest). exists r'. split; [|done]. unfold runs in *. by rewrite runs_assoc in Hr.
  - change (cell <$> None :: row) with ([SNil] ++ (cell <$> row)).
    eapply appends_bind; [|exact IH]. apply appends_value. intros r. unfold scalar_of.
    by rewrite kind_Qnil.
Qed.

(** All rows of a response. *)
Lemma appends_rows rows fuel c :
  rows_pending c rows -> (length rows < fuel)%nat ->
  exists c', same_response c c'
    /\ forall a w vb, appends (push_rows fuel (num_flds c) a) a (cell <$> mjoin rows) w c c' vb.
Proof.
  revert c fuel. induction rows as [|vals rows IH]; intros c fuel Hp Hf;
    (destruct fuel as [|fuel]; [lia|]); cbn [push_rows].
  - destruct (get_next_row_end c Hp) as (c' & Hg & Hs). exists c'. split; [done|].
    intros a w vb. eapply appends_client; [by rewrite Hg|]. apply appends_nothing.
  - destruct (get_next_row_value c vals rows Hp) as (c1 & rs & Hg & Hv & Hp1 & Hs1 & _).
    destruct (IH c1 fuel Hp1) as (c2 & Hs2 & Ha); [simpl in Hf; lia|].
    assert (Hn : num_flds c1 = num_flds c) by (by destruct Hs1 as (? & ? & ? & -> & _)).
    exists c2. split; [by eapply same_response_trans|].
    assert (Hl : length rs = Z.to_nat (num_flds c)).
    { pose proof (rp_rows _ _ Hp) as Hrs. apply Forall_cons in Hrs as [[Hl _] _].
      rewrite <- Hv, length_fmap in Hl. done. }
    intros a w vb. specialize (Ha a w vb). eapply appends_client.
    { rewrite Hg. cbn [mbind outcome_bind]. unfold row_values. rewrite array_reads_Ok by lia.
      cbn [mbind outcome_bind]. rewrite drop_0, take_ge, Hv by lia. reflexivity. }
    cbn beta iota. rewrite mjoin_cons, fmap_app.
    rewrite Hn in Ha. eapply appends_bind; [apply appends_row|exact Ha].
Qed.

(** The rows or the message of a reply follow its code. *)
Lemma appends_error c a w vb e nf :
  e <> 0 -> appends (push_reply e nf a) a [SStr (error_str c)] w c c vb.
Proof.
  intros He. unfold push_reply. rewrite (proj2 (Z.eqb_neq _ _) He). cbn [negb].
  eapply appends_client; [reflexivity|]. apply appends_string.
Qed.

Lemma appends_reply_rows rows c :
  rows_pending c rows -> (length rows < rows_fuel c)%nat ->
  exists c', same_response c c'
    /\ forall a w vb, appends (push_reply 0 (num_flds c) a) a (cell <$> mjoin rows) w c c' vb.
Proof.
  intros Hp Hf. destruct (appends_rows rows (rows_fuel c) c Hp Hf) as (c' & Hs & Ha).
  exists c'. split; [done|]. intros a w vb. eapply appends_client; [reflexivity|]. apply Ha.
Qed.

Lemma encode_rows_length nf rows :
  0 < nf -> Forall (row_ok nf) rows -> (length rows <= length (mjoin (encode_row <$> rows)))%nat.
Proof.
  intros Hnf. induction 1 as [|r rows [Hr _] Hrows IH]; [simpl; lia|].
  rewrite fmap_cons, mjoin_cons, length_app. destruct (encode_row_tab r) as [l ->].
  { intros ->. simpl in Hr. lia. }
  simpl. lia.
Qed.

(** One reply is received, shown and removed; what follows it in the stream stays. *)
Lemma reply_step p n rest chunks c (w w' : W) :
  pending c n -> 0 < n -> reply_ok p ->
  delivers (fd c) chunks w w' -> (length chunks <= recv_fuel)%nat ->
  readbuf c ++ mjoin chunks = reply_text p ++ LF :: rest ->
  exists k w1 c1 c2 c3 nf,
    response_recv recv_fuel 0 c w = Ok (w1, c1, nf, reply_code p)
    /\ error_code c1 = reply_code p
    /\ (forall a vb, appends (push_reply (reply_code p) nf a) a (reply_cells p) w1 c1 c2 vb)
    /\ response_buf_remove c2 w1 = (w1, c3)
    /\ pending c3 (n - 1) /\ fd c3 = fd c
    /\ readbuf c3 ++ mjoin (drop k chunks) = rest /\ delivers (fd c) (drop k chunks) w1 w'.
Proof.
  intros Hc Hn Hp Hd Hf Ht. pose proof (pending_waiting c n Hn Hc) as Hw.
  destruct p as [nf rows|code nf msg]; cbn [reply_text reply_code reply_cells] in *.
  - destruct Hp as [Hnf Hrows].
    destruct (response_recv_reply recv_fuel 0 c w w' chunks nf rows rest)
      as (k & w1 & rest' & Hr & Hd' & Hrest); try done.
    pose proof (reply_ready_pending c nf rows rest' ltac:(lia) Hrows) as Hrp.
    assert (Hfuel : (length rows < rows_fuel (reply_ready c nf rows rest'))%nat).
    { pose proof (encode_rows_length nf rows ltac:(lia) Hrows).
      unfold rows_fuel. cbn [reply_ready response_end_offset]. rewrite encode_reply_split, length_app. lia. }
    destruct (appends_reply_rows rows _ Hrp Hfuel) as (c2 & Hs & Ha).
    eexists k, w1, _, c2, _, nf. split; [exact Hr|]. split; [done|]. split; [intros a vb; apply Ha|].
    split; [by eapply remove_reply|]. destruct Hc. split; [|done].
    split; try done. cbn. lia.
  - destruct Hp as (Hcode & Hnf & Htab & Hlf).
    destruct (response_recv_error recv_fuel 0 c w w' chunks code nf msg rest)
      as (k & w1 & rest' & Hr & Hd' & Hrest); try done; [lia|].
    rewrite wrap_int_id in Hr by (unfold is_int, INT_MIN, INT_MAX; lia).
    eexists k, w1, _, _, _, nf. split; [exact Hr|].
    split; [cbn; apply wrap_int_id; unfold is_int, INT_MIN, INT_MAX; lia|].
    split; [intros a vb; apply (appends_error (error_ready c code nf msg rest') a w1 vb code nf); lia|]. split; [reflexivity|].
    destruct Hc. split; [|split; [done|]].
    + split; cbn; try done; [|lia]. rewrite wrap_int_id by (unfold is_int, INT_MIN, INT_MAX; lia). lia.
    + cbn. rewrite drop_app_ge by lia. by replace (S _ - _)%nat with 1%nat by lia.
Qed.

(** ** One request *)
Lemma runs_send c c' (w w' : W) x (r : R) vb :
  request_send c w = (w', c', x) ->
  runs client_send (mkRuby r w (Some c) vb) (mkRuby r w' (Some c') vb) x.
Proof. intros Hs. apply runs_client. by rewrite Hs. Qed.

Lemma runs_recv c c' (w w' : W) nf x (r : R) vb :
  response_recv recv_fuel 0 c w = Ok (w', c', nf, x) ->
  runs (client_recv recv_fuel) (mkRuby r w (Some c) vb) (mkRuby r w' (Some c') vb) (nf, x).
Proof. intros Hs. apply runs_client. by rewrite Hs. Qed.

Lemma runs_remove c c' (w : W) (r : R) vb :
  response_buf_remove c w = (w, c') ->
  runs client_remove (mkRuby r w (Some c) vb) (mkRuby r w (Some c') vb) tt.
Proof. intros Hs. apply runs_client. by rewrite Hs. Qed.

Lemma runs_error_code c (r : R) (w : W) vb :
  runs client_error_code (mkRuby r w (Some c) vb) (mkRuby r w (Some c) vb) (error_code c).
Proof. by apply runs_client. Qed.

Lemma reply_code_nonneg p : reply_ok p -> 0 <= reply_code p.
Proof. destruct p; cbn; lia. Qed.
Lemma scalar_of_code p r : reply_ok p -> scalar_of r (INT2FIX (reply_code p)) = Some (SInt (reply_code p)).
Proof.
  intros Hp. unfold scalar_of. rewrite kind_INT2FIX; [done|].
  destruct p; cbn in *; unfold is_int, INT_MIN, INT_MAX; lia.
Qed.

Lemma runs_buffer id op keys limit skip mop mvs c lines (r : R) (w : W) vb :
  runs (buffer_request id op keys limit skip mop mvs)
    (mkRuby r w (Some (buffered c lines)) vb)
    (mkRuby r w (Some (buffered c (lines ++
       [exec_generic_line [] (wrap_u64 id) (Some op) keys (wrap_u32 limit) (wrap_u32 skip) mop mvs
          [] (-1) []]))) vb) tt.
Proof.
  apply runs_client. unfold request_buf_exec_generic. by rewrite request_buf_buffered.
Qed.

Lemma request_line_nonempty q : request_line q <> [].
Proof. apply exec_line_nonempty. Qed.

Lemma internal_request_inv r v_id v_op v_keys v_limit v_skip modop v_modvals q :
  internal_request r v_id v_op v_keys v_limit v_skip modop v_modvals = Some q ->
  int_of r v_id = Some (rq_id q) /\ string_of r v_op = Some (rq_op q)
  /\ keys_of r v_keys = Some (rq_keys q) /\ int_of r v_limit = Some (rq_limit q)
  /\ int_of r v_skip = Some (rq_skip q)
  /\ match modop with
     | None => rq_mod q = None
     | Some m => exists mv, keys_of r v_modvals = Some mv /\ rq_mod q = Some (upto_nul m, mv)
     end.
Proof.
  unfold internal_request. intros Hq.
  do 5 (apply bind_Some in Hq as (? & ? & Hq)). apply bind_Some in Hq as (md & Hmd & [= <-]). cbn.
  split_and!; try done. destruct modop; [|naive_solver].
  apply bind_Some in Hmd as (mv & Hmv & [= <-]). eauto.
Qed.

Lemma keys_array r v xs : keys_of r v = Some xs -> exists vs, kind r v = Some (KArray vs).
Proof. unfold keys_of. destruct (kind r v) as [[]|]; naive_solver. Qed.

(** The values of the modifying operation, when there is one. *)
Lemma runs_modvals r (w : W) c vb modop v md :
  match modop with
  | None => md = None
  | Some m => exists mv, keys_of r v = Some mv /\ md = Some (upto_nul m, mv)
  end ->
  Z.of_nat (length (default [] (snd <$> md))) <= INT_MAX ->
  exists r', keeps_but None r r'
    /\ runs (match modop with Some _ => ary2vec v | None => mret [] end)
         (mkRuby r w (Some c) vb) (mkRuby r' w (Some c) vb) (default [] (snd <$> md))
    /\ upto_nul <$> modop = fst <$> md.
Proof.
  destruct modop as [m|].
  - intros (mv & Hk & ->) Hl. destruct (runs_ary2vec v mv r w c vb Hk Hl) as (r' & Hr & Hs).
    by exists r'.
  - intros -> _. exists r. split; [apply keeps_refl|]. split; [apply runs_ret|done].
Qed.

Lemma execute_internal_served v_id v_op v_keys v_limit v_skip modop v_modvals q p r c vb (w w2 : W) :
  internal_request r v_id v_op v_keys v_limit v_skip modop v_modvals = Some q -> request_fits q ->
  ready c -> reply_ok p -> served recv_fuel c (request_line q) (reply_text p) w w2 ->
  exists r' v c',
    runs (execute_internal recv_fuel v_id v_op v_keys v_limit v_skip modop v_modvals)
      (mkRuby r w (Some c) vb) (mkRuby r' w2 (Some c') vb) v
    /\ shown r' v = Some (reply_result p) /\ ready c' /\ fd c' = fd c /\ keeps_but None r r'.
Proof.
  intros (Hid & Hop & Hkeys & Hlim & Hskip & Hmod)%internal_request_inv [Hf1 Hf2] Hc Hp
    (w1 & chunks & Hsend & Hdel & Hfuel & Htext).
  destruct (runs_ary2vec v_keys _ r w c vb Hkeys Hf1) as (r1 & Hk1 & Hr1).
  assert (Hmod1 : match modop with
                  | None => rq_mod q = None
                  | Some m => exists mv, keys_of r1 v_modvals = Some mv
                                         /\ rq_mod q = Some (upto_nul m, mv)
                  end).
  { destruct modop; [|done]. destruct Hmod as (mv & Hmv & ->). exists mv.
    split; [by eapply keys_of_keeps|done]. }
  destruct (runs_modvals r1 w c vb modop v_modvals (rq_mod q) Hmod1 Hf2) as (r2 & Hk2 & Hr2 & Hmop).
  assert (Hk02 : keeps_but None r r2) by (by eapply keeps_trans).
  pose proof (request_send_buffered c [request_line q] w w1 Hc) as Hsd.
  rewrite mjoin_cons, app_nil_r in Hsd. specialize (Hsd ltac:(repeat constructor; apply request_line_nonempty) ltac:(done) Hsend).
  destruct (reply_step p 1 [] chunks (awaiting c 1) w1 w2) as
    (k & w3 & c1 & c2 & c3 & nf & Hrecv & He & Happ & Hrm & Hpend & Hfd & Hrest & Hdel'); try done.
  { by apply awaiting_pending. }
  destruct (delivered_all _ _ _ _ _ Hdel' Hrest) as [Hrb ->].
  set (a := (rb_ary_new r2).2). set (r3 := (rb_ary_new r2).1).
  assert (Ha : shown r3 a = Some []) by (unfold shown, r3, a; by rewrite (rb_ary_new_kind r2)).
  destruct (appends_value (INT2FIX (reply_code p)) (SInt (reply_code p)) a w2 c1 vb
              ltac:(intros; by apply scalar_of_code) r3 [] Ha) as (r4 & Hr4 & Hs4 & Hk4).
  destruct (Happ a vb r4 _ Hs4) as (r5 & Hr5 & Hs5 & Hk5).
  assert (Hk25 : keeps_but None r2 r5).
  { apply (keeps_fresh a r2 r3); [apply rb_ary_new_fresh|apply rb_ary_new_keeps|].
    by eapply keeps_trans. }
  destruct (keys_array _ _ _ Hkeys) as [vs Hvs].
  pose proof (int_of_keeps _ _ _ _ Hk02 Hlim) as Hlim2.
  pose proof (int_of_keeps _ _ _ _ Hk02 Hskip) as Hskip2.
  exists r5, a, c3. split; [|split; [exact Hs5|split; [by apply pending_ready|]]].
  2: { split; [done|]. by eapply keeps_trans. }
  unfold execute_internal. do 10 run_step.
  rewrite Hmop. do 2 run_step.
  pose proof (runs_buffer (rq_id q) (rq_op q) (rq_keys q) (rq_limit q) (rq_skip q) (fst <$> rq_mod q)
                (default [] (snd <$> rq_mod q)) c [] r2 w vb) as Hbuf.
  rewrite buffered_nil in Hbuf by done. run_step.
  pose proof (runs_send _ _ _ _ _ r2 vb Hsd) as Hsent. run_step. cbn [negb Z.eqb].
  pose proof (runs_recv _ _ _ _ _ _ r2 vb Hrecv) as Hrcv. run_step.
  pose proof (runs_error_code c1 r2 w2 vb) as Herr. rewrite He in Herr. run_step.
  pose proof (runs_ruby rb_ary_new r2 w2 (Some c1) vb) as Hary. fold a r3 in Hary. run_step.
  run_step. run_step.
  rewrite (proj2 (Z.leb_le _ _) (reply_code_nonneg p Hp)).
  pose proof (runs_remove _ _ _ r5 vb Hrm) as Hrmv. run_step. apply runs_ret.
Qed.

(** ** Several requests *)
Lemma runs_entry_nil v (s : ruby_state R W) vs i :
  kind (rs_heap s) v = Some (KArray vs) -> runs (rb_ary_entry v i) s s (default Qnil (vs !! i)).
Proof. intros Hk. unfold rb_ary_entry. eapply runs_bind; [by apply runs_RARRAY|]. apply runs_ret. Qed.

Lemma read_request_inv r v0 v1 v2 v3 v4 v5 v6 q :
  read_request r (fun s => s) v0 v1 v2 v3 v4 v5 v6 = Some q ->
  int_of r v0 = Some (rq_id q) /\ string_of r v1 = Some (rq_op q)
  /\ keys_of r v2 = Some (rq_keys q) /\ int_of r v3 = Some (rq_limit q)
  /\ int_of r v4 = Some (rq_skip q) /\ mod_of r (fun s => s) v5 v6 = Some (rq_mod q).
Proof.
  unfold read_request. intros Hq.
  do 5 (apply bind_Some in Hq as (? & ? & Hq)). apply bind_Some in Hq as (md & Hmd & [= <-]). done.
Qed.

(** The modifying operation of a request that has one. *)
Lemma mod_of_inv r v5 v6 md :
  mod_of r (fun s => s) v5 v6 = Some md ->
  exists k, kind r v5 = Some k
    /\ (k = KNil /\ md = None
        \/ k <> KNil /\ exists s mv, string_of r v5 = Some s /\ keys_of r v6 = Some mv /\ md = Some (s, mv)).
Proof.
  unfold mod_of, string_of. destruct (kind r v5) as [k|] eqn:E; [|done]. intros Hm. exists k.
  split; [done|].
  destruct k; try done; [left; naive_solver|right].
  apply bind_Some in Hm as (s0 & [= ->] & Hm). apply bind_Some in Hm as (mv & Hmv & [= <-]).
  split; [done|]. by eexists _, _.
Qed.

Lemma runs_check_request r (w : W) c vb v q :
  multi_request_of r v = Some q ->
  runs (check_request v) (mkRuby r w (Some c) vb) (mkRuby r w (Some c) vb) tt.
Proof.
  unfold multi_request_of. destruct (kind r v) as [[| | |vs|]|] eqn:E; try done.
  intros (H0' & H1' & H2' & H3' & H4' & H5')%read_request_inv.
  destruct (keys_array _ _ _ H2') as [ks Hks].
  unfold check_request. run_step.
  do 7 (eapply runs_bind; [apply runs_entry_nil; cbn [rs_heap]; eassumption|]; cbn beta).
  do 5 run_step.
  destruct (mod_of_inv _ _ _ _ H5') as (k & Hk & [[-> _]|(Hne & s & mv & Hs & Hmv & _)]).
  - eapply runs_bind; [eapply runs_nil; cbn [rs_heap]; eassumption|]. apply runs_ret.
  - eapply runs_bind; [eapply runs_nil; cbn [rs_heap]; eassumption|].
    destruct (keys_array _ _ _ Hmv) as [ms Hms].
    destruct k; try done; cbn beta iota; run_step; eapply runs_check_array; cbn [rs_heap]; eassumption.
Qed.

Lemma runs_multi_request r (w : W) c lines vb v q :
  multi_request_of r v = Some q -> request_fits q ->
  exists r', keeps_but None r r'
    /\ runs (multi_request v) (mkRuby r w (Some (buffered c lines)) vb)
         (mkRuby r' w (Some (buffered c (lines ++ [request_line q]))) vb) tt.
Proof.
  unfold multi_request_of. destruct (kind r v) as [[| | |vs|]|] eqn:E; try done.
  intros (Hid & Hop & Hkeys & Hlim & Hskip & Hmod)%read_request_inv [Hf1 Hf2].
  destruct (runs_ary2vec _ _ r w (buffered c lines) vb Hkeys Hf1) as (r1 & Hk1 & Hr1).
  pose proof (mod_of_keeps _ _ _ _ _ _ Hk1 Hmod) as Hmod1.
  destruct (mod_of_inv _ _ _ _ Hmod1) as (k & Hk & Hcase).
  assert (Hmd : exists r2, keeps_but None r1 r2
    /\ runs (if match k with KNil => true | _ => false end : bool then mret (None, [])
             else s ← RSTRING (default Qnil (vs !! 5%nat));
                  mv ← ary2vec (default Qnil (vs !! 6%nat)); mret (Some s, mv))
         (mkRuby r1 w (Some (buffered c lines)) vb) (mkRuby r2 w (Some (buffered c lines)) vb)
         (fst <$> rq_mod q, default [] (snd <$> rq_mod q))).
  { destruct Hcase as [[-> ->]|(Hne & s & mv & Hs & Hmv & Hq)].
    - exists r1. split; [apply keeps_refl|apply runs_ret].
    - rewrite Hq in Hf2 |- *. cbn in Hf2.
      destruct (runs_ary2vec _ _ r1 w (buffered c lines) vb Hmv Hf2) as (r2 & Hk2 & Hr2).
      exists r2. split; [done|]. destruct k; try done; run_step; run_step; apply runs_ret. }
  destruct Hmd as (r2 & Hk2 & Hr2).
  assert (Hk02 : keeps_but None r r2) by (by eapply keeps_trans).
  pose proof (int_of_keeps _ _ _ _ Hk02 Hlim) as Hlim2.
  pose proof (int_of_keeps _ _ _ _ Hk02 Hskip) as Hskip2.
  exists r2. split; [done|]. unfold multi_request.
  do 7 (eapply runs_bind; [apply runs_entry_nil; cbn [rs_heap]; eassumption|]; cbn beta).
  do 3 run_step.
  eapply runs_bind; [eapply runs_nil; cbn [rs_heap]; eassumption|]. cbn beta.
  run_step. do 2 run_step. apply runs_buffer.
Qed.

(** A loop over the elements of an array. *)
Lemma runs_each (P : nat -> ruby_state R W -> Prop) f args n i vs s :
  (forall j s v, vs !! j = Some v -> P j s -> exists s', runs (f v) s s' tt /\ P (S j) s') ->
  (forall j s, P j s -> kind (rs_heap s) args = Some (KArray vs)) ->
  (i + n = length vs)%nat -> P i s ->
  exists s', runs (each_entry f n i args) s s' tt /\ P (i + n)%nat s'.
Proof.
  intros Hf Ha. revert i s. induction n as [|n IH]; intros i s Hl Hs; cbn [each_entry].
  { exists s. rewrite Nat.add_0_r. split; [apply runs_ret|done]. }
  destruct (lookup_lt_is_Some_2 vs i ltac:(lia)) as [x Hx].
  destruct (Hf i s x Hx Hs) as (s1 & Hr1 & Hs1).
  destruct (IH (S i) s1 ltac:(lia) Hs1) as (s2 & Hr2 & Hs2).
  exists s2. rewrite Nat.add_succ_r. split; [|done].
  eapply runs_bind; [eapply runs_entry; [by eapply Ha|done]|]. by eapply runs_bind.
Qed.

(** The texts of replies, each with its newline. *)
Definition replies_text (ps : list reply) : list Z := mjoin ((fun p => reply_text p ++ [LF]) <$> ps).

(** Every reply becomes one array of the result. *)
Lemma runs_multi_replies ps rvs chunks r c vb done_ (w w' : W) :
  pending c (Z.of_nat (length ps)) -> Forall reply_ok ps ->
  delivers (fd c) chunks w w' -> (length chunks <= recv_fuel)%nat ->
  readbuf c ++ mjoin chunks = replies_text ps -> shown2 r rvs = Some done_ ->
  exists r' c',
    runs (multi_replies recv_fuel (length ps) rvs) (mkRuby r w (Some c) vb) (mkRuby r' w' (Some c') vb) tt
    /\ shown2 r' rvs = Some (done_ ++ (reply_result <$> ps)) /\ ready c' /\ fd c' = fd c
    /\ keeps_but (Some rvs) r r'.
Proof.
  intros Hc Hps. revert chunks r c w done_ Hc.
  induction Hps as [|p ps Hp Hps IH]; intros chunks r c w done_ Hc Hd Hf Ht Hrvs.
  { destruct (delivered_all _ _ _ _ _ Hd Ht) as [Hrb ->]. exists r, c. rewrite app_nil_r.
    split; [apply runs_ret|]. split; [done|]. split; [by apply pending_ready|]. split; [done|].
    apply keeps_refl. }
  unfold replies_text in Ht. rewrite fmap_cons, mjoin_cons, <- app_assoc in Ht.
  destruct (reply_step p (Z.of_nat (length (p :: ps))) (replies_text ps) chunks c w w')
    as (k & w1 & c1 & c2 & c3 & nf & Hrecv & He & Happ & Hrm & Hpend & Hfd & Hrest & Hdel);
    try done.
  replace (Z.of_nat (length (p :: ps)) - 1) with (Z.of_nat (length ps)) in Hpend by (simpl; lia).
  destruct (shown2_new r rvs done_ Hrvs) as [Ha Hfill].
  set (a := (rb_ary_new r).2) in *. set (r2 := rb_ary_push rvs a (rb_ary_new r).1) in *.
  destruct (appends_value (INT2FIX (reply_code p)) (SInt (reply_code p)) a w1 c1 vb
              ltac:(intros; by apply scalar_of_code) r2 [] Ha) as (r4 & Hr4 & Hs4 & Hk4).
  destruct (Happ a vb r4 _ Hs4) as (r5 & Hr5 & Hs5 & Hk5).
  destruct (Hfill r5 _ ltac:(by eapply keeps_trans) Hs5) as [Hshow Hkeep].
  destruct (IH (drop k chunks) r5 c3 w1 (done_ ++ [reply_result p]) Hpend) as (r6 & c6 & Hr6 & Hs6 & Hc6 & Hfd6 & Hk6);
    [by rewrite Hfd|rewrite length_drop; lia|done|exact Hshow|].
  exists r6, c6. split.
  2: { split; [by rewrite Hs6, <- app_assoc|]. split; [done|]. split; [congruence|].
       by eapply keeps_trans. }
  cbn [length multi_replies].
  pose proof (runs_ruby rb_ary_new r w (Some c) vb) as Hnew. fold a in Hnew. run_step.
  pose proof (runs_ruby (fun r => (rb_ary_push rvs a r, tt)) (rb_ary_new r).1 w (Some c) vb) as Hpush.
  cbn [fst snd] in Hpush. fold r2 in Hpush. unfold ary_push at 1. run_step.
  pose proof (runs_recv _ _ _ _ _ _ r2 vb Hrecv) as Hrcv. run_step. do 2 run_step.
  pose proof (reply_code_nonneg p Hp) as Hcode.
  rewrite (proj2 (Z.leb_le _ _) Hcode), (proj2 (Z.ltb_ge _ _) Hcode).
  pose proof (runs_remove _ _ _ r5 vb Hrm) as Hrmv. run_step. exact Hr6.
Qed.

(** The network takes all requests at once and delivers all replies. *)
Definition served_all (c : hstcpcli) (qs : list ruby_request) (ps : list reply) (w w2 : W) : Prop :=
  exists w1 chunks, sys_send (fd c) (mjoin (request_line <$> qs)) w
      = (w1, Z.of_nat (length (mjoin (request_line <$> qs))))
    /\ delivers (fd c) chunks w1 w2 /\ (length chunks <= recv_fuel)%nat
    /\ mjoin chunks = replies_text ps.

Lemma multi_requests_each r args qs :
  multi_requests_of r args = Some qs ->
  exists vs, kind r args = Some (KArray vs) /\ Forall2 (fun v q => multi_request_of r v = Some q) vs qs.
Proof.
  unfold multi_requests_of. destruct (kind r args) as [[]|]; try done. rewrite mapM_Some. eauto.
Qed.

Lemma runs_buffer_all r (w : W) c vb args qs :
  ready c -> multi_requests_of r args = Some qs -> Forall request_fits qs ->
  exists r', keeps_but None r r'
    /\ runs (each_entry check_request (length qs) 0 args)
         (mkRuby r w (Some c) vb) (mkRuby r w (Some c) vb) tt
    /\ runs (each_entry multi_request (length qs) 0 args)
         (mkRuby r w (Some c) vb) (mkRuby r' w (Some (buffered c (request_line <$> qs))) vb) tt.
Proof.
  intros Hc (vs & Hvs & Hqs)%multi_requests_each Hfit.
  pose proof (Forall2_length _ _ _ Hqs) as Hlen.
  destruct (runs_each (fun _ s => s = mkRuby r w (Some c) vb) check_request args (length qs) 0 vs
              (mkRuby r w (Some c) vb)) as (s1 & Hr1 & ->); try done; try lia.
  { intros j s v Hv ->. destruct (Forall2_lookup_l _ _ _ _ _ Hqs Hv) as (q & _ & Hq).
    eexists. split; [by eapply runs_check_request|done]. }
  { by intros j s ->. }
  destruct (runs_each (fun j s => exists r', keeps_but None r r'
                         /\ s = mkRuby r' w (Some (buffered c (request_line <$> take j qs))) vb)
              multi_request args (length qs) 0 vs (mkRuby r w (Some c) vb))
    as (s2 & Hr2 & r2 & Hk2 & ->).
  - intros j s v Hv (r' & Hk & ->).
    destruct (Forall2_lookup_l _ _ _ _ _ Hqs Hv) as (q & Hq & Hvq).
    destruct (runs_multi_request r' w c (request_line <$> take j qs) vb v q) as (r2 & Hk2 & Hr2).
    { by eapply multi_request_keeps. }
    { by eapply Forall_lookup_1 in Hfit. }
    eexists. split; [exact Hr2|]. exists r2. split; [by eapply keeps_trans|].
    by rewrite (take_S_r _ _ _ Hq), fmap_app.
  - intros j s (r' & Hk & ->). by apply (kind_keeps r).
  - lia.
  - exists r. split; [apply keeps_refl|]. cbn [take firstn fmap list_fmap]. by rewrite buffered_nil.
  - exists r2. split; [done|]. split; [exact Hr1|]. by rewrite Nat.add_0_l, firstn_all in Hr2.
Qed.

Lemma execute_multi_served args qs ps r c vb (w w2 : W) :
  ready c -> multi_requests_of r args = Some qs -> qs <> [] -> Forall request_fits qs ->
  length ps = length qs -> Forall reply_ok ps -> served_all c qs ps w w2 ->
  exists r' v c',
    runs (execute_multi recv_fuel args) (mkRuby r w (Some c) vb) (mkRuby r' w2 (Some c') vb) v
    /\ shown2 r' v = Some (reply_result <$> ps) /\ ready c' /\ fd c' = fd c /\ keeps_but None r r'.
Proof.
  intros Hc Hqs Hne Hfit Hlen Hps (w1 & chunks & Hsend & Hdel & Hfuel & Htext).
  destruct (runs_buffer_all r w c vb args qs Hc Hqs Hfit) as (r1 & Hk1 & Hr1 & Hr2).
  destruct (multi_requests_each _ _ _ Hqs) as (vs & Hvs & Hvqs).
  pose proof (Forall2_length _ _ _ Hvqs) as Hlv. rewrite <- Hlv in Hr1, Hr2.
  pose proof (request_send_buffered c (request_line <$> qs) w w1 Hc) as Hsd.
  specialize (Hsd ltac:(apply Forall_fmap, Forall_true; intros; apply request_line_nonempty)
                ltac:(by destruct qs) Hsend).
  rewrite length_fmap, <- Hlen in Hsd.
  set (rvs := (rb_ary_new r1).2). set (r2 := (rb_ary_new r1).1).
  assert (Hrvs : shown2 r2 rvs = Some []) by (unfold shown2, r2, rvs; by rewrite (rb_ary_new_kind r1)).
  destruct (runs_multi_replies ps rvs chunks r2 (awaiting c (length ps)) vb [] w1 w2)
    as (r3 & c3 & Hr3 & Hs3 & Hc3 & Hfd3 & Hk3); try done.
  { by apply awaiting_pending. }
  exists r3, rvs, c3. split; [|split; [exact Hs3|split; [done|split; [done|]]]].
  - unfold execute_multi, execute_multi_internal. do 5 run_step.
    pose proof (runs_ruby rb_ary_new r1 w (Some (buffered c (request_line <$> qs))) vb) as Hnew.
    fold rvs r2 in Hnew. run_step.
    pose proof (runs_send _ _ _ _ _ r2 vb Hsd) as Hsent. run_step. cbn [Z.ltb Z.compare].
    rewrite Hlv, <- Hlen. run_step. apply runs_ret.
  - eapply keeps_trans; [exact Hk1|].
    apply (keeps_fresh rvs r1 r2); [apply rb_ary_new_fresh|apply rb_ary_new_keeps|exact Hk3].
Qed.

(** ** The methods with one request *)
Definition replied (name : string) (argv : list V) (p : reply) (r : R) (c : hstcpcli) (vb : Z) (w w2 : W) : Prop :=
  exists r' v c',
    call_method recv_fuel name argv (mkRuby r w (Some c) vb) = Ok (mkRuby r' w2 (Some c') vb, inr v)
    /\ shown r' v = Some (reply_result p) /\ ready c' /\ fd c' = fd c /\ keeps_but None r r'.

(** The call runs [m] and [m] runs a request, perhaps on a larger heap. *)
Lemma replied_internal name argv p m r r1 c vb (w w2 : W) v0 v1 v2 v3 v4 modop v5 q :
  call_method recv_fuel name argv (mkRuby r w (Some c) vb) = m (mkRuby r w (Some c) vb) ->
  m (mkRuby r w (Some c) vb)
    = execute_internal recv_fuel v0 v1 v2 v3 v4 modop v5 (mkRuby r1 w (Some c) vb) ->
  keeps_but None r r1 ->
  internal_request r1 v0 v1 v2 v3 v4 modop v5 = Some q -> request_fits q ->
  ready c -> reply_ok p -> served recv_fuel c (request_line q) (reply_text p) w w2 ->
  replied name argv p r c vb w w2.
Proof.
  intros Hm Hi Hk Hq Hfit Hc Hp Hs. unfold replied. rewrite Hm, Hi.
  destruct (execute_internal_served _ _ _ _ _ _ _ q p r1 c vb w w2 Hq Hfit Hc Hp Hs)
    as (r' & v & c' & Hr & Hsh & Hc' & Hfd & Hk').
  exists r', v, c'. split; [exact Hr|]. split; [done|]. split; [done|]. split; [done|].
  by eapply keeps_trans.
Qed.

Lemma default_pad (argv : list V) n i : default Qnil ((argv ++ replicate n Qnil) !! i) = default Qnil (argv !! i).
Proof.
  destruct (decide (i < length argv)%nat) as [Hi|Hi]; [by rewrite lookup_app_l|].
  rewrite lookup_app_r, (lookup_ge_None_2 argv) by lia.
  destruct (replicate n Qnil !! (i - length argv)%nat) eqn:E; [|done].
  apply lookup_replicate in E as [-> _]. done.
Qed.

Lemma read_request_internal r v0 v1 v2 v3 v4 v5 v6 q :
  read_request r upto_nul v0 v1 v2 v3 v4 v5 v6 = Some q ->
  exists k, kind r v5 = Some k
    /\ internal_request r v0 v1 v2 v3 v4 (match k with KString s => Some s | _ => None end) v6 = Some q
    /\ (k = KNil \/ exists s ms, k = KString s /\ kind r v6 = Some (KArray ms)).
Proof.
  unfold read_request, internal_request. intros Hq.
  do 5 (apply bind_Some in Hq as (? & -> & Hq)). cbn [mbind option_bind].
  apply bind_Some in Hq as (md & Hmd & Hq). unfold mod_of, string_of in Hmd.
  destruct (kind r v5) as [k|]; [|done]. exists k. split; [done|].
  destruct k; try done; cbn [mbind option_bind] in *.
  - injection Hmd as <-. split; [done|by left].
  - apply bind_Some in Hmd as (mv & Hmv & [= <-]). rewrite Hmv. split; [done|]. right.
    destruct (keys_array _ _ _ Hmv) as [ms Hms]. eauto.
Qed.

Lemma int_of_zero (r : R) : int_of r (INT2FIX 0) = Some 0.
Proof. unfold int_of. by rewrite kind_INT2FIX. Qed.

Lemma single_runs r argv q c vb (w : W) :
  (3 <= length argv <= 7)%nat ->
  (let arg i := default Qnil (argv !! i) in
   read_request r upto_nul (arg 0%nat) (arg 1%nat) (arg 2%nat) (or_zero r (arg 3%nat))
        (or_zero r (arg 4%nat)) (arg 5%nat) (arg 6%nat)) = Some q ->
  exists v0 v1 v2 v3 v4 modop v5,
    execute_single recv_fuel argv (mkRuby r w (Some c) vb)
    = execute_internal recv_fuel v0 v1 v2 v3 v4 modop v5 (mkRuby r w (Some c) vb)
    /\ internal_request r v0 v1 v2 v3 v4 modop v5 = Some q.
Proof.
  intros Hl Hq. cbn zeta in Hq.
  destruct (read_request_internal _ _ _ _ _ _ _ _ _ Hq) as (k & Hk & Hi & Hcase).
  eexists _, _, _, _, _, _, _. split; [|exact Hi].
  unfold execute_single, rb_scan_args.
  replace ((3 <=? length argv)%nat && (length argv <=? 3 + 4)%nat) with true
    by (symmetry; apply andb_true_intro; split; apply Nat.leb_le; lia).
  rewrite (runs_then _ _ _ _ _ (runs_ret _ _)). cbn zeta. rewrite !default_pad.
  rewrite !nil_then. cbn [rs_heap].
  replace (if is_nil r (default Qnil (argv !! 3%nat)) then INT2FIX 0 else default Qnil (argv !! 3%nat))
    with (or_zero r (default Qnil (argv !! 3%nat)))
    by (unfold or_zero, is_nil; by destruct (kind r (default Qnil (argv !! 3%nat))) as [[]|]).
  replace (if is_nil r (default Qnil (argv !! 4%nat)) then INT2FIX 0 else default Qnil (argv !! 4%nat))
    with (or_zero r (default Qnil (argv !! 4%nat)))
    by (unfold or_zero, is_nil; by destruct (kind r (default Qnil (argv !! 4%nat))) as [[]|]).
  destruct Hcase as [->|(t & ms & -> & Hms)].
  - replace (is_nil r (default Qnil (argv !! 5%nat))) with true by (unfold is_nil; by rewrite Hk).
    by rewrite (runs_then _ _ _ _ _ (runs_ret _ _)).
  - replace (is_nil r (default Qnil (argv !! 5%nat))) with false by (unfold is_nil; by rewrite Hk).
    assert (Hs : string_of r (default Qnil (argv !! 5%nat)) = Some t) by (unfold string_of; by rewrite Hk).
    erewrite runs_then; [reflexivity|]. do 3 run_step. apply runs_ret.
Qed.

Lemma replied_single name argv q p r c vb (w w2 : W) :
  (name = "execute_find" \/ name = "execute_single")%string ->
  call_request r name argv = Some q -> request_fits q -> ready c -> reply_ok p ->
  served recv_fuel c (request_line q) (reply_text p) w w2 -> replied name argv p r c vb w w2.
Proof.
  intros Hname Hq. unfold call_request in Hq. rewrite bool_decide_eq_true_2 in Hq by done.
  destruct ((3 <=? length argv)%nat && (length argv <=? 7)%nat) eqn:El; [|done].
  apply andb_true_iff in El as [El1%Nat.leb_le El2%Nat.leb_le].
  destruct (single_runs r argv q c vb w (conj El1 El2) Hq) as (v0 & v1 & v2 & v3 & v4 & mo & v5 & Hrun & Hi).
  intros. eapply (replied_internal name argv p (execute_single recv_fuel argv) r r); try done; [|apply keeps_refl].
  by destruct Hname as [-> | ->].
Qed.


Lemma replied_update argv q p r c vb (w w2 : W) :
  call_request r "execute_update" argv = Some q -> request_fits q -> ready c -> reply_ok p ->
  served recv_fuel c (request_line q) (reply_text p) w w2 -> replied "execute_update" argv p r c vb w w2.
Proof.
  unfold call_request. cbn [bool_decide]. destruct (length argv =? 6)%nat eqn:El; [|done].
  apply Nat.eqb_eq in El. intros Hq. intros.
  eapply (replied_internal _ argv p _ r r); [|reflexivity|apply keeps_refl|exact Hq|done..].
  unfold call_method. cbn. by rewrite El.
Qed.

Lemma replied_delete argv q p r c vb (w w2 : W) :
  call_request r "execute_delete" argv = Some q -> request_fits q -> ready c -> reply_ok p ->
  served recv_fuel c (request_line q) (reply_text p) w w2 -> replied "execute_delete" argv p r c vb w w2.
Proof.
  unfold call_request. cbn [bool_decide]. destruct (length argv =? 5)%nat eqn:El; [|done].
  apply Nat.eqb_eq in El. intros (q0 & Hq0 & [= <-])%bind_Some. intros.
  eapply (replied_internal _ argv p (fun s => execute_delete recv_fuel (default Qnil (argv !! 0%nat))
            (default Qnil (argv !! 1%nat)) (default Qnil (argv !! 2%nat)) (default Qnil (argv !! 3%nat))
            (default Qnil (argv !! 4%nat)) s) r (rb_ary_new r).1); [| | |
    |done..].
  - unfold call_method. cbn. by rewrite El.
  - unfold execute_delete. erewrite runs_then; [reflexivity|]. apply (runs_ruby rb_ary_new).
  - apply rb_ary_new_keeps.
  - apply internal_request_inv in Hq0 as (Hid & Hop & Hkeys & Hlim & Hskip & _).
    pose proof (rb_ary_new_keeps r) as Hk. unfold internal_request.
    rewrite (int_of_keeps _ _ _ _ Hk Hid), (string_of_keeps _ _ _ _ Hk Hop),
      (keys_of_keeps _ _ _ _ Hk Hkeys), (int_of_keeps _ _ _ _ Hk Hlim), (int_of_keeps _ _ _ _ Hk Hskip).
    cbn [mbind option_bind]. unfold keys_of. rewrite rb_ary_new_kind. reflexivity.
Qed.

Lemma replied_insert argv q p r c vb (w w2 : W) :
  call_request r "execute_insert" argv = Some q -> request_fits q -> ready c -> reply_ok p ->
  served recv_fuel c (request_line q) (reply_text p) w w2 -> replied "execute_insert" argv p r c vb w w2.
Proof.
  unfold call_request. cbn [bool_decide]. destruct (length argv =? 2)%nat eqn:El; [|done].
  apply Nat.eqb_eq in El. intros (id & Hid & Hq)%bind_Some. apply bind_Some in Hq as (keys & Hkeys & [= <-]).
  intros.
  eapply (replied_internal _ argv p (fun s => execute_insert recv_fuel (default Qnil (argv !! 0%nat))
            (default Qnil (argv !! 1%nat)) s) r (rb_str_new (bytes "+") r).1); [| | |
    |done..].
  - unfold call_method. cbn. by rewrite El.
  - unfold execute_insert. erewrite runs_then; [reflexivity|]. apply (runs_ruby (rb_str_new (bytes "+"))).
  - apply rb_str_new_keeps.
  - pose proof (rb_str_new_keeps (bytes "+") r) as Hk. unfold internal_request.
    rewrite (int_of_keeps _ _ _ _ Hk Hid), (keys_of_keeps _ _ _ _ Hk Hkeys), int_of_zero.
    unfold string_of. rewrite rb_str_new_kind. reflexivity.
Qed.
End Replies.

(** ** Properties *)
Section RubyTheorems.
Context {V R : Type} `{RubyLaws V R} {W : Type} `{Net W}.
Variable recv_fuel : nat.

(** C17: a call of [execute_find], [execute_single], [execute_update], [execute_delete] or
    [execute_insert] is one exchange with the database. If its arguments denote a request
    [q] and the server answers the line of [q], however the answer is cut into reads,
    then the method returns an array with the code of the reply followed by the values
    of all its rows (nil for null), or by its message; the client is ready for
    the next call and no object that lived before has changed. *)
Theorem ruby_request_replied name argv q p r c vb (w w2 : W) :
  call_request r name argv = Some q -> request_fits q ->
  ready c -> reply_ok p -> served recv_fuel c (request_line q) (reply_text p) w w2 ->
  exists r' v c',
    call_method recv_fuel name argv (mkRuby r w (Some c) vb) = Ok (mkRuby r' w2 (Some c') vb, inr v)
    /\ shown r' v = Some (reply_result p) /\ ready c' /\ fd c' = fd c /\ keeps_but None r r'.
Proof.
  intros Hq. change (request_fits q -> ready c -> reply_ok p ->
    served recv_fuel c (request_line q) (reply_text p) w w2 -> replied recv_fuel name argv p r c vb w w2).
  destruct (decide (name = "execute_find" \/ name = "execute_single")%string) as [Hn|Hn].
  { intros. by eapply replied_single. }
  pose proof Hq as Hq0. unfold call_request in Hq0. rewrite bool_decide_eq_false_2 in Hq0 by done.
  destruct (decide (name = "execute_update")%string) as [->|Hn1]; [intros; by eapply replied_update|].
  destruct (decide (name = "execute_delete")%string) as [->|Hn2]; [intros; by eapply replied_delete|].
  destruct (decide (name = "execute_insert")%string) as [->|Hn3]; [intros; by eapply replied_insert|].
  by rewrite !bool_decide_eq_false_2 in Hq0.
Qed.

(** C18: [execute_multi] pipelines. If its argument denotes the requests [qs], all
    lines are sent at once; whatever the replies are (rows or errors) and however their
    stream is cut into reads, the method returns one array per request, in the order of the
    requests, and the client is ready for the next call. *)
Theorem execute_multi_replied args qs ps r c vb (w w2 : W) :
  multi_requests_of r args = Some qs -> qs <> [] -> Forall request_fits qs ->
  ready c -> length ps = length qs -> Forall reply_ok ps -> served_all recv_fuel c qs ps w w2 ->
  exists r' v c',
    call_method recv_fuel "execute_multi" [args] (mkRuby r w (Some c) vb)
    = Ok (mkRuby r' w2 (Some c') vb, inr v)
    /\ shown2 r' v = Some (reply_result <$> ps) /\ ready c' /\ fd c' = fd c /\ keeps_but None r r'.
Proof. intros. by apply (execute_multi_served recv_fuel args qs ps r c vb w w2). Qed.

(** [execute_multi] with no request loses the connection: it sends nothing, the
    client takes the empty buffer for a protocol error and closes, and the
    result is one array with code -1. *)
Theorem execute_multi_empty_disconnects args r c vb (w : W) :
  kind r args = Some (KArray []) -> ready c ->
  exists r' v c',
    call_method recv_fuel "execute_multi" [args] (mkRuby r w (Some c) vb)
    = Ok (mkRuby r' (sys_close (fd c) w).1 (Some c') vb, inr v)
    /\ shown2 r' v = Some [[SInt (-1); SStr (bytes "request_send: protocol out of sync")]]
    /\ fd c' = -1 /\ error_code c' = -1.
Proof.
  intros Hargs [He Hfd Hb Hs Hr Hend Hfl Hwb Hrb].
  set (msg := bytes "request_send: protocol out of sync").
  set (c' := set_error (closed (clear_error c) (-1)) (-1) msg).
  assert (Hsend : request_send c w = ((sys_close (fd c) w).1, c', -1)).
  { unfold request_send. destruct (Z.ltb_spec (error_code c) 0); [lia|].
    cbn [clear_error set_error fd num_req_bufd num_req_sent num_req_rcvd].
    destruct (Z.ltb_spec (fd c) 0); [lia|]. rewrite Hb. cbn [Z.eqb orb].
    unfold fail, Hstcpcli.close, af_close. cbn [fd clear_error set_error].
    destruct (Z.ltb_spec (fd c) 0); [lia|]. by destruct (sys_close (fd c) w). }
  set (rvs := (rb_ary_new r).2). set (r1 := (rb_ary_new r).1).
  assert (Hrvs : shown2 r1 rvs = Some []) by (unfold shown2, r1, rvs; by rewrite (rb_ary_new_kind r)).
  destruct (shown2_new r1 rvs [] Hrvs) as [Ha Hfill].
  set (a := (rb_ary_new r1).2) in *. set (r2 := rb_ary_push rvs a (rb_ary_new r1).1) in *.
  set (w1 := (sys_close (fd c) w).1) in *.
  destruct (appends_value (INT2FIX (-1)) (SInt (-1)) a w1 c' vb
              ltac:(intros; unfold scalar_of; by rewrite kind_INT2FIX) r2 [] Ha) as (r3 & Hr3 & Hs3 & Hk3).
  destruct (appends_string msg a w1 c' vb r3 _ Hs3) as (r4 & Hr4 & Hs4 & Hk4).
  destruct (Hfill r4 _ ltac:(by eapply keeps_trans) Hs4) as [Hshow _].
  exists r4, rvs, c'. split; [|split; [exact Hshow|done]].
  change (runs (execute_multi recv_fuel args) (mkRuby r w (Some c) vb) (mkRuby r4 w1 (Some c') vb) rvs).
  unfold execute_multi, execute_multi_internal. do 3 run_step. cbn [length each_entry].
  do 2 run_step.
  pose proof (runs_ruby rb_ary_new r w (Some c) vb) as Hnew. fold rvs r1 in Hnew. run_step.
  pose proof (runs_send _ _ _ _ _ r1 vb Hsend) as Hsent. run_step. cbn [Z.ltb Z.compare].
  pose proof (runs_ruby rb_ary_new r1 w1 (Some c') vb) as Hnew2. fold a in Hnew2. run_step.
  pose proof (runs_ruby (fun r => (rb_ary_push rvs a r, tt)) (rb_ary_new r1).1 w1 (Some c') vb) as Hpush.
  cbn [fst snd] in Hpush. fold r2 in Hpush. unfold ary_push at 1. run_step.
  pose proof (runs_error_code c' r2 w1 vb) as Herr. run_step. change (Hstcpcli.get_error_code c') with (-1).
  run_step.
  assert (Hmsg : runs client_error (mkRuby r3 w1 (Some c') vb) (mkRuby r3 w1 (Some c') vb) msg)
    by (by apply runs_client).
  run_step. unfold runs. rewrite <- runs_assoc. run_step. apply runs_ret.
Qed.

(** [execute_update] trusts its last argument. On an initialized object, with
    well-typed other arguments and values that are not an array (nil, say), it reads
    memory that is not an array's. *)
Theorem execute_update_unchecked v_id v_op v_keys v_limit v_skip v_modvals q r c vb (w : W) k :
  internal_request r v_id v_op v_keys v_limit v_skip None Qnil = Some q -> request_fits q ->
  kind r v_modvals = Some k -> (forall vs, k <> KArray vs) ->
  call_method recv_fuel "execute_update" [v_id; v_op; v_keys; v_limit; v_skip; v_modvals]
    (mkRuby r w (Some c) vb) = Fault OutOfBounds.
Proof.
  intros (Hid & Hop & Hkeys & Hlim & Hskip & _)%internal_request_inv [Hf1 _] Hk Hna.
  destruct (runs_ary2vec v_keys _ r w c vb Hkeys Hf1) as (r1 & Hk1 & Hr1).
  destruct (keys_array _ _ _ Hkeys) as [vs Hvs].
  change (execute_internal recv_fuel v_id v_op v_keys v_limit v_skip (Some (bytes "U")) v_modvals
            (mkRuby r w (Some c) vb) = Fault OutOfBounds).
  unfold execute_internal.
  do 9 (erewrite runs_then; [|first
    [ eassumption | eapply runs_check; reflexivity | eapply runs_check_fixnum; eassumption
    | eapply runs_check_string; eassumption | eapply runs_check_array; eassumption
    | eapply runs_FIX2INT; eassumption | eapply runs_RSTRING; eassumption ]]).
  unfold ary2vec at 1, RARRAY, kind_of. method_step. cbn [rs_heap].
  rewrite (kind_keeps r r1 _ k Hk1 Hk). destruct k; try done. by destruct (Hna vs0).
Qed.
End RubyTheorems.

(** ** The hypotheses at concrete inputs *)

(** A program with the strings [=] and [1], a key array, two requests of [execute_multi] and
    the array of both, and an empty array. *)
Definition sample_heap : list rb_object :=
  [ObjStr (bytes "="); ObjStr (bytes "1"); ObjAry [VRef 1; VFix 7];
   ObjAry [VFix 1; VRef 0; VRef 2; VFix 10; VFix 0];
   ObjAry [VFix 1; VRef 0; VRef 2; VFix 1; VFix 0; VRef 1; VRef 2];
   ObjAry [VRef 3; VRef 4]; ObjAry []].

Definition sample_query : ruby_request :=
  mkRequest 1 (bytes "=") [Some (bytes "1"); Some (bytes "7")] 0 0 None.

Definition sample_rows : reply := Rows 2 [[Some (bytes "1"); None]; [Some [9; 0]; Some []]].

Definition sample_failure : reply := Failure 121 1 [].

Definition sample_queries : list ruby_request :=
  [mkRequest 1 (bytes "=") [Some (bytes "1"); Some (bytes "7")] 10 0 None;
   mkRequest 1 (bytes "=") [Some (bytes "1"); Some (bytes "7")] 1 0
     (Some (bytes "1", [Some (bytes "1"); Some (bytes "7")]))].

Lemma ruby_request_replied_witness :
  let text := reply_text sample_rows ++ [LF] in
  exists r' v c',
    @call_method _ _ heap_ruby script script_net 1 "execute_find" [VFix 1; VRef 0; VRef 2]
      (mkRuby sample_heap (mkScript [text] []) (Some sample_client) 0)
    = Ok (mkRuby r' (mkScript [] [request_line sample_query]) (Some c') 0, inr v)
    /\ @shown _ _ heap_ruby r' v
       = Some [SInt 0; SStr (bytes "1"); SNil; SStr [9; 0]; SStr []]
    /\ ready c' /\ fd c' = fd sample_client /\ @keeps_but _ _ heap_ruby None sample_heap r'.
Proof.
  apply (@ruby_request_replied _ _ heap_ruby heap_laws script script_net 1 "execute_find"
           [VFix 1; VRef 0; VRef 2] sample_query sample_rows sample_heap sample_client 0).
  - vm_compute. reflexivity.
  - split; by_decide.
  - apply sample_ready.
  - split; [by_decide|]. repeat constructor; by_decide.
  - by apply script_served; [lia|vm_compute].
Defined.

Lemma execute_multi_replied_witness :
  let text := replies_text [sample_rows; sample_failure] in
  exists r' v c',
    @call_method _ _ heap_ruby script script_net 2 "execute_multi" [VRef 5]
      (mkRuby sample_heap (mkScript [take 7 text; drop 7 text] []) (Some sample_client) 0)
    = Ok (mkRuby r' (mkScript [] [mjoin (request_line <$> sample_queries)]) (Some c') 0, inr v)
    /\ @shown2 _ _ heap_ruby r' v
       = Some [[SInt 0; SStr (bytes "1"); SNil; SStr [9; 0]; SStr []];
               [SInt 121; SStr (bytes "unknown_error")]]
    /\ ready c' /\ fd c' = fd sample_client /\ @keeps_but _ _ heap_ruby None sample_heap r'.
Proof.
  apply (@execute_multi_replied _ _ heap_ruby heap_laws script script_net 2 (VRef 5) sample_queries
           [sample_rows; sample_failure] sample_heap sample_client 0).
  - vm_compute. reflexivity.
  - done.
  - repeat constructor; by_decide.
  - apply sample_ready.
  - done.
  - repeat constructor; try by_decide.
  - eexists _, [take 7 (replies_text [sample_rows; sample_failure]);
                drop 7 (replies_text [sample_rows; sample_failure])].
    split; [reflexivity|].
    split; [cbn [delivers];
      repeat first [exact eq_refl | split; [by_decide|] | eexists]|].
    split; [simpl; lia|reflexivity].
Defined.

Lemma execute_multi_empty_disconnects_witness :
  exists r' v c',
    @call_method _ _ heap_ruby script script_net 1 "execute_multi" [VRef 6]
      (mkRuby sample_heap (mkScript [] []) (Some sample_client) 0)
    = Ok (mkRuby r' (mkScript [] []) (Some c') 0, inr v)
    /\ @shown2 _ _ heap_ruby r' v
       = Some [[SInt (-1); SStr (bytes "request_send: protocol out of sync")]]
    /\ fd c' = -1 /\ error_code c' = -1.
Proof.
  apply (@execute_multi_empty_disconnects _ _ heap_ruby heap_laws script script_net 1 (VRef 6)
           sample_heap sample_client 0 (mkScript [] [])); [reflexivity|apply sample_ready].
Defined.

Lemma execute_update_unchecked_witness :
  @call_method _ _ heap_ruby script script_net 1 "execute_update"
    [VFix 1; VRef 0; VRef 2; VFix 1; VFix 0; VNil]
    (mkRuby sample_heap (mkScript [] []) (Some sample_client) 0) = Fault OutOfBounds.
Proof.
  apply (@execute_update_unchecked _ _ heap_ruby heap_laws script script_net 1 (VFix 1) (VRef 0)
           (VRef 2) (VFix 1) (VFix 0) VNil
           (mkRequest 1 (bytes "=") [Some (bytes "1"); Some (bytes "7")] 1 0 None)
           sample_heap sample_client 0 (mkScript [] []) KNil).
  - reflexivity.
  - split; by_decide.
  - reflexivity.
  - done.
Defined.
