(* ===== verification/RubySafe.v ===== *)
(** * RubySafe: the binding never leaves its memory

    Every method of the binding, called by name with any arguments, raises an exception or
    returns, and keeps the client consistent; the type checks of the binding protect every
    accessor, [execute_update] apart.  What [initialize] sets up, and what it forgets. *)
From S2P Require Import Prelude Text StringUtil Socket Hstcpcli HstcpcliSpec HandlerSocket RubyApi Ruby RubySpec.
#[local] Open Scope Z_scope.

(** ** The decimal text of a fixnum is read back without overflow *)
Lemma atoll_digits neg ds v :
  Forall is_digit ds -> 0 <= v -> dec_from v ds < 2 ^ 63 ->
  atoll_loop neg ds (if neg then - v else v)
  = Ok (if neg then - dec_from v ds else dec_from v ds).
Proof.
  intros Hds. revert v. induction Hds as [|c ds Hc Hds IH]; intros v Hv Hlt; [done|].
  change (dec_from v (c :: ds)) with (dec_from (v * 10 + (c - chr0)) ds) in *.
  assert (Hg : ((schar c <? chr0) || (chr9 <? schar c)) = false /\ schar c = c).
  { unfold is_digit, schar, chr0, chr9 in *. rewrite orb_false_iff, !Z.ltb_ge.
    destruct (Z.ltb_spec c 128); lia. }
  destruct Hg as [Hg Hs]. unfold is_digit, chr9 in Hc.
  pose proof (dec_from_ge (v * 10 + (c - chr0)) ds ltac:(unfold chr0 in *; lia) Hds) as Hge.
  cbn [atoll_loop]. rewrite Hg, Hs.
  assert (Hll : forall z, - 2 ^ 63 < z < 2 ^ 63 -> ll_op z = Ok z).
  { intros z Hz. unfold ll_op, LLONG_MIN, LLONG_MAX.
    destruct (Z.leb_spec (- 2 ^ 63) z), (Z.leb_spec z (2 ^ 63 - 1)); simpl; lia || done. }
  specialize (IH (v * 10 + (c - chr0)) ltac:(unfold chr0 in *; lia) Hlt).
  destruct neg; rewrite Hll by (unfold chr0 in *; lia); cbn [mbind outcome_bind];
    rewrite Hll by (unfold chr0 in *; lia); cbn [mbind outcome_bind]; [|exact IH].
  rewrite <- IH. f_equal. lia.
Qed.

Lemma atoll_dec_int z : - 2 ^ 62 <= z < 2 ^ 62 -> atoll (dec_int z) = Ok z.
Proof.
  intros Hz. unfold atoll, dec_int. destruct (Z.ltb_spec z 0).
  - rewrite skip_spaces_digit by (by right). cbn [atoll_nocheck].
    change (MINUS =? MINUS) with true. cbn iota.
    pose proof (atoll_digits true (dec_nat (- z)) 0) as Hd. change (- 0) with 0 in Hd.
    cbn beta iota in Hd.
    change (dec_from 0 (dec_nat (- z))) with (dec_value (dec_nat (- z))) in Hd.
    rewrite dec_nat_value in Hd by lia.
    rewrite (Hd (dec_nat_is_digit _)) by lia. f_equal. lia.
  - pose proof (dec_nat_is_digit z) as Hds. pose proof (dec_nat_value z ltac:(lia)) as Hval.
    destruct (dec_nat z) as [|c ds] eqn:E.
    { cbn in *. by subst z. }
    pose proof (Forall_inv Hds) as Hc. rewrite skip_spaces_digit by (by left).
    unfold atoll_nocheck. unfold is_digit, chr0, chr9 in Hc.
    destruct (Z.eqb_spec c MINUS); [unfold MINUS in *; lia|]. destruct (Z.eqb_spec c 43); [lia|].
    pose proof (atoll_digits false (c :: ds) 0 Hds ltac:(lia)) as Hd. cbn beta iota in Hd.
    change (dec_from 0 (c :: ds)) with (dec_value (c :: ds)) in Hd. rewrite Hval in Hd.
    apply Hd. lia.
Qed.

(** ** Safe methods *)

(** A client that exists is consistent. *)
Definition state_ok {R W} (s : ruby_state R W) : Prop :=
  match rs_tcpcli s with Some c => cli_inv c | None => True end.

Section Safe.
Context {V R : Type} `{RubyLaws V R} {W : Type} `{Net W}.
Variable recv_fuel : nat.
Variable F : fault -> Prop.

(** [m] ends in a fault of [F], raises in a consistent state, or returns in one
    that satisfies [P]. *)
Definition safe {A} (m : method R W A) (s : ruby_state R W) (P : ruby_state R W -> A -> Prop) : Prop :=
  returns F (fun x : ruby_state R W * (exn + A) =>
    state_ok x.1 /\ match x.2 with inl _ => True | inr a => P x.1 a end) (m s).

Lemma safe_ret {A} (a : A) (s : ruby_state R W) (P : ruby_state R W -> A -> Prop) :
  state_ok s -> P s a -> safe (mret a) s P.
Proof. done. Qed.

Lemma safe_raise {A} e (s : ruby_state R W) (P : ruby_state R W -> A -> Prop) :
  state_ok s -> safe (rb_raise e) s P.
Proof. done. Qed.

Lemma safe_bind {A B} (m : method R W A) (k : A -> method R W B) s Q P :
  safe m s Q -> (forall s' a, state_ok s' -> Q s' a -> safe (k a) s' P) -> safe (m ≫= k) s P.
Proof.
  unfold safe. intros Hm Hk. unfold mbind, method_bind.
  eapply returns_bind; [exact Hm|]. intros [s' [e|a]] [Hok HQ]; [done|]. by apply Hk.
Qed.

Lemma safe_impl {A} (m : method R W A) s (Q P : ruby_state R W -> A -> Prop) :
  safe m s Q -> (forall s' a, Q s' a -> P s' a) -> safe m s P.
Proof.
  intros Hm Hi. eapply returns_impl; [exact Hm|]. intros [s' [e|a]] [? ?]; naive_solver.
Qed.

(** The first call of a method, by the lemma that covers it. *)
Ltac safe_by tac := eapply safe_bind; [tac|]; cbv beta.

(** *** Reading arguments *)
Definition has_fixnum (r : R) (v : V) : Prop := exists z, kind r v = Some (KFixnum z).
Definition has_string (r : R) (v : V) : Prop := exists s, kind r v = Some (KString s).
Definition has_array (r : R) (v : V) : Prop := exists vs, kind r v = Some (KArray vs).

Lemma safe_check_fixnum v (s : ruby_state R W) :
  state_ok s -> safe (check_fixnum v) s (fun s' _ => s' = s /\ has_fixnum (rs_heap s) v).
Proof.
  unfold safe, check_fixnum, kind_of, has_fixnum. method_step. intros.
  destruct (kind (rs_heap s) v) as [[]|]; cbn; eauto.
Qed.

Lemma safe_check_string v (s : ruby_state R W) :
  state_ok s -> safe (check_string v) s (fun s' _ => s' = s /\ has_string (rs_heap s) v).
Proof.
  unfold safe, check_string, kind_of, has_string. method_step. intros.
  destruct (kind (rs_heap s) v) as [[]|]; cbn; eauto.
Qed.

Lemma safe_check_array v (s : ruby_state R W) :
  state_ok s -> safe (check_array v) s (fun s' _ => s' = s /\ has_array (rs_heap s) v).
Proof.
  unfold safe, check_array, kind_of, has_array. method_step. intros.
  destruct (kind (rs_heap s) v) as [[]|]; cbn; eauto.
Qed.

Lemma safe_nil v (s : ruby_state R W) :
  state_ok s -> safe (NIL_P v) s (fun s' b => s' = s /\ b = is_nil (rs_heap s) v).
Proof. unfold safe, NIL_P, kind_of, is_nil. method_step. cbn. done. Qed.

Lemma safe_FIX2INT v (s : ruby_state R W) :
  state_ok s -> has_fixnum (rs_heap s) v -> safe (FIX2INT v) s (fun s' z => s' = s /\ is_int z).
Proof.
  unfold safe, FIX2INT, kind_of. method_step. intros Hs (z & ->). by case_decide.
Qed.

Lemma safe_RSTRING v (s : ruby_state R W) :
  state_ok s -> has_string (rs_heap s) v -> safe (RSTRING v) s (fun s' _ => s' = s).
Proof. unfold safe, RSTRING, kind_of. method_step. by intros Hs (z & ->). Qed.

Lemma safe_entry v i (s : ruby_state R W) :
  state_ok s -> has_array (rs_heap s) v ->
  safe (rb_ary_entry v i) s (fun s' x => s' = s
    /\ exists vs, kind (rs_heap s) v = Some (KArray vs) /\ x = default Qnil (vs !! i)).
Proof.
  intros Hs (vs & Hvs). unfold safe, rb_ary_entry, RARRAY, kind_of. method_step.
  rewrite Hvs. cbn. eauto.
Qed.

(** *** Conversions: objects are left as they are *)
Hypothesis to_s_pure : forall v (r : R), keeps_but None r (rb_check_convert_type v r).1.

(** From [s] to [s'] objects were only added, and the client is still there. *)
Definition grows (s s' : ruby_state R W) : Prop :=
  keeps_but None (rs_heap s) (rs_heap s') /\ (is_Some (rs_tcpcli s) -> is_Some (rs_tcpcli s')).

Lemma grows_refl s : grows s s.
Proof. split; [apply keeps_refl|done]. Qed.

Lemma grows_trans s1 s2 s3 : grows s1 s2 -> grows s2 s3 -> grows s1 s3.
Proof. intros [H1' H2'] [H3' H4']. split; [by eapply keeps_trans|auto]. Qed.

Lemma grows_fixnum s s' v : grows s s' -> has_fixnum (rs_heap s) v -> has_fixnum (rs_heap s') v.
Proof. intros [Hk _] (z & Hz). exists z. by apply Hk. Qed.
Lemma grows_string s s' v : grows s s' -> has_string (rs_heap s) v -> has_string (rs_heap s') v.
Proof. intros [Hk _] (z & Hz). exists z. by apply Hk. Qed.
Lemma grows_array s s' v : grows s s' -> has_array (rs_heap s) v -> has_array (rs_heap s') v.
Proof. intros [Hk _] (z & Hz). exists z. by apply Hk. Qed.

Lemma safe_convert v (s : ruby_state R W) : state_ok s -> safe (convert v) s (fun s' _ => grows s s').
Proof.
  intros Hs. unfold safe, convert. pose proof (to_s_pure v (rs_heap s)) as Hk.
  destruct (rb_check_convert_type v (rs_heap s)) as [r [e|u]]; cbn; [done|].
  split; [done|]. split; [exact Hk|done].
Qed.

Lemma safe_StringValuePtr v (s : ruby_state R W) : state_ok s -> safe (StringValuePtr v) s (fun s' _ => s' = s).
Proof.
  unfold safe, StringValuePtr, kind_of. method_step. intros.
  by destruct (kind (rs_heap s) v) as [[]|].
Qed.

Lemma safe_ary2vec_entry v (s : ruby_state R W) : state_ok s -> safe (ary2vec_entry v) s (fun s' _ => grows s s').
Proof.
  intros Hs. unfold ary2vec_entry. safe_by ltac:(by apply safe_nil).
  intros s1 b Hs1 [-> ->]. destruct (is_nil _ _); [by apply safe_ret; [|apply grows_refl]|].
  safe_by ltac:(by apply safe_convert). intros s2 u Hs2 Hg.
  safe_by ltac:(by apply safe_StringValuePtr). intros s3 x Hs3 ->. by apply safe_ret.
Qed.

Lemma safe_ary2vec_loop n i ary (s : ruby_state R W) :
  state_ok s -> has_array (rs_heap s) ary -> safe (ary2vec_loop n i ary) s (fun s' _ => grows s s').
Proof.
  revert i s. induction n as [|n IH]; intros i s Hs Ha; cbn [ary2vec_loop].
  { apply safe_ret; [done|apply grows_refl]. }
  safe_by ltac:(by apply safe_entry). intros s1 x Hs1 (-> & _).
  safe_by ltac:(by apply safe_ary2vec_entry). intros s2 y Hs2 Hg.
  safe_by ltac:(apply IH; [done|by eapply grows_array]). intros s3 ys Hs3 Hg3.
  apply safe_ret; [done|by eapply grows_trans].
Qed.

Lemma safe_ary2vec ary (s : ruby_state R W) :
  state_ok s -> has_array (rs_heap s) ary -> safe (ary2vec ary) s (fun s' _ => grows s s').
Proof.
  intros Hs (vs & Hvs). unfold ary2vec.
  eapply (safe_bind _ _ _ (fun s' _ => s' = s)).
  - unfold safe, RARRAY, kind_of. method_step. by rewrite Hvs.
  - intros s1 us Hs1 ->. apply safe_ary2vec_loop; [done|by exists vs].
Qed.

(** *** Calls of the client *)
Hypothesis may_wait : F OutOfFuel.

Definition has_client (s : ruby_state R W) : Prop := is_Some (rs_tcpcli s).

Lemma safe_Check_TcpCli (s : ruby_state R W) :
  state_ok s -> safe Check_TcpCli s (fun s' _ => s' = s /\ has_client s).
Proof. unfold safe, Check_TcpCli, has_client. destruct (rs_tcpcli s) eqn:E; cbn; eauto. Qed.

Lemma safe_client {A} (f : hstcpcli -> W -> outcome (W * hstcpcli * A)) (s : ruby_state R W) :
  state_ok s -> has_client s ->
  (forall c w, cli_inv c -> returns F (fun x => cli_inv x.1.2) (f c w)) ->
  safe (on_client f) s (fun s' _ => grows s s').
Proof.
  unfold safe, on_client, state_ok. intros Hs (c & Hc) Hf. rewrite Hc in *.
  eapply returns_bind; [by apply Hf|]. intros [[w' c'] a] Hc'. cbn. split; [done|].
  split; [apply keeps_refl|]. intros _. by exists c'.
Qed.

Lemma safe_ruby {A} (f : R -> R * A) (s : ruby_state R W) :
  state_ok s -> safe (ruby f) s (fun s' _ => rs_tcpcli s' = rs_tcpcli s).
Proof. unfold safe, ruby. intros Hs. by destruct (f (rs_heap s)). Qed.

Lemma safe_send (s : ruby_state R W) :
  state_ok s -> has_client s -> safe client_send s (fun s' _ => has_client s').
Proof.
  intros Hs Hc. eapply safe_impl; [apply safe_client; [done..|]|intros s' a [_ Hg]; by apply Hg].
  intros c w Hi. cbn. by apply request_send_inv.
Qed.

Lemma safe_recv (s : ruby_state R W) :
  state_ok s -> has_client s -> safe (client_recv recv_fuel) s (fun s' _ => has_client s').
Proof.
  intros Hs Hc. eapply safe_impl; [apply safe_client; [done..|]|intros s' a [_ Hg]; by apply Hg].
  intros c w Hi. pose proof (response_recv_returns recv_fuel 0 c w Hi) as Hr.
  destruct (response_recv recv_fuel 0 c w) as [[[[w1 c1] nf] r]|f]; cbn in *; [apply Hr|by subst f].
Qed.

(** After a reply that has [nflds] fields and the code [e]. *)
Definition replied (e nflds : Z) (s : ruby_state R W) : Prop :=
  exists c, rs_tcpcli s = Some c /\ error_code c = e /\ (e = 0 -> num_flds c = nflds).

Lemma replied_client e nflds s : replied e nflds s -> has_client s.
Proof. intros (c & Hc & _). by exists c. Qed.

Lemma safe_recv_reply (s : ruby_state R W) :
  state_ok s -> has_client s -> safe (client_recv recv_fuel) s (fun s' p => replied p.2 p.1 s').
Proof.
  unfold safe, client_recv, on_client, state_ok. intros Hs (c & Hc). rewrite Hc in *.
  pose proof (response_recv_returns recv_fuel 0 c (rs_world s) Hs) as Hr.
  destruct (response_recv recv_fuel 0 c (rs_world s)) as [[[[w1 c1] nf] r]|f] eqn:E; cbn in *;
    [|by subst f].
  apply response_recv_code in E as ->. split; [apply Hr|]. exists c1. split; [done|]. split; [done|apply Hr].
Qed.

Lemma safe_code_reply e nflds (s : ruby_state R W) :
  state_ok s -> replied e nflds s -> safe client_error_code s (fun s' e' => e' = e /\ replied e nflds s').
Proof.
  unfold safe, client_error_code, on_client, state_ok. intros Hs (c & Hc & He & Hn). rewrite Hc in *.
  cbn. split; [done|]. split; [done|]. by exists c.
Qed.

Lemma safe_heap_reply {A} (f : R -> R * A) e nflds (s : ruby_state R W) :
  state_ok s -> replied e nflds s -> safe (ruby f) s (fun s' _ => replied e nflds s').
Proof.
  intros Hs Hc. eapply safe_impl; [by apply safe_ruby|]. unfold replied. by intros s' a ->.
Qed.

Lemma safe_remove (s : ruby_state R W) :
  state_ok s -> has_client s -> safe client_remove s (fun s' _ => has_client s').
Proof.
  intros Hs Hc. eapply safe_impl; [apply safe_client; [done..|]|intros s' a [_ Hg]; by apply Hg].
  intros c w Hi. pose proof (response_buf_remove_inv c w Hi). by destruct (response_buf_remove c w).
Qed.

Lemma safe_error_code (s : ruby_state R W) :
  state_ok s -> has_client s -> safe client_error_code s (fun s' _ => has_client s').
Proof.
  intros Hs Hc. eapply safe_impl; [apply safe_client; [done..|]|intros s' a [_ Hg]; by apply Hg].
  done.
Qed.

Lemma safe_error (s : ruby_state R W) :
  state_ok s -> has_client s -> safe client_error s (fun s' _ => has_client s').
Proof.
  intros Hs Hc. eapply safe_impl; [apply safe_client; [done..|]|intros s' a [_ Hg]; by apply Hg].
  done.
Qed.

Lemma safe_buffer id op keys limit skip mop mvs (s : ruby_state R W) :
  state_ok s -> has_client s ->
  safe (buffer_request id op keys limit skip mop mvs) s (fun s' _ => grows s s').
Proof.
  intros Hs Hc. apply safe_client; [done..|]. intros c w Hi. unfold request_buf_exec_generic.
  match goal with |- context [request_buf ?n ?l c w] =>
    pose proof (request_buf_inv n l c w Hi); by destruct (request_buf n l c w) end.
Qed.

(** Heap calls leave the client alone. *)
Lemma safe_heap {A} (f : R -> R * A) (s : ruby_state R W) :
  state_ok s -> has_client s -> safe (ruby f) s (fun s' _ => has_client s').
Proof.
  intros Hs Hc. eapply safe_impl; [by apply safe_ruby|]. unfold has_client. by intros s' a ->.
Qed.

(** *** Results *)
Ltac safe_client_step :=
  eapply safe_bind;
  [first [ by apply safe_send | by apply safe_recv | by apply safe_remove | by apply safe_error_code
         | by apply safe_error | by apply safe_heap ]|]; cbv beta.

Lemma safe_push_row a row (s : ruby_state R W) :
  state_ok s -> has_client s -> safe (push_row a row) s (fun s' _ => rs_tcpcli s' = rs_tcpcli s).
Proof.
  revert s. induction row as [|[t|] row IH]; intros s Hs Hc; cbn [push_row]; [by apply safe_ret| |].
  - safe_by ltac:(by apply safe_ruby). intros s1 v Hs1 E1.
    safe_by ltac:(by apply safe_ruby). intros s2 [] Hs2 E2.
    eapply safe_impl; [apply IH; [done|unfold has_client in *; congruence]|]. cbv beta. congruence.
  - safe_by ltac:(by apply safe_ruby). intros s2 [] Hs2 E2.
    eapply safe_impl; [apply IH; [done|unfold has_client in *; congruence]|]. cbv beta. congruence.
Qed.

(** The rows end within the bytes of the response. *)
Lemma safe_push_rows fuel nflds a (s : ruby_state R W) c :
  rs_tcpcli s = Some c -> cli_inv c -> num_flds c = nflds ->
  (response_end_offset c - cur_row_offset c < fuel)%nat ->
  safe (push_rows fuel nflds a) s (fun s' _ => has_client s').
Proof.
  clear may_wait. revert s c. induction fuel as [|fuel IH]; intros s c Hc Hi Hn Hf; [lia|].
  cbn [push_rows]. destruct (get_next_row_ok c Hi) as (c' & row & Hg & Hi' & _ & He & Hp).
  eapply (safe_bind _ _ _ (fun s' vals => rs_tcpcli s' = Some c' /\ (vals <> None -> row <> None))).
  - unfold safe, next_row, on_client. rewrite Hc, Hg. cbn [mbind outcome_bind].
    destruct row as [row|]; [|by cbn].
    pose proof (get_next_row_length _ _ _ Hg) as (_ & _ & Hl).
    unfold row_values. rewrite array_reads_Ok by (rewrite <- Hn; lia). by cbn.
  - intros s1 [vals|] Hs1 [Hc1 Hrow]; [|by apply safe_ret; [|exists c']].
    safe_by ltac:(apply safe_push_row; [done|by exists c']). intros s2 [] Hs2 E2.
    pose proof (Hp (Hrow ltac:(done))). pose proof (inv_row c' Hi').
    assert (num_flds c' = nflds).
    { destruct row as [row|]; [|by destruct (Hrow ltac:(done))].
      pose proof (get_next_row_length _ _ _ Hg) as (-> & _). done. }
    apply (IH s2 c'); [congruence|done|done|lia].
Qed.

Lemma safe_push_reply e nflds a (s : ruby_state R W) :
  state_ok s -> replied e nflds s -> safe (push_reply e nflds a) s (fun s' _ => has_client s').
Proof.
  intros Hs Hr. pose proof (replied_client _ _ _ Hr) as Hc. unfold push_reply.
  destruct (Z.eqb_spec e 0) as [He|He]; cbn [negb].
  2:{ safe_client_step. intros s1 t Hs1 Hc1. safe_client_step. intros s2 v Hs2 Hc2. by apply safe_heap. }
  destruct Hr as (c & Hrc & _ & Hn). clear Hc. rename Hrc into Hc. unfold state_ok in Hs. rewrite Hc in Hs.
  eapply (safe_bind _ _ _ (fun s' fuel => s' = s /\ fuel = rows_fuel c)).
  - unfold safe, rows_bound, on_client, state_ok. rewrite Hc. cbn. rewrite <- Hc at 1. split; [done|].
    split; [by destruct s|done].
  - intros s1 fuel Hs1 [-> ->]. apply (safe_push_rows _ _ _ _ c); [done|done|by apply Hn|]. unfold rows_fuel. lia.
Qed.

(** *** Whole methods *)
Definition any : ruby_state R W -> V -> Prop := fun _ _ => True.

Lemma safe_any {A} (m : method R W A) s P : safe m s P -> safe m s (fun _ _ => True).
Proof. intros Hm. by eapply safe_impl. Qed.

(** The result of one request, once it has been received. *)
Lemma safe_finish e nflds a (s : ruby_state R W) :
  state_ok s -> replied e nflds s ->
  safe (push_reply e nflds a;; (if 0 <=? e then client_remove else mret tt)) s
    (fun s' _ => has_client s').
Proof.
  intros Hs Hc. safe_by ltac:(by apply safe_push_reply). intros s1 [] Hs1 Hc1.
  destruct (0 <=? e); [by apply safe_remove|by apply safe_ret].
Qed.

Lemma safe_assoc {A B C} (m : method R W A) (f : A -> method R W B) (g : B -> method R W C) s P :
  safe ((m ≫= f) ≫= g) s P <-> safe (m ≫= (fun x => f x ≫= g)) s P.
Proof. unfold safe. by rewrite runs_assoc. Qed.

Lemma safe_execute_internal v0 v1 v2 v3 v4 modop v5 (s : ruby_state R W) :
  state_ok s -> (modop <> None -> has_array (rs_heap s) v5) ->
  safe (execute_internal recv_fuel v0 v1 v2 v3 v4 modop v5) s any.
Proof.
  intros Hs Hmod. unfold execute_internal.
  safe_by ltac:(by apply safe_Check_TcpCli). intros s1 [] Hs1 [-> Hc].
  safe_by ltac:(by apply safe_check_fixnum). intros s1 [] _ [-> H0'].
  safe_by ltac:(by apply safe_check_string). intros s1 [] _ [-> H1'].
  safe_by ltac:(by apply safe_check_array). intros s1 [] _ [-> H2'].
  safe_by ltac:(by apply safe_check_fixnum). intros s1 [] _ [-> H3'].
  safe_by ltac:(by apply safe_check_fixnum). intros s1 [] _ [-> H4'].
  safe_by ltac:(by apply safe_FIX2INT). intros s1 id _ [-> Hid].
  safe_by ltac:(by apply safe_RSTRING). intros s1 op _ ->.
  safe_by ltac:(by apply safe_ary2vec). intros s2 keys Hs2 Hg2.
  assert (Hmv : safe (match modop with Some _ => ary2vec v5 | None => mret [] end) s2
                  (fun s' _ => grows s s')).
  { destruct modop; [|by apply safe_ret].
    eapply safe_impl; [apply safe_ary2vec; [done|]|].
    - eapply grows_array; [exact Hg2|]. by apply Hmod.
    - intros s' a Hg. by eapply grows_trans. }
  safe_by ltac:(exact Hmv). intros s3 mv Hs3 Hg3. cbv zeta.
  safe_by ltac:(apply safe_FIX2INT; [done|by eapply grows_fixnum]). intros s4 limit _ [-> _].
  safe_by ltac:(apply safe_FIX2INT; [done|by eapply grows_fixnum]). intros s4 skip _ [-> _].
  pose proof (proj2 Hg3 Hc) as Hc3.
  safe_by ltac:(by apply safe_buffer). intros s4 [] Hs4 [_ Hc4]. specialize (Hc4 Hc3).
  safe_client_step. intros s5 rc Hs5 Hc5. destruct (negb _); [by apply safe_ret|].
  safe_by ltac:(by apply safe_recv_reply). intros s6 [nf x] Hs6 Hc6.
  safe_by ltac:(by apply (safe_code_reply x nf)). intros s7 e Hs7 [-> Hc7].
  safe_by ltac:(by apply (safe_heap_reply _ x nf)). intros s8 a Hs8 Hc8.
  safe_by ltac:(by apply (safe_heap_reply _ x nf)). intros s9 [] Hs9 Hc9.
  apply safe_assoc. safe_by ltac:(by apply safe_finish). intros s10 [] Hs10 Hc10. by apply safe_ret.
Qed.

Lemma safe_execute_single argv (s : ruby_state R W) :
  state_ok s -> safe (execute_single recv_fuel argv) s any.
Proof.
  intros Hs. unfold execute_single, rb_scan_args. destruct (_ && _); [|by apply safe_raise].
  safe_by ltac:(by apply (safe_ret _ s (fun s' _ => s' = s))). intros s1 args _ ->. cbv zeta.
  safe_by ltac:(by apply safe_nil). intros s1 b1 _ [-> _].
  safe_by ltac:(by apply safe_nil). intros s1 b2 _ [-> _].
  safe_by ltac:(by apply safe_nil). intros s1 b3 _ [-> _].
  eapply (safe_bind _ _ _ (fun s' modop => s' = s /\
            (modop <> None -> has_array (rs_heap s) (default Qnil (args !! 6%nat))))).
  - destruct b3; [by apply safe_ret|].
    safe_by ltac:(by apply safe_check_string). intros s1 [] _ [-> H1'].
    safe_by ltac:(by apply safe_check_array). intros s1 [] _ [-> H2'].
    safe_by ltac:(by apply safe_RSTRING). intros s1 t _ ->. by apply safe_ret.
  - intros s1 modop Hs1 [-> Hm]. by apply safe_execute_internal.
Qed.

Lemma safe_execute_delete v0 v1 v2 v3 v4 (s : ruby_state R W) :
  state_ok s -> safe (execute_delete recv_fuel v0 v1 v2 v3 v4) s any.
Proof.
  intros Hs. unfold execute_delete.
  eapply (safe_bind _ _ _ (fun s' a => has_array (rs_heap s') a)).
  - unfold safe, ruby. pose proof (rb_ary_new_kind (rs_heap s)) as Hk.
    destruct (rb_ary_new (rs_heap s)) as [r a]. cbn in *. split; [done|by eexists].
  - intros s1 a Hs1 Ha. by apply safe_execute_internal.
Qed.

Lemma safe_execute_insert v0 v1 (s : ruby_state R W) :
  state_ok s -> safe (execute_insert recv_fuel v0 v1) s any.
Proof.
  intros Hs. unfold execute_insert. safe_by ltac:(by apply safe_ruby). intros s1 op Hs1 _.
  by apply safe_execute_internal.
Qed.

(** *** [execute_multi] *)

(** What the first loop of [execute_multi] has checked of one element. *)
Definition checked_request (r : R) (v : V) : Prop :=
  exists vs, kind r v = Some (KArray vs)
    /\ has_fixnum r (default Qnil (vs !! 0%nat)) /\ has_string r (default Qnil (vs !! 1%nat))
    /\ has_array r (default Qnil (vs !! 2%nat)) /\ has_fixnum r (default Qnil (vs !! 3%nat))
    /\ has_fixnum r (default Qnil (vs !! 4%nat))
    /\ (is_nil r (default Qnil (vs !! 5%nat)) = true
        \/ has_string r (default Qnil (vs !! 5%nat)) /\ has_array r (default Qnil (vs !! 6%nat))).

Lemma checked_grows s s' v :
  grows s s' -> checked_request (rs_heap s) v -> checked_request (rs_heap s') v.
Proof.
  intros Hg (vs & Hvs & H0' & H1' & H2' & H3' & H4' & H5'). exists vs.
  split; [by apply Hg|].
  split; [by eapply grows_fixnum|]. split; [by eapply grows_string|].
  split; [by eapply grows_array|]. split; [by eapply grows_fixnum|].
  split; [by eapply grows_fixnum|]. destruct H5' as [Hn|[Hs Ha]].
  - left. unfold is_nil in *.
    destruct (kind (rs_heap s) (default Qnil (vs !! 5%nat))) as [k|] eqn:E; [|done].
    by rewrite (proj1 Hg _ _ E).
  - right. split; [by eapply grows_string|by eapply grows_array].
Qed.

Ltac entries vs Hvs :=
  do 7 (safe_by ltac:(apply safe_entry; [done|by exists vs]);
        let us := fresh "us" in let E := fresh "E" in
        intros ? ? _ (-> & us & E & ->); rewrite Hvs in E; injection E as <-).

Lemma safe_check_request v (s : ruby_state R W) :
  state_ok s -> safe (check_request v) s (fun s' _ => s' = s /\ checked_request (rs_heap s) v).
Proof.
  intros Hs. unfold check_request.
  safe_by ltac:(by apply safe_check_array). intros s1 [] _ [-> (vs & Hvs)].
  entries vs Hvs.
  safe_by ltac:(by apply safe_check_fixnum). intros s1 [] _ [-> H0'].
  safe_by ltac:(by apply safe_check_string). intros s1 [] _ [-> H1'].
  safe_by ltac:(by apply safe_check_array). intros s1 [] _ [-> H2'].
  safe_by ltac:(by apply safe_check_fixnum). intros s1 [] _ [-> H3'].
  safe_by ltac:(by apply safe_check_fixnum). intros s1 [] _ [-> H4'].
  safe_by ltac:(by apply safe_nil). intros s1 b _ [-> Hb]. destruct b.
  - apply safe_ret; [done|]. split; [done|]. exists vs. split_and!; try done. by left.
  - safe_by ltac:(by apply safe_check_string). intros s1 [] _ [-> H5'].
    eapply safe_impl; [by apply safe_check_array|]. intros s1 [] [-> H6']. split; [done|].
    exists vs. split_and!; try done. by right.
Qed.

Lemma safe_multi_request v (s : ruby_state R W) :
  state_ok s -> has_client s -> checked_request (rs_heap s) v ->
  safe (multi_request v) s (fun s' _ => grows s s').
Proof.
  intros Hs Hc (vs & Hvs & H0' & H1' & H2' & H3' & H4' & H5'). unfold multi_request.
  entries vs Hvs.
  safe_by ltac:(by apply safe_FIX2INT). intros s1 id _ [-> Hid].
  safe_by ltac:(by apply safe_RSTRING). intros s1 op _ ->.
  safe_by ltac:(by apply safe_ary2vec). intros s2 keys Hs2 Hg2.
  safe_by ltac:(by apply safe_nil). intros s3 b _ [-> Hb].
  eapply (safe_bind _ _ _ (fun s' _ => grows s s')).
  - destruct b; [by apply safe_ret|]. destruct H5' as [Hn|[H5' H6']].
    { unfold is_nil in *.
      destruct (kind (rs_heap s) (default Qnil (vs !! 5%nat))) as [k|] eqn:E; [|done].
      by rewrite (proj1 Hg2 _ _ E), Hn in Hb. }
    safe_by ltac:(apply safe_RSTRING; [done|by eapply grows_string]). intros s4 t _ ->.
    safe_by ltac:(apply safe_ary2vec; [done|by eapply grows_array]). intros s4 mv Hs4 Hg4.
    apply safe_ret; [done|by eapply grows_trans].
  - intros s4 [mop mv] Hs4 Hg4.
    safe_by ltac:(apply safe_FIX2INT; [done|by eapply grows_fixnum]). intros s5 limit _ [-> _].
    safe_by ltac:(apply safe_FIX2INT; [done|by eapply grows_fixnum]). intros s5 skip _ [-> _].
    eapply safe_impl; [apply safe_buffer; [done|by apply Hg4]|].
    intros s5 x Hg5. by eapply grows_trans.
Qed.

(** A loop over the elements of an array. *)
Lemma safe_each (Q : nat -> ruby_state R W -> Prop) f args vs n i s :
  (forall j v s, vs !! j = Some v -> state_ok s -> Q j s -> safe (f v) s (fun s' _ => Q (S j) s')) ->
  (forall j s, Q j s -> kind (rs_heap s) args = Some (KArray vs)) ->
  (i + n <= length vs)%nat -> state_ok s -> Q i s ->
  safe (each_entry f n i args) s (fun s' _ => Q (i + n)%nat s').
Proof.
  intros Hf Ha. revert i s. induction n as [|n IH]; intros i s Hl Hs HQ; cbn [each_entry].
  { apply safe_ret; [done|by rewrite Nat.add_0_r]. }
  safe_by ltac:(apply safe_entry; [done|exists vs; by eapply Ha]).
  intros s1 x _ (-> & us & E & ->). rewrite (Ha _ _ HQ) in E. injection E as <-.
  destruct (lookup_lt_is_Some_2 vs i ltac:(lia)) as [x Hx]. rewrite Hx. cbn [default from_option].
  safe_by ltac:(by apply Hf). intros s1 [] Hs1 HQ1. rewrite Nat.add_succ_r.
  apply (IH (S i)); [lia|done|done].
Qed.

Lemma safe_multi_replies n rvs (s : ruby_state R W) :
  state_ok s -> has_client s -> safe (multi_replies recv_fuel n rvs) s (fun _ _ => True).
Proof.
  revert s. induction n as [|n IH]; intros s Hs Hc; cbn [multi_replies]; [by apply safe_ret|].
  safe_client_step. intros s1 a Hs1 Hc1. safe_client_step. intros s2 [] Hs2 Hc2.
  safe_by ltac:(by apply safe_recv_reply). intros s3 [nf e] Hs3 Hc3.
  safe_by ltac:(by apply (safe_heap_reply _ e nf)). intros s4 [] Hs4 Hc4.
  apply safe_assoc. safe_by ltac:(by apply safe_finish). intros s5 [] Hs5 Hc5.
  destruct (e <? 0); [by apply safe_ret|by apply IH].
Qed.

Lemma safe_execute_multi args (s : ruby_state R W) :
  state_ok s -> safe (execute_multi recv_fuel args) s any.
Proof.
  intros Hs. unfold execute_multi, execute_multi_internal.
  safe_by ltac:(by apply safe_Check_TcpCli). intros s1 [] Hs1 [-> Hc].
  safe_by ltac:(by apply safe_check_array). intros s1 [] _ [-> (vs & Hvs)].
  eapply (safe_bind _ _ _ (fun s' us => s' = s /\ us = vs)).
  { unfold safe, RARRAY, kind_of. method_step. by rewrite Hvs. }
  intros s1 us _ [-> ->]. cbv zeta.
  pose proof (safe_each (fun j s' => s' = s /\ forall i v, (i < j)%nat -> vs !! i = Some v ->
                           checked_request (rs_heap s) v) check_request args vs (length vs) 0 s) as Hcheck.
  eapply safe_bind; [apply Hcheck; try done|cbv beta].
  { intros j v s1 Hv Hs1' [-> Hj]. eapply safe_impl; [by apply safe_check_request|].
    intros s2 [] [-> Hch]. split; [done|]. intros i u Hi Hu.
    destruct (decide (i = j)) as [->|]; [congruence|]. apply (Hj i); [lia|done]. }
  { by intros j s1 [-> _]. } { split; [done|lia]. }
  intros s1 [] _ [-> Hall].
  pose proof (safe_each (fun _ s' => grows s s') multi_request args vs (length vs) 0 s) as Hreq.
  eapply safe_bind; [apply Hreq; try done|cbv beta].
  { intros j v s1 Hv Hs1' Hg. eapply safe_impl; [apply safe_multi_request; [done|by apply Hg|]|].
    - eapply checked_grows; [exact Hg|]. apply (Hall j); [by apply lookup_lt_Some in Hv|done].
    - intros s2 [] Hg2. by eapply grows_trans. }
  { intros j s1 Hg. by apply Hg. } { apply grows_refl. }
  intros s2 [] Hs2 Hg2. pose proof (proj2 Hg2 Hc) as Hc2.
  safe_client_step. intros s3 rvs Hs3 Hc3. safe_client_step. intros s4 rc Hs4 Hc4.
  destruct (rc <? 0).
  - safe_client_step. intros s5 a Hs5 Hc5. safe_client_step. intros s6 [] Hs6 Hc6.
    safe_client_step. intros s7 e Hs7 Hc7. safe_client_step. intros s8 [] Hs8 Hc8.
    safe_client_step. intros s9 t Hs9 Hc9. safe_client_step. intros s10 v Hs10 Hc10.
    safe_client_step. intros s11 [] Hs11 Hc11. by apply safe_ret.
  - safe_by ltac:(by apply safe_multi_replies). intros s5 [] Hs5 _. by apply safe_ret.
Qed.

(** *** The other methods *)
Lemma safe_open_index v0 v1 v2 v3 v4 (s : ruby_state R W) :
  state_ok s -> safe (open_index recv_fuel v0 v1 v2 v3 v4) s any.
Proof.
  intros Hs. unfold open_index.
  safe_by ltac:(by apply safe_Check_TcpCli). intros s1 [] Hs1 [-> Hc].
  safe_by ltac:(by apply safe_check_fixnum). intros s1 [] _ [-> H0'].
  safe_by ltac:(by apply safe_check_string). intros s1 [] _ [-> H1'].
  safe_by ltac:(by apply safe_check_string). intros s1 [] _ [-> H2'].
  safe_by ltac:(by apply safe_check_string). intros s1 [] _ [-> H3'].
  safe_by ltac:(by apply safe_check_string). intros s1 [] _ [-> H4'].
  safe_by ltac:(by apply safe_FIX2INT). intros s1 id _ [-> Hid].
  do 4 (safe_by ltac:(by apply safe_RSTRING); intros s1 ? _ ->).
  eapply (safe_bind _ _ _ (fun s' _ => has_client s')).
  { eapply safe_impl; [apply safe_client; [done..|]|intros s' x [_ Hg]; by apply Hg].
    intros c w Hi. unfold request_buf_open_index.
    match goal with |- context [request_buf ?n ?l c w] =>
      pose proof (request_buf_inv n l c w Hi); by destruct (request_buf n l c w) end. }
  intros s1 [] Hs2 Hc1. safe_client_step. intros s2 rc Hs3 Hc2.
  eapply (safe_bind _ _ _ (fun s' _ => has_client s')).
  - destruct (negb _); [by apply safe_ret|]. safe_client_step. intros s3 x Hs4 Hc3.
    safe_client_step. intros s4 e Hs5 Hc4. destruct (0 <=? e); [by apply safe_remove|by apply safe_ret].
  - intros s3 [] Hs4 Hc3. safe_client_step. intros s4 e Hs5 Hc4. by apply safe_ret.
Qed.

Lemma safe_plain {A} (f : hstcpcli -> W -> outcome (W * hstcpcli * A)) (k : A -> method R W V)
    (s : ruby_state R W) :
  state_ok s -> (forall c w, cli_inv c -> returns F (fun x => cli_inv x.1.2) (f c w)) ->
  (forall s' a, state_ok s' -> safe (k a) s' any) ->
  safe (Check_TcpCli;; on_client f ≫= k) s any.
Proof.
  intros Hs Hf Hk. safe_by ltac:(by apply safe_Check_TcpCli). intros s1 [] Hs1 [-> Hc].
  safe_by ltac:(by apply safe_client). intros s2 a Hs2 _. by apply Hk.
Qed.

Lemma reconnect_inv c (w : W) : cli_inv (Hstcpcli.reconnect c w).1.2.
Proof.
  unfold Hstcpcli.reconnect. pose proof (close_inv (clear_error c) w) as Hcl.
  destruct (Hstcpcli.close _ _) as [w1 c1]. pose proof (connect_fd_inv c1 w1 Hcl) as Hcn.
  by destruct (connect_fd _ _) as [w2 c2].
Qed.

Lemma safe_close (s : ruby_state R W) : state_ok s -> safe close s any.
Proof.
  intros Hs. apply safe_plain; [done| |by intros; apply safe_ret]. intros c w _.
  pose proof (close_inv c w). by destruct (Hstcpcli.close c w).
Qed.

Lemma safe_reconnect (s : ruby_state R W) : state_ok s -> safe reconnect s any.
Proof.
  intros Hs. apply safe_plain; [done| |by intros; apply safe_ret]. intros c w _. apply reconnect_inv.
Qed.

Lemma safe_getters (s : ruby_state R W) :
  state_ok s -> safe stable_point s any /\ safe get_error_code s any /\ safe get_error s any.
Proof.
  intros Hs. split; [|split]; (apply safe_plain; [done|done|]).
  - intros s' a Hs'. by apply safe_ret.
  - intros s' a Hs'. by apply safe_ret.
  - intros s' a Hs'. by eapply safe_any, safe_ruby.
Qed.

(** *** [initialize] *)
Hypothesis may_exit : F FatalAbort.

Lemma safe_conf_fixnum v def (s : ruby_state R W) :
  (exists n, atoll (bytes def) = Ok n) ->
  state_ok s -> safe (conf_fixnum v def) s (fun _ t => exists n, atoll t = Ok n).
Proof.
  intros Hdef Hs. unfold conf_fixnum. safe_by ltac:(by apply safe_nil).
  intros s1 b _ [-> _]. destruct b; [by apply safe_ret|].
  safe_by ltac:(by apply safe_check_fixnum). intros s1 [] _ [-> (z & Hz)].
  destruct (convert_fixnum v z _ Hz) as (r' & u & Hc & Hu & Hk).
  eapply (safe_bind _ _ _ (fun s' x => kind (rs_heap s') x = Some (KString (dec_int z)))).
  - unfold safe, convert. by rewrite Hc.
  - intros s2 x Hs2 Hx. unfold safe, StringValuePtr, kind_of. method_step. rewrite Hx. cbn.
    split; [done|]. rewrite upto_nul_digits. exists z. apply atoll_dec_int. by eapply kind_fixnum_range.
Qed.

Lemma safe_conf_host v (s : ruby_state R W) : state_ok s -> safe (conf_host v) s (fun _ _ => True).
Proof.
  intros Hs. unfold conf_host. safe_by ltac:(by apply safe_nil). intros s1 b _ [-> _].
  destruct b; [by apply safe_ret|]. safe_by ltac:(by apply safe_check_string). intros s1 [] _ [-> H1'].
  safe_by ltac:(by apply safe_RSTRING). intros s1 t _ ->. by apply safe_ret.
Qed.

Lemma safe_set_verbose v (s : ruby_state R W) : state_ok s -> safe (set_verbose_level v) s (fun _ _ => True).
Proof.
  intros Hs. unfold set_verbose_level. safe_by ltac:(by apply safe_nil). intros s1 b _ [-> _].
  destruct b; [by apply safe_ret|]. eapply (safe_bind _ _ _ (fun s' _ => s' = s)).
  - unfold safe, NUM2INT. destruct (kind (rs_heap s) v) as [[| | | |]|]; try done;
      try (by case_decide); by destruct (num2int_other v (rs_heap s)).
  - intros s1 n _ ->. done.
Qed.

Lemma get_int_some conf key t n def : conf !! key = Some t -> atoll t = Ok n -> get_int conf key def = Ok n.
Proof. unfold get_int. by intros -> ->. Qed.

Lemma safe_new_client conf t1 t2 (s : ruby_state R W) n1 n2 :
  state_ok s ->
  conf !! bytes "timeout" = Some t1 -> atoll t1 = Ok n1 ->
  conf !! bytes "listen_backlog" = Some t2 -> atoll t2 = Ok n2 ->
  conf !! bytes "sndbuf" = None -> conf !! bytes "rcvbuf" = None ->
  safe (new_client conf) s (fun _ _ => True).
Proof.
  intros Hs Ht1 Hn1 Ht2 Hn2 Hsb Hrb. unfold safe, new_client.
  eapply (returns_bind _ (fun _ => True)).
  - unfold socket_args_set. rewrite (get_int_some _ _ _ _ _ Ht1 Hn1).
    cbn [mbind outcome_bind]. rewrite (get_int_some _ _ _ _ _ Ht2 Hn2). cbn [mbind outcome_bind].
    eapply (returns_bind _ (fun _ => True)).
    + destruct (_ || _); [|done]. destruct (_ || _); [done|].
      destruct (resolve _ _ _ _) as [rc a]. by destruct (negb _).
    + intros a _. unfold get_int. by rewrite Hsb, Hrb.
  - intros a _. pose proof (create_inv a (rs_world s)) as Hc.
    destruct (create a (rs_world s)) as [w c]. done.
Qed.

Lemma safe_initialize argv (s : ruby_state R W) : state_ok s -> safe (initialize argv) s any.
Proof.
  intros Hs. unfold initialize, rb_scan_args. destruct (_ && _); [|by apply safe_raise].
  safe_by ltac:(by apply (safe_ret _ s (fun s' _ => s' = s))). intros s1 args _ ->. cbv zeta.
  safe_by ltac:(by apply safe_conf_host). intros s1 host Hs1 _.
  safe_by ltac:(apply safe_conf_fixnum; [by eexists|done]). intros s2 port Hs2 _.
  safe_by ltac:(apply safe_conf_fixnum; [by eexists|done]). intros s3 timeout Hs3 [n1 Hn1].
  safe_by ltac:(apply safe_conf_fixnum; [by eexists|done]). intros s4 backlog Hs4 [n2 Hn2].
  safe_by ltac:(by apply safe_set_verbose). intros s5 [] Hs5 _.
  safe_by ltac:(eapply safe_new_client; [done|reflexivity|exact Hn1|reflexivity|exact Hn2|reflexivity|reflexivity]).
  intros s6 [] Hs6 _. by apply safe_ret.
Qed.
End Safe.

(** ** Properties *)

(** The configuration of a client created without arguments. *)
Definition default_args (addr : sockaddr) : socket_args :=
  mkArgs addr AF_INET SOCK_STREAM 0 600 256 true false 0 0.

Section SafeTheorems.
Context {V R : Type} `{RubyLaws V R} {W : Type} `{Net W}.
Variable recv_fuel : nat.

(** C25: the binding is memory safe. Called by name with whatever arguments, in whatever
    state of the object and whatever the server sends, a method raises or
    returns and leaves the client consistent; it cannot fault except by a server that
    keeps sending without a newline, or by [initialize] ending the process when the host is
    unknown.  [execute_update] is covered when its values are an array; the [to_s] that
    conversions call is assumed to leave existing objects as they are. *)
Theorem ruby_methods_safe name argv (s : ruby_state R W) :
  (forall v (r : R), keeps_but None r (rb_check_convert_type v r).1) ->
  (name = "execute_update"%string ->
   exists vs, kind (rs_heap s) (default Qnil (argv !! 5%nat)) = Some (KArray vs)) ->
  state_ok s ->
  returns (fun f => f = OutOfFuel \/ name = "initialize"%string /\ f = FatalAbort)
    (fun x => state_ok x.1) (call_method recv_fuel name argv s).
Proof.
  intros Hto Hup Hs. set (F f := _ \/ _).
  assert (Hw : F OutOfFuel) by (by left).
  assert (Hraise : forall e, returns F (fun x => state_ok x.1) (@rb_raise R W V e s)) by done.
  assert (Hsafe : forall m : method R W V, safe F m s any ->
            returns F (fun x => state_ok x.1) (m s)).
  { intros m Hm. eapply returns_impl; [exact Hm|]. by intros x []. }
  unfold call_method. destruct (list_find _ _) as [[i [n [arity m]]]|] eqn:E; [|apply Hraise].
  apply list_find_Some in E as (Hi & Hn & _). cbn in Hn. subst n.
  destruct (_ || _); [|apply Hraise]. apply Hsafe.
  apply list_elem_of_lookup_2 in Hi. unfold init in Hi.
  rewrite !elem_of_cons in Hi. pose proof (safe_getters F s Hs) as (Hg1 & Hg2 & Hg3).
  repeat match type of Hi with _ \/ _ => destruct Hi as [Hi|Hi] end;
    [..|by apply not_elem_of_nil in Hi]; injection Hi as -> _ ->; unfold nullary.
  - apply safe_initialize; [|done]. by right.
  - by apply safe_close.
  - by apply safe_reconnect.
  - done.
  - done.
  - done.
  - by apply safe_open_index.
  - by apply safe_execute_single.
  - by apply safe_execute_single.
  - by apply safe_execute_multi.
  - apply safe_execute_internal; [done..|]. intros _. by apply Hup.
  - by apply safe_execute_delete.
  - by apply safe_execute_insert.
Qed.

(** [initialize] without arguments connects to port 9998 of the local host with the
    documented defaults. It installs the new client whatever client the object had:
    an old one is neither closed nor destroyed, so its connection leaks. *)
Theorem initialize_connects old r vb (w : W) addr :
  sys_getaddrinfo (Some (bytes "localhost")) (bytes "9998") w = (0, addr) ->
  let '(w', c) := create (default_args addr) w in
  call_method recv_fuel "initialize" [] (mkRuby r w old vb) = Ok (mkRuby r w' (Some c) vb, inr Qnil).
Proof.
  intros Ha. destruct (create (default_args addr) w) as [w' c] eqn:Ec.
  change (initialize [] (mkRuby r w old vb) = Ok (mkRuby r w' (Some c) vb, inr Qnil)).
  assert (Hnil : is_nil r Qnil = true) by (unfold is_nil; by rewrite kind_Qnil).
  assert (Hfix : forall def, runs (conf_fixnum Qnil def) (mkRuby r w old vb) (mkRuby r w old vb) (bytes def)).
  { intros def. unfold runs, conf_fixnum. rewrite nil_then. cbn [rs_heap]. by rewrite Hnil. }
  assert (Hhost : runs (conf_host Qnil) (mkRuby r w old vb) (mkRuby r w old vb) (bytes "localhost")).
  { unfold runs, conf_host. rewrite nil_then. cbn [rs_heap]. by rewrite Hnil. }
  assert (Hverb : runs (set_verbose_level Qnil) (mkRuby r w old vb) (mkRuby r w old vb) tt).
  { unfold runs, set_verbose_level. rewrite nil_then. cbn [rs_heap]. by rewrite Hnil. }
  assert (Hscan : runs (rb_scan_args 0 5 []) (mkRuby r w old vb) (mkRuby r w old vb)
                    [Qnil; Qnil; Qnil; Qnil; Qnil]) by done.
  unfold initialize. rewrite (runs_then _ _ _ _ _ Hscan).
  cbv zeta. cbn [lookup list_lookup default from_option Datatypes.id].
  do 5 (erewrite runs_then; [|first [exact Hhost | apply Hfix | exact Hverb]]).
  set (conf := <[_ := _]> _).
  assert (Hset : socket_args_set socket_args_default conf w = Ok (default_args addr)).
  { unfold socket_args_set.
    change (get_int conf (bytes "timeout") 600) with (atoll (bytes "600")).
    change (get_int conf (bytes "listen_backlog") 256) with (atoll (bytes "256")).
    change (get_str conf (bytes "host") []) with (bytes "localhost").
    change (get_str conf (bytes "port") []) with (bytes "9998").
    change (get_int conf (bytes "sndbuf") 0) with (Ok 0).
    change (get_int conf (bytes "rcvbuf") 0) with (Ok 0).
    change (atoll (bytes "600")) with (Ok 600). change (atoll (bytes "256")) with (Ok 256).
    cbn [mbind outcome_bind]. unfold resolve.
    change (bool_decide (bytes "localhost" = [])) with false.
    change (bool_decide (bytes "localhost" = bytes "/")) with false.
    change (sa_family _ =? AF_UNIX) with false. cbn [negb orb]. rewrite Ha. reflexivity. }
  unfold new_client. method_step. cbn [rs_world rs_heap rs_verbose]. rewrite Hset. cbn beta iota.
  by rewrite Ec.
Qed.
End SafeTheorems.

(** ** The hypotheses at concrete inputs *)

Lemma heap_convert_pure v r : @keeps_but _ _ heap_ruby None r (heap_convert v r).1.
Proof.
  unfold heap_convert. destruct (heap_kind r v) as [[]|]; try apply (@keeps_refl _ _ heap_ruby).
  apply (heap_new_keeps (ObjStr (dec_int z))).
Qed.

Lemma ruby_methods_safe_witness :
  returns (fun f => f = OutOfFuel \/ "execute_update"%string = "initialize"%string /\ f = FatalAbort)
    (fun x => state_ok x.1)
    (@call_method _ _ heap_ruby script script_net 1 "execute_update"
       [VFix 1; VRef 0; VRef 2; VFix 1; VFix 0; VRef 2]
       (mkRuby sample_heap (mkScript [[48; 9; 49]; [10]] []) (Some sample_client) 0)).
Proof.
  apply (@ruby_methods_safe _ _ heap_ruby heap_laws script script_net).
  - intros v r. apply heap_convert_pure.
  - intros _. eexists. reflexivity.
  - split; done || (simpl; lia).
Defined.

Lemma initialize_connects_witness :
  let '(w', c) := @create script script_net (default_args SockNone) (mkScript [] []) in
  @call_method _ _ heap_ruby script script_net 1 "initialize" []
    (mkRuby sample_heap (mkScript [] []) (Some sample_client) 0)
  = Ok (mkRuby sample_heap w' (Some c) 0, inr VNil).
Proof.
  apply (@initialize_connects _ _ heap_ruby heap_laws script script_net 1 (Some sample_client)
           sample_heap 0 (mkScript [] []) SockNone). reflexivity.
Defined.
